(* ===== verification/_CoqProject ===== *)
-Q . S2P
Prelude.v
GoStrings.v
Regex.v
Float64.v
Api.v
Db.v
StoreDocker.v
StoreJobs.v
Docker.v
World.v
Sim.v
StoreAuth.v
StoreEvents.v
StoreSettings.v
Notify.v
StoreMdadm.v
Stateful.v
Migrate.v
Auth.v
Digest.v
Oidc.v
FakeIdp.v
Disks.v
Stats.v
Http.v
Server.v
Mdstat.v
RaidWatch.v
Status.v
Snapshot.v
Notices.v
Listing.v
Jobs.v
Identity.v
UpdateCheck.v
Reconcile.v
Swap.v
SelfUpdate.v
Locking.v
Pollers.v
AuthHandlers.v
Handlers.v
SimHttp.v
Sessions.v
Routes.v
Hub.v
Sockets.v
Recover.v
Crash.v
Concurrent.v
Main.v
Shutdown.v
Process.v
Privilege.v
