(* ===== verification/Prelude.v ===== *)
(** * Veery: a verification library

    Veery is a small manager for the containers of one host: it lists the
    services of a Docker daemon grouped into stacks, keeps a create-spec of the
    ones it manages, updates them transactionally (its own container included),
    recovers what an interrupted update left behind, watches RAID arrays, and
    keeps accounts, settings, jobs and an event log in SQLite. This library is a
    shallow embedding of the Go program under src/: one Rocq definition per
    function, method or loop body, with the names of the source, and theorems
    about those definitions.

    ** How the code is represented

    A function that only computes is a Rocq function. A store accessor is a [Sql A
    := DB -> DB * result A] (Db.v): the tables are lists of rows in rowid order
    with the keys and foreign keys of migrations.go, and a statement that violates
    one fails and changes nothing. Code that talks to the outside is an [M E A :=
    World E -> World E * outcome A] (World.v): a world is an environment [E], the
    database, the state of the docker [Manager], and the trace of calls that left
    the process or took a container's mutex. An outcome is a returned value or a
    panic (a nil dereference, an index out of range). [Env E] (Docker.v) is what
    lies outside src/: the Docker daemon, the registry, the clock, /proc,
    randomness and whether a SQL statement faults; each call maps an environment
    to an answer and a new environment, so a theorem quantified over [E] holds
    whatever the daemon answers and whatever else happens between two calls.
    encoding/json is [JsonCodec] with the round trip [JsonCodecOk], and what a
    failed decoding leaves in its destination; the pull stream, go-webauthn,
    go-oidc and the provider, shoutrrr, gopsutil, the files under /proc and /sys,
    rrule-go and the upgrade of a websocket are parameters likewise. Go's
    iteration over a map is an arbitrary order where the order can be seen
    (Recover.v, Hub.v); goroutines that only wait (pollers, job watchers) are the
    sequence of their ticks; the mutexes of the containers are the set of locks
    held, with their taking and giving back in the trace, and in the hub calls are
    split at the mutex. A component that keeps maps in memory next to the database
    is an [SM S E A := S -> M E (S * A)] (Stateful.v). A [float64] is IEEE
    binary64, from SpecFloat (Float64.v), and a regular expression is its syntax
    with a leftmost-first matcher (Regex.v).

    World.v also has the program logics the proofs share: [wp] for one run,
    [emits] for the calls a program makes under any environment, [keeps],
    [preserves], [observes] and [no_panic] for what it leaves alone; Stateful.v
    lifts them to components with a state. Sim.v and SimHttp.v are a concrete
    daemon, clock, codec and libraries in which the theorems are instantiated.

    ** The parts and where they are

    - Prelude, GoStrings, Regex, Float64: errors, results, sorting, and what the
      code uses of Go's strings, strconv, regexp and floating point.
    - Api: internal/api/types.go.
    - Db: the rows and tables of internal/store; StoreDocker (docker_store.go),
      StoreJobs (update_jobs.go), StoreAuth (accessors.go, oidc.go), StoreEvents
      (events.go), StoreSettings (settings.go, notifications.go), StoreMdadm
      (mdadm.go): one file per group of accessors. Migrate: migrations.go and
      sqlite.go, on the schema of the file rather than its rows.
    - Docker, World, Sim, Stateful: the environment, the monads and a reference
      environment; internal/docker/client.go is the state [Mgr].
    - Status, Snapshot, Notices, Listing, Jobs: lifecycle.go, snapshot.go,
      notify.go, jobs.go and actions.go of internal/docker. Stats: stats.go.
    - Identity (self.go), UpdateCheck (updatecheck.go), Reconcile (reconcile.go
      and Adopt), Swap (update.go), SelfUpdate (selfupdate.go, autoupdate.go and
      the jobs of update.go), Recover (recover.go).
    - Mdstat (mdadm.go), Disks (disks.go, build.go, host.go): internal/metrics.
      RaidWatch: internal/raidwatch. Notify: internal/notify.
    - Auth: internal/auth. Oidc: internal/oidc, with Digest (SHA-256 and
      base64url) and FakeIdp (internal/oidc/fakeidp, the tests' provider).
    - Http (middleware.go, and what net/http gives a handler), Server (server.go),
      AuthHandlers (auth_handlers.go, oidc_handlers.go), Handlers
      (docker_handlers.go, notification_handlers.go, events_handlers.go), Routes
      (the table and the dispatch of server.go), Hub and Sockets (ws.go: the hub,
      and the handlers of its connections), SimHttp, Sessions (what the accounts'
      handlers promise together): internal/server.
    - Locking: the container mutexes of client.go, and runs of the operations of
      the docker manager that interleave under them.
    - Pollers (the loops), Main (cmd/veery/main.go), Shutdown (the end of [main]),
      Process and Privilege (what holds of the process as a whole, from one start
      to the next). Crash: updates killed at an arbitrary call. Concurrent:
      updates of several services at once, among other goroutines, killed
      together.

    The process ([main]) opens the store ([Open], Migrate), mints the first
    invite ([Bootstrap], Auth), reads the provider's configuration ([newOIDC]),
    recovers ([Recover], then [Reconcile]) and starts the loops. A request goes
    through [serve] (Routes): the cross-origin check, the route, the guard
    ([requireAuth], [requireAdmin]), the handler, and the jobs it leaves running
    ([run_task]). What changes is pushed through the hub, and what deserves
    attention through the notifier to the event log and the targets.

    An update runs through them in this order: [doUpdate] (SelfUpdate) takes the
    container's lock, refreshes the spec ([refreshIfRecreated], Reconcile),
    pulls ([pullImage], Swap), asks whether the container is Veery's own
    ([IsSelf], Identity), and then either swaps ([swap]: park, stop, [recreate],
    [verifyHealthy], retire or [rollback]) or hands the swap to a helper
    container ([handOff]), which calls [ApplyUpdate]. [Recover] runs at startup:
    it settles parked containers and resumes the jobs the store still has open.
    Every change is followed by [BroadcastStacks] (Listing), which also feeds
    the transition notices (Notices).

    ** What the theorems show

    - Interruption (Crash.v, Concurrent.v). A daemon is described by laws on the
      names of its containers, and a killed process by an environment in which its
      later calls have no effect. An update killed after any number of calls and
      then recovered ends as if it had not started or as if it had succeeded, as
      far as the containers and their names go; which of them run is not covered,
      as two examples show. Recovery never removes the container Veery itself runs
      in: that one, and no other, may be left parked beside its replacement. Any
      number of updates of different services that run side by side, each killed
      wherever it is, are all settled by one recovery: between the calls of an
      update the rest of the process may do anything to the daemon that leaves the
      containers of its service alone, which is what the mutex of the name is for.
      No container's id is taken to be the name of a service.
    - Updates. The old container is removed only after its replacement was
      created, started and proved; a failed swap reports exactly whether the old
      one is back; Veery never touches its own container but hands over;
      verification terminates; every job that is not handed off is closed, and
      after recovery no open job lacks a running helper; recovery never gives up
      both a container and its replacement. What an update of Veery's own
      container does after its image is pulled, and what a hand-off consists of,
      is stated call by call.
    - Mutual exclusion (Locking.v). Updates, automatic updates, the actions on one
      container and reconciliations change containers only under the mutex of
      their name, which they take once and give back; however their runs
      interleave, no two hold the same one and none waits for good. The actions on
      a whole stack take no mutex, and an action on a parked container takes
      another one: both are shown on examples.
    - Specs. A container is recreated with what was recorded; a spec is replaced
      only from a settled live container; reconciliation never changes a
      container and keeps the tables well-formed.
    - Listing and notices. Every service is listed once with the status its
      state implies; notices are exactly the transitions between two sweeps; a
      repeated sweep is silent. Update flags likewise.
    - RAID. Announcements are exactly the changes between two sweeps; a scrub is
      attempted only when due, at most five times per occurrence, and never again
      after it started; /proc/mdstat is parsed to what it was printed from (active
      and inactive arrays, with or without counts, progress and bitmap, whose
      members carry no flag but those of spares and faulty ones; two examples show
      what is misread beyond that), and nothing but the one sysfs attribute of a
      listed array is written.
    - Store. Keys and foreign keys are invariants; a finished job stays
      finished; an invite is consumed once; deleting a user leaves no trace of
      them; a session is honoured only while it is valid; following the cursors
      of the event log enumerates exactly the matching events, each once; every
      release's file is upgraded to the same schema, and no upgrade, however it
      ends, loses a table or a column.
    - Access. Without a live session, or with one that is not an administrator's
      where that is asked, a request has no effect but that of reading its
      session; a session that was issued lets its user in until it ends or is
      signed out; a registration needs an open invite, a sign-in the user's own
      authenticator, a provider's callback a flow this browser started; every
      ceremony works once, and at a provider that behaves a sign-in goes through
      (FakeIdp.v). Once there is an administrator there is one for good
      (Process.v), nobody becomes one unless an administrator, an invite or the
      provider makes them one (Privilege.v), and whoever can run a command on the
      host can get back in (Main.v). The first two follow the same path through
      every handler and loop: the lemmas [keep_*] hold of any property of the
      accounts that is [Routine] (StoreAuth.v) and [Enrollment] (AuthHandlers.v).
    - Push. The hub's invariant: events reach administrators only and no buffer
      overflows; a late client catches up with the state; the atomic calls are
      interleavings of the split ones. Every run of the connections is a run of
      the hub, and nothing reaches a connection whose handler has returned.
    - Notifications. What is announced is recorded first; a config with a URL that
      cannot be built is refused, and what is saved is delivered to its targets
      that have not muted the event; one failing target does not stop the others.
    - Metrics. CPU load is in [0, 100]; mounts are listed once; a snapshot never
      shows a throughput above its peak, and peaks survive a restart.
    - Start and end. A start that fails has touched no container and no client; a
      wrong configuration of the provider is never served. Told to stop, the
      process is over within ten seconds, and a shutdown that is complete earlier
      has answered every request in flight (Shutdown.v).

    ** Bounds

    Fuel appears where Go loops on time or on data: [verify_fuel] (17 polls are
    enough for the fifteen-second deadline, [verifyHealthy_terminates]),
    [scale_bytes] (a 64-bit count has at most the units listed), [walk] (a page
    per event and one more), and the loops of Pollers.v, which never end by
    themselves: a theorem about one holds after any number of rounds. Integers are
    [Z]; where Go's width matters (cursors, exit codes, settings, the figures of a
    container) the 64-bit range is a hypothesis or the wrap-around is written out.
    Times are nanoseconds since the epoch, and [Unix()] is division by [second].
    [sort_slice] keeps the order of elements that compare equal, which sort.Slice
    need not: what is proved of sorted lists is that they are sorted permutations,
    whatever the order of ties. [ToLower] folds ASCII letters only;
    strings.ToLower folds all of Unicode.

    ** What is not modelled

    Requests, jobs and rounds of the loops follow one another, each on the state
    the last one left. That two of them interleave is modelled for the hub, for
    updates killed in their middle (Crash.v, Concurrent.v), and for the operations
    that take a container's mutex (Locking.v): there each run has its own answers
    from the daemon, which may be those another goroutine brought about, but the
    tables and the manager's maps are its own. The timeouts of the listener; the
    frames and timers of an open websocket; the text of JSON; the file server; the
    connection to SQLite and its pragmas. The web client is a TypeScript program
    outside this development. Log output is not part of the model, except the
    lines [main] prints for the user to act on. *)
From Stdlib Require Export ZArith Lia Sorted String Ascii.
From stdpp Require Export base tactics option list gmap strings.
Open Scope Z_scope.

#[global] Arguments String.append !s1 s2 /.
#[global] Arguments String.eqb : simpl never.
#[global] Arguments Ascii.eqb : simpl never.

(** ** Errors

    A Go error value: its text, and the sentinels that [errors.Is] finds when
    it walks the chain of [%w] wrappings. *)
Inductive sentinel :=
| ErrHandedOff
| ErrNotFound
| ErrEnvManaged
| ErrInvalidInvite
| ErrCeremonyExpired
| ErrInvalidState
| ErrMissingIDToken
| ErrNonceMismatch
| ErrMissingSubject
| ErrCtxDone
| EROFS
| ErrPermission
| EBUSY
| ErrServerClosed.

#[export] Instance sentinel_eq_dec : EqDecision sentinel.
Proof. solve_decision. Defined.

Record error := mkErr { Error : string; wraps : list sentinel }.

#[export] Instance error_eq_dec : EqDecision error.
Proof. solve_decision. Defined.

(** [errors.New(s)] and [fmt.Errorf] without a [%w] verb. *)
Definition errorf (s : string) : error := mkErr s [].

(** [fmt.Errorf("prefix: %w", e)]. *)
Definition wrapf (prefix : string) (e : error) : error :=
  mkErr (prefix +:+ Error e) (wraps e).

(** [errors.Is(e, s)]. *)
Definition errors_Is (e : error) (s : sentinel) : bool := bool_decide (s ∈ wraps e).

(** A call that returns a value and an error of which only one is meaningful. *)
Inductive result (A : Type) :=
| Ok (a : A)
| Fail (e : error).
Arguments Ok {A} a.
Arguments Fail {A} e.

Definition is_ok {A} (r : result A) : bool :=
  match r with Ok _ => true | Fail _ => false end.

Definition ok_opt {A} (r : result A) : option A :=
  match r with Ok a => Some a | Fail _ => None end.

Definition err_of {A} (r : result A) : option error :=
  match r with Ok _ => None | Fail e => Some e end.

(** Go's zero value for a missing key of a [map[K]bool]. *)
Definition map_bool `{Countable K} (m : gmap K bool) (k : K) : bool :=
  default false (m !! k).

(** ** [sort.Slice]

    Insertion sort: what [sort.Slice] does for at most twelve elements. On a
    longer slice Go leaves the order of equal elements open; the theorems use
    only that the result is a sorted permutation. *)
Section SortSlice.
Context {A : Type} (less : A -> A -> bool).

Fixpoint sort_insert (x : A) (l : list A) : list A :=
  match l with
  | [] => [x]
  | y :: l' => if less y x then y :: sort_insert x l' else x :: y :: l'
  end.

Fixpoint sort_slice (l : list A) : list A :=
  match l with
  | [] => []
  | x :: l' => sort_insert x (sort_slice l')
  end.

Lemma sort_insert_perm x l : sort_insert x l ≡ₚ x :: l.
Proof.
  induction l as [|y l IH]; simpl; [done|].
  destruct (less y x); [|done]. rewrite IH. apply perm_swap.
Qed.

Lemma sort_slice_perm l : sort_slice l ≡ₚ l.
Proof.
  induction l as [|x l IH]; simpl; [done|]. by rewrite sort_insert_perm, IH.
Qed.

Lemma sort_slice_elem_of x l : x ∈ sort_slice l <-> x ∈ l.
Proof. by rewrite sort_slice_perm. Qed.

Lemma sort_slice_length l : length (sort_slice l) = length l.
Proof. by rewrite sort_slice_perm. Qed.

(** [less] is the strict part of a total preorder. *)
Context (less_asym : forall x y, less x y = true -> less y x = false).

Lemma sort_insert_sorted x l :
  StronglySorted (fun a b => less b a = false) l ->
  (forall a b c, less b a = false -> less c b = false -> less c a = false) ->
  StronglySorted (fun a b => less b a = false) (sort_insert x l).
Proof.
  intros Hs Htr. induction Hs as [|y l Hl IH Hy]; simpl.
  - repeat constructor.
  - destruct (less y x) eqn:E.
    + constructor; [done|]. rewrite sort_insert_perm. constructor; auto.
    + constructor; [by constructor|]. constructor; [done|].
      eapply Forall_impl; [exact Hy|]. simpl. intros z Hz. eauto.
Qed.

Lemma sort_slice_sorted l :
  (forall a b c, less b a = false -> less c b = false -> less c a = false) ->
  StronglySorted (fun a b => less b a = false) (sort_slice l).
Proof.
  intros Htr. induction l as [|x l IH]; simpl; [constructor|].
  by apply sort_insert_sorted.
Qed.
End SortSlice.

(** The comparison of [sort.Strings] and of [a.Name < b.Name]: byte order. *)
Definition str_lt (a b : string) : bool := String.ltb a b.

Lemma str_lt_compare a b : str_lt a b = true <-> String.compare a b = Lt.
Proof. unfold str_lt, String.ltb. by destruct (String.compare a b). Qed.

Lemma str_lt_asym a b : str_lt a b = true -> str_lt b a = false.
Proof.
  intros H%str_lt_compare. apply not_true_iff_false. intros H'%str_lt_compare.
  rewrite String.compare_antisym, H in H'. done.
Qed.

Lemma str_lt_irrefl a : str_lt a a = false.
Proof. apply not_true_iff_false. intros H. pose proof (str_lt_asym _ _ H). congruence. Qed.

Lemma str_lt_trans a b c : str_lt a b = true -> str_lt b c = true -> str_lt a c = true.
Proof.
  rewrite !str_lt_compare. revert b c.
  induction a as [|x a IH]; intros [|y b] [|z c]; simpl; try done.
  unfold Ascii.compare.
  destruct (N.compare_spec (N_of_ascii x) (N_of_ascii y)) as [E1|L1|G1];
  destruct (N.compare_spec (N_of_ascii y) (N_of_ascii z)) as [E2|L2|G2];
  destruct (N.compare_spec (N_of_ascii x) (N_of_ascii z)) as [E3|L3|G3];
    try done; try lia; eauto.
Qed.

Lemma str_lt_total a b : str_lt a b = false -> str_lt b a = false -> a = b.
Proof.
  unfold str_lt, String.ltb. rewrite (String.compare_antisym b a).
  destruct (String.compare a b) eqn:E; simpl; try done.
  intros _ _. by apply String.compare_eq_iff.
Qed.

(** "not greater" is transitive: what [sort_slice_sorted] asks of a comparison. *)
Lemma str_lt_negtrans a b c : str_lt b a = false -> str_lt c b = false -> str_lt c a = false.
Proof.
  intros Hba Hcb. apply not_true_iff_false. intros Hca.
  destruct (str_lt a b) eqn:Hab.
  - pose proof (str_lt_trans _ _ _ Hca Hab). congruence.
  - rewrite (str_lt_total _ _ Hab Hba) in Hca. congruence.
Qed.

(** Sorting by a string key: [sort.Slice(l, l[i].Name < l[j].Name)]. *)
Lemma sort_by_key_sorted {A} (key : A -> string) (l : list A) :
  StronglySorted (fun a b => str_lt (key b) (key a) = false)
    (sort_slice (fun a b => str_lt (key a) (key b)) l).
Proof.
  apply (sort_slice_sorted (fun a b => str_lt (key a) (key b))).
  - intros x y. apply str_lt_asym.
  - intros a b c. apply str_lt_negtrans.
Qed.

(** ** Tactics and hints *)
Create HintDb veery.
#[export] Hint Resolve sort_slice_perm sort_insert_perm : veery.

(** Case analysis on the [match]/[if] that blocks the goal, innermost first,
    keeping the equation. *)
Ltac crack :=
  match goal with
  | |- context [match ?x with _ => _ end] =>
      lazymatch x with
      | context [match _ with _ => _ end] => fail
      | _ => destruct x eqn:?
      end
  end.

Ltac crack_in H :=
  match type of H with
  | context [match ?x with _ => _ end] =>
      lazymatch x with
      | context [match _ with _ => _ end] => fail
      | _ => destruct x eqn:?
      end
  end.

(** Split every conjunction and existential of the context. *)
Ltac unpack :=
  repeat match goal with
    | H : _ /\ _ |- _ => destruct H
    | H : exists _, _ |- _ => destruct H
    end.

(** ** Generic list lemmas *)
Lemma filter_all {A} (P : A -> Prop) `{!forall x, Decision (P x)} (l : list A) :
  Forall P l -> filter P l = l.
Proof.
  induction 1 as [|x l Hx Hl IH]; [done|]. rewrite filter_cons_True by done. by f_equal.
Qed.

Lemma filter_none {A} (P : A -> Prop) `{!forall x, Decision (P x)} (l : list A) :
  Forall (fun x => ~ P x) l -> filter P l = [].
Proof.
  induction 1 as [|x l Hx Hl IH]; [done|]. by rewrite filter_cons_False.
Qed.

Lemma find_some_iff {A} (f : A -> bool) l x :
  List.find f l = Some x -> x ∈ l /\ f x = true.
Proof. intros H%find_some. by rewrite list_elem_of_In. Qed.
