(* ===== verification/GoStrings.v ===== *)
(** * Go's [strings] and [strconv], as far as Veery uses them

    A Go string is a byte string, here Stdlib's [string]. Nothing in this file
    is Veery's own code; the components call these functions where the source
    calls the package functions of the same name. *)
From S2P Require Import Prelude.
From Stdlib Require Import DecimalString DecimalZ DecimalFacts.
Open Scope Z_scope.

(** ** Prefixes, suffixes, cuts *)
Fixpoint strip_prefix (p s : string) : option string :=
  match p, s with
  | EmptyString, _ => Some s
  | String a p', String b s' => if Ascii.eqb a b then strip_prefix p' s' else None
  | String _ _, EmptyString => None
  end.

(** [%q] of a text whose only special characters are quotes and backslashes. *)
Fixpoint quote_chars (s : string) : string :=
  match s with
  | EmptyString => EmptyString
  | String c t =>
      if Ascii.eqb c "034" || Ascii.eqb c "092" then String "092" (String c (quote_chars t))
      else String c (quote_chars t)
  end.

Definition quoted (s : string) : string := String "034" (quote_chars s +:+ String "034" EmptyString).

Definition HasPrefix (s p : string) : bool :=
  match strip_prefix p s with Some _ => true | None => false end.

Definition TrimPrefix (s p : string) : string := default s (strip_prefix p s).

(** [strings.CutSuffix(s, suf)]: [Some before], or [None] for [ok = false]. *)
Fixpoint CutSuffix (s suf : string) : option string :=
  if String.eqb s suf then Some EmptyString
  else match s with
       | EmptyString => None
       | String c s' => String c <$> CutSuffix s' suf
       end.

Definition HasSuffix (s suf : string) : bool :=
  match CutSuffix s suf with Some _ => true | None => false end.

(** [strings.Cut(s, sep)]: [Some (before, after)], or [None] for [ok = false]. *)
Fixpoint Cut (s sep : string) : option (string * string) :=
  match strip_prefix sep s with
  | Some r => Some (EmptyString, r)
  | None =>
      match s with
      | EmptyString => None
      | String c s' => (fun ab => (String c ab.1, ab.2)) <$> Cut s' sep
      end
  end.

Fixpoint Contains (s sub : string) : bool :=
  HasPrefix s sub ||
  match s with EmptyString => false | String _ s' => Contains s' sub end.

(** [strings.IndexByte]: [None] is Go's -1. *)
Fixpoint IndexByte (s : string) (c : ascii) : option nat :=
  match s with
  | EmptyString => None
  | String a s' => if Ascii.eqb a c then Some O else S <$> IndexByte s' c
  end.

(** [s[i:]] and [s[:i]] for [i <= len s]. *)
Fixpoint str_drop (i : nat) (s : string) : string :=
  match i, s with
  | O, _ => s
  | S i', String _ s' => str_drop i' s'
  | S _, EmptyString => EmptyString
  end.

Fixpoint str_take (i : nat) (s : string) : string :=
  match i, s with
  | S i', String c s' => String c (str_take i' s')
  | _, _ => EmptyString
  end.

(** [strings.LastIndex] of a byte. *)
Fixpoint LastIndexByte (s : string) (c : ascii) : option nat :=
  match s with
  | EmptyString => None
  | String a s' =>
      match LastIndexByte s' c with
      | Some i => Some (S i)
      | None => if Ascii.eqb a c then Some O else None
      end
  end.

(** ** Character classes *)
Definition is_space (c : ascii) : bool :=
  match N_of_ascii c with
  | 9%N | 10%N | 11%N | 12%N | 13%N | 32%N => true
  | _ => false
  end.

Definition lower_ascii (c : ascii) : ascii :=
  let n := N_of_ascii c in
  if (65 <=? n)%N && (n <=? 90)%N then ascii_of_N (n + 32) else c.

Definition upper_ascii (c : ascii) : ascii :=
  let n := N_of_ascii c in
  if (97 <=? n)%N && (n <=? 122)%N then ascii_of_N (n - 32) else c.

(** [strings.ToLower] / [ToUpper] on ASCII text. *)
Fixpoint ToLower (s : string) : string :=
  match s with EmptyString => EmptyString | String c s' => String (lower_ascii c) (ToLower s') end.

Fixpoint ToUpper (s : string) : string :=
  match s with EmptyString => EmptyString | String c s' => String (upper_ascii c) (ToUpper s') end.

(** [strings.ToUpper] of a one-byte string: a byte that is not ASCII is no valid
    UTF-8 by itself and becomes the replacement character. *)
Definition ToUpper_byte (c : ascii) : string :=
  if (N_of_ascii c <? 128)%N then String (upper_ascii c) ""
  else String "239" (String "191" (String "189" "")).

Fixpoint TrimLeftSpace (s : string) : string :=
  match s with
  | String c s' => if is_space c then TrimLeftSpace s' else s
  | EmptyString => EmptyString
  end.

(** Drops the longest suffix of bytes satisfying [f]. *)
Fixpoint trim_right (f : ascii -> bool) (s : string) : string :=
  match s with
  | EmptyString => EmptyString
  | String c s' =>
      match trim_right f s' with
      | EmptyString => if f c then EmptyString else String c EmptyString
      | r => String c r
      end
  end.

(** [strings.TrimSpace] on ASCII text. *)
Definition TrimSpace (s : string) : string := trim_right is_space (TrimLeftSpace s).

(** [strings.Split(s, sep)] for a one-byte separator. *)
Fixpoint Split (s : string) (c : ascii) : list string :=
  match s with
  | EmptyString => [EmptyString]
  | String a s' =>
      if Ascii.eqb a c then EmptyString :: Split s' c
      else match Split s' c with
           | p :: ps => String a p :: ps
           | [] => [String a EmptyString]
           end
  end.

(** [strings.FieldsFunc(s, f)]. *)
Fixpoint FieldsFunc (f : ascii -> bool) (s : string) : list string :=
  match s with
  | EmptyString => []
  | String a s' =>
      if f a then FieldsFunc f s'
      else match s' with
           | EmptyString => [String a EmptyString]
           | String b _ =>
               if f b then String a EmptyString :: FieldsFunc f s'
               else match FieldsFunc f s' with
                    | p :: ps => String a p :: ps
                    | [] => [String a EmptyString]
                    end
           end
  end.

(** [strings.Fields] on ASCII text. *)
Definition Fields (s : string) : list string := FieldsFunc is_space s.

(** [strings.Join]. *)
Fixpoint Join (l : list string) (sep : string) : string :=
  match l with
  | [] => EmptyString
  | [x] => x
  | x :: l' => x +:+ sep +:+ Join l' sep
  end.

(** ** [strconv] *)
Definition int64_min : Z := - 2 ^ 63.
Definition int64_max : Z := 2 ^ 63 - 1.
Definition in_int64 (z : Z) : bool := (int64_min <=? z) && (z <=? int64_max).

(** [strconv.Itoa] / [%d]. *)
Definition Itoa (z : Z) : string := NilZero.string_of_int (Z.to_int z).

(** [strconv.Atoi(s)] = [strconv.ParseInt(s, 10, 64)]: an optional sign, at least
    one digit, nothing else, and the value within 64 bits. *)
Definition Atoi (s : string) : option Z :=
  let unsigned t :=
    match t with
    | EmptyString => None
    | _ => Z.of_uint <$> NilZero.uint_of_string t
    end in
  let v :=
    match s with
    | String "+"%char t => unsigned t
    | String "-"%char t => Z.opp <$> unsigned t
    | _ => unsigned s
    end in
  match v with
  | Some z => if in_int64 z then Some z else None
  | None => None
  end.

(** The value of a text of decimal digits, [None] for any other text. *)
Definition digits_value (s : string) : option Z :=
  match s with
  | EmptyString => None
  | _ => Z.of_uint <$> NilZero.uint_of_string s
  end.

(** What [n, _ := strconv.Atoi(s)] leaves in [n] for an unsigned text: the
    largest [int] when the value is out of range, 0 when it is no number. *)
Definition Atoi_or_max (s : string) : Z :=
  match digits_value s with Some z => Z.min z int64_max | None => 0 end.

(** [strconv.ParseUint(s, 10, 64)]: the value, and whether the error is nil. *)
Definition uint64_max : Z := 2 ^ 64 - 1.
Definition ParseUint (s : string) : Z * bool :=
  match digits_value s with
  | Some z => if z <=? uint64_max then (z, true) else (uint64_max, false)
  | None => (0, false)
  end.

(** A decimal number [dec_digits / 10 ^ dec_scale]: what [strconv.ParseFloat]
    reads, before it is rounded to a [float64]. *)
Record Decimal := { dec_digits : Z; dec_scale : nat }.
Definition zero_decimal : Decimal := {| dec_digits := 0; dec_scale := 0 |}.

(** [v, _ := strconv.ParseFloat(s, 64)] on a text of digits and dots: a digit at
    least and one dot at most, or else zero. *)
Definition ParseFloat (s : string) : Decimal :=
  match Cut s "." with
  | None => {| dec_digits := default 0 (digits_value s); dec_scale := 0 |}
  | Some (a, b) =>
      match digits_value (a +:+ b) with
      | Some z => {| dec_digits := z; dec_scale := String.length b |}
      | None => zero_decimal
      end
  end.

(** ** [path] and [path/filepath] on Unix *)
(** One component of [Clean]; the stack holds the path so far, last first. *)
Definition clean_step (rooted : bool) (stack : list string) (c : string) : list string :=
  if String.eqb c "" || String.eqb c "." then stack
  else if String.eqb c ".." then
    match stack with
    | top :: rest => if String.eqb top ".." then c :: stack else rest
    | [] => if rooted then [] else [c]
    end
  else c :: stack.

Definition Clean (p : string) : string :=
  let rooted := HasPrefix p "/" in
  let body := Join (rev (fold_left (clean_step rooted) (Split p "/") [])) "/" in
  if rooted then String "/" body
  else match body with EmptyString => "." | _ => body end.

(** [filepath.Join]: empty elements are ignored, the rest is cleaned. *)
Definition filepath_Join (elems : list string) : string :=
  match List.filter (fun e => negb (String.eqb e "")) elems with
  | [] => ""
  | l => Clean (Join l "/")
  end.

(** [path.Base]: the last element, without trailing slashes. *)
Definition Base (p : string) : string :=
  match p with
  | EmptyString => "."
  | _ => match trim_right (Ascii.eqb "/") p with
         | EmptyString => "/"
         | q => List.last (Split q "/") ""
         end
  end.

(** ** Lemmas *)
Lemma strip_prefix_Some p s r : strip_prefix p s = Some r <-> s = p +:+ r.
Proof.
  revert s. induction p as [|a p IH]; intros s; simpl.
  - split; congruence.
  - destruct s as [|b s]; simpl; [split; discriminate|].
    destruct (Ascii.eqb_spec a b) as [->|Hne].
    + rewrite IH. split; congruence.
    + split; [discriminate|congruence].
Qed.

Lemma HasPrefix_true s p : HasPrefix s p = true <-> exists r, s = p +:+ r.
Proof.
  unfold HasPrefix. destruct (strip_prefix p s) as [r|] eqn:E.
  - apply strip_prefix_Some in E. naive_solver.
  - split; [done|]. intros [r Hr]. apply strip_prefix_Some in Hr. congruence.
Qed.

Lemma str_app_nil_r s : s +:+ "" = s.
Proof. induction s as [|c s IH]; simpl; [done|]. by rewrite IH. Qed.

Lemma str_app_assoc a b c : (a +:+ b) +:+ c = a +:+ (b +:+ c).
Proof. induction a as [|x a IH]; simpl; [done|]. by rewrite IH. Qed.

Lemma str_drop_app a b : str_drop (String.length a) (a +:+ b) = b.
Proof. induction a as [|c a IH]; cbn; [by destruct b|done]. Qed.

Lemma str_take_app a b : str_take (String.length a) (a +:+ b) = a.
Proof. induction a as [|c a IH]; cbn; [by destruct b|]. f_equal. apply IH. Qed.

Lemma str_app_length a b : String.length (a +:+ b) = (String.length a + String.length b)%nat.
Proof. induction a as [|x a IH]; simpl; [done|]. by rewrite IH. Qed.

Lemma str_app_inv_tail s a b : a +:+ s = b +:+ s -> a = b.
Proof.
  revert b. induction a as [|x a IH]; intros [|y b] H; simpl in *; try done.
  - apply (f_equal String.length) in H. simpl in H. rewrite str_app_length in H. lia.
  - apply (f_equal String.length) in H. simpl in H. rewrite str_app_length in H. lia.
  - injection H as -> H. f_equal. by apply IH.
Qed.

Lemma CutSuffix_Some s suf r : CutSuffix s suf = Some r <-> s = r +:+ suf.
Proof.
  revert r. induction s as [|c s IH]; intros r; simpl.
  - destruct (String.eqb_spec "" suf) as [<-|Hne].
    + split; [naive_solver|]. destruct r; [done|discriminate].
    + split; [done|]. destruct r; simpl; [intros <-; done|discriminate].
  - destruct (String.eqb_spec (String c s) suf) as [<-|Hne].
    + split; [naive_solver|]. intros H.
      rewrite <- (str_app_inv_tail (String c s) "" r); [done|]. exact H.
    + rewrite fmap_Some. setoid_rewrite IH. split.
      * intros (x & -> & ->). done.
      * destruct r as [|a r]; simpl; [done|]. intros [= -> ->]. eauto.
Qed.

Lemma HasSuffix_true s suf : HasSuffix s suf = true <-> exists r, s = r +:+ suf.
Proof.
  unfold HasSuffix. destruct (CutSuffix s suf) as [r|] eqn:E.
  - apply CutSuffix_Some in E. naive_solver.
  - split; [done|]. intros [r Hr]. apply CutSuffix_Some in Hr. congruence.
Qed.

Lemma HasSuffix_app r suf : HasSuffix (r +:+ suf) suf = true.
Proof. apply HasSuffix_true. eauto. Qed.

Lemma CutSuffix_app r suf : CutSuffix (r +:+ suf) suf = Some r.
Proof. by apply CutSuffix_Some. Qed.

Lemma Cut_Some s sep a b : Cut s sep = Some (a, b) -> s = a +:+ sep +:+ b.
Proof.
  revert a b. induction s as [|c s IH]; intros a b; simpl.
  - destruct (strip_prefix sep "") eqn:E; [|done].
    intros [= <- <-]. by apply strip_prefix_Some in E.
  - destruct (strip_prefix sep (String c s)) eqn:E.
    + intros [= <- <-]. by apply strip_prefix_Some in E.
    + destruct (Cut s sep) as [[x y]|] eqn:Ec; [|done].
      intros [= <- <-]. simpl. f_equal. by apply IH.
Qed.

(** The string has no byte [c]. *)
Definition no_char (c : ascii) (s : string) : Prop := IndexByte s c = None.

Lemma no_char_cons c a s : no_char c (String a s) <-> a <> c /\ no_char c s.
Proof.
  unfold no_char. simpl. destruct (Ascii.eqb_spec a c) as [->|Hne]; [naive_solver|].
  destruct (IndexByte s c); simpl; naive_solver.
Qed.

Lemma Cut_char c a b : no_char c a -> Cut (a +:+ String c b) (String c "") = Some (a, b).
Proof.
  induction a as [|x a IH]; intros H; simpl.
  - by rewrite Ascii.eqb_refl.
  - apply no_char_cons in H as [Hne H].
    destruct (Ascii.eqb_spec c x); [congruence|]. by rewrite IH.
Qed.

(** ** Printing and parsing integers *)
(** Every byte of the string satisfies [f]. *)
Fixpoint str_forall (f : ascii -> bool) (s : string) : bool :=
  match s with EmptyString => true | String c s' => f c && str_forall f s' end.

Definition itoa_char (c : ascii) : bool :=
  let n := N_of_ascii c in ((48 <=? n) && (n <=? 57) || (n =? 45))%N.

Lemma uint_chars d : str_forall itoa_char (NilEmpty.string_of_uint d) = true.
Proof. induction d; simpl; done. Qed.

Lemma Itoa_chars z : str_forall itoa_char (Itoa z) = true.
Proof.
  unfold Itoa, NilZero.string_of_int, NilZero.string_of_uint.
  destruct (Z.to_int z) as [d|d]; destruct d; simpl; try apply uint_chars; done.
Qed.

Lemma str_forall_no_char f c s : str_forall f s = true -> f c = false -> no_char c s.
Proof.
  intros Hs Hc. induction s as [|x s IH]; simpl in *; [done|].
  apply andb_true_iff in Hs as [Hx Hs]. apply no_char_cons. split; [|auto].
  intros ->. congruence.
Qed.

Lemma TrimSpace_id s : str_forall (fun c => negb (is_space c)) s = true -> TrimSpace s = s.
Proof.
  intros Hs. unfold TrimSpace.
  assert (TrimLeftSpace s = s) as ->.
  { destruct s as [|c s]; simpl in *; [done|]. by destruct (is_space c). }
  induction s as [|c s IH]; simpl in *; [done|].
  apply andb_true_iff in Hs as [Hc Hs]. rewrite IH by done.
  destruct s; [|done]. by destruct (is_space c).
Qed.

Lemma str_forall_impl (f g : ascii -> bool) s :
  (forall c, f c = true -> g c = true) -> str_forall f s = true -> str_forall g s = true.
Proof.
  intros H. induction s as [|c s IH]; simpl; [done|].
  intros [? ?]%andb_true_iff. rewrite H, IH; done.
Qed.

Lemma itoa_char_not_space c : itoa_char c = true -> negb (is_space c) = true.
Proof. destruct c as [[] [] [] [] [] [] [] []]; vm_compute; congruence. Qed.

Lemma TrimSpace_Itoa z : TrimSpace (Itoa z) = Itoa z.
Proof. apply TrimSpace_id. eapply str_forall_impl; [apply itoa_char_not_space|apply Itoa_chars]. Qed.

Lemma Itoa_no_char c z : itoa_char c = false -> no_char c (Itoa z).
Proof. apply str_forall_no_char, Itoa_chars. Qed.

Lemma Itoa_no_underscore z : no_char "_" (Itoa z).
Proof. by apply Itoa_no_char. Qed.

Lemma uint_of_Itoa_pos p :
  Z.of_uint <$> NilZero.uint_of_string (NilZero.string_of_uint (Pos.to_uint p)) = Some (Z.pos p).
Proof.
  rewrite NilZero.usu.
  - simpl. f_equal. pose proof (DecimalZ.of_to (Z.pos p)) as H. exact H.
  - intros H. pose proof (DecimalPos.Unsigned.to_uint_nonnil p). done.
Qed.

(** [strconv.ParseInt] reads back what [%d] printed, for every 64-bit value. *)
Lemma Atoi_Itoa z : in_int64 z = true -> Atoi (Itoa z) = Some z.
Proof.
  intros Hr. unfold Atoi.
  assert (Hnd : forall p, NilZero.string_of_uint (Pos.to_uint p) <> "").
  { intros p H. pose proof (uint_of_Itoa_pos p) as E. rewrite H in E. done. }
  assert (Hfst : forall p c r, NilZero.string_of_uint (Pos.to_uint p) = String c r ->
      c <> "+"%char /\ c <> "-"%char).
  { intros p c r E. pose proof (uint_of_Itoa_pos p) as Hs. rewrite E in Hs.
    split; intros ->; cbn in Hs; destruct (NilEmpty.uint_of_string r); done. }
  destruct z as [|p|p].
  - done.
  - change (Itoa (Z.pos p)) with (NilZero.string_of_uint (Pos.to_uint p)).
    destruct (NilZero.string_of_uint (Pos.to_uint p)) as [|c r] eqn:E; [by apply Hnd in E|].
    pose proof (Hfst _ _ _ E) as [H1 H2]. pose proof (uint_of_Itoa_pos p) as Hs. rewrite E in Hs.
    destruct c as [[] [] [] [] [] [] [] []]; try congruence; rewrite Hs, Hr; done.
  - change (Itoa (Z.neg p)) with (String "-" (NilZero.string_of_uint (Pos.to_uint p))).
    cbv beta iota.
    destruct (NilZero.string_of_uint (Pos.to_uint p)) as [|c r] eqn:E; [by apply Hnd in E|].
    rewrite <- E, uint_of_Itoa_pos. change (Z.opp <$> Some (Z.pos p)) with (Some (Z.neg p)).
    cbv beta iota. by rewrite Hr.
Qed.

(** An unsigned number prints as digits, and reads back. *)
Definition is_digit (c : ascii) : bool :=
  let n := N_of_ascii c in ((48 <=? n) && (n <=? 57))%N.

Lemma uint_digits d : str_forall is_digit (NilEmpty.string_of_uint d) = true.
Proof. induction d; simpl; done. Qed.

Lemma Itoa_digits z : 0 <= z -> str_forall is_digit (Itoa z) = true.
Proof.
  intros Hz. destruct z as [|p|p]; [done| |lia].
  change (Itoa (Z.pos p)) with (NilZero.string_of_uint (Pos.to_uint p)).
  unfold NilZero.string_of_uint. destruct (Pos.to_uint p); try apply uint_digits; done.
Qed.

Lemma digits_value_Itoa z : 0 <= z -> digits_value (Itoa z) = Some z.
Proof.
  intros Hz. destruct z as [|p|p]; [done| |lia].
  change (Itoa (Z.pos p)) with (NilZero.string_of_uint (Pos.to_uint p)).
  pose proof (uint_of_Itoa_pos p) as Hs. unfold digits_value.
  destruct (NilZero.string_of_uint (Pos.to_uint p)) as [|c r]; [done|exact Hs].
Qed.

Lemma Itoa_nonempty z : Itoa z <> "".
Proof.
  destruct z as [|p|p]; [done| |done]. intros H.
  pose proof (digits_value_Itoa (Z.pos p)) as E. rewrite H in E. by specialize (E ltac:(lia)).
Qed.

Lemma Atoi_or_max_Itoa z : 0 <= z <= int64_max -> Atoi_or_max (Itoa z) = z.
Proof. intros [H1 H2]. unfold Atoi_or_max. rewrite digits_value_Itoa by done. by apply Z.min_l. Qed.

(** ** Splitting what was joined *)
Lemma str_forall_app f a b : str_forall f (a +:+ b) = str_forall f a && str_forall f b.
Proof. induction a as [|c a IH]; simpl; [done|]. by rewrite IH, andb_assoc. Qed.

(** *** The value of digits, one after the other *)
Definition digit_of (c : ascii) : Z := Z.of_N (N_of_ascii c) - 48.

Fixpoint value_from (acc : Z) (s : string) : Z :=
  match s with EmptyString => acc | String c s' => value_from (10 * acc + digit_of c) s' end.

Fixpoint uint_from (acc : Z) (d : Decimal.uint) : Z :=
  match d with
  | Decimal.Nil => acc
  | Decimal.D0 d => uint_from (10 * acc) d
  | Decimal.D1 d => uint_from (10 * acc + 1) d
  | Decimal.D2 d => uint_from (10 * acc + 2) d
  | Decimal.D3 d => uint_from (10 * acc + 3) d
  | Decimal.D4 d => uint_from (10 * acc + 4) d
  | Decimal.D5 d => uint_from (10 * acc + 5) d
  | Decimal.D6 d => uint_from (10 * acc + 6) d
  | Decimal.D7 d => uint_from (10 * acc + 7) d
  | Decimal.D8 d => uint_from (10 * acc + 8) d
  | Decimal.D9 d => uint_from (10 * acc + 9) d
  end.

Lemma of_uint_acc_from d p : Z.pos (Pos.of_uint_acc d p) = uint_from (Z.pos p) d.
Proof. revert p. induction d as [|d IH|d IH|d IH|d IH|d IH|d IH|d IH|d IH|d IH|d IH]; intros p; cbn [Pos.of_uint_acc uint_from]; [done|rewrite IH; f_equal; lia..]. Qed.

Lemma of_uint_from d : Z.of_uint d = uint_from 0 d.
Proof.
  unfold Z.of_uint. induction d; cbn [Pos.of_uint uint_from Z.of_N Z.mul Z.add Z.of_uint]; try done;
    apply (of_uint_acc_from d).
Qed.

Lemma uint_of_digits s : str_forall is_digit s = true ->
  exists d, NilEmpty.uint_of_string s = Some d /\ forall acc, uint_from acc d = value_from acc s.
Proof.
  induction s as [|c s IH]; cbn [str_forall]; [by exists Decimal.Nil|]. intros [Hc Hs]%andb_true_iff.
  destruct (IH Hs) as (d & Hd & Hv). cbn [NilEmpty.uint_of_string value_from]. rewrite Hd.
  destruct c as [[] [] [] [] [] [] [] []]; try discriminate Hc; (eexists; split; [reflexivity|]; intros acc; cbn [uint_from];
    rewrite Hv; f_equal; unfold digit_of; cbn; lia).
Qed.

Lemma digits_value_from s : s <> "" -> str_forall is_digit s = true -> digits_value s = Some (value_from 0 s).
Proof.
  intros Hne Hs. destruct (uint_of_digits s Hs) as (d & Hd & Hv). destruct s as [|c s]; [done|].
  unfold digits_value, NilZero.uint_of_string. rewrite Hd. cbn. by rewrite of_uint_from, Hv.
Qed.

Lemma value_from_app acc a b : value_from acc (a +:+ b) = value_from (value_from acc a) b.
Proof. revert acc. induction a as [|c a IH]; intros acc; [done|]. apply IH. Qed.

Lemma digits_value_app a d : 0 <= a -> 0 <= d < 10 -> digits_value (Itoa a +:+ Itoa d) = Some (10 * a + d).
Proof.
  intros Ha Hd. assert (Hda : str_forall is_digit (Itoa a) = true) by by apply Itoa_digits.
  rewrite digits_value_from; [| |rewrite str_forall_app, Hda, Itoa_digits by lia; done].
  2:{ pose proof (Itoa_nonempty a). by destruct (Itoa a). }
  assert (Hv : value_from 0 (Itoa a) = a).
  { pose proof (digits_value_from (Itoa a) (Itoa_nonempty a) Hda) as E. rewrite digits_value_Itoa in E by done. by injection E. }
  rewrite value_from_app, Hv. f_equal.
  assert (d = 0 \/ d = 1 \/ d = 2 \/ d = 3 \/ d = 4 \/ d = 5 \/ d = 6 \/ d = 7 \/ d = 8 \/ d = 9) as Hc by lia.
  by destruct Hc as [->|[->|[->|[->|[->|[->|[->|[->|[->| ->]]]]]]]]].
Qed.

Lemma Itoa_digit_length d : 0 <= d < 10 -> String.length (Itoa d) = 1%nat.
Proof.
  intros Hd. assert (d = 0 \/ d = 1 \/ d = 2 \/ d = 3 \/ d = 4 \/ d = 5 \/ d = 6 \/ d = 7 \/ d = 8 \/ d = 9) as Hc by lia.
  by destruct Hc as [->|[->|[->|[->|[->|[->|[->|[->|[->| ->]]]]]]]]].
Qed.

(** A tenth, as [%d.%d] prints it. *)
Lemma ParseFloat_tenths t :
  0 <= t -> ParseFloat (Itoa (t / 10) +:+ "." +:+ Itoa (t mod 10)) = {| dec_digits := t; dec_scale := 1 |}.
Proof.
  intros Ht. unfold ParseFloat. change ("." +:+ ?x) with (String "." x).
  rewrite Cut_char by by apply Itoa_no_char. pose proof (Z.mod_pos_bound t 10 ltac:(lia)) as Hm.
  rewrite digits_value_app, Itoa_digit_length; [|lia|apply Z.div_pos; lia|lia]. f_equal. pose proof (Z.div_mod t 10). lia.
Qed.

Lemma ParseUint_Itoa z : 0 <= z <= uint64_max -> ParseUint (Itoa z) = (z, true).
Proof. intros [H1 H2]. unfold ParseUint. rewrite digits_value_Itoa by done. by apply Z.leb_le in H2 as ->. Qed.

(** Where the digits end. *)
Lemma digits_end a b x y r r' :
  str_forall is_digit a = true -> str_forall is_digit b = true -> is_digit x = false -> is_digit y = false ->
  a +:+ String x r = b +:+ String y r' -> x = y.
Proof.
  revert b. induction a as [|c a IH]; intros [|d b]; cbn [str_forall String.append]; intros Ha Hb Hx Hy [= Hc Hr]; subst; [done|..].
  - apply andb_true_iff in Hb as [Hb _]. congruence.
  - apply andb_true_iff in Ha as [Ha _]. congruence.
  - apply andb_true_iff in Ha as [_ Ha], Hb as [_ Hb]. by apply (IH b).
Qed.

Lemma Split_cons_shape c s : exists p ps, Split s c = p :: ps.
Proof.
  induction s as [|a s (p & ps & IH)]; simpl; [by exists "", []|].
  destruct (Ascii.eqb a c); [by exists "", (Split s c)|]. rewrite IH. eauto.
Qed.

Lemma Split_no_char c s : no_char c s -> Split s c = [s].
Proof.
  induction s as [|a s IH]; intros H; simpl; [done|]. apply no_char_cons in H as [Hne H].
  destruct (Ascii.eqb_spec a c); [done|]. by rewrite IH.
Qed.

Lemma Split_app c a s : no_char c a -> Split (a +:+ String c s) c = a :: Split s c.
Proof.
  induction a as [|x a IH]; intros H; simpl.
  - by rewrite Ascii.eqb_refl.
  - apply no_char_cons in H as [Hne H]. destruct (Ascii.eqb_spec x c); [done|]. by rewrite IH.
Qed.

Lemma Split_Join c l : l <> [] -> Forall (no_char c) l -> Split (Join l (String c "")) c = l.
Proof.
  intros Hne Hl. induction Hl as [|x l Hx Hl IH]; [done|]. destruct l as [|y l].
  - by apply Split_no_char.
  - change (Join (x :: y :: l) (String c "")) with (x +:+ String c (Join (y :: l) (String c ""))).
    rewrite Split_app by done. by rewrite IH.
Qed.

(** A word: not empty, and without white space. *)
Definition word (s : string) : bool := negb (String.eqb s "") && str_forall (fun c => negb (is_space c)) s.

Lemma FieldsFunc_word f w s :
  w <> "" -> str_forall (fun c => negb (f c)) w = true ->
  match s with EmptyString => True | String c _ => f c = true end ->
  FieldsFunc f (w +:+ s) = w :: FieldsFunc f s.
Proof.
  intros Hne Hw Hs. induction w as [|c w IH]; [done|]. simpl in Hw |- *.
  apply andb_true_iff in Hw as [Hc Hw]. destruct (f c); [done|].
  destruct w as [|d w]; simpl.
  - destruct s as [|e s]; [done|]. simpl. by rewrite Hs.
  - simpl in Hw. destruct (f d) eqn:Hd; [done|]. simpl in IH. rewrite Hd in IH. rewrite IH; [done|done|].
    by apply andb_true_iff in Hw as [_ ->].
Qed.

Lemma Fields_Join l : Forall (fun w => word w = true) l -> Fields (Join l " ") = l.
Proof.
  unfold Fields. induction 1 as [|x l Hx Hl IH]; [done|].
  apply andb_true_iff in Hx as [Hne Hx]. assert (x <> "") as Hx0 by (by intros ->).
  destruct l as [|y l].
  - simpl. rewrite <- (str_app_nil_r x) at 1. by rewrite FieldsFunc_word.
  - change (Join (x :: y :: l) " ") with (x +:+ String " " (Join (y :: l) " ")).
    rewrite FieldsFunc_word by done. f_equal. exact IH.
Qed.

#[export] Hint Resolve HasSuffix_app CutSuffix_app Itoa_no_underscore : veery.
