(* ===== verification/Regex.v ===== *)
(** * Go's [regexp], as far as Veery uses it

    The expressions the source compiles with [regexp.MustCompile] are built
    from literal bytes, byte classes, repetitions of a class, alternatives and
    capturing groups. [run] is a backtracking matcher with Go's leftmost-first
    preference; [results] lists every way an expression can match, in order of
    preference, and [matches] says declaratively what a match is. Nothing in
    this file is Veery's own code.

    A byte of a multi-byte rune is in every negated class and in [.], so the
    matcher works on bytes. *)
From S2P Require Import Prelude GoStrings.
Open Scope Z_scope.

(** ** Expressions *)
Inductive re :=
| Eps
| Cls (f : ascii -> bool)                    (* one byte of a class *)
| Many (greedy : bool) (f : ascii -> bool)   (* [f*], or [f*?] *)
| Cat (r1 r2 : re)
| Alt (r1 r2 : re)
| Grp (n : nat) (r : re)                     (* a capturing group *)
| Eot.                                       (* [$] *)

Declare Scope re_scope.
Delimit Scope re_scope with re.
Bind Scope re_scope with re.
Infix "·" := Cat (at level 41, right associativity) : re_scope.
Infix "∥" := Alt (at level 51, right associativity) : re_scope.

(** [c], [f+], [f+?], [r?], and a word. *)
Definition chr (c : ascii) : re := Cls (Ascii.eqb c).
Definition Plus (f : ascii -> bool) : re := Cat (Cls f) (Many true f).
Definition LazyPlus (f : ascii -> bool) : re := Cat (Cls f) (Many false f).
Definition Opt (r : re) : re := Alt r Eps.
Fixpoint lit (s : string) : re :=
  match s with EmptyString => Eps | String c s' => Cat (chr c) (lit s') end.

(** The classes. [\s] has no vertical tab, unlike [unicode.IsSpace]. *)
Definition in_range (lo hi : ascii) (c : ascii) : bool :=
  (N_of_ascii lo <=? N_of_ascii c)%N && (N_of_ascii c <=? N_of_ascii hi)%N.
Definition digit : ascii -> bool := in_range "0" "9".
Definition upper : ascii -> bool := in_range "A" "Z".
Definition lower : ascii -> bool := in_range "a" "z".
Definition re_space (c : ascii) : bool :=
  match N_of_ascii c with 9%N | 10%N | 12%N | 13%N | 32%N => true | _ => false end.
Definition nonspace (c : ascii) : bool := negb (re_space c).
Definition dot (c : ascii) : bool := negb (Ascii.eqb c "010").

(** Captured text by group, the latest first. *)
Abbreviation caps := (list (nat * string)).

(** The text between two positions: [s'] is what is left of [s]. *)
Definition between (s s' : string) : string := str_take (String.length s - String.length s') s.

(** ** The matcher *)
Section Run.
Context {A : Type}.

Definition orelse (x : option A) (y : option A) : option A :=
  match x with Some a => Some a | None => y end.

Fixpoint run_many (greedy : bool) (f : ascii -> bool) (s : string) (k : string -> option A) : option A :=
  let more := match s with
              | String c s' => if f c then run_many greedy f s' k else None
              | EmptyString => None
              end in
  if greedy then orelse more (k s) else orelse (k s) more.

Fixpoint run (r : re) (s : string) (cs : caps) (k : string -> caps -> option A) : option A :=
  match r with
  | Eps => k s cs
  | Cls f => match s with
             | String c s' => if f c then k s' cs else None
             | EmptyString => None
             end
  | Many g f => run_many g f s (fun s' => k s' cs)
  | Cat r1 r2 => run r1 s cs (fun s' cs' => run r2 s' cs' k)
  | Alt r1 r2 => orelse (run r1 s cs k) (run r2 s cs k)
  | Grp n r1 => run r1 s cs (fun s' cs' => k s' ((n, between s s') :: cs'))
  | Eot => match s with EmptyString => k s cs | _ => None end
  end.
End Run.

(** [re.FindStringSubmatch] for an expression that starts with [^]. *)
Definition match_here (r : re) (s : string) : option caps :=
  run r s [] (fun _ cs => Some cs).

(** ... and for one that does not: the leftmost position that matches. *)
Fixpoint search (r : re) (s : string) : option caps :=
  orelse (match_here r s)
    match s with
    | EmptyString => None
    | String _ s' => search r s'
    end.

(** [m[n]]: a group that took no part in the match is the empty string. *)
Definition group (n : nat) (cs : caps) : string :=
  match List.find (fun p => (p.1 =? n)%nat) cs with
  | Some p => p.2
  | None => EmptyString
  end.

(** ** What a match is *)
Fixpoint results (r : re) (s : string) (cs : caps) : list (string * caps) :=
  match r with
  | Eps => [(s, cs)]
  | Cls f => match s with
             | String c s' => if f c then [(s', cs)] else []
             | EmptyString => []
             end
  | Many g f =>
      let fix go s :=
        let more := match s with
                    | String c s' => if f c then go s' else []
                    | EmptyString => []
                    end in
        if (g : bool) then more ++ [(s, cs)] else (s, cs) :: more in
      go s
  | Cat r1 r2 => results r1 s cs ≫= fun p => results r2 p.1 p.2
  | Alt r1 r2 => results r1 s cs ++ results r2 s cs
  | Grp n r1 => (fun p => (p.1, (n, between s p.1) :: p.2)) <$> results r1 s cs
  | Eot => match s with EmptyString => [(s, cs)] | _ => [] end
  end.

(** [matches r w s cs cs']: [r] matches the text [w], followed by [s]. *)
Inductive matches : re -> string -> string -> caps -> caps -> Prop :=
| m_eps s cs : matches Eps "" s cs cs
| m_cls f c s cs : f c = true -> matches (Cls f) (String c "") s cs cs
| m_many g f w s cs : str_forall f w = true -> matches (Many g f) w s cs cs
| m_cat r1 r2 w1 w2 s cs cs1 cs2 :
    matches r1 w1 (w2 +:+ s) cs cs1 -> matches r2 w2 s cs1 cs2 ->
    matches (Cat r1 r2) (w1 +:+ w2) s cs cs2
| m_alt_l r1 r2 w s cs cs' : matches r1 w s cs cs' -> matches (Alt r1 r2) w s cs cs'
| m_alt_r r1 r2 w s cs cs' : matches r2 w s cs cs' -> matches (Alt r1 r2) w s cs cs'
| m_grp n r w s cs cs' : matches r w s cs cs' -> matches (Grp n r) w s cs ((n, w) :: cs')
| m_eot cs : matches Eot "" "" cs cs.

(** ** The matcher against the results *)
(** The first element a continuation accepts. *)
Fixpoint first_some {A B} (f : A -> option B) (l : list A) : option B :=
  match l with
  | [] => None
  | a :: l' => orelse (f a) (first_some f l')
  end.

Lemma orelse_assoc {A} (x y z : option A) : orelse (orelse x y) z = orelse x (orelse y z).
Proof. by destruct x. Qed.

Lemma orelse_None_r {A} (x : option A) : orelse x None = x.
Proof. by destruct x. Qed.

Lemma first_some_app {A B} (f : A -> option B) l1 l2 :
  first_some f (l1 ++ l2) = orelse (first_some f l1) (first_some f l2).
Proof. induction l1 as [|a l1 IH]; simpl; [done|]. by rewrite IH, orelse_assoc. Qed.

Lemma first_some_bind {A B C} (f : B -> option C) (g : A -> list B) l :
  first_some f (l ≫= g) = first_some (fun a => first_some f (g a)) l.
Proof.
  induction l as [|a l IH]; [done|]. rewrite bind_cons, first_some_app, IH. done.
Qed.

Lemma first_some_fmap {A B C} (f : B -> option C) (g : A -> B) l :
  first_some f (g <$> l) = first_some (fun a => f (g a)) l.
Proof. induction l as [|a l IH]; simpl; [done|]. by rewrite <- IH. Qed.

Lemma first_some_ext {A B} (f g : A -> option B) l :
  (forall a, f a = g a) -> first_some f l = first_some g l.
Proof. intros H. induction l as [|a l IH]; simpl; [done|]. by rewrite H, IH. Qed.

Lemma first_some_Some {A B} (f : A -> option B) l b :
  first_some f l = Some b -> exists a, a ∈ l /\ f a = Some b.
Proof.
  induction l as [|a l IH]; simpl; [done|]. destruct (f a) as [b'|] eqn:E; simpl.
  - intros [= ->]. exists a. split; [left|done].
  - intros (a' & Ha & Hf)%IH. exists a'. split; [by right|done].
Qed.

Lemma first_some_None {A B} (f : A -> option B) l :
  first_some f l = None <-> forall a, a ∈ l -> f a = None.
Proof.
  induction l as [|a l IH]; simpl; [set_solver|]. destruct (f a) as [b|] eqn:E; simpl.
  - split; [done|]. intros H. rewrite <- E. apply H. left.
  - rewrite IH. set_solver.
Qed.

(** The backtracking matcher hands the continuation the results in order and
    returns the first it accepts. *)
Lemma run_results {A} (r : re) s cs (k : string -> caps -> option A) :
  run r s cs k = first_some (fun p => k p.1 p.2) (results r s cs).
Proof.
  revert s cs k. induction r as [|f|g f|r1 IH1 r2 IH2|r1 IH1 r2 IH2|n r IH|]; intros s cs k; simpl.
  - by rewrite orelse_None_r.
  - destruct s as [|c s]; [done|]. destruct (f c); simpl; [by rewrite orelse_None_r|done].
  - induction s as [|c s IH]; simpl.
    + destruct g; simpl; by rewrite ?orelse_None_r.
    + destruct g; simpl; rewrite ?first_some_app; simpl; rewrite ?orelse_None_r;
        destruct (f c); simpl; by rewrite ?IH, ?orelse_None_r.
  - rewrite IH1, first_some_bind. apply first_some_ext. intros p. apply IH2.
  - by rewrite IH1, IH2, first_some_app.
  - rewrite IH, first_some_fmap. done.
  - destruct s; simpl; [by rewrite orelse_None_r|done].
Qed.

(** ** The results against the matches *)
Lemma between_app w s : between (w +:+ s) s = w.
Proof.
  unfold between. rewrite str_app_length.
  replace (_ + _ - _)%nat with (String.length w) by lia. apply str_take_app.
Qed.

Lemma between_eq s w s' : s = w +:+ s' -> between s s' = w.
Proof. intros ->. apply between_app. Qed.

Lemma str_app_cons c s : String c s = String c "" +:+ s.
Proof. done. Qed.

Lemma results_many g f s cs s' cs' :
  (s', cs') ∈ results (Many g f) s cs <-> cs' = cs /\ exists w, s = w +:+ s' /\ str_forall f w = true.
Proof.
  induction s as [|c s IH]; simpl.
  - assert ((s', cs') ∈ [("", cs)] <-> cs' = cs /\ exists w, "" = w +:+ s' /\ str_forall f w = true) as H.
    { rewrite list_elem_of_singleton. split; [intros [= -> ->]; split; [done|by exists ""]|].
      intros (-> & [|? w] & E & _); simpl in E; [by subst|done]. }
    by destruct g.
  - simpl in IH.
    assert ((exists w, String c s = w +:+ s' /\ str_forall f w = true) <->
            s' = String c s \/ f c = true /\ exists w, s = w +:+ s' /\ str_forall f w = true) as Hw.
    { split.
      - intros ([|d w] & E & Hf); simpl in *; [by left|].
        injection E as <- E. apply andb_true_iff in Hf as [? ?]. right. eauto.
      - intros [->|(Hc & w & -> & Hf)]; [by exists ""|]. exists (String c w). simpl. by rewrite Hc. }
    rewrite Hw.
    assert ((s', cs') ∈ (if f c then results (Many g f) s cs else []) <->
            cs' = cs /\ f c = true /\ exists w, s = w +:+ s' /\ str_forall f w = true) as Hm.
    { destruct (f c); [simpl; rewrite IH; naive_solver|set_solver]. }
    simpl in Hm. destruct g; rewrite ?elem_of_app, ?elem_of_cons, Hm; set_solver.
Qed.

Lemma results_matches r s cs s' cs' :
  (s', cs') ∈ results r s cs <-> exists w, s = w +:+ s' /\ matches r w s' cs cs'.
Proof.
  revert s cs s' cs'. induction r as [|f|g f|r1 IH1 r2 IH2|r1 IH1 r2 IH2|n r IH|]; intros s cs s' cs'.
  - simpl. rewrite list_elem_of_singleton. split.
    + intros [= -> ->]. exists "". split; [done|constructor].
    + intros (w & -> & H). by inversion H; subst.
  - simpl. split.
    + destruct s as [|c s]; [set_solver|]. destruct (f c) eqn:E; [|set_solver].
      rewrite list_elem_of_singleton. intros [= -> ->]. exists (String c ""). by split; [|constructor].
    + intros (w & -> & H). inversion H; subst. simpl. by rewrite H1, list_elem_of_singleton.
  - rewrite results_many. split.
    + intros (-> & w & -> & Hf). exists w. by split; [|constructor].
    + intros (w & -> & H). inversion H; subst. split; [done|]. by exists w.
  - simpl. rewrite list_elem_of_bind. split.
    + intros ([s1 cs1] & H2 & H1). apply IH1 in H1 as (w1 & -> & H1). apply IH2 in H2 as (w2 & E & H2).
      simpl in *. subst. exists (w1 +:+ w2). rewrite str_app_assoc. split; [done|]. by econstructor.
    + intros (w & -> & H). inversion H; subst. exists (w2 +:+ s', cs1). simpl.
      rewrite IH1, IH2. split; [by exists w2|]. exists w1. by rewrite str_app_assoc.
  - simpl. rewrite elem_of_app, IH1, IH2. split.
    + intros [(w & -> & H)|(w & -> & H)]; exists w; (split; [done|]); by constructor.
    + intros (w & -> & H). inversion H; subst; eauto.
  - simpl. rewrite list_elem_of_fmap. split.
    + intros ([s1 cs1] & [= -> ->] & H). apply IH in H as (w & -> & H). exists w.
      simpl. rewrite between_app. by split; [|constructor].
    + intros (w & -> & H). inversion H; subst. exists (s', cs'0). simpl. rewrite between_app.
      split; [done|]. apply IH. eauto.
  - simpl. split.
    + destruct s; [|set_solver]. rewrite list_elem_of_singleton. intros [= -> ->]. exists "".
      split; [done|constructor].
    + intros (w & -> & H). inversion H; subst. simpl. by rewrite list_elem_of_singleton.
Qed.

(** [^r] fails exactly when no prefix of the text matches, and what it returns
    are the captures of a match. *)
Lemma match_here_Some r s cs :
  match_here r s = Some cs -> exists w s', s = w +:+ s' /\ matches r w s' [] cs.
Proof.
  unfold match_here. rewrite run_results. intros ([s' cs'] & Hin & [= <-])%first_some_Some.
  apply results_matches in Hin as (w & -> & H). eauto.
Qed.

Lemma match_here_None r s :
  match_here r s = None <-> forall w s' cs, s = w +:+ s' -> ~ matches r w s' [] cs.
Proof.
  unfold match_here. rewrite run_results, first_some_None. split.
  - intros H w s' cs -> Hm. specialize (H (s', cs)). simpl in H.
    enough (Some cs = None) by done. apply H, results_matches. eauto.
  - intros H [s' cs] Hin. apply results_matches in Hin as (w & -> & Hm). by destruct (H w s' cs).
Qed.

Lemma search_Some r s cs :
  search r s = Some cs -> exists p w s', s = p +:+ w +:+ s' /\ matches r w s' [] cs.
Proof.
  induction s as [|c s IH]; simpl.
  - rewrite orelse_None_r. intros (w & s' & -> & H)%match_here_Some. by exists "", w, s'.
  - destruct (match_here r (String c s)) as [cs'|] eqn:E; simpl.
    + intros [= ->]. apply match_here_Some in E as (w & s' & -> & H). by exists "", w, s'.
    + intros (p & w & s' & -> & H)%IH. by exists (String c p), w, s'.
Qed.

Lemma search_None r s :
  search r s = None <-> forall p w s' cs, s = p +:+ w +:+ s' -> ~ matches r w s' [] cs.
Proof.
  induction s as [|c s IH]; simpl.
  - rewrite orelse_None_r, match_here_None. split.
    + intros H [|? p] w s' cs E; simpl in E; [by apply H|done].
    + intros H w s' cs E. by apply (H "").
  - destruct (match_here r (String c s)) as [cs'|] eqn:E; simpl.
    + split; [done|]. intros H. apply match_here_Some in E as (w & s' & E & Hm).
      by destruct (H "" w s' cs' E).
    + rewrite IH. rewrite match_here_None in E. split.
      * intros H [|d p] w s' cs Es; simpl in Es; [by apply E|]. injection Es as _ ->. by apply (H p w s' cs).
      * intros H p w s' cs ->. by apply (H (String c p) w s' cs).
Qed.

(** ** Evaluation on a text that is known in part *)
(** The text does not go on with a byte of the class. *)
Definition stops (f : ascii -> bool) (s : string) : Prop :=
  match s with EmptyString => True | String c _ => f c = false end.

Lemma run_cat {A} r1 r2 s cs (k : string -> caps -> option A) :
  run (Cat r1 r2) s cs k = run r1 s cs (fun s' cs' => run r2 s' cs' k).
Proof. done. Qed.

Lemma run_lit {A} p s cs (k : string -> caps -> option A) : run (lit p) (p +:+ s) cs k = k s cs.
Proof. induction p as [|c p IH]; simpl; [done|]. by rewrite Ascii.eqb_refl. Qed.

Lemma run_many_longest {A} f a s (k : string -> option A) x :
  str_forall f a = true -> stops f s -> k s = Some x -> run_many true f (a +:+ s) k = Some x.
Proof.
  intros Ha Hs Hk. induction a as [|c a IH]; simpl in *.
  - destruct s as [|c s]; simpl in *; rewrite ?Hs; simpl; done.
  - apply andb_true_iff in Ha as [-> Ha]. by rewrite IH.
Qed.

Lemma run_plus_longest {A} f a s cs (k : string -> caps -> option A) x :
  a <> "" -> str_forall f a = true -> stops f s -> k s cs = Some x ->
  run (Plus f) (a +:+ s) cs k = Some x.
Proof.
  destruct a as [|c a]; [done|]. simpl. intros _ [-> Ha]%andb_true_iff Hs Hk.
  by apply run_many_longest.
Qed.

Lemma run_many_shortest {A} f a s (k : string -> option A) x :
  str_forall f a = true -> (forall a1 c a2, a = a1 +:+ String c a2 -> k (String c a2 +:+ s) = None) ->
  k s = Some x -> run_many false f (a +:+ s) k = Some x.
Proof.
  intros Ha Hn Hk. induction a as [|c a IH]; simpl in *.
  - destruct s; simpl; by rewrite Hk.
  - apply andb_true_iff in Ha as [-> Ha]. rewrite (Hn "" c a) by done. simpl.
    apply IH; [done|]. intros a1 d a2 ->. by apply (Hn (String c a1) d a2).
Qed.

Lemma run_many_None {A} g f s (k : string -> option A) :
  (forall w s', s = w +:+ s' -> k s' = None) -> run_many g f s k = None.
Proof.
  intros H. induction s as [|c s IH].
  - pose proof (H "" "" eq_refl) as E. simpl. rewrite E. by destruct g.
  - pose proof (H "" (String c s) eq_refl) as E. simpl. rewrite E.
    assert (run_many g f s k = None) as ->.
    { apply IH. intros w s' ->. by apply (H (String c w) s'). }
    destruct (f c), g; done.
Qed.

Lemma chr_here c d r s : c <> d -> match_here (Cat (chr c) r) (String d s) = None.
Proof. intros H. unfold match_here. simpl. by destruct (Ascii.eqb_spec c d). Qed.

(** A search skips a text in which the expression's first byte does not occur. *)
Lemma search_skip c r p s : no_char c p -> search (Cat (chr c) r) (p +:+ s) = search (Cat (chr c) r) s.
Proof.
  induction p as [|x p IH]; intros Hp; [done|]. apply no_char_cons in Hp as [Hne Hp].
  simpl String.append. cbn [search]. by rewrite chr_here, IH.
Qed.

(** ... and one of bytes it cannot begin with. *)
Lemma search_skip_class f r p s :
  (forall c s', f c = false -> match_here r (String c s') = None) -> str_forall (fun c => negb (f c)) p = true ->
  search r (p +:+ s) = search r s.
Proof.
  intros Hr. induction p as [|c p IH]; [done|]. cbn [str_forall String.append search].
  intros [Hc%negb_true_iff Hp]%andb_true_iff. by rewrite Hr, IH.
Qed.

Lemma run_lit_no {A} p s cs (k : string -> caps -> option A) : strip_prefix p s = None -> run (lit p) s cs k = None.
Proof.
  revert s. induction p as [|c p IH]; intros s; [done|]. destruct s as [|d s]; [done|].
  cbn [strip_prefix lit]. rewrite run_cat. cbn [run chr]. destruct (Ascii.eqb c d); [apply IH|done].
Qed.

Lemma search_here r s cs : match_here r s = Some cs -> search r s = Some cs.
Proof. intros H. destruct s; simpl; by rewrite H. Qed.

Lemma search_absent c r s : no_char c s -> search (Cat (chr c) r) s = None.
Proof.
  intros Hs. apply search_None. intros p w s' cs -> Hm. inversion Hm; subst.
  match goal with H : matches (chr c) _ _ _ _ |- _ => inversion H; subst end.
  match goal with H : Ascii.eqb c _ = true |- _ => apply Ascii.eqb_eq in H; subst end.
  induction p as [|x p IH]; simpl in Hs; apply no_char_cons in Hs as [? ?]; [done|auto].
Qed.

(** ** Inverting a match *)
Lemma matches_cat r1 r2 w s cs cs' : matches (Cat r1 r2) w s cs cs' <->
  exists w1 w2 cs1, w = w1 +:+ w2 /\ matches r1 w1 (w2 +:+ s) cs cs1 /\ matches r2 w2 s cs1 cs'.
Proof.
  split; [intros H; inversion H; subst; eauto 7|]. intros (w1 & w2 & cs1 & -> & H1 & H2). by econstructor.
Qed.

Lemma matches_grp n r w s cs cs' : matches (Grp n r) w s cs cs' <-> exists c, cs' = (n, w) :: c /\ matches r w s cs c.
Proof. split; [intros H; inversion H; subst; eauto|]. intros (c & -> & H). by constructor. Qed.

Lemma matches_alt r1 r2 w s cs cs' :
  matches (Alt r1 r2) w s cs cs' <-> matches r1 w s cs cs' \/ matches r2 w s cs cs'.
Proof. split; [intros H; inversion H; subst; eauto|]. intros [H|H]; by constructor. Qed.

Lemma matches_many g f w s cs cs' : matches (Many g f) w s cs cs' <-> str_forall f w = true /\ cs' = cs.
Proof. split; [intros H; by inversion H|]. intros [H ->]. by constructor. Qed.

Lemma matches_chr c w s cs cs' : matches (chr c) w s cs cs' <-> w = String c "" /\ cs' = cs.
Proof.
  split; [|intros [-> ->]; constructor; apply Ascii.eqb_refl].
  intros H. inversion H; subst. by match goal with E : Ascii.eqb _ _ = true |- _ => apply Ascii.eqb_eq in E; subst end.
Qed.

Lemma matches_eps w s cs cs' : matches Eps w s cs cs' <-> w = "" /\ cs' = cs.
Proof. split; [intros H; by inversion H|]. intros [-> ->]. constructor. Qed.

Lemma matches_eot w s cs cs' : matches Eot w s cs cs' <-> w = "" /\ s = "" /\ cs' = cs.
Proof. split; [intros H; by inversion H|]. intros (-> & -> & ->). constructor. Qed.

Lemma matches_plus g f w s cs cs' :
  matches (Cat (Cls f) (Many g f)) w s cs cs' <-> w <> "" /\ str_forall f w = true /\ cs' = cs.
Proof.
  rewrite matches_cat. split.
  - intros (w1 & w2 & cs1 & -> & H1 & [H2 ->]%matches_many). inversion H1; subst. simpl. by rewrite H0, H2.
  - intros (Hne & Hf & ->). destruct w as [|c w]; [done|]. simpl in Hf. apply andb_true_iff in Hf as [Hc Hf].
    exists (String c ""), w, cs. split; [done|]. split; [by constructor|]. by apply matches_many.
Qed.

Lemma matches_lit p w s cs cs' : matches (lit p) w s cs cs' <-> w = p /\ cs' = cs.
Proof.
  revert w. induction p as [|c p IH]; intros w; simpl; [by rewrite matches_eps|]. rewrite matches_cat. split.
  - intros (w1 & w2 & cs1 & -> & [-> ->]%matches_chr & [-> ->]%IH). done.
  - intros [-> ->]. exists (String c ""), p, cs. rewrite matches_chr, IH. done.
Qed.

Lemma match_here_defined r s :
  match_here r s <> None <-> exists w s' cs, s = w +:+ s' /\ matches r w s' [] cs.
Proof.
  split.
  - destruct (match_here r s) as [cs|] eqn:E; [|done]. intros _.
    apply match_here_Some in E as (w & s' & -> & H). eauto.
  - intros (w & s' & cs & -> & H) Hn. rewrite match_here_None in Hn. by eapply Hn.
Qed.
