(* ===== verification/Float64.v ===== *)
(** * Floating point

    Go's [float64] is IEEE 754 binary64, the format of the Standard Library's
    executable specification: [f64] is a [spec_float] of precision 53 and
    exponent bound 1024. *)
From Stdlib Require Import SpecFloat.
From S2P Require Import Prelude.
Open Scope Z_scope.

Definition f64 : Type := spec_float.

Definition f64_add : f64 -> f64 -> f64 := SFadd 53 1024.
Definition f64_sub : f64 -> f64 -> f64 := SFsub 53 1024.
Definition f64_mul : f64 -> f64 -> f64 := SFmul 53 1024.
Definition f64_div : f64 -> f64 -> f64 := SFdiv 53 1024.
(** [float64(z)] *)
Definition f64_of_Z (z : Z) : f64 := binary_normalize 53 1024 z 0 false.

Definition f64_zero : f64 := S754_zero false.

Definition is_nan (x : f64) : bool := match x with S754_nan => true | _ => false end.

Definition is_finite (x : f64) : bool :=
  match x with S754_nan | S754_infinity _ => false | _ => true end.

(** The conversion of a [float64] that no [uint64] is near is left to the
    implementation. *)
Class Arch := { arch_uint64 : f64 -> Z }.

(** [uint64(x)]: the fraction is discarded. *)
Definition f64_to_uint64 `{!Arch} (x : f64) : Z :=
  let out z := if (0 <=? z) && (z <? 2 ^ 64) then z else arch_uint64 x in
  match x with
  | S754_zero _ => 0
  | S754_finite s m e =>
      let a := if 0 <=? e then Z.pos m * 2 ^ e else Z.pos m / 2 ^ (- e) in
      out (if s then - a else a)
  | _ => arch_uint64 x
  end.

(** [d.Seconds()] of a duration in nanoseconds. *)
Definition Seconds (d : Z) : f64 :=
  f64_add (f64_of_Z (Z.quot d (10 ^ 9))) (f64_div (f64_of_Z (Z.rem d (10 ^ 9))) (f64_of_Z (10 ^ 9))).

(** ** Comparisons *)
Lemma SFcompare_swap x y : SFcompare y x = option_map CompOpp (SFcompare x y).
Proof.
  destruct x as [sx|sx| |sx mx ex], y as [sy|sy| |sy my ey]; simpl;
    try (destruct sx); try (destruct sy); try done; simpl.
  - f_equal. rewrite (Z.compare_antisym ex ey). destruct (ex ?= ey); simpl; try done.
    by rewrite (Pos.compare_cont_antisym mx my Eq).
  - f_equal. rewrite (Z.compare_antisym ex ey). destruct (ex ?= ey); simpl; try done.
    by rewrite (Pos.compare_cont_antisym mx my Eq).
Qed.

Lemma SFcompare_total x y : is_nan x = false -> is_nan y = false -> exists c, SFcompare x y = Some c.
Proof. destruct x, y; simpl; try done; intros _ _; repeat case_match; eauto. Qed.

(** What is not less is at least as much, unless it is not a number. *)
Lemma SFltb_leb x y : is_nan x = false -> is_nan y = false -> SFltb x y = false -> SFleb y x = true.
Proof.
  intros Hx Hy. unfold SFltb, SFleb. rewrite (SFcompare_swap x y). destruct (SFcompare_total x y Hx Hy) as [c ->].
  by destruct c.
Qed.

(** ** Signs *)
(** Not below zero: positive, a zero of either sign, or not a number. *)
Definition nonneg (x : f64) : bool := negb (SFltb x f64_zero).
Definition is_zero (x : f64) : bool := match x with S754_zero _ => true | _ => false end.

Lemma nonneg_round m e l : nonneg (binary_round_aux 53 1024 false m e l) = true.
Proof. unfold binary_round_aux. repeat case_match; done. Qed.

Lemma nonneg_of_Z z : 0 <= z -> nonneg (f64_of_Z z) = true.
Proof.
  intros Hz. unfold f64_of_Z, binary_normalize. destruct z as [|p|p]; [done| |lia].
  unfold binary_round. case_match. apply nonneg_round.
Qed.

Lemma nonneg_mul x y : nonneg x = true -> nonneg y = true -> nonneg (f64_mul x y) = true.
Proof.
  unfold f64_mul. destruct x as [|[]| |[]], y as [|[]| |[]]; try done; intros _ _; apply nonneg_round.
Qed.

Lemma nonneg_div x y :
  nonneg x = true -> nonneg y = true -> is_zero y = false -> nonneg (f64_div x y) = true.
Proof.
  unfold f64_div. destruct x as [|[]| |[]], y as [|[]| |[]]; try done; intros _ _ _.
  unfold SFdiv. case_match. case_match. apply nonneg_round.
Qed.

Lemma positive_nonneg x : SFleb x f64_zero = false -> nonneg x = true /\ is_zero x = false.
Proof. by destruct x as [|[]| |[]]. Qed.

Example half : f64_to_uint64 (H := {| arch_uint64 := fun _ => 0 |}) (f64_div (f64_of_Z 7) (f64_of_Z 2)) = 3.
Proof. reflexivity. Qed.

Example tenth : SFltb (f64_of_Z 1) (f64_mul (f64_div (f64_of_Z 1) (f64_of_Z 10)) (f64_of_Z 10)) = false
  /\ Seconds (1500 * 10 ^ 6) = f64_div (f64_of_Z 3) (f64_of_Z 2).
Proof. split; vm_compute; reflexivity. Qed.
