(* ===== verification/Api.v ===== *)
(** * Domain types (src/internal/api/types.go)

    The Go structs as records (a field [Foo] of struct [T] is [t_Foo]), the
    string enumerations with a closed set of values as inductive types, and the
    three methods the file defines. Types whose values the code compares with
    free-form text ([NotificationEvent], [MdSyncAction], a Docker state) stay
    strings. [md_SyncPercent] is the decimal text whose nearest [float64] the field
    holds. *)
From S2P Require Import Prelude GoStrings Float64.
Open Scope Z_scope.

Inductive ContainerStatus :=
| StatusRunning
| StatusStopped
| StatusNeedsAttention
| StatusUpdating
| StatusMissing.

#[export] Instance ContainerStatus_eq_dec : EqDecision ContainerStatus.
Proof. solve_decision. Defined.

Record User := {
  u_ID : string;
  u_Name : string;
  u_IsAdmin : bool;
  u_CreatedAt : Z
}.

Record Container := {
  c_ID : string;
  c_Name : string;
  c_ContainerName : string;
  c_Image : string;
  c_State : string;
  c_Status : ContainerStatus;
  c_Health : string;
  c_Managed : bool;
  c_AutoUpdate : bool;
  c_UpdateAvailable : bool;
  c_RestartCount : Z;
  c_CreatedAt : Z
}.

Record Stack := {
  s_ID : string;
  s_Name : string;
  s_Managed : bool;
  s_Status : option ContainerStatus;   (* [None]: the zero value, before [finalizeStack] *)
  s_Containers : list Container
}.

Record DiskUsage := { du_Key : string; du_Mount : string; du_Used : Z; du_Total : Z }.

Record DiskActivity := {
  da_Key : string;
  da_Device : string;
  da_Label : string;
  da_ReadBytesPerSec : Z;
  da_WriteBytesPerSec : Z;
  da_ReadPeakBytesPerSec : Z;
  da_WritePeakBytesPerSec : Z
}.

Inductive DiskKind := DiskCapacity | DiskActivityKind.

Record DiskItem := {
  di_Key : string;
  di_Kind : DiskKind;
  di_Label : string;
  di_Detail : string;
  di_Shown : bool;
  di_DefaultShown : bool
}.

Inductive MdArrayState := MdHealthy | MdDegraded | MdRecovering | MdFailed.

#[export] Instance MdArrayState_eq_dec : EqDecision MdArrayState.
Proof. solve_decision. Defined.

Record MdMember := { mm_Device : string; mm_Up : bool }.

Record MdScanFailure := {
  sf_Error : string;
  sf_FirstAt : Z;
  sf_LastAt : Z;
  sf_Attempts : Z;
  sf_NextRetryAt : Z;
  sf_Scheduled : bool
}.

Record MdArray := {
  md_Name : string;
  md_Level : string;
  md_State : MdArrayState;
  md_DevicesTotal : Z;
  md_DevicesUp : Z;
  md_Members : list MdMember;
  md_SyncAction : string;
  md_SyncPercent : Decimal;
  md_SyncSpeedKBs : Z;
  md_SyncFinish : string;
  md_MismatchCnt : Z;
  md_LastScanAt : Z;
  md_ScanFailure : option MdScanFailure
}.

Record HostMetrics := {
  hm_CPUPercent : f64;
  hm_MemUsed : Z;
  hm_MemTotal : Z;
  hm_Disks : list DiskUsage;
  hm_DiskActivity : list DiskActivity;
  hm_Mdadm : list MdArray
}.

Record ContainerMetrics := { cm_ID : string; cm_CPUPercent : f64; cm_MemUsed : Z; cm_MemLimit : Z }.

Record MetricsSnapshot := { mss_Host : HostMetrics; mss_Containers : list ContainerMetrics; mss_At : Z }.

Record MdadmSchedule := { ms_RRule : string; ms_Enabled : bool }.

Record JobProgress := {
  jp_ID : string;
  jp_Kind : string;
  jp_Target : string;
  jp_Phase : string;
  jp_Message : string;
  jp_Done : bool;
  jp_Error : string
}.

Record Settings := {
  set_PollIntervalSeconds : Z;
  set_AutoUpdateDefault : bool;
  set_AutoUpdateIntervalMinutes : Z;
  set_EventLogRetentionDays : Z;
  set_DiskVisibility : option (gmap string bool)   (* [None]: a nil map *)
}.

Abbreviation NotificationEvent := string (only parsing).
Definition EventUpdateApplied : NotificationEvent := "update_applied".
Definition EventUpdateAvailable : NotificationEvent := "update_available".
Definition EventContainerStatus : NotificationEvent := "container_status".
Definition EventContainerMissing : NotificationEvent := "container_missing".
Definition EventContainerAdopted : NotificationEvent := "container_adopted".
Definition EventAuth : NotificationEvent := "auth".
Definition EventRaidScanStarted : NotificationEvent := "raid_scan_started".
Definition EventRaidScanFinished : NotificationEvent := "raid_scan_finished".
Definition EventRaidUnhealthy : NotificationEvent := "raid_unhealthy".
Definition EventRaidDiskOffline : NotificationEvent := "raid_disk_offline".
Definition EventRaidScanFailed : NotificationEvent := "raid_scan_failed".

Definition AllNotificationEvents : list NotificationEvent :=
  [ EventContainerStatus; EventContainerMissing; EventContainerAdopted;
    EventUpdateApplied; EventUpdateAvailable; EventAuth; EventRaidUnhealthy;
    EventRaidDiskOffline; EventRaidScanStarted; EventRaidScanFinished;
    EventRaidScanFailed ].

Record Event := {
  ev_ID : Z;
  ev_Event : NotificationEvent;
  ev_Title : string;
  ev_Body : string;
  ev_ContainerName : string;
  ev_StackID : string;
  ev_CreatedAt : Z
}.

Record EventMeta := { em_ContainerName : string; em_StackID : string }.

Record EventPage := { ep_Items : list Event; ep_NextCursor : string }.

Record NotificationTarget := {
  nt_URL : string;
  nt_Events : gmap NotificationEvent bool   (* a nil map reads like an empty one *)
}.

Record NotificationConfig := {
  nc_Targets : list NotificationTarget;
  nc_EnvManaged : bool
}.

(** [NotificationTarget.Enabled] *)
Definition Enabled (t : NotificationTarget) (ev : NotificationEvent) : bool :=
  match nt_Events t !! ev with
  | Some on => on
  | None => true
  end.

(** [NotificationConfig.URLs] *)
Definition URLs (c : NotificationConfig) : list string := map nt_URL (nc_Targets c).

(** [NotificationConfig.URLsFor] *)
Fixpoint urls_for (ts : list NotificationTarget) (ev : NotificationEvent) : list string :=
  match ts with
  | [] => []
  | t :: ts' => if Enabled t ev then nt_URL t :: urls_for ts' ev else urls_for ts' ev
  end.

Definition URLsFor (c : NotificationConfig) (ev : NotificationEvent) : list string :=
  urls_for (nc_Targets c) ev.

(** The server-to-client push envelope. *)
Inductive WSMessage :=
| WSStacks (stacks : list Stack)
| WSJob (job : JobProgress)
| WSJobs (jobs : list JobProgress)
| WSEvent (ev : Event)
| WSMetrics (snap : MetricsSnapshot).

(** ** Lemmas *)
Lemma URLsFor_iff c ev u :
  u ∈ URLsFor c ev <-> exists t, t ∈ nc_Targets c /\ Enabled t ev = true /\ nt_URL t = u.
Proof.
  unfold URLsFor. induction (nc_Targets c) as [|t ts IH]; simpl.
  - set_solver.
  - destruct (Enabled t ev) eqn:E.
    + rewrite elem_of_cons, IH. split; [intros [->|?]|intros (t' & Ht & ?)]; [set_solver..|].
      apply elem_of_cons in Ht as [->|?]; [left; naive_solver|right; eauto].
    + rewrite IH. split; intros (t' & Ht & ?); [set_solver|].
      apply elem_of_cons in Ht as [->|?]; [naive_solver congruence|eauto].
Qed.
