(* ===== verification/Db.v ===== *)
(** * The database (src/internal/store: sqlite.go, migrations.go, row structs)

    The SQLite tables as lists of rows in rowid order. The SQL statements are
    in the source as text; a store method is the transformer of the tables that
    its statement describes, with the primary keys, the UNIQUE and the foreign
    key constraints of migrations.go (foreign_keys is ON), and a statement that
    would violate a constraint fails and changes nothing. I/O faults (a locked
    or full database) are added where a method is called (World.v). *)
From S2P Require Import Prelude GoStrings Api.
Open Scope Z_scope.

(** ** Rows *)
Record StoredCredential := {
  cr_ID : string;
  cr_UserID : string;
  cr_CredID : string;
  cr_PublicKey : string;
  cr_SignCount : Z;
  cr_Transports : list string;
  cr_AAGUID : string;
  cr_Name : string;
  cr_BackupEligible : bool;
  cr_BackupState : bool;
  cr_CreatedAt : Z
}.

Record InviteRow := {
  iv_Token : string;
  iv_CreatedBy : option string;
  iv_IsAdmin : bool;
  iv_ExpiresAt : Z;
  iv_UsedAt : Z;
  iv_CreatedAt : Z;
  iv_ForUser : string   (* "" for NULL *)
}.

Record SessionRow := {
  ss_Token : string;
  ss_UserID : string;
  ss_ExpiresAt : Z;
  ss_CreatedAt : Z
}.

Record OIDCIdentity := {
  oi_ID : string;
  oi_UserID : string;
  oi_Issuer : string;
  oi_Subject : string;
  oi_Email : string;
  oi_CreatedAt : Z
}.

Record StackRow := { sr_ID : string; sr_Name : string }.

Record ManagedContainer := {
  mc_ID : string;
  mc_StackID : string;
  mc_ContainerName : string;
  mc_SnapshotJSON : string;
  mc_ContainerID : string;
  mc_AutoUpdate : bool;
  mc_CreatedAt : Z
}.

Record UpdateJob := {
  uj_ID : string;
  uj_ContainerName : string;
  uj_Image : string;
  uj_Phase : string;
  uj_Message : string;
  uj_Error : string;
  uj_Self : bool;
  uj_Done : bool;
  uj_StartedAt : Z;
  uj_FinishedAt : Z
}.

(** ** Tables *)
Record DB := {
  db_users : list User;
  db_credentials : list StoredCredential;
  db_invites : list InviteRow;
  db_sessions : list SessionRow;
  db_oidc : list OIDCIdentity;
  db_stacks : list StackRow;
  db_managed : list ManagedContainer;
  db_jobs : list UpdateJob;
  db_settings : gmap string string;
  db_events : list Event;
  db_event_seq : Z   (* AUTOINCREMENT: the largest id ever used *)
}.

Definition empty_db : DB :=
  {| db_users := []; db_credentials := []; db_invites := []; db_sessions := [];
     db_oidc := []; db_stacks := []; db_managed := []; db_jobs := [];
     db_settings := ∅; db_events := []; db_event_seq := 0 |}.

(** Replacing one group of tables. *)
Definition set_accounts (d : DB) u c i s o : DB :=
  {| db_users := u; db_credentials := c; db_invites := i; db_sessions := s;
     db_oidc := o; db_stacks := db_stacks d; db_managed := db_managed d;
     db_jobs := db_jobs d; db_settings := db_settings d; db_events := db_events d;
     db_event_seq := db_event_seq d |}.

Definition set_users (d : DB) u : DB :=
  set_accounts d u (db_credentials d) (db_invites d) (db_sessions d) (db_oidc d).
Definition set_credentials (d : DB) c : DB :=
  set_accounts d (db_users d) c (db_invites d) (db_sessions d) (db_oidc d).
Definition set_invites (d : DB) i : DB :=
  set_accounts d (db_users d) (db_credentials d) i (db_sessions d) (db_oidc d).
Definition set_sessions (d : DB) s : DB :=
  set_accounts d (db_users d) (db_credentials d) (db_invites d) s (db_oidc d).
Definition set_oidc (d : DB) o : DB :=
  set_accounts d (db_users d) (db_credentials d) (db_invites d) (db_sessions d) o.

Definition set_services (d : DB) st mc js : DB :=
  {| db_users := db_users d; db_credentials := db_credentials d;
     db_invites := db_invites d; db_sessions := db_sessions d; db_oidc := db_oidc d;
     db_stacks := st; db_managed := mc; db_jobs := js;
     db_settings := db_settings d; db_events := db_events d;
     db_event_seq := db_event_seq d |}.

Definition set_stacks (d : DB) s : DB := set_services d s (db_managed d) (db_jobs d).
Definition set_managed (d : DB) m : DB := set_services d (db_stacks d) m (db_jobs d).
Definition set_jobs (d : DB) j : DB := set_services d (db_stacks d) (db_managed d) j.

Definition set_log (d : DB) se ev sq : DB :=
  {| db_users := db_users d; db_credentials := db_credentials d;
     db_invites := db_invites d; db_sessions := db_sessions d; db_oidc := db_oidc d;
     db_stacks := db_stacks d; db_managed := db_managed d; db_jobs := db_jobs d;
     db_settings := se; db_events := ev; db_event_seq := sq |}.

(** ** Statements *)

(** One statement (or transaction): it runs to completion or has no effect. *)
Definition Sql (A : Type) : Type := DB -> DB * result A.

Definition sql_ok {A} (a : A) : Sql A := fun d => (d, Ok a).
Definition sql_err {A} (e : error) : Sql A := fun d => (d, Fail e).
Definition errNotFound : error := mkErr "not found" [ErrNotFound].
Definition errConstraint : error := errorf "constraint failed".

(** [UPDATE t SET .. WHERE p]: the new table and [RowsAffected]. *)
Definition update_rows {R} (p : R -> bool) (f : R -> R) (t : list R) : list R :=
  map (fun r => if p r then f r else r) t.

Definition rows_affected {R} (p : R -> bool) (t : list R) : nat :=
  length (List.filter p t).

(** [DELETE FROM t WHERE p]. *)
Definition delete_rows {R} (p : R -> bool) (t : list R) : list R :=
  List.filter (fun r => negb (p r)) t.

(** [SELECT .. WHERE p] *)
Definition select_rows {R} (p : R -> bool) (t : list R) : list R := List.filter p t.

(** [SELECT .. WHERE p] of at most one row: [sql.ErrNoRows] is [ErrNotFound]. *)
Definition query_row {R} (p : R -> bool) (t : list R) : result R :=
  match List.find p t with
  | Some r => Ok r
  | None => Fail errNotFound
  end.

(** ** Lemmas on the statement forms, shared by every table *)
Lemma elem_of_select {R} (p : R -> bool) t r : r ∈ select_rows p t <-> r ∈ t /\ p r = true.
Proof. unfold select_rows. by rewrite !list_elem_of_In, filter_In. Qed.

Lemma elem_of_delete {R} (p : R -> bool) t r : r ∈ delete_rows p t <-> r ∈ t /\ p r = false.
Proof. unfold delete_rows. by rewrite !list_elem_of_In, filter_In, negb_true_iff. Qed.

Lemma elem_of_update {R} (p : R -> bool) f t r :
  r ∈ update_rows p f t <-> exists r0, r0 ∈ t /\ r = if p r0 then f r0 else r0.
Proof.
  unfold update_rows. rewrite list_elem_of_In, in_map_iff.
  setoid_rewrite list_elem_of_In. naive_solver.
Qed.

Lemma update_rows_key {R K} (key : R -> K) (p : R -> bool) f t :
  (forall r, key (f r) = key r) -> map key (update_rows p f t) = map key t.
Proof.
  intros Hk. unfold update_rows. rewrite map_map. apply map_ext.
  intros r. by destruct (p r).
Qed.

Lemma NoDup_map_filter {R K} (key : R -> K) (p : R -> bool) t :
  NoDup (map key t) -> NoDup (map key (List.filter p t)).
Proof.
  induction t as [|r t IH]; simpl; [done|]. intros [Hr Ht]%NoDup_cons.
  destruct (p r); simpl; [|by apply IH]. apply NoDup_cons. split; [|by apply IH].
  intros Hin. apply Hr. revert Hin. rewrite !list_elem_of_In, !in_map_iff.
  intros (x & Hk & [Hx _]%filter_In). eauto.
Qed.

Lemma NoDup_map_delete {R K} (key : R -> K) (p : R -> bool) t :
  NoDup (map key t) -> NoDup (map key (delete_rows p t)).
Proof. apply NoDup_map_filter. Qed.

Lemma rows_affected_0 {R} (p : R -> bool) t :
  rows_affected p t = 0%nat <-> forall r, r ∈ t -> p r = false.
Proof.
  unfold rows_affected. induction t as [|r t IH]; simpl; [set_solver|].
  destruct (p r) eqn:E; simpl.
  - split; [done|]. intros H. specialize (H r). rewrite E in H. set_solver.
  - rewrite IH. set_solver.
Qed.

Lemma query_row_Ok {R} (p : R -> bool) t r : query_row p t = Ok r -> r ∈ t /\ p r = true.
Proof.
  unfold query_row. destruct (List.find p t) eqn:E; [|done].
  intros [= ->]. by apply find_some_iff.
Qed.

Lemma query_row_Fail {R} (p : R -> bool) t e :
  query_row p t = Fail e <-> e = errNotFound /\ forall r, r ∈ t -> p r = false.
Proof.
  unfold query_row. destruct (List.find p t) eqn:E.
  - apply find_some_iff in E as [Hin Hp]. split; [done|]. intros [_ H].
    by rewrite (H _ Hin) in Hp.
  - split; [|naive_solver]. intros [= <-]. split; [done|].
    intros r Hr%list_elem_of_In. by eapply find_none in E.
Qed.

(** A key lookup finds the row that has the key, when keys are unique. *)
Lemma query_row_key {R K} `{EqDecision K} (key : R -> K) (p : R -> bool) k t r :
  (forall x, p x = true <-> key x = k) ->
  NoDup (map key t) -> r ∈ t -> key r = k -> query_row p t = Ok r.
Proof.
  intros Hp Hnd Hin Hk. destruct (query_row p t) as [r'|e] eqn:E.
  - apply query_row_Ok in E as [Hin' Hp']. apply Hp in Hp'. f_equal.
    clear Hp. induction t as [|x t IH]; simpl in *; [set_solver|].
    apply NoDup_cons in Hnd as [Hx Hnd].
    apply elem_of_cons in Hin as [->|Hin]; apply elem_of_cons in Hin' as [->|Hin']; auto.
    + exfalso. apply Hx. rewrite Hk, <- Hp'. apply list_elem_of_In, in_map. by apply list_elem_of_In.
    + exfalso. apply Hx. rewrite Hp', <- Hk. apply list_elem_of_In, in_map. by apply list_elem_of_In.
  - apply query_row_Fail in E as [_ Hn]. specialize (Hn _ Hin).
    apply Hp in Hk. congruence.
Qed.

Lemma NoDup_key_eq {R K} (key : R -> K) t r1 r2 :
  NoDup (map key t) -> r1 ∈ t -> r2 ∈ t -> key r1 = key r2 -> r1 = r2.
Proof.
  induction t as [|x t IH]; simpl; [set_solver|].
  intros [Hx Hnd]%NoDup_cons Hin1 Hin2 Hk.
  apply elem_of_cons in Hin1 as [->|Hin1]; apply elem_of_cons in Hin2 as [->|Hin2]; auto.
  - exfalso. apply Hx. rewrite Hk. apply list_elem_of_In, in_map. by apply list_elem_of_In.
  - exfalso. apply Hx. rewrite <- Hk. apply list_elem_of_In, in_map. by apply list_elem_of_In.
Qed.

#[export] Hint Resolve NoDup_map_delete NoDup_map_filter : veery.
