(* ===== verification/StoreDocker.v ===== *)
(** * Managed services in the store (src/internal/store/docker_store.go)

    Stacks and managed containers: one definition per accessor, the
    well-formedness of the two tables (unique keys, no container without its
    stack), and what adopting, re-recording and forgetting do to them. *)
From S2P Require Import Prelude GoStrings Api Db.
Open Scope Z_scope.

Definition stack_exists (d : DB) (id : string) : bool :=
  existsb (fun s => String.eqb (sr_ID s) id) (db_stacks d).

Definition UpsertStack (name : string) : Sql StackRow := fun d =>
  let s := {| sr_ID := name; sr_Name := name |} in
  if stack_exists d name then (d, Ok s)
  else if existsb (fun r => String.eqb (sr_Name r) name) (db_stacks d) then (d, Fail errConstraint)
  else (set_stacks d (db_stacks d ++ [s]), Ok s).

Definition StackExists (id : string) : Sql bool := fun d => (d, Ok (stack_exists d id)).

Definition by_id (id : string) (mc : ManagedContainer) : bool := String.eqb (mc_ID mc) id.
Definition by_name (n : string) (mc : ManagedContainer) : bool := String.eqb (mc_ContainerName mc) n.
Definition by_stack (s : string) (mc : ManagedContainer) : bool := String.eqb (mc_StackID mc) s.

Definition with_created (mc : ManagedContainer) (t : Z) : ManagedContainer :=
  {| mc_ID := mc_ID mc; mc_StackID := mc_StackID mc;
     mc_ContainerName := mc_ContainerName mc; mc_SnapshotJSON := mc_SnapshotJSON mc;
     mc_ContainerID := mc_ContainerID mc; mc_AutoUpdate := mc_AutoUpdate mc;
     mc_CreatedAt := t |}.

(** The [ON CONFLICT(id) DO UPDATE] row: the existing one with the stack, the
    snapshot and the container id of the new one. *)
Definition conflict_row (new old : ManagedContainer) : ManagedContainer :=
  {| mc_ID := mc_ID old; mc_StackID := mc_StackID new;
     mc_ContainerName := mc_ContainerName old; mc_SnapshotJSON := mc_SnapshotJSON new;
     mc_ContainerID := mc_ContainerID new; mc_AutoUpdate := mc_AutoUpdate old;
     mc_CreatedAt := mc_CreatedAt old |}.

Definition AddManagedContainer (now : Z) (mc : ManagedContainer) : Sql unit := fun d =>
  let mc := if mc_CreatedAt mc =? 0 then with_created mc now else mc in
  if negb (stack_exists d (mc_StackID mc)) then (d, Fail errConstraint)
  else if existsb (by_id (mc_ID mc)) (db_managed d) then
    (set_managed d (update_rows (by_id (mc_ID mc)) (conflict_row mc) (db_managed d)), Ok tt)
  else (set_managed d (db_managed d ++ [mc]), Ok tt).

Definition ManagedByName (name : string) : Sql ManagedContainer := fun d =>
  (d, query_row (by_name name) (db_managed d)).

Definition ManagedByID (id : string) : Sql ManagedContainer := fun d =>
  (d, query_row (by_id id) (db_managed d)).

Definition ManagedByStack (stackID : string) : Sql (list ManagedContainer) := fun d =>
  (d, Ok (sort_slice (fun a b => str_lt (mc_ContainerName a) (mc_ContainerName b))
            (select_rows (by_stack stackID) (db_managed d)))).

Definition AllManaged : Sql (list ManagedContainer) := fun d => (d, Ok (db_managed d)).

Definition AutoUpdateContainers : Sql (list ManagedContainer) := fun d =>
  (d, Ok (select_rows mc_AutoUpdate (db_managed d))).

Definition with_auto (on : bool) (mc : ManagedContainer) : ManagedContainer :=
  {| mc_ID := mc_ID mc; mc_StackID := mc_StackID mc;
     mc_ContainerName := mc_ContainerName mc; mc_SnapshotJSON := mc_SnapshotJSON mc;
     mc_ContainerID := mc_ContainerID mc; mc_AutoUpdate := on;
     mc_CreatedAt := mc_CreatedAt mc |}.

Definition SetAutoUpdate (id : string) (on : bool) : Sql unit := fun d =>
  match rows_affected (by_id id) (db_managed d) with
  | O => (d, Fail errNotFound)
  | S _ => (set_managed d (update_rows (by_id id) (with_auto on) (db_managed d)), Ok tt)
  end.

Definition with_snapshot (js cid : string) (mc : ManagedContainer) : ManagedContainer :=
  {| mc_ID := mc_ID mc; mc_StackID := mc_StackID mc;
     mc_ContainerName := mc_ContainerName mc; mc_SnapshotJSON := js;
     mc_ContainerID := cid; mc_AutoUpdate := mc_AutoUpdate mc;
     mc_CreatedAt := mc_CreatedAt mc |}.

Definition UpdateSnapshot (id js cid : string) : Sql unit := fun d =>
  (set_managed d (update_rows (by_id id) (with_snapshot js cid) (db_managed d)), Ok tt).

(** [DELETE FROM stacks WHERE id=?], with the cascade to managed_containers. *)
Definition delete_stack (id : string) (d : DB) : DB :=
  set_services d (delete_rows (fun s => String.eqb (sr_ID s) id) (db_stacks d))
    (delete_rows (by_stack id) (db_managed d)) (db_jobs d).

Definition DeleteManagedContainer (id : string) : Sql unit := fun d =>
  match query_row (by_id id) (db_managed d) with
  | Fail e => (d, Fail e)
  | Ok mc =>
      let d1 := set_managed d (delete_rows (by_id id) (db_managed d)) in
      match rows_affected (by_stack (mc_StackID mc)) (db_managed d1) with
      | O => (delete_stack (mc_StackID mc) d1, Ok tt)
      | S _ => (d1, Ok tt)
      end
  end.

Definition Unadopt (stackID : string) : Sql unit := fun d => (delete_stack stackID d, Ok tt).

(** ** Well-formedness *)

(** Keys are unique and every managed container belongs to an existing stack. *)
Record services_wf (d : DB) : Prop := {
  wf_stack_ids : NoDup (map sr_ID (db_stacks d));
  wf_managed_ids : NoDup (map mc_ID (db_managed d));
  wf_stack_fk : forall mc, mc ∈ db_managed d -> stack_exists d (mc_StackID mc) = true
}.

(** Veery only shows a stack that still has a container: no stack without one. *)
Definition no_empty_stack (d : DB) : Prop :=
  forall s, s ∈ db_stacks d -> exists mc, mc ∈ db_managed d /\ mc_StackID mc = sr_ID s.

Lemma stack_exists_iff d id :
  stack_exists d id = true <-> exists s, s ∈ db_stacks d /\ sr_ID s = id.
Proof.
  unfold stack_exists. rewrite existsb_exists. setoid_rewrite <- list_elem_of_In.
  setoid_rewrite String.eqb_eq. naive_solver.
Qed.

Lemma stack_exists_stacks d d' id :
  db_stacks d' = db_stacks d -> stack_exists d' id = stack_exists d id.
Proof. unfold stack_exists. by intros ->. Qed.

Lemma existsb_by_id id (l : list ManagedContainer) :
  existsb (by_id id) l = true <-> id ∈ map mc_ID l.
Proof.
  rewrite existsb_exists, list_elem_of_In, in_map_iff. unfold by_id.
  setoid_rewrite String.eqb_eq. naive_solver.
Qed.

Lemma elem_of_map_ID mc (l : list ManagedContainer) : mc ∈ l -> mc_ID mc ∈ map mc_ID l.
Proof. intros H. apply list_elem_of_In, in_map. by apply list_elem_of_In. Qed.

Lemma update_wf d id f :
  (forall r, mc_ID (f r) = mc_ID r) ->
  (forall r, r ∈ db_managed d -> mc_ID r = id -> stack_exists d (mc_StackID (f r)) = true) ->
  services_wf d -> services_wf (set_managed d (update_rows (by_id id) f (db_managed d))).
Proof.
  intros Hid Hst [H1 H2 H3]. constructor; simpl.
  - done.
  - by rewrite update_rows_key.
  - intros mc (r & Hr & ->)%elem_of_update. unfold stack_exists. simpl.
    destruct (by_id id r) eqn:E; [|by apply H3].
    apply String.eqb_eq in E. by apply Hst.
Qed.

Lemma UpsertStack_wf name d : services_wf d -> services_wf (UpsertStack name d).1.
Proof.
  intros [H1 H2 H3]. unfold UpsertStack. destruct (stack_exists d name) eqn:E; [done|].
  destruct (existsb _ _); [done|]. constructor; simpl.
  - rewrite map_app. apply NoDup_app. split; [done|]. split.
    + intros x Hx Hx'. apply list_elem_of_singleton in Hx' as ->.
      apply list_elem_of_In, in_map_iff in Hx as (s & Hs & Hin).
      assert (stack_exists d name = true); [|congruence].
      apply stack_exists_iff. exists s. by rewrite list_elem_of_In.
    + apply NoDup_singleton.
  - done.
  - intros mc Hmc%H3. apply stack_exists_iff in Hmc as (s & Hs & ?).
    apply stack_exists_iff. exists s. simpl. set_solver.
Qed.

Lemma AddManagedContainer_wf now mc d :
  services_wf d -> services_wf (AddManagedContainer now mc d).1.
Proof.
  intros Hwf. unfold AddManagedContainer.
  set (mc' := if mc_CreatedAt mc =? 0 then with_created mc now else mc).
  destruct (stack_exists d (mc_StackID mc')) eqn:Est; simpl; [|done].
  destruct (existsb _ _) eqn:Eid; simpl.
  - apply update_wf; [done|by intros|done].
  - destruct Hwf as [H1 H2 H3]. constructor; simpl; [done| |].
    + rewrite map_app. apply NoDup_app. split; [done|]. split; [|apply NoDup_singleton].
      intros x Hx Hx'. apply list_elem_of_singleton in Hx' as ->.
      apply existsb_by_id in Hx. congruence.
    + intros m Hm. apply elem_of_app in Hm as [Hm|Hm%list_elem_of_singleton].
      * by apply H3.
      * by subst.
Qed.

Lemma SetAutoUpdate_wf id on d : services_wf d -> services_wf (SetAutoUpdate id on d).1.
Proof.
  intros Hwf. unfold SetAutoUpdate. destruct (rows_affected _ _); [done|].
  apply update_wf; [done| |done]. intros r Hr _. simpl; by apply (wf_stack_fk _ Hwf).
Qed.

Lemma UpdateSnapshot_wf id js cid d : services_wf d -> services_wf (UpdateSnapshot id js cid d).1.
Proof. intros Hwf. apply update_wf; [done| |done]. intros r Hr _. simpl; by apply (wf_stack_fk _ Hwf). Qed.

Lemma delete_managed_wf p d : services_wf d -> services_wf (set_managed d (delete_rows p (db_managed d))).
Proof.
  intros [H1 H2 H3]. constructor; simpl; [done|by apply NoDup_map_delete|].
  intros mc [Hmc _]%elem_of_delete. by apply H3.
Qed.

Lemma delete_stack_wf id d : services_wf d -> services_wf (delete_stack id d).
Proof.
  intros [H1 H2 H3]. constructor; simpl; [by apply NoDup_map_delete..|].
  intros mc [Hmc Hs]%elem_of_delete. apply H3 in Hmc.
  apply stack_exists_iff in Hmc as (s & Hin & Hid). apply stack_exists_iff.
  exists s. split; [|done]. apply elem_of_delete. split; [done|].
  unfold by_stack in Hs. by rewrite Hid.
Qed.

Lemma DeleteManagedContainer_wf id d : services_wf d -> services_wf (DeleteManagedContainer id d).1.
Proof.
  intros Hwf. unfold DeleteManagedContainer. destruct (query_row _ _); [|done].
  destruct (rows_affected _ _); [|by apply delete_managed_wf].
  by apply delete_stack_wf, delete_managed_wf.
Qed.

#[export] Hint Resolve UpsertStack_wf AddManagedContainer_wf SetAutoUpdate_wf
  UpdateSnapshot_wf DeleteManagedContainer_wf delete_stack_wf : veery.

(** ** What the accessors do *)

(** Every accessor that writes, as a step of the two tables. *)
Inductive services_step (d : DB) : DB -> Prop :=
| step_upsert name : services_step d (UpsertStack name d).1
| step_add now mc : services_step d (AddManagedContainer now mc d).1
| step_auto id on : services_step d (SetAutoUpdate id on d).1
| step_snapshot id js cid : services_step d (UpdateSnapshot id js cid d).1
| step_delete id : services_step d (DeleteManagedContainer id d).1
| step_unadopt id : services_step d (Unadopt id d).1.

Lemma services_step_wf d d' : services_step d d' -> services_wf d -> services_wf d'.
Proof. destruct 1; intros; eauto with veery. by apply delete_stack_wf. Qed.

Lemma empty_services_wf : services_wf empty_db.
Proof. constructor; simpl; [constructor..|set_solver]. Qed.

(** C39. The stacks and managed_containers tables keep unique keys and never
    hold a container without its stack, in every database reachable by the
    accessors. *)
Theorem services_invariant d : rtc services_step empty_db d -> services_wf d.
Proof.
  intros H. generalize empty_services_wf. induction H; eauto using services_step_wf.
Qed.

Lemma delete_managed_rest id d mc :
  mc ∈ db_managed (DeleteManagedContainer id d).1 ->
  mc ∈ db_managed d.
Proof.
  unfold DeleteManagedContainer. destruct (query_row _ _) as [r|]; [|done].
  destruct (rows_affected _ _); simpl; rewrite ?elem_of_delete; naive_solver.
Qed.

Lemma delete_managed_no_empty id d :
  services_wf d -> no_empty_stack d -> no_empty_stack (DeleteManagedContainer id d).1.
Proof.
  intros Hwf Hne. unfold DeleteManagedContainer.
  destruct (query_row _ _) as [r|] eqn:Eq; [|done].
  apply query_row_Ok in Eq as [Hr Hid]. apply String.eqb_eq in Hid.
  destruct (rows_affected _ _) eqn:Ea; simpl.
  - rewrite rows_affected_0 in Ea. simpl in Ea.
    intros s [Hs Hsid]%elem_of_delete. destruct (Hne s Hs) as (m & Hm & Hms).
    exists m. split; [|done]. simpl. rewrite !elem_of_delete.
    apply String.eqb_neq in Hsid. split; [split; [done|]|].
    + apply String.eqb_neq. intros Hc. apply Hsid. rewrite <- Hms.
      f_equal. apply (NoDup_key_eq mc_ID (db_managed d)); [apply Hwf|done..|congruence].
    + apply String.eqb_neq. congruence.
  - intros s Hs. simpl in Hs. destruct (Hne s Hs) as (m & Hm & Hms).
    destruct (decide (mc_ID m = id)) as [Hmid|Hmid].
    + assert (m = r) as -> by (apply (NoDup_key_eq mc_ID (db_managed d)); [apply Hwf|done..|congruence]).
      destruct (List.filter (by_stack (mc_StackID r)) (delete_rows (by_id id) (db_managed d))) as [|x l] eqn:Ef.
      { unfold rows_affected in Ea. simpl in Ea. rewrite Ef in Ea. done. }
      assert (Hx : x ∈ select_rows (by_stack (mc_StackID r)) (delete_rows (by_id id) (db_managed d))).
      { unfold select_rows. rewrite Ef. set_solver. }
      apply elem_of_select in Hx as [Hx Hxs]. apply String.eqb_eq in Hxs.
      exists x. simpl. split; [done|congruence].
    + exists m. simpl. split; [|done]. apply elem_of_delete. split; [done|].
      by apply String.eqb_neq.
Qed.

(** Forgetting a managed container removes exactly its row, and its stack
    exactly when it was the last container of the stack. *)
Theorem DeleteManagedContainer_spec d mc :
  services_wf d -> no_empty_stack d -> mc ∈ db_managed d ->
  let d' := (DeleteManagedContainer (mc_ID mc) d).1 in
  (DeleteManagedContainer (mc_ID mc) d).2 = Ok tt
  /\ (forall m, m ∈ db_managed d' <-> m ∈ db_managed d /\ m <> mc)
  /\ (stack_exists d' (mc_StackID mc) = true <->
      exists m, m ∈ db_managed d' /\ mc_StackID m = mc_StackID mc)
  /\ no_empty_stack d'.
Proof.
  intros Hwf Hne Hmc d'.
  assert (Hq : query_row (by_id (mc_ID mc)) (db_managed d) = Ok mc).
  { eapply (query_row_key mc_ID); [|apply Hwf|done..]. intros x. apply String.eqb_eq. }
  assert (Hwf' : services_wf d') by (apply DeleteManagedContainer_wf; done).
  assert (Hne' : no_empty_stack d') by (apply delete_managed_no_empty; done).
  split; [|split; [|split; [|done]]].
  - unfold DeleteManagedContainer. rewrite Hq. by destruct (rows_affected _ _).
  - intros m. subst d'. unfold DeleteManagedContainer. rewrite Hq.
    assert (Hid : m ∈ db_managed d -> mc_ID m = mc_ID mc <-> m = mc).
    { intros Hm. split; [|by intros ->].
      apply (NoDup_key_eq mc_ID (db_managed d)); [apply Hwf|done..]. }
    destruct (rows_affected _ _) eqn:Ea; simpl; rewrite ?elem_of_delete.
    + rewrite rows_affected_0 in Ea. simpl in Ea. split.
      * intros [[Hm Hi%String.eqb_neq] _]. naive_solver.
      * intros [Hm Hn]. assert (Hi : by_id (mc_ID mc) m = false)
          by (apply String.eqb_neq; naive_solver).
        split; [done|]. apply Ea. by apply elem_of_delete.
    + split; [intros [Hm Hi%String.eqb_neq]; naive_solver|].
      intros [Hm Hn]. split; [done|]. apply String.eqb_neq. naive_solver.
  - split.
    + intros (s & Hs & <-)%stack_exists_iff. destruct (Hne' s Hs) as (m & ? & ?). eauto.
    + intros (m & Hm & <-). by apply (wf_stack_fk _ Hwf').
Qed.

(** A managed container that is added reads back by id with its new snapshot,
    container id and stack; re-adopting one keeps the auto-update flag, the name
    and the creation time the row had. *)
Theorem AddManagedContainer_spec now d mc :
  services_wf d -> stack_exists d (mc_StackID mc) = true ->
  exists row,
    (ManagedByID (mc_ID mc) (AddManagedContainer now mc d).1).2 = Ok row
    /\ mc_SnapshotJSON row = mc_SnapshotJSON mc
    /\ mc_ContainerID row = mc_ContainerID mc
    /\ mc_StackID row = mc_StackID mc
    /\ match (ManagedByID (mc_ID mc) d).2 with
       | Ok old => mc_AutoUpdate row = mc_AutoUpdate old
                   /\ mc_ContainerName row = mc_ContainerName old
                   /\ mc_CreatedAt row = mc_CreatedAt old
       | Fail _ => mc_AutoUpdate row = mc_AutoUpdate mc
                   /\ mc_ContainerName row = mc_ContainerName mc
       end.
Proof.
  intros Hwf Hst. set (mc' := if mc_CreatedAt mc =? 0 then with_created mc now else mc).
  assert (Hf : mc_ID mc' = mc_ID mc /\ mc_StackID mc' = mc_StackID mc
               /\ mc_SnapshotJSON mc' = mc_SnapshotJSON mc /\ mc_ContainerID mc' = mc_ContainerID mc
               /\ mc_AutoUpdate mc' = mc_AutoUpdate mc /\ mc_ContainerName mc' = mc_ContainerName mc).
  { subst mc'. by destruct (_ =? _). }
  destruct Hf as (F1 & F2 & F3 & F4 & F5 & F6).
  pose proof (AddManagedContainer_wf now mc d Hwf) as Hwf'.
  assert (Hkey : forall t r, NoDup (map mc_ID t) -> r ∈ t -> mc_ID r = mc_ID mc ->
                 query_row (by_id (mc_ID mc)) t = Ok r).
  { intros. eapply (query_row_key mc_ID); [|done..]. intros x. apply String.eqb_eq. }
  unfold ManagedByID in *. unfold AddManagedContainer in *. fold mc' in Hwf' |- *.
  rewrite F1, F2, Hst in *. simpl in *.
  destruct (existsb _ _) eqn:Eid; simpl in *.
  - apply existsb_by_id, list_elem_of_In, in_map_iff in Eid as (old & Ho & Hin).
    apply list_elem_of_In in Hin. rewrite (Hkey (db_managed d) old); [|apply Hwf|done..].
    exists (conflict_row mc' old). split; [|simpl; rewrite ?F2; by repeat split].
    apply Hkey; [apply Hwf'| |done]. apply elem_of_update. exists old.
    split; [done|]. unfold by_id. by rewrite Ho, String.eqb_refl.
  - exists mc'. split; [apply Hkey; [apply Hwf'|set_solver|done]|].
    do 3 (split; [done|]).
    destruct (query_row (by_id (mc_ID mc)) (db_managed d)) as [old|] eqn:Eq; [|done].
    apply query_row_Ok in Eq as [Hin Hid%String.eqb_eq].
    apply elem_of_map_ID in Hin. rewrite Hid in Hin.
    apply existsb_by_id in Hin. congruence.
Qed.

(** ** Instances at concrete inputs *)
Definition demo_mc : ManagedContainer :=
  {| mc_ID := "m1"; mc_StackID := "web"; mc_ContainerName := "nginx"; mc_SnapshotJSON := "{}";
     mc_ContainerID := "c1"; mc_AutoUpdate := true; mc_CreatedAt := 5 |}.
Definition demo_mc2 : ManagedContainer :=
  {| mc_ID := "m2"; mc_StackID := "web"; mc_ContainerName := "redis"; mc_SnapshotJSON := "{}";
     mc_ContainerID := "c2"; mc_AutoUpdate := false; mc_CreatedAt := 6 |}.
Definition demo_db : DB :=
  set_services empty_db [{| sr_ID := "web"; sr_Name := "web" |}] [demo_mc; demo_mc2] [].

Lemma demo_reachable : rtc services_step empty_db demo_db.
Proof.
  eapply rtc_l; [apply (step_upsert _ "web")|].
  eapply rtc_l; [apply (step_add _ 0 demo_mc)|].
  eapply rtc_l; [apply (step_add _ 0 demo_mc2)|]. apply rtc_refl.
Qed.

Lemma demo_wf : services_wf demo_db.
Proof.
  constructor; simpl.
  - apply NoDup_singleton.
  - apply NoDup_cons. split; [set_solver|apply NoDup_singleton].
  - intros mc Hmc. repeat (apply elem_of_cons in Hmc as [->|Hmc]; [done|]). set_solver.
Qed.

Lemma demo_no_empty : no_empty_stack demo_db.
Proof.
  intros s Hs. apply list_elem_of_singleton in Hs as ->. exists demo_mc. simpl. set_solver.
Qed.

Lemma services_invariant_witness : services_wf demo_db.
Proof. exact (services_invariant demo_db demo_reachable). Defined.

Lemma DeleteManagedContainer_spec_witness :
  let d' := (DeleteManagedContainer "m1" demo_db).1 in
  (DeleteManagedContainer "m1" demo_db).2 = Ok tt /\ stack_exists d' "web" = true /\ no_empty_stack d'.
Proof.
  destruct (DeleteManagedContainer_spec demo_db demo_mc demo_wf demo_no_empty
              ltac:(simpl; set_solver)) as (H1 & H2 & H3 & H4).
  split; [exact H1|]. split; [reflexivity|exact H4].
Defined.

Lemma AddManagedContainer_spec_witness :
  exists row, (ManagedByID "m1" (AddManagedContainer 9 demo_mc demo_db).1).2 = Ok row
              /\ mc_AutoUpdate row = true.
Proof.
  destruct (AddManagedContainer_spec 9 demo_db demo_mc demo_wf eq_refl) as (row & H & _ & _ & _ & Ha & _).
  exists row. split; [exact H|exact Ha].
Defined.
