(* ===== verification/StoreJobs.v ===== *)
(** * Update jobs in the store (src/internal/store/update_jobs.go)

    The persisted record of an update in flight, which outlives the process
    that started it. *)
From S2P Require Import Prelude GoStrings Api Db.
Open Scope Z_scope.

Definition job_id (id : string) (j : UpdateJob) : bool := String.eqb (uj_ID j) id.

Definition with_progress (phase msg : string) (j : UpdateJob) : UpdateJob :=
  {| uj_ID := uj_ID j; uj_ContainerName := uj_ContainerName j; uj_Image := uj_Image j;
     uj_Phase := phase; uj_Message := msg; uj_Error := uj_Error j; uj_Self := uj_Self j;
     uj_Done := uj_Done j; uj_StartedAt := uj_StartedAt j; uj_FinishedAt := uj_FinishedAt j |}.

Definition with_self (j : UpdateJob) : UpdateJob :=
  {| uj_ID := uj_ID j; uj_ContainerName := uj_ContainerName j; uj_Image := uj_Image j;
     uj_Phase := uj_Phase j; uj_Message := uj_Message j; uj_Error := uj_Error j; uj_Self := true;
     uj_Done := uj_Done j; uj_StartedAt := uj_StartedAt j; uj_FinishedAt := uj_FinishedAt j |}.

Definition with_finish (phase msg err : string) (now : Z) (j : UpdateJob) : UpdateJob :=
  {| uj_ID := uj_ID j; uj_ContainerName := uj_ContainerName j; uj_Image := uj_Image j;
     uj_Phase := phase; uj_Message := msg; uj_Error := err; uj_Self := uj_Self j;
     uj_Done := true; uj_StartedAt := uj_StartedAt j; uj_FinishedAt := now |}.

(** The INSERT writes [error], [finished_at] as their column defaults and
    [done] as 0; a conflicting row only takes the new phase and message. *)
Definition StartUpdateJob (now : Z) (j : UpdateJob) : Sql unit := fun d =>
  let started := if uj_StartedAt j =? 0 then now else uj_StartedAt j in
  if existsb (job_id (uj_ID j)) (db_jobs d) then
    (set_jobs d (update_rows (job_id (uj_ID j)) (with_progress (uj_Phase j) (uj_Message j)) (db_jobs d)), Ok tt)
  else
    (set_jobs d (db_jobs d ++
       [{| uj_ID := uj_ID j; uj_ContainerName := uj_ContainerName j; uj_Image := uj_Image j;
           uj_Phase := uj_Phase j; uj_Message := uj_Message j; uj_Error := ""; uj_Self := uj_Self j;
           uj_Done := false; uj_StartedAt := started; uj_FinishedAt := 0 |}]), Ok tt).

Definition SetUpdateJobPhase (id phase msg : string) : Sql unit := fun d =>
  (set_jobs d (update_rows (fun j => job_id id j && negb (uj_Done j))
                 (with_progress phase msg) (db_jobs d)), Ok tt).

Definition MarkUpdateJobSelf (id : string) : Sql unit := fun d =>
  (set_jobs d (update_rows (job_id id) with_self (db_jobs d)), Ok tt).

Definition FinishUpdateJob (now : Z) (id phase msg err : string) : Sql unit := fun d =>
  (set_jobs d (update_rows (job_id id) (with_finish phase msg err now) (db_jobs d)), Ok tt).

Definition UpdateJobByID (id : string) : Sql UpdateJob := fun d =>
  (d, query_row (job_id id) (db_jobs d)).

Definition ActiveUpdateJobs : Sql (list UpdateJob) := fun d =>
  (d, Ok (sort_slice (fun a b => uj_StartedAt a <? uj_StartedAt b)
            (select_rows (fun j => negb (uj_Done j)) (db_jobs d)))).

Definition RecentUpdateJobs (since : Z) : Sql (list UpdateJob) := fun d =>
  (d, Ok (sort_slice (fun a b => uj_FinishedAt a <? uj_FinishedAt b)
            (select_rows (fun j => uj_Done j && (since <=? uj_FinishedAt j)) (db_jobs d)))).

(** ** Lemmas *)
Inductive jobs_step (d : DB) : DB -> Prop :=
| jstep_start now j : jobs_step d (StartUpdateJob now j d).1
| jstep_phase id p m : jobs_step d (SetUpdateJobPhase id p m d).1
| jstep_self id : jobs_step d (MarkUpdateJobSelf id d).1
| jstep_finish now id p m e : jobs_step d (FinishUpdateJob now id p m e d).1.

Lemma elem_of_jobs_id id (l : list UpdateJob) :
  existsb (job_id id) l = false -> forall j, j ∈ l -> uj_ID j <> id.
Proof.
  intros H j Hj Hid. apply not_true_iff_false in H. apply H.
  apply existsb_exists. exists j. rewrite <- list_elem_of_In. split; [done|].
  by apply String.eqb_eq.
Qed.

Lemma jobs_step_keys d d' :
  jobs_step d d' -> NoDup (map uj_ID (db_jobs d)) -> NoDup (map uj_ID (db_jobs d')).
Proof.
  destruct 1; intros Hnd; simpl; try (by rewrite update_rows_key).
  unfold StartUpdateJob. destruct (existsb _ _) eqn:E; simpl; [by rewrite update_rows_key|].
  rewrite map_app. apply NoDup_app. split; [done|]. split; [|apply NoDup_singleton].
  intros x Hx Hx'. apply list_elem_of_singleton in Hx' as ->. simpl in *.
  apply list_elem_of_In, in_map_iff in Hx as (j' & Hj & Hin).
  eapply elem_of_jobs_id; [exact E|by apply list_elem_of_In|done].
Qed.

Lemma jobs_step_grows d d' j :
  jobs_step d d' -> j ∈ db_jobs d ->
  exists j', j' ∈ db_jobs d' /\ uj_ID j' = uj_ID j /\ (uj_Done j = true -> uj_Done j' = true).
Proof.
  assert (Hup : forall p f, (forall r, uj_ID (f r) = uj_ID r) ->
    (forall r, uj_Done r = true -> uj_Done (f r) = true) -> j ∈ db_jobs d ->
    exists j', j' ∈ update_rows p f (db_jobs d) /\ uj_ID j' = uj_ID j
               /\ (uj_Done j = true -> uj_Done j' = true)).
  { intros p f Hid Hd Hj. exists (if p j then f j else j). split; [|by destruct (p j); auto].
    apply elem_of_update. eauto. }
  destruct 1; intros Hj; simpl; [|by apply Hup..].
  unfold StartUpdateJob. destruct (existsb _ _); simpl; [by apply Hup|].
  exists j. set_solver.
Qed.

(** Once an update job is finished no later accessor reopens it: it reads back
    as done and is never listed as active again. *)
Theorem finished_jobs_stay_finished d d' j :
  rtc jobs_step d d' -> NoDup (map uj_ID (db_jobs d)) ->
  j ∈ db_jobs d -> uj_Done j = true ->
  exists j', (UpdateJobByID (uj_ID j) d').2 = Ok j' /\ uj_Done j' = true
             /\ j' ∉ default [] (ok_opt (ActiveUpdateJobs d').2).
Proof.
  intros Hr Hnd Hj Hdone.
  assert (H : NoDup (map uj_ID (db_jobs d')) /\
    exists j', j' ∈ db_jobs d' /\ uj_ID j' = uj_ID j /\ uj_Done j' = true).
  { revert j Hj Hdone Hnd. induction Hr as [d|d d1 d' Hs _ IH]; intros j Hj Hdone Hnd; [eauto|].
    destruct (jobs_step_grows _ _ _ Hs Hj) as (j1 & Hj1 & Hid & Hd).
    destruct (IH j1 Hj1 (Hd Hdone)) as (Hnd' & j' & ? & ? & ?).
    - by eapply jobs_step_keys.
    - split; [done|]. exists j'. repeat split; congruence. }
  destruct H as (Hnd' & j' & Hj' & Hid & Hd). exists j'. split; [|split; [done|]].
  - unfold UpdateJobByID. simpl. eapply (query_row_key uj_ID); [|done..].
    intros x. apply String.eqb_eq.
  - simpl. rewrite sort_slice_elem_of, elem_of_select. rewrite Hd. naive_solver.
Qed.

(** ** Instances at concrete inputs *)
Definition demo_job : UpdateJob :=
  {| uj_ID := "j1"; uj_ContainerName := "nginx"; uj_Image := ""; uj_Phase := "done";
     uj_Message := "Updated"; uj_Error := ""; uj_Self := false; uj_Done := true;
     uj_StartedAt := 1; uj_FinishedAt := 2 |}.
Definition demo_jobs : DB := set_jobs empty_db [demo_job].

Lemma finished_jobs_stay_finished_witness :
  exists j', (UpdateJobByID "j1" (SetUpdateJobPhase "j1" "pulling" "late" demo_jobs).1).2 = Ok j'
             /\ uj_Done j' = true.
Proof.
  destruct (finished_jobs_stay_finished demo_jobs
    (SetUpdateJobPhase "j1" "pulling" "late" demo_jobs).1 demo_job
    (rtc_once _ _ (jstep_phase demo_jobs "j1" "pulling" "late"))
    (NoDup_singleton "j1") ltac:(simpl; set_solver) eq_refl) as (j' & H & Hd & _).
  exists j'. split; [exact H|exact Hd].
Defined.
