(* ===== verification/Docker.v ===== *)
(** * The Docker Engine API, as Veery uses it

    The client library (github.com/docker/docker) is not part of the
    repository: its data types are records of the fields Veery reads or writes,
    and the daemon behind it is the class [Env], whose operations thread an
    abstract environment state and may return anything. [Env] also holds the
    rest of the outside world the docker package touches: the clock, the random
    generator, timers, the process environment, and I/O faults of SQLite. *)
From S2P Require Import Prelude GoStrings.
Open Scope Z_scope.

(** ** Data (github.com/docker/docker/api/types) *)

Record ContainerState := {
  st_Running : bool;
  st_Restarting : bool;
  st_Dead : bool;
  st_ExitCode : Z;
  st_Health : option string   (* nil, or the health check's Status *)
}.

Definition Healthy : string := "healthy".
Definition Unhealthy : string := "unhealthy".
Definition NoHealthcheck : string := "none".

Record Config := {
  cfg_Image : string;
  cfg_Entrypoint : list string;
  cfg_Cmd : list string;
  cfg_Env : list string;
  cfg_User : string;
  cfg_WorkingDir : string;
  cfg_Labels : gmap string string;
  cfg_Healthcheck : option (list string);
  cfg_other : string             (* every other field, carried along unread *)
}.

Definition with_image (img : string) (c : Config) : Config :=
  {| cfg_Image := img; cfg_Entrypoint := cfg_Entrypoint c; cfg_Cmd := cfg_Cmd c;
     cfg_Env := cfg_Env c; cfg_User := cfg_User c; cfg_WorkingDir := cfg_WorkingDir c;
     cfg_Labels := cfg_Labels c; cfg_Healthcheck := cfg_Healthcheck c;
     cfg_other := cfg_other c |}.

Record HostConfig := {
  hc_Binds : list string;
  hc_Mounts : list string;
  hc_VolumesFrom : list string;
  hc_GroupAdd : list string;
  hc_Privileged : bool;
  hc_RestartPolicy : string;
  hc_other : string              (* ports, limits and every other field *)
}.

Record EndpointSettings := {
  ep_IPAMConfig : option string;
  ep_Aliases : list string;
  ep_NetworkID : string;
  ep_EndpointID : string;
  ep_IPAddress : string;
  ep_Gateway : string;
  ep_IPPrefixLen : Z;
  ep_MacAddress : string;
  ep_IPv6Gateway : string;
  ep_GlobalIPv6Address : string;
  ep_GlobalIPv6PrefixLen : Z;
  ep_other : string
}.

(** [map[string]*network.EndpointSettings] *)
Abbreviation Endpoints := (gmap string (option EndpointSettings)).

Record InspectResponse := {
  in_ID : string;
  in_Name : string;
  in_Image : string;
  in_State : option ContainerState;
  in_Config : option Config;
  in_HostConfig : option HostConfig;
  in_Networks : option Endpoints;    (* [None]: NetworkSettings is nil *)
  in_RestartCount : Z
}.

Record Summary := {
  sum_ID : string;
  sum_Names : list string;
  sum_Image : string;
  sum_State : string;
  sum_Status : string;
  sum_Labels : gmap string string;
  sum_Created : Z
}.

(** [c.Labels[k]]: the zero value for a missing key. *)
Definition label (m : gmap string string) (k : string) : string := default "" (m !! k).

Record ImageInspect := { img_ID : string; img_RepoDigests : list string }.

(** One decoded message of the pull stream. *)
Record PullEvent := {
  pe_ID : string;
  pe_Status : string;
  pe_Error : string;
  pe_Current : Z;
  pe_Total : Z
}.

(** A pull stream: its messages, then either end of file or a decode error. *)
Record PullStream := { ps_events : list PullEvent; ps_end : option error }.

(** The three outcomes of waiting for a container with a deadline. *)
Inductive WaitOutcome := WaitDone | WaitErr (e : error) | WaitCtx (e : error).

(** ** The outside world *)
Class Env (E : Type) := {
  (* the Docker daemon *)
  cli_ContainerList : bool -> E -> E * result (list Summary);
  cli_ContainerInspect : string -> E -> E * result InspectResponse;
  cli_ContainerCreate : Config -> option HostConfig -> Endpoints -> string -> E -> E * result string;
  cli_ContainerStart : string -> E -> E * option error;
  cli_ContainerStop : string -> E -> E * option error;
  cli_ContainerRestart : string -> E -> E * option error;
  cli_ContainerWait : string -> E -> E * WaitOutcome;
  cli_ContainerRename : string -> string -> E -> E * option error;
  cli_ContainerRemove : string -> E -> E * option error;
  cli_NetworkConnect : string -> string -> option EndpointSettings -> E -> E * option error;
  cli_ImagePull : string -> E -> E * result PullStream;
  cli_ImageInspect : string -> E -> E * result ImageInspect;
  cli_ImageRemove : string -> E -> E * option error;
  cli_DistributionInspect : string -> E -> E * result string;
  (* the host *)
  time_Now : E -> E * Z;                      (* nanoseconds *)
  select_1s : E -> E * option error;          (* ctx.Done() first, or one second passed *)
  ctx_Err : E -> E * option error;
  rand_ID : E -> E * string;
  os_Getenv : string -> E -> E * string;
  proc_lines : string -> E -> E * option (list string);  (* the lines of a file, if it opens *)
  os_Hostname : E -> E * result string;
  sql_fault : E -> E * option error           (* does the next SQL statement fail to run? *)
}.

(** ** Decidable equality and enumerability of the data *)
#[export] Instance ContainerState_eq_dec : EqDecision ContainerState.
Proof. solve_decision. Defined.

#[export] Instance Config_eq_dec : EqDecision Config.
Proof. solve_decision. Defined.

#[export] Instance HostConfig_eq_dec : EqDecision HostConfig.
Proof. solve_decision. Defined.

#[export] Instance EndpointSettings_eq_dec : EqDecision EndpointSettings.
Proof. solve_decision. Defined.

#[export] Instance Config_countable : Countable Config.
Proof.
  apply (inj_countable'
    (fun c => (cfg_Image c, cfg_Entrypoint c, cfg_Cmd c, cfg_Env c, cfg_User c,
               (cfg_WorkingDir c, cfg_Labels c, cfg_Healthcheck c, cfg_other c)))
    (fun p => match p with
      | (a, b, c, d, e, (f, g, h, i)) =>
          {| cfg_Image := a; cfg_Entrypoint := b; cfg_Cmd := c; cfg_Env := d; cfg_User := e;
             cfg_WorkingDir := f; cfg_Labels := g; cfg_Healthcheck := h; cfg_other := i |}
      end)). by intros [].
Defined.

#[export] Instance HostConfig_countable : Countable HostConfig.
Proof.
  apply (inj_countable'
    (fun h => (hc_Binds h, hc_Mounts h, hc_VolumesFrom h, hc_GroupAdd h,
               (hc_Privileged h, hc_RestartPolicy h, hc_other h)))
    (fun p => match p with
      | (a, b, c, d, (e, f, g)) =>
          {| hc_Binds := a; hc_Mounts := b; hc_VolumesFrom := c; hc_GroupAdd := d;
             hc_Privileged := e; hc_RestartPolicy := f; hc_other := g |}
      end)). by intros [].
Defined.

#[export] Instance EndpointSettings_countable : Countable EndpointSettings.
Proof.
  apply (inj_countable'
    (fun e => (ep_IPAMConfig e, ep_Aliases e, ep_NetworkID e, ep_EndpointID e, ep_IPAddress e,
               (ep_Gateway e, ep_IPPrefixLen e, ep_MacAddress e, ep_IPv6Gateway e,
                (ep_GlobalIPv6Address e, ep_GlobalIPv6PrefixLen e, ep_other e))))
    (fun p => match p with
      | (a, b, c, d, e, (f, g, h, i, (j, k, l))) =>
          {| ep_IPAMConfig := a; ep_Aliases := b; ep_NetworkID := c; ep_EndpointID := d;
             ep_IPAddress := e; ep_Gateway := f; ep_IPPrefixLen := g; ep_MacAddress := h;
             ep_IPv6Gateway := i; ep_GlobalIPv6Address := j; ep_GlobalIPv6PrefixLen := k;
             ep_other := l |}
      end)). by intros [].
Defined.
