(* ===== verification/World.v ===== *)
(** * The docker manager's state and its effects

    [docker.Manager] (src/internal/docker/client.go) as a state monad with
    panics over a [World]: the outside world, the database, the manager's own
    maps, and the trace of the calls that leave the process. The weakest
    precondition [wp] and the trace specification [emits] are the program
    logic every docker component is verified with. *)
From S2P Require Import Prelude GoStrings Api Db Docker.
Open Scope Z_scope.

(** [json.Marshal] and [json.Unmarshal] at one type, and their round trip. An
    [Unmarshal] that fails may have stored the values it decoded before it met
    the error: [json_partial] is what its destination then holds. *)
Class JsonCodec (A : Type) := {
  json_Marshal : A -> string;
  json_Unmarshal : string -> option A;
  json_partial : string -> A -> A
}.

(** [dst] after [json.Unmarshal([]byte(v), &dst)], whatever it returned. *)
Definition unmarshal_into {A} `{!JsonCodec A} (v : string) (dst : A) : A :=
  match json_Unmarshal v with Some a => a | None => json_partial v dst end.

Class JsonCodecOk (A : Type) `{!JsonCodec A} : Prop :=
  json_roundtrip : forall a : A, json_Unmarshal (json_Marshal a) = Some a.

(** The calls that leave the process, with what came back, and the mutex of a
    container taken and given back. *)
Inductive Ev :=
| EvInspect (ref : string) (r : result InspectResponse)
| EvCreate (name : string) (cfg : Config) (hc : option HostConfig) (net : Endpoints) (r : result string)
| EvStart (ref : string) (e : option error)
| EvStop (ref : string) (e : option error)
| EvRestart (ref : string) (e : option error)
| EvRename (ref name : string) (e : option error)
| EvRemove (ref : string) (e : option error)
| EvConnect (net id : string) (ep : option EndpointSettings) (e : option error)
| EvPull (ref : string) (ok : bool)
| EvImageRemove (ref : string)
| EvBroadcast (m : WSMessage)
| EvNotify (ev title body : string) (meta : EventMeta)
| EvRaidStart (name : string) (e : option error)
| EvGoSend (urls : list string) (title body : string)   (* a goroutine that delivers *)
| EvSend (url msg title : string) (errs : list (option error))
| EvLock (name : string)
| EvUnlock (name : string).

(** Whether a call changes a container on the daemon. *)
Definition mutates (e : Ev) : bool :=
  match e with
  | EvCreate _ _ _ _ _ | EvStart _ _ | EvStop _ _ | EvRestart _ _
  | EvRename _ _ _ | EvRemove _ _ | EvConnect _ _ _ _ => true
  | _ => false
  end.

(** [Manager]: the maps its mutexes guard. A mutex that is held is a name in
    [m_locked]; [m_selfID] is [None] until [selfOnce] has run; [m_pub] and
    [m_notif] say whether the optional publisher and notifier are attached. *)
Record Mgr := {
  m_updateAvail : gmap string bool;
  m_availBaseline : bool;
  m_lastStatus : gmap string ContainerStatus;
  m_statusBaseline : bool;
  m_locked : gset string;
  m_activeJobs : gmap string JobProgress;
  m_selfID : option string;
  m_pub : bool;
  m_notif : bool
}.

(** [NewManager], with what main.go attaches to it. *)
Definition NewManager (pub notif : bool) : Mgr :=
  {| m_updateAvail := ∅; m_availBaseline := false; m_lastStatus := ∅;
     m_statusBaseline := false; m_locked := ∅; m_activeJobs := ∅;
     m_selfID := None; m_pub := pub; m_notif := notif |}.

Definition set_avail (m : Mgr) a b : Mgr :=
  {| m_updateAvail := a; m_availBaseline := b; m_lastStatus := m_lastStatus m;
     m_statusBaseline := m_statusBaseline m; m_locked := m_locked m;
     m_activeJobs := m_activeJobs m; m_selfID := m_selfID m; m_pub := m_pub m;
     m_notif := m_notif m |}.

Definition set_status (m : Mgr) s b : Mgr :=
  {| m_updateAvail := m_updateAvail m; m_availBaseline := m_availBaseline m;
     m_lastStatus := s; m_statusBaseline := b; m_locked := m_locked m;
     m_activeJobs := m_activeJobs m; m_selfID := m_selfID m; m_pub := m_pub m;
     m_notif := m_notif m |}.

Definition set_run (m : Mgr) l j i : Mgr :=
  {| m_updateAvail := m_updateAvail m; m_availBaseline := m_availBaseline m;
     m_lastStatus := m_lastStatus m; m_statusBaseline := m_statusBaseline m;
     m_locked := l; m_activeJobs := j; m_selfID := i; m_pub := m_pub m;
     m_notif := m_notif m |}.

Definition set_locked (m : Mgr) l : Mgr := set_run m l (m_activeJobs m) (m_selfID m).
Definition set_activeJobs (m : Mgr) j : Mgr := set_run m (m_locked m) j (m_selfID m).
Definition set_selfID (m : Mgr) i : Mgr := set_run m (m_locked m) (m_activeJobs m) i.

Record World (E : Type) := mkWorld {
  w_env : E;
  w_db : DB;
  w_mgr : Mgr;
  w_trace : list Ev
}.
Arguments mkWorld {E}.
Arguments w_env {E}.
Arguments w_db {E}.
Arguments w_mgr {E}.
Arguments w_trace {E}.

(** A Go function returns or panics (a nil dereference, a slice out of range). *)
Inductive outcome (A : Type) :=
| Ret (a : A)
| Panic (msg : string).
Arguments Ret {A} a.
Arguments Panic {A} msg.

Definition M (E A : Type) : Type := World E -> World E * outcome A.

#[export] Instance M_ret {E} : MRet (M E) := fun A a w => (w, Ret a).
#[export] Instance M_bind {E} : MBind (M E) := fun A B k m w =>
  match m w with
  | (w', Ret a) => k a w'
  | (w', Panic s) => (w', Panic s)
  end.

Section Primitives.
Context {E : Type}.

Definition panic {A} (s : string) : M E A := fun w => (w, Panic s).

Definition set_env (w : World E) (e : E) : World E :=
  mkWorld e (w_db w) (w_mgr w) (w_trace w).
Definition set_db (w : World E) (d : DB) : World E :=
  mkWorld (w_env w) d (w_mgr w) (w_trace w).
Definition set_mgr (w : World E) (m : Mgr) : World E :=
  mkWorld (w_env w) (w_db w) m (w_trace w).
Definition log (w : World E) (l : list Ev) : World E :=
  mkWorld (w_env w) (w_db w) (w_mgr w) (w_trace w ++ l).

(** A call to the outside, and the events it leaves in the trace. *)
Definition call {A} (op : E -> E * A) (ev : A -> list Ev) : M E A := fun w =>
  let r := op (w_env w) in (log (set_env w r.1) (ev r.2), Ret r.2).

Definition gets {A} (f : Mgr -> A) : M E A := fun w => (w, Ret (f (w_mgr w))).
Definition modify (f : Mgr -> Mgr) : M E unit := fun w => (set_mgr w (f (w_mgr w)), Ret tt).
Definition tell (l : list Ev) : M E unit := fun w => (log w l, Ret tt).

(** [for _, x := range l { body }] *)
Fixpoint for_each {A} (l : list A) (body : A -> M E unit) : M E unit :=
  match l with
  | [] => mret tt
  | x :: l' => body x ≫= fun _ => for_each l' body
  end.

(** ... whose body may [return err]. *)
Fixpoint for_err {A} (l : list A) (body : A -> M E (option error)) : M E (option error) :=
  match l with
  | [] => mret None
  | x :: l' => body x ≫= fun r =>
      match r with Some e => mret (Some e) | None => for_err l' body end
  end.
(** A loop that carries local variables. *)
Fixpoint for_fold {A S} (l : list A) (body : S -> A -> M E S) (s : S) : M E S :=
  match l with
  | [] => mret s
  | x :: l' => body s x ≫= fun s' => for_fold l' body s'
  end.
End Primitives.

(** [m := map[..]..{}; for _, x := range l { m[key(x)] = x }]: the last wins. *)
Definition index_by {A K} `{Countable K} (key : A -> K) (l : list A) : gmap K A :=
  fold_left (fun m x => <[key x := x]> m) l ∅.

(** [x, err := m; if err != nil { return .., err }] in a function that returns
    a value and an error. *)
Notation "'let?' x ':=' m 'in' k" :=
  (m ≫= fun r => match r with Ok x => k | Fail e => mret (Fail e) end)
  (at level 10, x pattern, k at level 200).

(** The same in a function that returns only an error. *)
Notation "'let!' x ':=' m 'in' k" :=
  (m ≫= fun r => match r with Ok x => k | Fail e => mret (Some e) end)
  (at level 10, x pattern, k at level 200).

(** [if err := m; err != nil { return wrap(err) }] *)
Notation "'unless_err' m 'or' f 'in' k" :=
  (m ≫= fun r => match r with None => k | Some e => mret (Some (f e)) end)
  (at level 10, m at level 200, f at level 200, k at level 200).

Section Calls.
Context {E : Type} `{!Env E}.

Definition ContainerList (all : bool) : M E (result (list Summary)) :=
  call (cli_ContainerList all) (fun _ => []).
Definition ContainerInspect (ref : string) : M E (result InspectResponse) :=
  call (cli_ContainerInspect ref) (fun r => [EvInspect ref r]).
Definition ContainerCreate (cfg : Config) hc net name : M E (result string) :=
  call (cli_ContainerCreate cfg hc net name) (fun r => [EvCreate name cfg hc net r]).
Definition ContainerStart (ref : string) : M E (option error) :=
  call (cli_ContainerStart ref) (fun e => [EvStart ref e]).
Definition ContainerStop (ref : string) : M E (option error) :=
  call (cli_ContainerStop ref) (fun e => [EvStop ref e]).
Definition ContainerRestart (ref : string) : M E (option error) :=
  call (cli_ContainerRestart ref) (fun e => [EvRestart ref e]).
Definition ContainerWait (ref : string) : M E WaitOutcome :=
  call (cli_ContainerWait ref) (fun _ => []).
Definition ContainerRename (ref name : string) : M E (option error) :=
  call (cli_ContainerRename ref name) (fun e => [EvRename ref name e]).
Definition ContainerRemove (ref : string) : M E (option error) :=
  call (cli_ContainerRemove ref) (fun e => [EvRemove ref e]).
Definition NetworkConnect (net id : string) ep : M E (option error) :=
  call (cli_NetworkConnect net id ep) (fun e => [EvConnect net id ep e]).
Definition ImagePull (ref : string) : M E (result PullStream) :=
  call (cli_ImagePull ref) (fun r => [EvPull ref (is_ok r)]).
Definition ImageInspect_ (ref : string) : M E (result ImageInspect) :=
  call (cli_ImageInspect ref) (fun _ => []).
Definition ImageRemove (ref : string) : M E (option error) :=
  call (cli_ImageRemove ref) (fun _ => [EvImageRemove ref]).
Definition DistributionInspect (ref : string) : M E (result string) :=
  call (cli_DistributionInspect ref) (fun _ => []).
Definition Now : M E Z := call time_Now (fun _ => []).
Definition ctxErr : M E (option error) := call ctx_Err (fun _ => []).
Definition selectSecond : M E (option error) := call select_1s (fun _ => []).

(** [time.Now().Unix()] *)
Definition second : Z := 10 ^ 9.
Definition unixNow : M E Z := Now ≫= fun t => mret (t / second).

(** [genID] (lifecycle.go): 12 random bytes in hexadecimal. *)
Definition genID : M E string := call rand_ID (fun _ => []).

(** A store method: the statement does not run, or runs to completion. *)
Definition sql {A} (s : Sql A) : M E (result A) := fun w =>
  match sql_fault (w_env w) with
  | (e', Some err) => (set_env w e', Ret (Fail err))
  | (e', None) => let r := s (w_db w) in (set_db (set_env w e') r.1, Ret r.2)
  end.

(** [m.notify] (notify.go): nothing without a notifier. *)
Definition notify (ev : NotificationEvent) (title body : string) (meta : EventMeta) : M E unit :=
  gets m_notif ≫= fun n => if (n : bool) then tell [EvNotify ev title body meta] else mret tt.

(** [m.pub.Broadcast], nothing without a publisher. *)
Definition broadcast (msg : WSMessage) : M E unit :=
  gets m_pub ≫= fun p => if (p : bool) then tell [EvBroadcast msg] else mret tt.

(** [l.Lock()] on the container's mutex: the goroutine goes on once it holds it. *)
Definition Lock (name : string) : M E unit :=
  modify (fun m => set_locked m ({[name]} ∪ m_locked m)) ≫= fun _ => tell [EvLock name].
Definition Unlock (name : string) : M E unit :=
  modify (fun m => set_locked m (m_locked m ∖ {[name]})) ≫= fun _ => tell [EvUnlock name].
(** [lock.Lock(); defer lock.Unlock()] around a body, also when it panics. *)
Definition locked {A} (name : string) (body : M E A) : M E A := fun w =>
  match Lock name w with
  | (w1, _) => match body w1 with
               | (w2, o) => ((Unlock name w2).1, o)
               end
  end.

(** [if !lock.TryLock() { return busy }; defer lock.Unlock()] before a body. *)
Definition tryLocked {A} (name : string) (busy : A) (body : M E A) : M E A :=
  gets m_locked ≫= fun l => if decide (name ∈ l) then mret busy else locked name body.

(** [withContainerLock] (client.go): the lock of the container [ref] resolves
    to, or of [ref] itself when it cannot be inspected. *)
Definition withContainerLock {A} (ref : string) (fn : M E A) : M E A :=
  ContainerInspect ref ≫= fun r =>
  let name := match r with Ok insp => TrimPrefix (in_Name insp) "/" | Fail _ => ref end in
  locked name fn.

(** [setUpdateAvailable], [updateAvailableFor] (client.go). *)
Definition setUpdateAvailable (name : string) (avail : bool) : M E unit :=
  modify (fun m => set_avail m (<[name := avail]> (m_updateAvail m)) (m_availBaseline m)).
Definition updateAvailableFor (name : string) : M E bool :=
  gets (fun m => map_bool (m_updateAvail m) name).
End Calls.

(** A run in which no statement faults. *)
Definition no_faults {E} `{!Env E} : Prop := forall e : E, (sql_fault e).2 = None.

(** ** Program logic *)
Section Logic.
Context {E : Type}.

Definition wp {A} (m : M E A) (Q : outcome A -> World E -> Prop) (w : World E) : Prop :=
  Q (m w).2 (m w).1.

Lemma wp_ret {A} (a : A) Q w : Q (Ret a) w -> wp (mret a) Q w.
Proof. done. Qed.

Lemma wp_panic {A} s (Q : outcome A -> World E -> Prop) w : Q (Panic s) w -> wp (panic s) Q w.
Proof. done. Qed.

Lemma wp_bind {A B} (m : M E A) (k : A -> M E B) Q w :
  wp m (fun o w' => match o with Ret a => wp (k a) Q w' | Panic s => Q (Panic s) w' end) w ->
  wp (m ≫= k) Q w.
Proof. unfold wp, mbind, M_bind. destruct (m w) as [w' [a|s]]; done. Qed.

Lemma bind_run {A B} (m : M E A) (k : A -> M E B) w w' a :
  m w = (w', Ret a) -> (m ≫= k) w = k a w'.
Proof. unfold mbind, M_bind. by intros ->. Qed.

Lemma bind_assoc {A B C} (m : M E A) (k : A -> M E B) (h : B -> M E C) w :
  ((m ≫= k) ≫= h) w = (m ≫= fun a => k a ≫= h) w.
Proof. unfold mbind, M_bind. by destruct (m w) as [w' [a|s]]. Qed.

Lemma bind_ext {A B} (m : M E A) (k k' : A -> M E B) w : (forall a w', k a w' = k' a w') -> (m ≫= k) w = (m ≫= k') w.
Proof. intros Hk. unfold mbind, M_bind. destruct (m w) as [w' [a|s]]; [apply Hk|done]. Qed.

Lemma bind_run_panic {A B} (m : M E A) (k : A -> M E B) w w' s :
  m w = (w', Panic s) -> (m ≫= k) w = (w', Panic s).
Proof. unfold mbind, M_bind. by intros ->. Qed.

Lemma wp_mono {A} (m : M E A) (P Q : outcome A -> World E -> Prop) w :
  wp m P w -> (forall o w', P o w' -> Q o w') -> wp m Q w.
Proof. unfold wp. eauto. Qed.

Lemma wp_call {A} (op : E -> E * A) ev Q w :
  (forall e r, op (w_env w) = (e, r) -> Q (Ret r) (log (set_env w e) (ev r))) ->
  wp (call op ev) Q w.
Proof. intros H. unfold wp, call. simpl. apply H. by destruct (op (w_env w)). Qed.

Lemma wp_gets {A} (f : Mgr -> A) Q w : Q (Ret (f (w_mgr w))) w -> wp (gets f) Q w.
Proof. done. Qed.

Lemma wp_modify f Q w : Q (Ret tt) (set_mgr w (f (w_mgr w))) -> wp (modify f) Q w.
Proof. done. Qed.

Lemma wp_tell l Q w : Q (Ret tt) (log w l) -> wp (tell l) Q w.
Proof. done. Qed.

Lemma wp_sql `{!Env E} {A} (s : Sql A) Q w :
  (forall e err, Q (Ret (Fail err)) (set_env w e)) ->
  (forall e, Q (Ret (s (w_db w)).2) (set_db (set_env w e) (s (w_db w)).1)) ->
  wp (sql s) Q w.
Proof.
  intros H1 H2. unfold wp, sql. destruct (sql_fault (w_env w)) as [e [err|]]; simpl; auto.
Qed.

(** ... and where the statement leaves the environment. *)
Lemma wp_sql_at `{!Env E} {A} (s : Sql A) Q w :
  (forall err, Q (Ret (Fail err)) (set_env w (sql_fault (w_env w)).1)) ->
  Q (Ret (s (w_db w)).2) (set_db (set_env w (sql_fault (w_env w)).1) (s (w_db w)).1) ->
  wp (sql s) Q w.
Proof.
  intros H1 H2. unfold wp, sql. destruct (sql_fault (w_env w)) as [e [err|]]; simpl in *; auto.
Qed.

Lemma sql_run `{!Env E} {A} (s : Sql A) w :
  exists e', (exists err, (sql_fault (w_env w)).2 = Some err /\ sql s w = (set_env w e', Ret (Fail err)))
             \/ sql s w = (set_db (set_env w e') (s (w_db w)).1, Ret (s (w_db w)).2).
Proof.
  unfold sql. destruct (sql_fault (w_env w)) as [e' [err|]]; exists e'; [left; eauto|by right].
Qed.

Lemma sql_run_ok `{!Env E} {A} (s : Sql A) w :
  (forall e : E, (sql_fault e).2 = None) ->
  exists e', sql s w = (set_db (set_env w e') (s (w_db w)).1, Ret (s (w_db w)).2).
Proof.
  intros Hf. unfold sql. specialize (Hf (w_env w)).
  destruct (sql_fault (w_env w)) as [e' [err|]]; simpl in *; [done|]. by exists e'.
Qed.

(** Loop rules: [I done] holds after the iterations over [done]. *)
Lemma wp_for_fold {A S} (I : list A -> S -> World E -> Prop) (l : list A) body
    (Q : outcome S -> World E -> Prop) s w :
  I [] s w ->
  (forall done x s w, I done s w -> x ∈ l ->
     wp (body s x) (fun o w' => match o with
                                | Ret s' => I (done ++ [x]) s' w'
                                | Panic p => Q (Panic p) w'
                                end) w) ->
  (forall s w, I l s w -> Q (Ret s) w) ->
  wp (for_fold l body s) Q w.
Proof.
  intros Hi Hb Hq. assert (Hg : forall done rest s w, done ++ rest = l -> I done s w ->
    wp (for_fold rest body s) Q w).
  { intros done rest. revert done. induction rest as [|x rest IH]; intros done s' w' Hl Hd; simpl.
    - apply wp_ret, Hq. by rewrite <- Hl, app_nil_r.
    - apply wp_bind. eapply wp_mono; [apply (Hb done); [done|set_solver]|].
      intros [s2|p] w2 H2; [|done]. apply (IH (done ++ [x])); [|done]. by rewrite <- app_assoc. }
  by apply (Hg []).
Qed.

Lemma wp_for_each {A} (I : list A -> World E -> Prop) (l : list A) body
    (Q : outcome unit -> World E -> Prop) w :
  I [] w ->
  (forall done x w, I done w -> x ∈ l ->
     wp (body x) (fun o w' => match o with
                              | Ret _ => I (done ++ [x]) w'
                              | Panic p => Q (Panic p) w'
                              end) w) ->
  (forall w, I l w -> Q (Ret tt) w) ->
  wp (for_each l body) Q w.
Proof.
  intros Hi Hb Hq. assert (Hg : forall done rest w, done ++ rest = l -> I done w ->
    wp (for_each rest body) Q w).
  { intros done rest. revert done. induction rest as [|x rest IH]; intros done w' Hl Hd; simpl.
    - apply wp_ret, Hq. by rewrite <- Hl, app_nil_r.
    - apply wp_bind. eapply wp_mono; [apply (Hb done); [done|set_solver]|].
      intros [s2|p] w2 H2; [|done]. apply (IH (done ++ [x])); [|done]. by rewrite <- app_assoc. }
  by apply (Hg []).
Qed.

Lemma log_nil (w : World E) : log w [] = w.
Proof. destruct w. unfold log. simpl. by rewrite app_nil_r. Qed.

Lemma log_log (w : World E) t1 t2 : log (log w t1) t2 = log w (t1 ++ t2).
Proof. unfold log. simpl. by rewrite app_assoc. Qed.

(** ** Trace specifications *)

(** Whatever the outside world answers, [m] appends to the trace some events
    that satisfy [P], with how it ended. *)
Definition emits {A} (m : M E A) (P : outcome A -> list Ev -> Prop) : Prop :=
  forall w, exists t, w_trace (m w).1 = w_trace w ++ t /\ P (m w).2 t.

Lemma emits_mono {A} (m : M E A) (P Q : outcome A -> list Ev -> Prop) :
  emits m P -> (forall o t, P o t -> Q o t) -> emits m Q.
Proof. intros H HPQ w. destruct (H w) as (t & ? & ?). eauto. Qed.

Lemma emits_ret {A} (a : A) (P : outcome A -> list Ev -> Prop) : P (Ret a) [] -> emits (mret a) P.
Proof. intros H w. exists []. simpl. by rewrite app_nil_r. Qed.

Lemma emits_panic {A} s (P : outcome A -> list Ev -> Prop) : P (Panic s) [] -> emits (panic s) P.
Proof. intros H w. exists []. simpl. by rewrite app_nil_r. Qed.

Lemma emits_bind {A B} (m : M E A) (k : A -> M E B) P (R : outcome B -> list Ev -> Prop) :
  emits m P ->
  (forall s t, P (Panic s) t -> R (Panic s) t) ->
  (forall a t1, P (Ret a) t1 -> emits (k a) (fun o t2 => R o (t1 ++ t2))) ->
  emits (m ≫= k) R.
Proof.
  intros Hm Hp Hk w. destruct (Hm w) as (t & Ht & HP).
  unfold mbind, M_bind. destruct (m w) as [w' [a|s]]; simpl in *; [|eauto].
  destruct (Hk a t HP w') as (t2 & Ht2 & HR). exists (t ++ t2).
  split; [|done]. by rewrite Ht2, Ht, app_assoc.
Qed.

Lemma emits_call {A} (op : E -> E * A) ev (P : outcome A -> list Ev -> Prop) :
  (forall r, P (Ret r) (ev r)) -> emits (call op ev) P.
Proof. intros H w. exists (ev (op (w_env w)).2). unfold call. simpl. done. Qed.

Lemma emits_quiet_ext {A} (m : M E A) (P : outcome A -> list Ev -> Prop) :
  (forall w, w_trace (m w).1 = w_trace w) -> (forall o, P o []) -> emits m P.
Proof. intros H HP w. exists []. by rewrite H, app_nil_r. Qed.

Lemma emits_gets {A} (f : Mgr -> A) (P : outcome A -> list Ev -> Prop) :
  (forall a, P (Ret a) []) -> emits (gets f) P.
Proof. intros H w. exists []. simpl. by rewrite app_nil_r. Qed.

Lemma emits_modify f (P : outcome unit -> list Ev -> Prop) : P (Ret tt) [] -> emits (modify f) P.
Proof. intros H w. exists []. simpl. by rewrite app_nil_r. Qed.

Lemma emits_tell l (P : outcome unit -> list Ev -> Prop) : P (Ret tt) l -> emits (tell l) P.
Proof. intros H w. exists l. done. Qed.

Lemma emits_sql `{!Env E} {A} (s : Sql A) (P : outcome (result A) -> list Ev -> Prop) :
  (forall r, P (Ret r) []) -> emits (sql s) P.
Proof.
  intros H w. exists []. unfold sql. rewrite app_nil_r.
  destruct (sql_fault (w_env w)) as [e [err|]]; simpl; auto.
Qed.

(** The world in which the body of a critical section runs. *)
Definition holding (name : string) (w : World E) : World E :=
  log (set_mgr w (set_locked (w_mgr w) ({[name]} ∪ m_locked (w_mgr w)))) [EvLock name].

Lemma locked_run `{!Env E} {A} name (m : M E A) (w : World E) :
  locked name m w =
  (log (set_mgr (m (holding name w)).1
          (set_locked (w_mgr (m (holding name w)).1) (m_locked (w_mgr (m (holding name w)).1) ∖ {[name]})))
       [EvUnlock name], (m (holding name w)).2).
Proof.
  unfold locked. change (Lock name w) with (holding name w, Ret tt). cbn beta iota.
  by destruct (m (holding name w)) as [w2 o].
Qed.

(** A critical section is bracketed by its lock, however its body ends. *)
Lemma emits_locked `{!Env E} {A} name (m : M E A) (P : outcome A -> list Ev -> Prop) :
  emits m (fun o t => P o (EvLock name :: t ++ [EvUnlock name])) -> emits (locked name m) P.
Proof.
  intros H w. rewrite locked_run. cbn [fst snd]. destruct (H (holding name w)) as (t & Ht & HP).
  exists (EvLock name :: t ++ [EvUnlock name]). split; [|done].
  simpl. rewrite Ht. simpl. by rewrite <- !app_assoc.
Qed.

(** The calls of a loop that may stop early: a prefix [done] of the list ran
    without an error; the rest did not run, or its head failed. *)
Inductive err_loop {A} (P : A -> outcome (option error) -> list Ev -> Prop) :
    list A -> outcome (option error) -> list Ev -> Prop :=
| err_loop_nil : err_loop P [] (Ret None) []
| err_loop_next x l o t1 t2 : P x (Ret None) t1 -> err_loop P l o t2 -> err_loop P (x :: l) o (t1 ++ t2)
| err_loop_fail x l e t : P x (Ret (Some e)) t -> err_loop P (x :: l) (Ret (Some e)) t
| err_loop_panic x l s t : P x (Panic s) t -> err_loop P (x :: l) (Panic s) t.

Lemma emits_for_err {A} (l : list A) body (P : A -> outcome (option error) -> list Ev -> Prop) :
  (forall x, x ∈ l -> emits (body x) (P x)) -> emits (for_err l body) (err_loop P l).
Proof.
  induction l as [|x l IH]; intros H; simpl; [apply emits_ret; constructor|].
  eapply emits_bind; [apply H; set_solver|intros; by constructor|].
  intros [e|] t1 H1.
  - apply emits_ret. rewrite app_nil_r. by constructor.
  - eapply emits_mono; [apply IH; set_solver|]. simpl. intros. by constructor.
Qed.

Lemma err_loop_all {A} P (l : list A) t :
  err_loop P l (Ret None) t -> forall x, x ∈ l -> exists t', P x (Ret None) t' /\ t' ⊆ t.
Proof.
  intros H. remember (Ret None) as o eqn:Ho. induction H; try done; intros y Hy; [set_solver|].
  subst. apply elem_of_cons in Hy as [->|Hy].
  - exists t1. split; [done|]. set_solver.
  - destruct (IHerr_loop eq_refl y Hy) as (t' & ? & ?). exists t'. split; [done|]. set_solver.
Qed.

Lemma emits_and {A} (m : M E A) P1 P2 : emits m P1 -> emits m P2 -> emits m (fun o t => P1 o t /\ P2 o t).
Proof.
  intros H1 H2 w. destruct (H1 w) as (t1 & Ht1 & Hp1). destruct (H2 w) as (t2 & Ht2 & Hp2).
  rewrite Ht1 in Ht2. apply app_inv_head in Ht2. subst. eauto.
Qed.

Lemma emits_for_fold {A S} (I : list A -> S -> list Ev -> Prop) (R : list Ev -> Prop) (l : list A)
    (body : S -> A -> M E S) s :
  I [] s [] ->
  (forall done x rest s t, done ++ x :: rest = l -> I done s t ->
     emits (body s x) (fun o t' => match o with Ret s' => I (done ++ [x]) s' (t ++ t') | Panic _ => R (t ++ t') end)) ->
  emits (for_fold l body s) (fun o t => match o with Ret s' => I l s' t | Panic _ => R t end).
Proof.
  intros Hi Hb. assert (Hg : forall rest done s t, done ++ rest = l -> I done s t ->
    emits (for_fold rest body s) (fun o t' => match o with Ret s' => I l s' (t ++ t') | Panic _ => R (t ++ t') end)).
  { induction rest as [|x rest IH]; intros done s1 t Hl Hd; cbn [for_fold].
    - apply emits_ret. rewrite app_nil_r in *. by subst.
    - eapply emits_bind; [by apply (Hb done x rest s1 t)|done|].
      intros s2 t1 Hs2. simpl in Hs2. eapply emits_mono; [apply (IH (done ++ [x]) s2 (t ++ t1)); [|done]|].
      + by rewrite <- app_assoc.
      + intros [s3|msg] t2; by rewrite <- app_assoc. }
  by apply (Hg l [] s []).
Qed.

(** All events satisfy [ok], however [m] ends. *)
Definition emits_only {A} (m : M E A) (ok : Ev -> Prop) : Prop :=
  emits m (fun _ t => Forall ok t).

Lemma emits_only_ret {A} (a : A) ok : emits_only (mret a) ok.
Proof. apply emits_ret. constructor. Qed.

Lemma emits_only_panic {A} s ok : emits_only (panic (A:=A) s) ok.
Proof. apply emits_panic. constructor. Qed.

Lemma emits_only_bind {A B} (m : M E A) (k : A -> M E B) ok :
  emits_only m ok -> (forall a, emits_only (k a) ok) -> emits_only (m ≫= k) ok.
Proof.
  intros Hm Hk. eapply emits_bind; [exact Hm|done|]. intros a t1 H1.
  eapply emits_mono; [apply Hk|]. simpl. intros. by apply Forall_app.
Qed.

Lemma emits_only_mono {A} (m : M E A) (ok ok' : Ev -> Prop) :
  emits_only m ok -> (forall e, ok e -> ok' e) -> emits_only m ok'.
Proof. intros H Hk. eapply emits_mono; [exact H|]. simpl. intros. by eapply Forall_impl. Qed.

Lemma emits_only_for_each {A} (l : list A) (body : A -> M E unit) ok :
  (forall x, x ∈ l -> emits_only (body x) ok) -> emits_only (for_each l body) ok.
Proof.
  induction l as [|x l IH]; simpl; intros H; [apply emits_only_ret|].
  apply emits_only_bind; [apply H; set_solver|]. intros _. apply IH. set_solver.
Qed.

Lemma emits_only_for_err {A} (l : list A) (body : A -> M E (option error)) ok :
  (forall x, x ∈ l -> emits_only (body x) ok) -> emits_only (for_err l body) ok.
Proof.
  induction l as [|x l IH]; simpl; intros H; [apply emits_only_ret|].
  apply emits_only_bind; [apply H; set_solver|]. intros [e|]; [apply emits_only_ret|].
  apply IH. set_solver.
Qed.

Lemma emits_only_for_fold {A S} (l : list A) (body : S -> A -> M E S) s ok :
  (forall s x, x ∈ l -> emits_only (body s x) ok) -> emits_only (for_fold l body s) ok.
Proof.
  revert s. induction l as [|x l IH]; simpl; intros s H; [apply emits_only_ret|].
  apply emits_only_bind; [apply H; set_solver|]. intros s'. apply IH. set_solver.
Qed.

Lemma emits_only_call {A} (op : E -> E * A) ev ok :
  (forall r, Forall ok (ev r)) -> emits_only (call op ev) ok.
Proof. intros. by apply emits_call. Qed.

Lemma emits_only_gets {A} (f : Mgr -> A) ok : emits_only (gets f) ok.
Proof. apply emits_gets. constructor. Qed.

Lemma emits_only_modify f ok : emits_only (modify f) ok.
Proof. apply emits_modify. constructor. Qed.

Lemma emits_only_tell l ok : Forall ok l -> emits_only (tell l) ok.
Proof. intros. by apply emits_tell. Qed.

Lemma emits_only_sql `{!Env E} {A} (s : Sql A) ok : emits_only (sql s) ok.
Proof. apply emits_sql. constructor. Qed.

Lemma emits_only_locked `{!Env E} {A} name (m : M E A) ok :
  ok (EvLock name) -> ok (EvUnlock name) -> emits_only m ok -> emits_only (locked name m) ok.
Proof.
  intros Hl Hu Hm. apply emits_locked. eapply emits_mono; [exact Hm|]. intros o t Ht.
  constructor; [done|]. apply Forall_app. auto.
Qed.

(** ** What a program leaves alone *)

(** The part [p] of the manager's state is the same afterwards. *)
Definition keeps {A X} (p : Mgr -> X) (m : M E A) : Prop :=
  forall w, p (w_mgr (m w).1) = p (w_mgr w).

Lemma keeps_ret {A X} (p : Mgr -> X) (a : A) : keeps p (mret a).
Proof. done. Qed.

Lemma keeps_panic {A X} (p : Mgr -> X) s : keeps p (panic (A:=A) s).
Proof. done. Qed.

Lemma keeps_bind {A B X} (p : Mgr -> X) (m : M E A) (k : A -> M E B) :
  keeps p m -> (forall a, keeps p (k a)) -> keeps p (m ≫= k).
Proof.
  intros Hm Hk w. unfold mbind, M_bind. specialize (Hm w). destruct (m w) as [w' [a|s]]; simpl in *.
  - by rewrite (Hk a w').
  - done.
Qed.

Lemma keeps_call {A X} (p : Mgr -> X) (op : E -> E * A) ev : keeps p (call op ev).
Proof. done. Qed.

Lemma keeps_gets {A X} (p : Mgr -> X) (f : Mgr -> A) : keeps p (gets f).
Proof. done. Qed.

Lemma keeps_tell {X} (p : Mgr -> X) l : keeps p (tell l).
Proof. done. Qed.

Lemma keeps_modify {X} (p : Mgr -> X) f : (forall m, p (f m) = p m) -> keeps p (modify f).
Proof. intros H w. apply H. Qed.

Lemma keeps_sql `{!Env E} {A X} (p : Mgr -> X) (s : Sql A) : keeps p (sql s).
Proof. intros w. unfold sql. by destruct (sql_fault (w_env w)) as [e [err|]]. Qed.

Lemma keeps_locked `{!Env E} {A X} (p : Mgr -> X) name (m : M E A) :
  (forall mg l, p (set_locked mg l) = p mg) -> keeps p m -> keeps p (locked name m).
Proof.
  intros Hp Hm w. rewrite locked_run. simpl. by rewrite Hp, Hm, <- (Hp (w_mgr w) ({[name]} ∪ m_locked (w_mgr w))).
Qed.

Lemma keeps_for_each {A X} (p : Mgr -> X) (l : list A) (body : A -> M E unit) :
  (forall x, keeps p (body x)) -> keeps p (for_each l body).
Proof.
  intros H. induction l as [|x l IH]; simpl; [apply keeps_ret|]. by apply keeps_bind.
Qed.

Lemma keeps_for_fold {A S X} (p : Mgr -> X) (l : list A) (body : S -> A -> M E S) s :
  (forall s x, keeps p (body s x)) -> keeps p (for_fold l body s).
Proof.
  intros H. revert s. induction l as [|x l IH]; intros s; simpl; [apply keeps_ret|]. by apply keeps_bind.
Qed.

Lemma keeps_for_err {A X} (p : Mgr -> X) (l : list A) (body : A -> M E (option error)) :
  (forall x, keeps p (body x)) -> keeps p (for_err l body).
Proof.
  intros H. induction l as [|x l IH]; simpl; [apply keeps_ret|]. apply keeps_bind; [done|].
  intros [e|]; [apply keeps_ret|done].
Qed.

(** The property [P] of the database is preserved. *)
Definition preserves {A} (P : DB -> Prop) (m : M E A) : Prop :=
  forall w, P (w_db w) -> P (w_db (m w).1).

Lemma preserves_ret {A} P (a : A) : preserves P (mret a).
Proof. by intros w. Qed.

Lemma preserves_panic {A} P s : preserves P (panic (A:=A) s).
Proof. by intros w. Qed.

Lemma preserves_bind {A B} P (m : M E A) (k : A -> M E B) :
  preserves P m -> (forall a, preserves P (k a)) -> preserves P (m ≫= k).
Proof.
  intros Hm Hk w HP. unfold mbind, M_bind. specialize (Hm w HP). destruct (m w) as [w' [a|s]]; simpl in *.
  - by apply Hk.
  - done.
Qed.

Lemma preserves_call {A} P (op : E -> E * A) ev : preserves P (call op ev).
Proof. by intros w. Qed.

Lemma preserves_gets {A} P (f : Mgr -> A) : preserves P (gets f).
Proof. by intros w. Qed.

Lemma preserves_tell P l : preserves P (tell l).
Proof. by intros w. Qed.

Lemma preserves_modify P f : preserves P (modify f).
Proof. by intros w. Qed.

Lemma preserves_sql `{!Env E} {A} (P : DB -> Prop) (s : Sql A) :
  (forall d, P d -> P (s d).1) -> preserves P (sql s).
Proof.
  intros H w HP. unfold sql. destruct (sql_fault (w_env w)) as [e [err|]]; simpl; auto.
Qed.

Lemma preserves_locked `{!Env E} {A} P name (m : M E A) : preserves P m -> preserves P (locked name m).
Proof.
  intros Hm w HP. rewrite locked_run. by apply (Hm (holding name w)).
Qed.

Lemma preserves_for_each {A} P (l : list A) (body : A -> M E unit) :
  (forall x, preserves P (body x)) -> preserves P (for_each l body).
Proof.
  intros H. induction l as [|x l IH]; simpl; [apply preserves_ret|]. by apply preserves_bind.
Qed.

Lemma preserves_for_fold {A S} P (l : list A) (body : S -> A -> M E S) s :
  (forall s x, preserves P (body s x)) -> preserves P (for_fold l body s).
Proof.
  intros H. revert s. induction l as [|x l IH]; intros s; simpl; [apply preserves_ret|].
  by apply preserves_bind.
Qed.

Lemma preserves_for_err {A} P (l : list A) (body : A -> M E (option error)) :
  (forall x, preserves P (body x)) -> preserves P (for_err l body).
Proof.
  intros H. induction l as [|x l IH]; simpl; [apply preserves_ret|]. apply preserves_bind; [done|].
  intros [e|]; [apply preserves_ret|done].
Qed.

(** It returns, whatever the outside world answers. *)
Definition no_panic {A} (m : M E A) : Prop := forall w, exists a, (m w).2 = Ret a.

Lemma no_panic_ret {A} (a : A) : no_panic (mret a).
Proof. intros w. by exists a. Qed.

Lemma no_panic_bind {A B} (m : M E A) (k : A -> M E B) :
  no_panic m -> (forall a, no_panic (k a)) -> no_panic (m ≫= k).
Proof.
  intros Hm Hk w. unfold mbind, M_bind. destruct (Hm w) as [a Ha].
  destruct (m w) as [w' o]; simpl in *; subst. apply Hk.
Qed.

Lemma no_panic_call {A} (op : E -> E * A) ev : no_panic (call op ev).
Proof. intros w. by eexists. Qed.

Lemma no_panic_gets {A} (f : Mgr -> A) : no_panic (gets f).
Proof. intros w. by eexists. Qed.

Lemma no_panic_tell l : no_panic (tell l).
Proof. intros w. by eexists. Qed.

Lemma no_panic_modify f : no_panic (modify f).
Proof. intros w. by eexists. Qed.

Lemma no_panic_sql `{!Env E} {A} (s : Sql A) : no_panic (sql s).
Proof. intros w. unfold sql. destruct (sql_fault (w_env w)) as [e [err|]]; by eexists. Qed.

Lemma no_panic_locked `{!Env E} {A} name (m : M E A) : no_panic m -> no_panic (locked name m).
Proof.
  intros Hm w. rewrite locked_run. by apply (Hm (holding name w)).
Qed.

Lemma no_panic_for_each {A} (l : list A) (body : A -> M E unit) :
  (forall x, no_panic (body x)) -> no_panic (for_each l body).
Proof.
  intros H. induction l as [|x l IH]; simpl; [apply no_panic_ret|]. by apply no_panic_bind.
Qed.

Lemma no_panic_for_fold {A S} (l : list A) (body : S -> A -> M E S) s :
  (forall s x, no_panic (body s x)) -> no_panic (for_fold l body s).
Proof.
  intros H. revert s. induction l as [|x l IH]; intros s; simpl; [apply no_panic_ret|].
  by apply no_panic_bind.
Qed.

Lemma no_panic_for_err {A} (l : list A) (body : A -> M E (option error)) :
  (forall x, no_panic (body x)) -> no_panic (for_err l body).
Proof.
  intros H. induction l as [|x l IH]; simpl; [apply no_panic_ret|]. apply no_panic_bind; [done|].
  intros [e|]; [apply no_panic_ret|done].
Qed.
End Logic.

#[export] Hint Resolve emits_only_ret emits_only_panic emits_only_gets emits_only_modify
  emits_only_sql : veery.

(** Decompose a program into its calls and discharge the quiet ones. *)
Ltac emits_step :=
  match goal with
  | |- emits_only (_ ≫= _) _ => apply emits_only_bind; [|intros ?]
  | |- emits_only (mret _) _ => apply emits_only_ret
  | |- emits_only (panic _) _ => apply emits_only_panic
  | |- emits_only (gets _) _ => apply emits_only_gets
  | |- emits_only (modify _) _ => apply emits_only_modify
  | |- emits_only (sql _) _ => apply emits_only_sql
  | |- emits_only (locked _ _) _ => apply emits_only_locked; [done|done|]
  | |- emits_only (call _ _) _ => apply emits_only_call; intros ?
  | |- emits_only (tell _) _ => apply emits_only_tell
  | |- emits_only (for_each _ _) _ => apply emits_only_for_each; intros ? ?
  | |- emits_only (for_fold _ _ _) _ => apply emits_only_for_fold; intros ? ? ?
  | |- emits_only (for_err _ _) _ => apply emits_only_for_err; intros ? ?
  | |- emits_only (match ?x with _ => _ end) _ => destruct x eqn:?
  | |- emits_only (let _ := _ in _) _ => intros ?
  end.

(** The same for the two other logics. *)
Ltac keeps_step :=
  match goal with
  | |- keeps _ (_ ≫= _) => apply keeps_bind; [|intros ?]
  | |- keeps _ (mret _) => apply keeps_ret
  | |- keeps _ (panic _) => apply keeps_panic
  | |- keeps _ (gets _) => apply keeps_gets
  | |- keeps _ (tell _) => apply keeps_tell
  | |- keeps _ (modify _) => apply keeps_modify; intros ?
  | |- keeps _ (sql _) => apply keeps_sql
  | |- keeps _ (locked _ _) => apply keeps_locked; [intros ? ?|]
  | |- keeps _ (call _ _) => apply keeps_call
  | |- keeps _ (for_each _ _) => apply keeps_for_each; intros ?
  | |- keeps _ (for_fold _ _ _) => apply keeps_for_fold; intros ? ?
  | |- keeps _ (for_err _ _) => apply keeps_for_err; intros ?
  | |- keeps _ (match ?x with _ => _ end) => destruct x eqn:?
  | |- keeps _ (let _ := _ in _) => intros ?
  end.

Ltac preserves_step :=
  match goal with
  | |- preserves _ (_ ≫= _) => apply preserves_bind; [|intros ?]
  | |- preserves _ (mret _) => apply preserves_ret
  | |- preserves _ (panic _) => apply preserves_panic
  | |- preserves _ (gets _) => apply preserves_gets
  | |- preserves _ (tell _) => apply preserves_tell
  | |- preserves _ (modify _) => apply preserves_modify
  | |- preserves _ (sql _) => apply preserves_sql; intros ? ?
  | |- preserves _ (locked _ _) => apply preserves_locked
  | |- preserves _ (call _ _) => apply preserves_call
  | |- preserves _ (for_each _ _) => apply preserves_for_each; intros ?
  | |- preserves _ (for_fold _ _ _) => apply preserves_for_fold; intros ? ?
  | |- preserves _ (for_err _ _) => apply preserves_for_err; intros ?
  | |- preserves _ (match ?x with _ => _ end) => destruct x eqn:?
  | |- preserves _ (let _ := _ in _) => intros ?
  end.

Ltac no_panic_step :=
  match goal with
  | |- no_panic (_ ≫= _) => apply no_panic_bind; [|intros ?]
  | |- no_panic (mret _) => apply no_panic_ret
  | |- no_panic (gets _) => apply no_panic_gets
  | |- no_panic (tell _) => apply no_panic_tell
  | |- no_panic (modify _) => apply no_panic_modify
  | |- no_panic (sql _) => apply no_panic_sql
  | |- no_panic (locked _ _) => apply no_panic_locked
  | |- no_panic (call _ _) => apply no_panic_call
  | |- no_panic (for_each _ _) => apply no_panic_for_each; intros ?
  | |- no_panic (for_fold _ _ _) => apply no_panic_for_fold; intros ? ?
  | |- no_panic (for_err _ _) => apply no_panic_for_err; intros ?
  | |- no_panic (match ?x with _ => _ end) => destruct x eqn:?
  | |- no_panic (let _ := _ in _) => intros ?
  end.

(** Unfold the wrappers of the calls, for the tactics above. *)
Ltac open_calls :=
  unfold ContainerList, ContainerInspect, ContainerCreate, ContainerStart, ContainerStop,
    ContainerRestart, ContainerWait, ContainerRename, ContainerRemove, NetworkConnect, ImagePull,
    ImageInspect_, ImageRemove, DistributionInspect, unixNow, Now, ctxErr, selectSecond, genID,
    notify, broadcast, setUpdateAvailable, updateAvailableFor, withContainerLock, tryLocked.

(** ** Programs that only look *)

(** [m] returns, and leaves everything but the outside world as it was. *)
Definition observes {E A} (m : M E A) : Prop := forall w, exists e a, m w = (set_env w e, Ret a).

Section Observes.
Context {E : Type}.

Lemma set_env_same (w : World E) : set_env w (w_env w) = w.
Proof. by destruct w. Qed.

Lemma observes_ret {A} (a : A) : observes (E:=E) (mret a).
Proof. intros w. exists (w_env w), a. by rewrite set_env_same. Qed.

Lemma observes_bind {A B} (m : M E A) (k : A -> M E B) :
  observes m -> (forall a, observes (k a)) -> observes (m ≫= k).
Proof.
  intros Hm Hk w. destruct (Hm w) as (e & a & Hw). destruct (Hk a (set_env w e)) as (e' & b & Hw').
  exists e', b. unfold mbind, M_bind. by rewrite Hw, Hw'.
Qed.

Lemma observes_sql `{!Env E} {A} (s : Sql A) : (forall d, (s d).1 = d) -> observes (sql s).
Proof.
  intros H w. unfold sql. destruct (sql_fault (w_env w)) as [e [err|]].
  - by exists e, (Fail err).
  - exists e, (s (w_db w)).2. by rewrite H.
Qed.

Lemma observes_gets {A} (f : Mgr -> A) : observes (E:=E) (gets f).
Proof. intros w. exists (w_env w), (f (w_mgr w)). unfold gets. by rewrite set_env_same. Qed.

Lemma observes_call {A} (op : E -> E * A) : observes (call op (fun _ => [])).
Proof.
  intros w. exists (op (w_env w)).1, (op (w_env w)).2. unfold call, log. simpl. by rewrite app_nil_r.
Qed.

Lemma observes_for_fold {A S} (l : list A) (body : S -> A -> M E S) s :
  (forall s x, observes (body s x)) -> observes (for_fold l body s).
Proof.
  intros H. revert s. induction l as [|x l IH]; intros s; simpl; [apply observes_ret|]. by apply observes_bind.
Qed.

Lemma wp_observes {A} (m : M E A) Q w :
  observes m -> (forall e a, m w = (set_env w e, Ret a) -> Q (Ret a) (set_env w e)) -> wp m Q w.
Proof. intros Hm HQ. destruct (Hm w) as (e & a & Hw). unfold wp. rewrite Hw. by apply HQ. Qed.
End Observes.

Lemma observes_preserves {E A} P (m : M E A) : observes m -> preserves P m.
Proof. intros H w HP. destruct (H w) as (e & a & ->). exact HP. Qed.

Ltac observes_step :=
  match goal with
  | |- observes (_ ≫= _) => apply observes_bind; [|intros ?]
  | |- observes (mret _) => apply observes_ret
  | |- observes (gets _) => apply observes_gets
  | |- observes (sql _) => apply observes_sql; intros ?
  | |- observes (call _ _) => apply observes_call
  | |- observes (for_fold _ _ _) => apply observes_for_fold; intros ? ?
  | |- observes (match ?x with _ => _ end) => destruct x eqn:?
  | |- observes (let _ := _ in _) => intros ?
  end.

(** ** [index_by] *)
Section IndexBy.
Context {A K : Type} `{Countable K} (key : A -> K).

Lemma index_fold_lookup (l : list A) (m : gmap K A) k :
  is_Some (fold_left (fun m x => <[key x := x]> m) l m !! k) <-> is_Some (m !! k) \/ k ∈ map key l.
Proof.
  revert m. induction l as [|x l IH]; intros m; simpl; [set_solver|].
  rewrite IH, lookup_insert_is_Some, elem_of_cons. destruct (decide (key x = k)); naive_solver.
Qed.

Lemma index_by_is_Some (l : list A) k : is_Some (index_by key l !! k) <-> k ∈ map key l.
Proof. unfold index_by. rewrite index_fold_lookup, lookup_empty, is_Some_alt. naive_solver. Qed.

Lemma index_fold_elem (l : list A) (m : gmap K A) k x :
  fold_left (fun m x => <[key x := x]> m) l m !! k = Some x ->
  m !! k = Some x \/ (x ∈ l /\ key x = k).
Proof.
  revert m. induction l as [|y l IH]; intros m; simpl; [by left|]. intros [Hm|[Hx Hk]]%IH.
  - apply lookup_insert_Some in Hm as [[<- <-]|[_ Hm]]; [right; set_solver|by left].
  - right. set_solver.
Qed.

Lemma index_by_elem (l : list A) k x : index_by key l !! k = Some x -> x ∈ l /\ key x = k.
Proof. intros [Hm|?]%index_fold_elem; [|done]. by rewrite lookup_empty in Hm. Qed.
End IndexBy.
