(* ===== verification/Sim.v ===== *)
(** * A reference environment

    One concrete daemon, clock and codec that satisfy the hypotheses of the
    theorems about [Env] and the codecs. It is not part of Veery: the theorems
    hold for every environment, and their instances at concrete inputs run
    against this one. *)
From S2P Require Import Prelude GoStrings Api Db Docker World.
Open Scope Z_scope.

(** ** A codec for any countable type *)
Fixpoint pos_text (p : positive) : string :=
  match p with
  | xH => ""
  | xO q => String "0" (pos_text q)
  | xI q => String "1" (pos_text q)
  end.

Fixpoint text_pos (s : string) : option positive :=
  match s with
  | EmptyString => Some xH
  | String "0" t => xO <$> text_pos t
  | String "1" t => xI <$> text_pos t
  | String _ _ => None
  end.

Lemma text_pos_text p : text_pos (pos_text p) = Some p.
Proof. induction p as [p IH|p IH|]; simpl; rewrite ?IH; done. Qed.

Definition count_Marshal {A} `{Countable A} (a : A) : string := pos_text (encode a).
Definition count_Unmarshal {A} `{Countable A} (s : string) : option A := text_pos s ≫= decode.

Lemma count_roundtrip {A} `{Countable A} (a : A) : count_Unmarshal (count_Marshal a) = Some a.
Proof. unfold count_Unmarshal, count_Marshal. rewrite text_pos_text. simpl. apply decode_encode. Qed.

#[export] Instance count_codec A `{Countable A} : JsonCodec A | 100 :=
  {| json_Marshal := count_Marshal; json_Unmarshal := count_Unmarshal; json_partial _ dst := dst |}.

#[export] Instance count_codec_ok A `{Countable A} : JsonCodecOk A.
Proof. intros a. apply count_roundtrip. Qed.

(** ** The daemon *)
#[export] Instance NotificationTarget_eq_dec : EqDecision NotificationTarget.
Proof. solve_decision. Defined.

#[export] Instance NotificationTarget_countable : Countable NotificationTarget.
Proof.
  apply (inj_countable' (fun t => (nt_URL t, nt_Events t))
           (fun p => {| nt_URL := p.1; nt_Events := p.2 |})). by intros [].
Defined.

#[export] Instance ContainerStatus_countable : Countable ContainerStatus.
Proof.
  refine (inj_countable'
    (fun s => match s with StatusRunning => 0 | StatusStopped => 1 | StatusNeedsAttention => 2
              | StatusUpdating => 3 | StatusMissing => 4 end)%nat
    (fun n => match n with 0 => StatusRunning | 1 => StatusStopped | 2 => StatusNeedsAttention
              | 3 => StatusUpdating | _ => StatusMissing end)%nat _).
  by intros [].
Defined.

Record Sim := {
  sim_containers : list InspectResponse;
  sim_images : gmap string ImageInspect;      (* by reference *)
  sim_remote : gmap string string;            (* registry digest, by reference *)
  sim_boot : gmap string ContainerState;      (* state a started container takes, by image id *)
  sim_clock : Z;
  sim_next : Z;
  sim_fail : list string                      (* calls that fail *)
}.

Definition sim_empty : Sim :=
  {| sim_containers := []; sim_images := ∅; sim_remote := ∅; sim_boot := ∅;
     sim_clock := 1000 * 10 ^ 9; sim_next := 1; sim_fail := [] |}.

Definition sim_with (s : Sim) cs n : Sim :=
  {| sim_containers := cs; sim_images := sim_images s; sim_remote := sim_remote s;
     sim_boot := sim_boot s; sim_clock := sim_clock s; sim_next := n; sim_fail := sim_fail s |}.

Definition sim_tick (s : Sim) (dt : Z) : Sim :=
  {| sim_containers := sim_containers s; sim_images := sim_images s; sim_remote := sim_remote s;
     sim_boot := sim_boot s; sim_clock := sim_clock s + dt; sim_next := sim_next s;
     sim_fail := sim_fail s |}.

Definition up : ContainerState :=
  {| st_Running := true; st_Restarting := false; st_Dead := false; st_ExitCode := 0; st_Health := None |}.
Definition down (code : Z) : ContainerState :=
  {| st_Running := false; st_Restarting := false; st_Dead := false; st_ExitCode := code; st_Health := None |}.

Definition sim_match (ref : string) (c : InspectResponse) : bool :=
  String.eqb (in_ID c) ref || String.eqb (in_Name c) ("/" +:+ ref).

Definition with_name (n : string) (c : InspectResponse) : InspectResponse :=
  {| in_ID := in_ID c; in_Name := n; in_Image := in_Image c; in_State := in_State c;
     in_Config := in_Config c; in_HostConfig := in_HostConfig c;
     in_Networks := in_Networks c; in_RestartCount := in_RestartCount c |}.

Definition with_state (st : ContainerState) (c : InspectResponse) : InspectResponse :=
  {| in_ID := in_ID c; in_Name := in_Name c; in_Image := in_Image c; in_State := Some st;
     in_Config := in_Config c; in_HostConfig := in_HostConfig c;
     in_Networks := in_Networks c; in_RestartCount := in_RestartCount c |}.

Definition errSim : error := errorf "daemon error".

(** A call named [op] on the container [ref]. *)
Definition sim_on {A} (op ref : string) (f : InspectResponse -> Sim -> Sim * A) (bad : A) (s : Sim) : Sim * A :=
  if bool_decide (op ∈ sim_fail s) then (s, bad)
  else match List.find (sim_match ref) (sim_containers s) with
       | Some c => f c s
       | None => (s, bad)
       end.

Definition sim_update (id : string) (f : InspectResponse -> InspectResponse) (s : Sim) : Sim :=
  sim_with s (map (fun c => if String.eqb (in_ID c) id then f c else c) (sim_containers s)) (sim_next s).

Definition sim_state_text (c : InspectResponse) : string :=
  match in_State c with
  | Some st => if st_Running st then "running" else "exited"
  | None => "created"
  end.

Definition sim_summary (c : InspectResponse) : Summary :=
  {| sum_ID := in_ID c; sum_Names := [in_Name c]; sum_Image := in_Image c;
     sum_State := sim_state_text c;
     sum_Status := (match in_State c with
                   | Some st => if st_Running st then "Up" else "Exited (" +:+ Itoa (st_ExitCode st) +:+ ")"
                   | None => "Created"
                   end);
     sum_Labels := match in_Config c with Some cfg => cfg_Labels cfg | None => ∅ end;
     sum_Created := 0 |}.

Definition sim_image_id (s : Sim) (ref : string) : string :=
  match sim_images s !! ref with Some i => img_ID i | None => ref end.

Definition sim_create cfg hc net (name : string) (s : Sim) : Sim * result string :=
  if bool_decide ("create" ∈ sim_fail s)
     || existsb (fun c => String.eqb (in_Name c) ("/" +:+ name)) (sim_containers s)
  then (s, Fail errSim)
  else
    let id := "c" +:+ Itoa (sim_next s) in
    (sim_with s (sim_containers s ++
       [{| in_ID := id; in_Name := "/" +:+ name; in_Image := sim_image_id s (cfg_Image cfg);
           in_State := Some (down 0); in_Config := Some cfg; in_HostConfig := hc;
           in_Networks := Some net; in_RestartCount := 0 |}]) (sim_next s + 1), Ok id).

Definition sim_start (c : InspectResponse) (s : Sim) : Sim * option error :=
  (sim_update (in_ID c) (with_state (default up (sim_boot s !! in_Image c))) s, None).

Definition sim_rename (name : string) (c : InspectResponse) (s : Sim) : Sim * option error :=
  if existsb (fun c' => String.eqb (in_Name c') ("/" +:+ name)) (sim_containers s) then (s, Some errSim)
  else (sim_update (in_ID c) (with_name ("/" +:+ name)) s, None).

Definition sim_get {A} (m : gmap string A) (ref : string) (s : Sim) : Sim * result A :=
  match m !! ref with Some a => (s, Ok a) | None => (s, Fail errSim) end.

#[export] Instance sim_env : Env Sim := {|
  cli_ContainerList all s :=
    (s, Ok (map sim_summary (List.filter (fun c => all || String.eqb (sim_state_text c) "running")
                               (sim_containers s))));
  cli_ContainerInspect ref := sim_on "inspect" ref (fun c s => (s, Ok c)) (Fail errSim);
  cli_ContainerCreate := sim_create;
  cli_ContainerStart ref := sim_on "start" ref sim_start (Some errSim);
  cli_ContainerStop ref := sim_on "stop" ref
    (fun c s => (sim_update (in_ID c) (with_state (down 0)) s, None)) (Some errSim);
  cli_ContainerRestart ref := sim_on "restart" ref sim_start (Some errSim);
  cli_ContainerWait ref s := (s, WaitDone);
  cli_ContainerRename ref name := sim_on "rename" ref (sim_rename name) (Some errSim);
  cli_ContainerRemove ref := sim_on "remove" ref
    (fun c s => (sim_with s (List.filter (fun c' => negb (String.eqb (in_ID c') (in_ID c)))
                               (sim_containers s)) (sim_next s), None)) (Some errSim);
  cli_NetworkConnect net id ep s := (s, None);
  cli_ImagePull ref s :=
    if bool_decide ("pull" ∈ sim_fail s) then (s, Fail errSim)
    else (s, Ok {| ps_events := []; ps_end := None |});
  cli_ImageInspect ref s := sim_get (sim_images s) ref s;
  cli_ImageRemove ref s := (s, None);
  cli_DistributionInspect ref s := sim_get (sim_remote s) ref s;
  time_Now s := (s, sim_clock s);
  select_1s s := (sim_tick s (10 ^ 9), None);
  ctx_Err s := (s, None);
  rand_ID s := (sim_with s (sim_containers s) (sim_next s + 1), "id" +:+ Itoa (sim_next s));
  os_Getenv _ s := (s, "");
  proc_lines _ s := (s, None);
  os_Hostname s := (s, Fail errSim);
  sql_fault s := (s, None)
|}.

(** A world at rest: the given database and daemon, an idle manager. *)
Definition sim_world (d : DB) (s : Sim) : World Sim := mkWorld s d (NewManager true true) [].

Lemma sim_no_faults : no_faults (E:=Sim).
Proof. intros e. reflexivity. Defined.

(** A daemon, clock and registry that never change: every call answers as it
    does in the state [s]. *)
Definition frozen {T} (s : Sim) : Env T := {|
  cli_ContainerList all e := (e, (cli_ContainerList all s).2);
  cli_ContainerInspect ref e := (e, (cli_ContainerInspect ref s).2);
  cli_ContainerCreate cfg hc net name e := (e, (cli_ContainerCreate cfg hc net name s).2);
  cli_ContainerStart ref e := (e, (cli_ContainerStart ref s).2);
  cli_ContainerStop ref e := (e, (cli_ContainerStop ref s).2);
  cli_ContainerRestart ref e := (e, (cli_ContainerRestart ref s).2);
  cli_ContainerWait ref e := (e, (cli_ContainerWait ref s).2);
  cli_ContainerRename ref name e := (e, (cli_ContainerRename ref name s).2);
  cli_ContainerRemove ref e := (e, (cli_ContainerRemove ref s).2);
  cli_NetworkConnect net id ep e := (e, (cli_NetworkConnect net id ep s).2);
  cli_ImagePull ref e := (e, (cli_ImagePull ref s).2);
  cli_ImageInspect ref e := (e, (cli_ImageInspect ref s).2);
  cli_ImageRemove ref e := (e, (cli_ImageRemove ref s).2);
  cli_DistributionInspect ref e := (e, (cli_DistributionInspect ref s).2);
  time_Now e := (e, (time_Now s).2);
  select_1s e := (e, (select_1s s).2);
  ctx_Err e := (e, (ctx_Err s).2);
  rand_ID e := (e, (rand_ID s).2);
  os_Getenv k e := (e, (os_Getenv k s).2);
  proc_lines p e := (e, (proc_lines p s).2);
  os_Hostname e := (e, (os_Hostname s).2);
  sql_fault e := (e, (sql_fault s).2)
|}.
