(* ===== verification/StoreAuth.v ===== *)
(** * Accounts in the store (src/internal/store: accessors.go, oidc.go)

    Users, passkeys, invites, sessions and external identities, with the
    foreign keys that tie them to users. *)
From S2P Require Import Prelude GoStrings Api Db Docker World Sim.
Open Scope Z_scope.

Definition user_id (id : string) (u : User) : bool := String.eqb (u_ID u) id.
Definition user_exists (d : DB) (id : string) : bool := existsb (user_id id) (db_users d).

(** ** Users *)
Definition CountUsers : Sql Z := fun d => (d, Ok (Z.of_nat (length (db_users d)))).

Definition CreateUser (now : Z) (id name : string) (isAdmin : bool) : Sql User := fun d =>
  let u := {| u_ID := id; u_Name := name; u_IsAdmin := isAdmin; u_CreatedAt := now |} in
  if user_exists d id then (d, Fail errConstraint)
  else (set_users d (db_users d ++ [u]), Ok u).

Definition GetUser (id : string) : Sql User := fun d => (d, query_row (user_id id) (db_users d)).

Definition ListUsers : Sql (list User) := fun d =>
  (d, Ok (sort_slice (fun a b => u_CreatedAt a <? u_CreatedAt b) (db_users d))).

Definition CountAdmins : Sql Z := fun d =>
  (d, Ok (Z.of_nat (length (select_rows u_IsAdmin (db_users d))))).

Definition with_admin (a : bool) (u : User) : User :=
  {| u_ID := u_ID u; u_Name := u_Name u; u_IsAdmin := a; u_CreatedAt := u_CreatedAt u |}.

Definition SetUserAdmin (id : string) (isAdmin : bool) : Sql unit := fun d =>
  match rows_affected (user_id id) (db_users d) with
  | O => (d, Fail errNotFound)
  | S _ => (set_users d (update_rows (user_id id) (with_admin isAdmin) (db_users d)), Ok tt)
  end.

(** [created_by ... ON DELETE SET NULL] *)
Definition forget_creator (id : string) (i : InviteRow) : InviteRow :=
  {| iv_Token := iv_Token i;
     iv_CreatedBy := if bool_decide (iv_CreatedBy i = Some id) then None else iv_CreatedBy i;
     iv_IsAdmin := iv_IsAdmin i; iv_ExpiresAt := iv_ExpiresAt i; iv_UsedAt := iv_UsedAt i;
     iv_CreatedAt := iv_CreatedAt i; iv_ForUser := iv_ForUser i |}.

(** [DELETE FROM users WHERE id=?], with its cascades. *)
Definition delete_user (id : string) (d : DB) : DB :=
  set_accounts d
    (delete_rows (user_id id) (db_users d))
    (delete_rows (fun c => String.eqb (cr_UserID c) id) (db_credentials d))
    (map (forget_creator id)
       (delete_rows (fun i => negb (String.eqb (iv_ForUser i) "") && String.eqb (iv_ForUser i) id) (db_invites d)))
    (delete_rows (fun s => String.eqb (ss_UserID s) id) (db_sessions d))
    (delete_rows (fun o => String.eqb (oi_UserID o) id) (db_oidc d)).

Definition DeleteUser (id : string) : Sql unit := fun d =>
  match rows_affected (user_id id) (db_users d) with
  | O => (d, Fail errNotFound)
  | S _ => (delete_user id d, Ok tt)
  end.

(** ** Passkeys *)

(** The transports are stored joined with commas and split when read. *)
Definition stored_transports (ts : list string) : list string :=
  let s := Join ts "," in if String.eqb s "" then [] else Split s ",".

Definition stored_cred (c : StoredCredential) : StoredCredential :=
  {| cr_ID := cr_ID c; cr_UserID := cr_UserID c; cr_CredID := cr_CredID c; cr_PublicKey := cr_PublicKey c;
     cr_SignCount := cr_SignCount c; cr_Transports := stored_transports (cr_Transports c);
     cr_AAGUID := cr_AAGUID c; cr_Name := cr_Name c; cr_BackupEligible := cr_BackupEligible c;
     cr_BackupState := cr_BackupState c; cr_CreatedAt := cr_CreatedAt c |}.

Definition cred_key (k : string) (c : StoredCredential) : bool := String.eqb (cr_CredID c) k.

Definition AddCredential (c : StoredCredential) : Sql unit := fun d =>
  if existsb (fun x => String.eqb (cr_ID x) (cr_ID c)) (db_credentials d)
     || existsb (cred_key (cr_CredID c)) (db_credentials d)
     || negb (user_exists d (cr_UserID c))
  then (d, Fail errConstraint)
  else (set_credentials d (db_credentials d ++ [stored_cred c]), Ok tt).

Definition CredentialsByUser (userID : string) : Sql (list StoredCredential) := fun d =>
  (d, Ok (sort_slice (fun a b => cr_CreatedAt a <? cr_CreatedAt b)
            (select_rows (fun c => String.eqb (cr_UserID c) userID) (db_credentials d)))).

Definition CredentialByCredID (credID : string) : Sql StoredCredential := fun d =>
  (d, query_row (cred_key credID) (db_credentials d)).

Definition with_count (n : Z) (c : StoredCredential) : StoredCredential :=
  {| cr_ID := cr_ID c; cr_UserID := cr_UserID c; cr_CredID := cr_CredID c; cr_PublicKey := cr_PublicKey c;
     cr_SignCount := n; cr_Transports := cr_Transports c;
     cr_AAGUID := cr_AAGUID c; cr_Name := cr_Name c; cr_BackupEligible := cr_BackupEligible c;
     cr_BackupState := cr_BackupState c; cr_CreatedAt := cr_CreatedAt c |}.

Definition UpdateSignCount (credID : string) (count : Z) : Sql unit := fun d =>
  (set_credentials d (update_rows (cred_key credID) (with_count count) (db_credentials d)), Ok tt).

(** ** Invites *)
Definition invite_token (t : string) (i : InviteRow) : bool := String.eqb (iv_Token i) t.

Definition CreateInvite (now : Z) (token createdBy forUser : string) (isAdmin : bool) (expiresAt : Z) :
    Sql unit := fun d =>
  if existsb (invite_token token) (db_invites d)
     || (negb (String.eqb createdBy "") && negb (user_exists d createdBy))
     || (negb (String.eqb forUser "") && negb (user_exists d forUser))
  then (d, Fail errConstraint)
  else (set_invites d (db_invites d ++
         [{| iv_Token := token; iv_CreatedBy := if String.eqb createdBy "" then None else Some createdBy;
             iv_IsAdmin := isAdmin; iv_ExpiresAt := expiresAt; iv_UsedAt := 0; iv_CreatedAt := now;
             iv_ForUser := forUser |}]), Ok tt).

Definition GetInvite (token : string) : Sql InviteRow := fun d =>
  (d, query_row (invite_token token) (db_invites d)).

(** [used_at=0 AND expires_at>now] *)
Definition pending (now : Z) (i : InviteRow) : bool := (iv_UsedAt i =? 0) && (now <? iv_ExpiresAt i).

Definition with_used (now : Z) (i : InviteRow) : InviteRow :=
  {| iv_Token := iv_Token i; iv_CreatedBy := iv_CreatedBy i; iv_IsAdmin := iv_IsAdmin i;
     iv_ExpiresAt := iv_ExpiresAt i; iv_UsedAt := now; iv_CreatedAt := iv_CreatedAt i;
     iv_ForUser := iv_ForUser i |}.

Definition ConsumeInvite (now : Z) (token : string) : Sql unit := fun d =>
  let p := fun i => invite_token token i && pending now i in
  match rows_affected p (db_invites d) with
  | O => (d, Fail errNotFound)
  | S _ => (set_invites d (update_rows p (with_used now) (db_invites d)), Ok tt)
  end.

Definition DeleteInvite (token : string) : Sql unit := fun d =>
  match rows_affected (invite_token token) (db_invites d) with
  | O => (d, Fail errNotFound)
  | S _ => (set_invites d (delete_rows (invite_token token) (db_invites d)), Ok tt)
  end.

Definition ListPendingInvites (now : Z) : Sql (list InviteRow) := fun d =>
  (d, Ok (sort_slice (fun a b => iv_CreatedAt b <? iv_CreatedAt a)
            (select_rows (pending now) (db_invites d)))).

(** ** Sessions *)
Definition session_token (t : string) (s : SessionRow) : bool := String.eqb (ss_Token s) t.

Definition CreateSession (now : Z) (token userID : string) (expiresAt : Z) : Sql unit := fun d =>
  if existsb (session_token token) (db_sessions d) || negb (user_exists d userID)
  then (d, Fail errConstraint)
  else (set_sessions d (db_sessions d ++
         [{| ss_Token := token; ss_UserID := userID; ss_ExpiresAt := expiresAt; ss_CreatedAt := now |}]), Ok tt).

Definition DeleteSession (token : string) : Sql unit := fun d =>
  (set_sessions d (delete_rows (session_token token) (db_sessions d)), Ok tt).

Definition SessionRowByToken (token : string) : Sql SessionRow := fun d =>
  (d, query_row (session_token token) (db_sessions d)).

Section SessionUser.
Context {E : Type} `{!Env E}.

Definition SessionUser (token : string) : M E (result User) :=
  let? s := sql (SessionRowByToken token) in
  (now ← unixNow;
   if ss_ExpiresAt s <? now then
     _ ← sql (DeleteSession token); mret (Fail errNotFound)
   else sql (GetUser (ss_UserID s))).
End SessionUser.

(** ** External identities *)
Definition identity_key (issuer subject : string) (o : OIDCIdentity) : bool :=
  String.eqb (oi_Issuer o) issuer && String.eqb (oi_Subject o) subject.

Definition OIDCIdentityBySubject (issuer subject : string) : Sql OIDCIdentity := fun d =>
  (d, query_row (identity_key issuer subject) (db_oidc d)).

(** [id] is the row's [randomID()]. *)
Definition LinkOIDCIdentity (now : Z) (id userID issuer subject email : string) : Sql unit := fun d =>
  if existsb (fun o => String.eqb (oi_ID o) id) (db_oidc d)
     || existsb (identity_key issuer subject) (db_oidc d)
     || negb (user_exists d userID)
  then (d, Fail errConstraint)
  else (set_oidc d (db_oidc d ++
         [{| oi_ID := id; oi_UserID := userID; oi_Issuer := issuer; oi_Subject := subject; oi_Email := email;
             oi_CreatedAt := now |}]), Ok tt).

Definition OIDCIdentitiesByUser (userID : string) : Sql (list OIDCIdentity) := fun d =>
  (d, Ok (sort_slice (fun a b => oi_CreatedAt a <? oi_CreatedAt b)
            (select_rows (fun o => String.eqb (oi_UserID o) userID) (db_oidc d)))).

(** ** Well-formedness *)
Record accounts_wf (d : DB) : Prop := {
  aw_users : NoDup (map u_ID (db_users d));
  aw_creds : NoDup (map cr_CredID (db_credentials d));
  aw_invites : NoDup (map iv_Token (db_invites d));
  aw_sessions : NoDup (map ss_Token (db_sessions d));
  aw_oidc : NoDup (map (fun o => (oi_Issuer o, oi_Subject o)) (db_oidc d));
  aw_cred_fk : forall c, c ∈ db_credentials d -> user_exists d (cr_UserID c) = true;
  aw_session_fk : forall s, s ∈ db_sessions d -> user_exists d (ss_UserID s) = true;
  aw_oidc_fk : forall o, o ∈ db_oidc d -> user_exists d (oi_UserID o) = true;
  aw_invite_fk : forall i, i ∈ db_invites d -> iv_ForUser i = "" \/ user_exists d (iv_ForUser i) = true
}.

(** Every accessor that writes, as data. *)
Inductive AccountOp : Type :=
| OpCreateUser (now : Z) (id name : string) (isAdmin : bool)
| OpSetUserAdmin (id : string) (isAdmin : bool)
| OpDeleteUser (id : string)
| OpAddCredential (c : StoredCredential)
| OpUpdateSignCount (credID : string) (count : Z)
| OpCreateInvite (now : Z) (token createdBy forUser : string) (isAdmin : bool) (expiresAt : Z)
| OpConsumeInvite (now : Z) (token : string)
| OpDeleteInvite (token : string)
| OpCreateSession (now : Z) (token userID : string) (expiresAt : Z)
| OpDeleteSession (token : string)
| OpLinkOIDCIdentity (now : Z) (id userID issuer subject email : string).

Definition account_op (op : AccountOp) (d : DB) : DB :=
  match op with
  | OpCreateUser now id n a => (CreateUser now id n a d).1
  | OpSetUserAdmin id a => (SetUserAdmin id a d).1
  | OpDeleteUser id => (DeleteUser id d).1
  | OpAddCredential c => (AddCredential c d).1
  | OpUpdateSignCount k n => (UpdateSignCount k n d).1
  | OpCreateInvite now t cb fu a e => (CreateInvite now t cb fu a e d).1
  | OpConsumeInvite now t => (ConsumeInvite now t d).1
  | OpDeleteInvite t => (DeleteInvite t d).1
  | OpCreateSession now t u e => (CreateSession now t u e d).1
  | OpDeleteSession t => (DeleteSession t d).1
  | OpLinkOIDCIdentity now id u i s e => (LinkOIDCIdentity now id u i s e d).1
  end.

Definition account_ops (ops : list AccountOp) (d : DB) : DB := fold_left (fun d op => account_op op d) ops d.

Lemma existsb_key_false {R K} (key : R -> K) (p : R -> bool) k (l : list R) :
  (forall x, p x = true <-> key x = k) -> existsb p l = false -> k ∉ map key l.
Proof.
  intros Hp Hf Hin. apply list_elem_of_In, in_map_iff in Hin as (x & Hk & Hx).
  apply not_true_iff_false in Hf. apply Hf. apply existsb_exists. exists x. split; [done|]. by apply Hp.
Qed.

Lemma NoDup_snoc {R K} (key : R -> K) (l : list R) r :
  NoDup (map key l) -> key r ∉ map key l -> NoDup (map key (l ++ [r])).
Proof.
  intros Hnd Hr. rewrite map_app. apply NoDup_app. split; [done|]. split; [|apply NoDup_singleton].
  intros x Hx Hx'%list_elem_of_singleton. by subst.
Qed.

Lemma user_exists_iff d id : user_exists d id = true <-> exists u, u ∈ db_users d /\ u_ID u = id.
Proof.
  unfold user_exists. rewrite existsb_exists. setoid_rewrite <- list_elem_of_In.
  unfold user_id. setoid_rewrite String.eqb_eq. naive_solver.
Qed.

Lemma user_exists_mono d d' :
  (forall u, u ∈ db_users d -> exists u', u' ∈ db_users d' /\ u_ID u' = u_ID u) ->
  forall id, user_exists d id = true -> user_exists d' id = true.
Proof.
  intros Hm id (u & Hu & <-)%user_exists_iff. apply user_exists_iff.
  destruct (Hm u Hu) as (u' & ? & ?). eauto.
Qed.

(** Changing the users without losing an id keeps everything else valid. *)
Lemma users_wf d us :
  accounts_wf d -> NoDup (map u_ID us) ->
  (forall u, u ∈ db_users d -> exists u', u' ∈ us /\ u_ID u' = u_ID u) ->
  accounts_wf (set_users d us).
Proof.
  intros Hwf Hnd Hm. pose proof (user_exists_mono d (set_users d us) Hm) as Hx.
  destruct Hwf as [H1 H2 H3 H4 H5 H6 H7 H8 H9]. constructor; simpl; auto.
  intros i Hi. destruct (H9 i Hi); auto.
Qed.

Lemma delete_user_wf id d : accounts_wf d -> accounts_wf (delete_user id d).
Proof.
  intros [H1 H2 H3 H4 H5 H6 H7 H8 H9].
  assert (Hx : forall i, i <> id -> user_exists d i = true -> user_exists (delete_user id d) i = true).
  { intros i Hi (u & Hu & <-)%user_exists_iff. apply user_exists_iff. exists u. split; [|done].
    simpl. apply elem_of_delete. split; [done|]. by apply String.eqb_neq. }
  constructor; simpl; try (by apply NoDup_map_delete).
  - rewrite map_map. simpl. by apply NoDup_map_delete.
  - intros c [Hc Hn%String.eqb_neq]%elem_of_delete. auto.
  - intros s [Hs Hn%String.eqb_neq]%elem_of_delete. auto.
  - intros o [Ho Hn%String.eqb_neq]%elem_of_delete. auto.
  - intros i Hi. apply list_elem_of_In, in_map_iff in Hi as (i0 & <- & Hi0).
    apply list_elem_of_In, elem_of_delete in Hi0 as [Hi0 Hn]. simpl.
    destruct (H9 i0 Hi0) as [?|He]; [by left|]. destruct (String.eqb_spec (iv_ForUser i0) ""); [by left|].
    simpl in Hn. apply String.eqb_neq in Hn. right. by apply Hx.
Qed.

Lemma account_op_wf op d : accounts_wf d -> accounts_wf (account_op op d).
Proof.
  intros Hwf. pose proof Hwf as [H1 H2 H3 H4 H5 H6 H7 H8 H9]. destruct op; unfold account_op.
  - unfold CreateUser. destruct (user_exists d id) eqn:Ee; simpl; [done|]. apply users_wf; [done| |].
    + apply NoDup_snoc; [done|]. simpl. eapply existsb_key_false; [|exact Ee]. intros x. apply String.eqb_eq.
    + intros u Hu. exists u. set_solver.
  - unfold SetUserAdmin. destruct (rows_affected _ _); simpl; [done|]. apply users_wf; [done| |].
    + by rewrite update_rows_key.
    + intros u Hu. exists (if user_id id u then with_admin isAdmin u else u). split.
      * apply elem_of_update. eauto.
      * by destruct (user_id id u).
  - unfold DeleteUser. destruct (rows_affected _ _); simpl; [done|]. by apply delete_user_wf.
  - unfold AddCredential. destruct (_ || _ || _) eqn:Ee; simpl; [done|].
    apply orb_false_iff in Ee as [Ee Eu]. apply orb_false_iff in Ee as [_ Ek]. apply negb_false_iff in Eu.
    constructor; simpl; try assumption.
    + apply NoDup_snoc; [done|]. simpl. eapply existsb_key_false; [|exact Ek]. intros x. apply String.eqb_eq.
    + intros x [Hx|Hx%list_elem_of_singleton]%elem_of_app; [by apply H6|]. by subst.
  - simpl. constructor; simpl; try assumption; [by rewrite update_rows_key|].
    intros x (r & Hr & ->)%elem_of_update. specialize (H6 r Hr). by destruct (cred_key credID r).
  - unfold CreateInvite. destruct (_ || _ || _) eqn:Ee; simpl; [done|].
    apply orb_false_iff in Ee as [Ee Eu]. apply orb_false_iff in Ee as [Ek _].
    constructor; simpl; try assumption.
    + apply NoDup_snoc; [done|]. simpl. eapply existsb_key_false; [|exact Ek]. intros x. apply String.eqb_eq.
    + intros x [Hx|Hx%list_elem_of_singleton]%elem_of_app; [by apply H9|]. subst. simpl.
      destruct (String.eqb_spec forUser ""); [by left|]. right. simpl in Eu. by apply negb_false_iff in Eu.
  - unfold ConsumeInvite. destruct (rows_affected _ _); simpl; [done|].
    constructor; simpl; try assumption; [by rewrite update_rows_key|].
    intros x (r & Hr & ->)%elem_of_update. specialize (H9 r Hr). by destruct (_ && _).
  - unfold DeleteInvite. destruct (rows_affected _ _); simpl; [done|].
    constructor; simpl; try assumption; [by apply NoDup_map_delete|]. intros x [Hx _]%elem_of_delete. by apply H9.
  - unfold CreateSession. destruct (_ || _) eqn:Ee; simpl; [done|].
    apply orb_false_iff in Ee as [Ek Eu]. apply negb_false_iff in Eu.
    constructor; simpl; try assumption.
    + apply NoDup_snoc; [done|]. simpl. eapply existsb_key_false; [|exact Ek]. intros x. apply String.eqb_eq.
    + intros x [Hx|Hx%list_elem_of_singleton]%elem_of_app; [by apply H7|]. by subst.
  - simpl. constructor; simpl; try assumption; [by apply NoDup_map_delete|]. intros x [Hx _]%elem_of_delete. by apply H7.
  - unfold LinkOIDCIdentity. destruct (_ || _ || _) eqn:Ee; simpl; [done|].
    apply orb_false_iff in Ee as [Ee Eu]. apply orb_false_iff in Ee as [_ Ek]. apply negb_false_iff in Eu.
    constructor; simpl; try assumption.
    + apply NoDup_snoc; [done|]. simpl. eapply existsb_key_false; [|exact Ek].
      intros x. unfold identity_key. rewrite andb_true_iff, !String.eqb_eq. split; [by intros [-> ->]|by intros [= -> ->]].
    + intros x [Hx|Hx%list_elem_of_singleton]%elem_of_app; [by apply H8|]. by subst.
Qed.

Lemma account_ops_wf ops d : accounts_wf d -> accounts_wf (account_ops ops d).
Proof. revert d. induction ops as [|op ops IH]; intros d Hd; simpl; auto using account_op_wf. Qed.

(** ** An administrator *)
(** Somebody can administer the instance. *)
Definition has_admin (d : DB) : Prop := exists u, u ∈ db_users d /\ u_IsAdmin u = true.
Definition in_charge (d : DB) : Prop := accounts_wf d /\ has_admin d.

(** The statements that can take the last administrator away. *)
Definition demotes (op : AccountOp) : bool :=
  match op with
  | OpSetUserAdmin _ a => negb a
  | OpDeleteUser _ => true
  | _ => false
  end.

Lemma in_charge_op op d : demotes op = false -> in_charge d -> in_charge (account_op op d).
Proof.
  intros Hop [Hwf (u & Hu & Ha)]. split; [by apply account_op_wf|].
  assert (Hsame : u ∈ db_users (account_op op d) -> has_admin (account_op op d)) by (intros ?; by exists u).
  destruct op; try discriminate; unfold account_op in *.
  - apply Hsame. unfold CreateUser. destruct (user_exists d id); simpl; set_solver.
  - clear Hsame. unfold SetUserAdmin. destruct (rows_affected _ _); simpl; [by exists u|].
    exists (if user_id id u then with_admin isAdmin u else u). split; [apply elem_of_update; eauto|].
    destruct (user_id id u); [|done]. simpl in *. by destruct isAdmin.
  - apply Hsame. unfold AddCredential. by destruct (_ || _).
  - by apply Hsame.
  - apply Hsame. unfold CreateInvite. by destruct (_ || _).
  - apply Hsame. unfold ConsumeInvite. by destruct (rows_affected _ _).
  - apply Hsame. unfold DeleteInvite. by destruct (rows_affected _ _).
  - apply Hsame. unfold CreateSession. by destruct (_ || _).
  - by apply Hsame.
  - apply Hsame. unfold LinkOIDCIdentity. by destruct (_ || _).
Qed.

(** *** Properties that everyday statements keep *)
(** The statements that neither make an administrator nor take one away. *)
Definition routine (op : AccountOp) : bool :=
  match op with
  | OpCreateUser _ _ _ a | OpCreateInvite _ _ _ _ a _ => negb a
  | OpSetUserAdmin _ _ | OpDeleteUser _ => false
  | _ => true
  end.

(** What a client of the accounts relies on: a property that the routine
    statements keep, and everything outside the accounts. *)
Class Routine (P : DB -> Prop) : Prop := {
  routine_op : forall op d, routine op = true -> P d -> P (account_op op d);
  routine_services : forall d a b c, P d -> P (set_services d a b c);
  routine_log : forall d a b c, P d -> P (set_log d a b c)
}.

#[export] Instance in_charge_routine : Routine in_charge.
Proof.
  split.
  - intros op d Hop. apply in_charge_op. by destruct op.
  - intros d a b c [[] Ha]. split; [by constructor|exact Ha].
  - intros d a b c [[] Ha]. split; [by constructor|exact Ha].
Qed.

(** More than one administrator, so one can go. *)
Lemma admin_besides id d :
  NoDup (map u_ID (db_users d)) -> (1 < length (select_rows u_IsAdmin (db_users d)))%nat ->
  exists u, u ∈ db_users d /\ u_IsAdmin u = true /\ u_ID u <> id.
Proof.
  intros Hn Hl. destruct (select_rows u_IsAdmin (db_users d)) as [|a [|b l]] eqn:Hs; simpl in Hl; try lia.
  assert (Hin : forall x, x ∈ [a; b] -> x ∈ db_users d /\ u_IsAdmin x = true).
  { intros x Hx. apply elem_of_select. rewrite Hs. set_solver. }
  assert (NoDup (map u_ID (a :: b :: l))) as Hab by (rewrite <- Hs; by apply NoDup_map_filter).
  cbn [map] in Hab. apply NoDup_cons in Hab as [Hab _].
  destruct (decide (u_ID a = id)) as [He|He].
  - exists b. destruct (Hin b) as [? ?]; [set_solver|]. split; [done|]. split; [done|]. set_solver.
  - exists a. destruct (Hin a) as [? ?]; [set_solver|]. done.
Qed.

Lemma in_charge_demote op id d :
  op = OpSetUserAdmin id false \/ op = OpDeleteUser id ->
  in_charge d -> (exists u, u ∈ db_users d /\ u_IsAdmin u = true /\ u_ID u <> id) -> in_charge (account_op op d).
Proof.
  intros Hop [Hwf _] (u & Hu & Ha & Hne). split; [by apply account_op_wf|]. exists u. split; [|done].
  assert (user_id id u = false) as Hid by (by apply String.eqb_neq).
  destruct Hop as [-> | ->]; unfold account_op.
  - unfold SetUserAdmin. destruct (rows_affected _ _); simpl; [done|]. apply elem_of_update. exists u. by rewrite Hid.
  - unfold DeleteUser. destruct (rows_affected _ _); simpl; [done|]. by apply elem_of_delete.
Qed.

(** A user that is no administrator can go, too. *)
Lemma plain_besides id d u0 :
  NoDup (map u_ID (db_users d)) -> has_admin d -> u0 ∈ db_users d -> u_ID u0 = id -> u_IsAdmin u0 = false ->
  exists u, u ∈ db_users d /\ u_IsAdmin u = true /\ u_ID u <> id.
Proof.
  intros Hn (u & Hu & Ha) H0 Hid Hp. exists u. split; [done|]. split; [done|]. intros He.
  assert (u = u0); [|congruence]. apply list_elem_of_lookup in Hu as [i Hi], H0 as [j Hj].
  assert (i = j) as <-; [|congruence]. apply (NoDup_lookup (u_ID <$> db_users d) i j id); [done|..];
    rewrite list_lookup_fmap, ?Hi, ?Hj; simpl; congruence.
Qed.

Lemma empty_db_wf : accounts_wf empty_db.
Proof. constructor; simpl; set_solver || constructor. Qed.

(** Every database the accessors reach is well-formed. *)
Theorem accounts_invariant ops : accounts_wf (account_ops ops empty_db).
Proof. apply account_ops_wf, empty_db_wf. Qed.

(** ** Invites are consumed at most once *)

(** Every invite of this token that is in the table has been used. *)
Definition spent (token : string) (d : DB) : Prop :=
  forall i, i ∈ db_invites d -> iv_Token i = token -> iv_UsedAt i <> 0.

(** [op] neither issues the token again nor runs at the epoch, the value that
    marks an unused invite. *)
Definition respects (token : string) (op : AccountOp) : Prop :=
  match op with
  | OpCreateInvite _ t _ _ _ _ => t <> token
  | OpConsumeInvite now _ => now <> 0
  | _ => True
  end.

Lemma spent_step token op d : respects token op -> spent token d -> spent token (account_op op d).
Proof.
  intros Hr Hs. destruct op; unfold account_op.
  - unfold CreateUser. by destruct (user_exists d id).
  - unfold SetUserAdmin. by destruct (rows_affected _ _).
  - unfold DeleteUser. destruct (rows_affected _ _); [done|]. intros i Hi Ht.
    apply list_elem_of_In, in_map_iff in Hi as (i0 & <- & [Hi0 _]%list_elem_of_In%elem_of_delete). exact (Hs i0 Hi0 Ht).
  - unfold AddCredential. by destruct (_ || _ || _).
  - done.
  - unfold CreateInvite. destruct (_ || _ || _); [done|].
    intros i [Hi|Hi%list_elem_of_singleton]%elem_of_app Ht; [by apply (Hs i)|]. by subst.
  - unfold ConsumeInvite. destruct (rows_affected _ _); [done|].
    intros x (r & Hx & ->)%elem_of_update Ht. destruct (_ && _); [done|]. by apply (Hs r).
  - unfold DeleteInvite. destruct (rows_affected _ _); [done|].
    intros i [Hi _]%elem_of_delete. by apply Hs.
  - unfold CreateSession. by destruct (_ || _).
  - done.
  - unfold LinkOIDCIdentity. by destruct (_ || _ || _).
Qed.

Lemma spent_steps token ops d :
  Forall (respects token) ops -> spent token d -> spent token (account_ops ops d).
Proof.
  intros Hf. revert d. induction Hf as [|op ops Hop _ IH]; intros d Hd; simpl; [done|].
  apply IH. by apply spent_step.
Qed.

Lemma spent_unconsumable token now d :
  spent token d -> ConsumeInvite now token d = (d, Fail errNotFound).
Proof.
  intros Hs. unfold ConsumeInvite.
  replace (rows_affected _ _) with O; [done|]. symmetry. apply rows_affected_0. intros i Hi.
  destruct (invite_token token i) eqn:Et; [|done]. apply String.eqb_eq in Et. simpl.
  unfold pending. rewrite (proj2 (Z.eqb_neq _ _) (Hs i Hi Et)). done.
Qed.

Lemma ConsumeInvite_Ok now token d d' :
  ConsumeInvite now token d = (d', Ok tt) ->
  (exists i, i ∈ db_invites d /\ iv_Token i = token /\ iv_UsedAt i = 0 /\ now < iv_ExpiresAt i)
  /\ d' = set_invites d (update_rows (fun i => invite_token token i && pending now i) (with_used now) (db_invites d)).
Proof.
  unfold ConsumeInvite. destruct (rows_affected _ _) eqn:En; [done|]. intros [= <-]. split; [|done].
  destruct (existsb (fun i => invite_token token i && pending now i) (db_invites d)) eqn:Ex.
  - apply existsb_exists in Ex as (i & Hi%list_elem_of_In & Hp). unfold invite_token, pending in Hp.
    rewrite !andb_true_iff, String.eqb_eq, Z.eqb_eq, Z.ltb_lt in Hp. exists i. naive_solver.
  - exfalso. assert (rows_affected (fun i => invite_token token i && pending now i) (db_invites d) = O); [|congruence].
    apply rows_affected_0. intros i Hi%list_elem_of_In. apply not_true_iff_false. intros Hp.
    apply not_true_iff_false in Ex. apply Ex, existsb_exists. eauto.
Qed.

(** C25. An invite is consumed only while it is unused and unexpired, and once
    consumed it can never be consumed again, whatever account operations follow,
    unless an invite with the same token is issued. *)
Theorem ConsumeInvite_once ops token now now' d :
  accounts_wf d -> now <> 0 -> Forall (respects token) ops ->
  (ConsumeInvite now token d).2 = Ok tt ->
  (exists i, i ∈ db_invites d /\ iv_Token i = token /\ iv_UsedAt i = 0 /\ now < iv_ExpiresAt i)
  /\ (ConsumeInvite now' token (account_ops ops (ConsumeInvite now token d).1)).2 = Fail errNotFound.
Proof.
  intros Hwf Hn Hops Hok. destruct (ConsumeInvite now token d) as [d' r] eqn:Ec. simpl in *. subst r.
  apply ConsumeInvite_Ok in Ec as [Hi ->]. split; [done|].
  rewrite spent_unconsumable; [done|]. apply spent_steps; [done|].
  destruct Hi as (i & Hi & Ht & Hu & He).
  intros x (r & Hr & ->)%elem_of_update Hx.
  destruct (invite_token token r && pending now r) eqn:Ep; [done|].
  assert (r = i) as ->.
  { apply (NoDup_key_eq iv_Token _ _ _ (aw_invites _ Hwf) Hr Hi). simpl in Hx. congruence. }
  exfalso. unfold invite_token, pending in Ep.
  rewrite (proj2 (String.eqb_eq _ _) Ht), Hu, (proj2 (Z.ltb_lt _ _) He) in Ep. done.
Qed.

(** ** Deleting a user *)

(** Nothing in the database refers to the user. *)
Record forgotten (id : string) (d : DB) : Prop := {
  fg_user : forall u, u ∈ db_users d -> u_ID u <> id;
  fg_creds : forall c, c ∈ db_credentials d -> cr_UserID c <> id;
  fg_sessions : forall s, s ∈ db_sessions d -> ss_UserID s <> id;
  fg_oidc : forall o, o ∈ db_oidc d -> oi_UserID o <> id;
  fg_recovery : id <> "" -> forall i, i ∈ db_invites d -> iv_ForUser i <> id /\ iv_CreatedBy i <> Some id
}.

Lemma delete_rows_key {R} (k : R -> string) id (t : list R) r :
  r ∈ delete_rows (fun x => String.eqb (k x) id) t <-> r ∈ t /\ k r <> id.
Proof. rewrite elem_of_delete, String.eqb_neq. done. Qed.

(** Deleting a user removes the user with every passkey, session, identity and
    recovery invite of theirs, and leaves those of every other user. *)
Theorem DeleteUser_erases id d :
  (DeleteUser id d).2 = Ok tt ->
  let d' := (DeleteUser id d).1 in
  forgotten id d'
  /\ (forall u, u_ID u <> id -> (u ∈ db_users d' <-> u ∈ db_users d))
  /\ (forall c, cr_UserID c <> id -> (c ∈ db_credentials d' <-> c ∈ db_credentials d))
  /\ (forall s, ss_UserID s <> id -> (s ∈ db_sessions d' <-> s ∈ db_sessions d))
  /\ (forall o, oi_UserID o <> id -> (o ∈ db_oidc d' <-> o ∈ db_oidc d))
  /\ (forall i, i ∈ db_invites d -> iv_ForUser i <> id \/ iv_ForUser i = "" -> forget_creator id i ∈ db_invites d').
Proof.
  unfold DeleteUser. destruct (rows_affected _ _); simpl; [done|]. intros _. unfold user_id.
  split; [|split; [|split; [|split; [|split]]]].
  - constructor; simpl.
    + intros u Hu. by apply (delete_rows_key u_ID) in Hu as [_ ?].
    + intros c Hc. by apply (delete_rows_key cr_UserID) in Hc as [_ ?].
    + intros s Hs. by apply (delete_rows_key ss_UserID) in Hs as [_ ?].
    + intros o Ho. by apply (delete_rows_key oi_UserID) in Ho as [_ ?].
    + intros Hne i Hi. apply list_elem_of_In, in_map_iff in Hi as (i0 & <- & [Hi0 Hp]%list_elem_of_In%elem_of_delete).
      split; simpl.
      * intros He. rewrite He, String.eqb_refl, (proj2 (String.eqb_neq _ _) Hne) in Hp. done.
      * case_bool_decide; done.
  - intros u Hu. rewrite (delete_rows_key u_ID). tauto.
  - intros c Hc. rewrite (delete_rows_key cr_UserID). tauto.
  - intros s Hs. rewrite (delete_rows_key ss_UserID). tauto.
  - intros o Ho. rewrite (delete_rows_key oi_UserID). tauto.
  - intros i Hi Hf. apply list_elem_of_In, in_map_iff. exists i. split; [done|]. apply list_elem_of_In, elem_of_delete.
    split; [done|]. destruct Hf as [Hf| ->]; [|done]. rewrite (proj2 (String.eqb_neq _ _) Hf). by rewrite andb_false_r.
Qed.

(** ** Sessions *)
Section SessionTheorems.
Context {E : Type} `{!Env E}.

(** A session token is accepted only when its session exists, has not expired
    and its user exists; an expired session is deleted; and without faults every
    unexpired session of the table is accepted. *)
Theorem SessionUser_spec token w :
  accounts_wf (w_db w) ->
  let '(w', o) := SessionUser token w in
  match o with
  | Ret (Ok u) =>
      w_db w' = w_db w
      /\ exists s e, s ∈ db_sessions (w_db w) /\ ss_Token s = token
         /\ u ∈ db_users (w_db w) /\ u_ID u = ss_UserID s
         /\ (time_Now e).2 / second <= ss_ExpiresAt s
  | Ret (Fail err) =>
      w_db w' = w_db w
      \/ exists s e, s ∈ db_sessions (w_db w) /\ ss_Token s = token
         /\ ss_ExpiresAt s < (time_Now e).2 / second /\ err = errNotFound
         /\ w_db w' = (DeleteSession token (w_db w)).1
  | Panic _ => False
  end
  /\ ((forall e : E, (sql_fault e).2 = None) ->
      forall s, s ∈ db_sessions (w_db w) -> ss_Token s = token ->
      (forall e : E, (time_Now e).2 / second <= ss_ExpiresAt s) ->
      exists u, o = Ret (Ok u)).
Proof.
  intros Hwf. unfold SessionUser, unixNow, Now, call, mbind, M_bind, mret, M_ret. simpl.
  destruct (sql_run (SessionRowByToken token) w) as (e1 & [(err & Hf & ->)| ->]); simpl.
  { split; [by left|]. intros Hnf. by rewrite Hnf in Hf. }
  destruct (query_row (session_token token) (db_sessions (w_db w))) as [s|err] eqn:Eq; simpl.
  2: { split; [by left|]. intros _ s Hs Ht _.
       apply query_row_Fail in Eq as [_ Hn]. specialize (Hn s Hs). by apply String.eqb_neq in Hn. }
  apply query_row_Ok in Eq as [Hs Ht%String.eqb_eq].
  destruct (ss_ExpiresAt s <? (time_Now e1).2 / second) eqn:Ex.
  - apply Z.ltb_lt in Ex.
    match goal with |- context [sql ?q ?v] => destruct (sql_run q v) as (e2 & [(err & _ & ->)| ->]) end; simpl.
    all: split; [first [by left | right; by exists s, e1]|].
    all: intros _ s' Hs' Ht' Hn; exfalso; specialize (Hn e1).
    all: assert (s' = s) as -> by (apply (NoDup_key_eq ss_Token _ _ _ (aw_sessions _ Hwf)); congruence); lia.
  - apply Z.ltb_ge in Ex.
    match goal with |- context [sql ?q ?v] => destruct (sql_run q v) as (e2 & [(err & Hf & ->)| ->]) end; simpl.
    { split; [by left|]. intros Hnf. by rewrite Hnf in Hf. }
    destruct (query_row (user_id (ss_UserID s)) (db_users (w_db w))) as [u|err] eqn:Eu; simpl.
    + apply query_row_Ok in Eu as [Hu Hid%String.eqb_eq]. split; [|by eauto].
      split; [done|]. exists s, e1. done.
    + split; [by left|]. intros _ _ _ _ _.
      destruct (proj1 (user_exists_iff _ _) (aw_session_fk _ Hwf s Hs)) as (u & Hu & Hid).
      apply query_row_Fail in Eu as [_ Hn]. specialize (Hn u Hu). by apply String.eqb_neq in Hn.
Qed.
End SessionTheorems.

(** ** Concrete inputs *)
Definition demo_accounts : DB := account_ops
  [OpCreateUser 100 "u1" "ann" true; OpCreateUser 101 "u2" "bob" false;
   OpCreateInvite 110 "tok" "u1" "" false 500; OpCreateSession 120 "sess" "u2" 2000000000;
   OpLinkOIDCIdentity 130 "i1" "u2" "https://idp" "sub" "bob@x"] empty_db.

Lemma demo_accounts_wf : accounts_wf demo_accounts.
Proof. apply account_ops_wf, empty_db_wf. Defined.

Lemma ConsumeInvite_once_witness :
  (exists i, i ∈ db_invites demo_accounts /\ iv_Token i = "tok" /\ iv_UsedAt i = 0 /\ 200 < iv_ExpiresAt i)
  /\ (ConsumeInvite 300 "tok" (account_ops [OpDeleteUser "u2"] (ConsumeInvite 200 "tok" demo_accounts).1)).2
     = Fail errNotFound.
Proof.
  apply (ConsumeInvite_once [OpDeleteUser "u2"] "tok" 200 300 demo_accounts).
  - apply demo_accounts_wf.
  - lia.
  - by repeat constructor.
  - vm_compute. reflexivity.
Defined.

Lemma DeleteUser_erases_witness : forgotten "u2" (DeleteUser "u2" demo_accounts).1.
Proof. apply (DeleteUser_erases "u2" demo_accounts). vm_compute. reflexivity. Defined.

(** A daemon whose clock stands still. *)
Definition still : Env unit := frozen sim_empty.

Definition demo_login : World unit := mkWorld tt demo_accounts (NewManager true true) [].

Lemma SessionUser_spec_witness :
  exists u, (@SessionUser unit still "sess" demo_login).2 = Ret (Ok u).
Proof.
  pose proof (@SessionUser_spec unit still "sess" demo_login demo_accounts_wf) as H.
  destruct (@SessionUser unit still "sess" demo_login) as [w' o].
  refine (proj2 H (fun _ => eq_refl) (nth 0 (db_sessions demo_accounts)
            {| ss_Token := ""; ss_UserID := ""; ss_ExpiresAt := 0; ss_CreatedAt := 0 |}) _ eq_refl _).
  - vm_compute. left.
  - intros e. apply Z.leb_le. vm_compute. reflexivity.
Defined.
