(* ===== verification/StoreEvents.v ===== *)
(** * The event log (src/internal/store/events.go)

    Recording, searching, paging and pruning. [sql_like] is the LIKE operator
    of SQLite with an ESCAPE character: [%] matches any text, [_] any one
    character, and letters compare without case in ASCII. *)
From S2P Require Import Prelude GoStrings Api Db Docker World Sim.
Open Scope Z_scope.

Definition DefaultEventLimit : Z := 50.
Definition MaxEventLimit : Z := 200.

Record EventQuery := {
  eq_Cursor : string;
  eq_Limit : Z;
  eq_Event : NotificationEvent;
  eq_Container : string;
  eq_Stack : string;
  eq_Search : string
}.

Definition with_cursor (c : string) (q : EventQuery) : EventQuery :=
  {| eq_Cursor := c; eq_Limit := eq_Limit q; eq_Event := eq_Event q; eq_Container := eq_Container q;
     eq_Stack := eq_Stack q; eq_Search := eq_Search q |}.

(** ** LIKE *)
Definition backslash : ascii := "\".

Fixpoint escapeLike (s : string) : string :=
  match s with
  | EmptyString => ""
  | String c t =>
      if Ascii.eqb c backslash || Ascii.eqb c "%" || Ascii.eqb c "_"
      then String backslash (String c (escapeLike t))
      else String c (escapeLike t)
  end.

Inductive like_tok := LAny | LOne | LChar (c : ascii).

(** A pattern that ends in the escape character matches nothing. *)
Fixpoint like_tokens (esc : ascii) (p : string) : option (list like_tok) :=
  match p with
  | EmptyString => Some []
  | String c t =>
      if Ascii.eqb c esc then
        match t with
        | EmptyString => None
        | String d t' => cons (LChar d) <$> like_tokens esc t'
        end
      else if Ascii.eqb c "%" then cons LAny <$> like_tokens esc t
      else if Ascii.eqb c "_" then cons LOne <$> like_tokens esc t
      else cons (LChar c) <$> like_tokens esc t
  end.

Fixpoint any_suffix (f : string -> bool) (s : string) : bool :=
  f s || match s with EmptyString => false | String _ t => any_suffix f t end.

Fixpoint like_match (p : list like_tok) (s : string) : bool :=
  match p with
  | [] => String.eqb s ""
  | LAny :: p' => any_suffix (like_match p') s
  | LOne :: p' => match s with EmptyString => false | String _ t => like_match p' t end
  | LChar c :: p' =>
      match s with
      | EmptyString => false
      | String d t => Ascii.eqb (lower_ascii c) (lower_ascii d) && like_match p' t
      end
  end.

(** [s LIKE p ESCAPE esc] *)
Definition sql_like (esc : ascii) (p s : string) : bool :=
  match like_tokens esc p with Some t => like_match t s | None => false end.

(** ** Cursors *)
Definition encodeEventCursor (createdAt id : Z) : string := Itoa createdAt +:+ "_" +:+ Itoa id.

Definition bad_cursor (c : string) : error := errorf ("bad cursor " +:+ quoted c).

Definition decodeEventCursor (cursor : string) : result (Z * Z) :=
  match Cut cursor "_" with
  | None => Fail (bad_cursor cursor)
  | Some (a, b) =>
      match Atoi a with
      | None => Fail (bad_cursor cursor)
      | Some createdAt =>
          match Atoi b with
          | None => Fail (bad_cursor cursor)
          | Some id => Ok (createdAt, id)
          end
      end
  end.

(** ** The accessors *)
Definition AppendEvent (now : Z) (ev : Event) : Sql Event := fun d =>
  let created := if ev_CreatedAt ev =? 0 then now else ev_CreatedAt ev in
  let id := db_event_seq d + 1 in
  let ev' := {| ev_ID := id; ev_Event := ev_Event ev; ev_Title := ev_Title ev; ev_Body := ev_Body ev;
                ev_ContainerName := ev_ContainerName ev; ev_StackID := ev_StackID ev; ev_CreatedAt := created |} in
  (set_log d (db_settings d) (db_events d ++ [ev']) id, Ok ev').

(** The WHERE conditions that select by content. *)
Definition matches (q : EventQuery) (e : Event) : bool :=
  (String.eqb (eq_Event q) "" || String.eqb (ev_Event e) (eq_Event q))
  && (String.eqb (eq_Container q) "" || String.eqb (ev_ContainerName e) (eq_Container q))
  && (String.eqb (eq_Stack q) "" || String.eqb (ev_StackID e) (eq_Stack q))
  && (String.eqb (eq_Search q) ""
      || let like := "%" +:+ escapeLike (eq_Search q) +:+ "%" in
         sql_like backslash like (ev_Title e) || sql_like backslash like (ev_Body e)).

(** [created_at < ? OR (created_at = ? AND id < ?)] *)
Definition older (k : Z * Z) (e : Event) : bool :=
  (ev_CreatedAt e <? k.1) || ((ev_CreatedAt e =? k.1) && (ev_ID e <? k.2)).

(** [ORDER BY created_at DESC, id DESC] *)
Definition newer (a b : Event) : bool := older (ev_CreatedAt a, ev_ID a) b.

Definition page_limit (q : EventQuery) : Z :=
  let limit := if eq_Limit q <=? 0 then DefaultEventLimit else eq_Limit q in
  if MaxEventLimit <? limit then MaxEventLimit else limit.

Definition page_of (limit : nat) (rows : list Event) : EventPage :=
  if (limit <? length rows)%nat then
    {| ep_Items := firstn limit rows;
       ep_NextCursor := match rows !! (limit - 1)%nat with
                        | Some last => encodeEventCursor (ev_CreatedAt last) (ev_ID last)
                        | None => ""
                        end |}
  else {| ep_Items := rows; ep_NextCursor := "" |}.

Definition event_rows (p : Event -> bool) (d : DB) : list Event :=
  sort_slice newer (select_rows p (db_events d)).

Definition ListEvents (q : EventQuery) : Sql EventPage := fun d =>
  let limit := Z.to_nat (page_limit q) in
  let run p := (d, Ok (page_of limit (firstn (limit + 1) (event_rows p d)))) in
  if String.eqb (eq_Cursor q) "" then run (matches q)
  else match decodeEventCursor (eq_Cursor q) with
       | Fail err => (d, Fail err)
       | Ok k => run (fun e => matches q e && older k e)
       end.

Definition PruneEventsOlderThan (cutoff : Z) : Sql Z := fun d =>
  if cutoff <=? 0 then (d, Ok 0)
  else let p := fun e => ev_CreatedAt e <? cutoff in
       (set_log d (db_settings d) (delete_rows p (db_events d)) (db_event_seq d),
        Ok (Z.of_nat (rows_affected p (db_events d)))).

(** ** A search finds exactly the rows that contain the text *)
Lemma lower_special c : Ascii.eqb (lower_ascii c) (lower_ascii c) = true.
Proof. apply Ascii.eqb_refl. Qed.

Lemma like_tokens_escaped q rest toks :
  like_tokens backslash rest = Some toks ->
  like_tokens backslash (escapeLike q +:+ rest) = Some (map LChar (list_ascii_of_string q) ++ toks).
Proof.
  intros Hr. induction q as [|c q IH]; [done|]. cbn [escapeLike].
  destruct (Ascii.eqb c backslash || Ascii.eqb c "%" || Ascii.eqb c "_") eqn:E.
  - cbn [String.append like_tokens]. rewrite Ascii.eqb_refl, IH. done.
  - apply orb_false_iff in E as [[E1 E2]%orb_false_iff E3].
    cbn [String.append like_tokens]. rewrite E1, E2, E3, IH. done.
Qed.

Lemma like_any_end s : any_suffix (like_match []) s = true.
Proof. induction s as [|c s IH]; [done|]. cbn [any_suffix]. by rewrite IH, orb_true_r. Qed.

Lemma like_literal q s :
  like_match (map LChar (list_ascii_of_string q) ++ [LAny]) s = HasPrefix (ToLower s) (ToLower q).
Proof.
  revert s. induction q as [|c q IH]; intros s; cbn -[Ascii.eqb any_suffix].
  - rewrite like_any_end. done.
  - destruct s as [|d s]; [done|]. rewrite IH. unfold HasPrefix. cbn [ToLower strip_prefix].
    by destruct (Ascii.eqb (lower_ascii c) (lower_ascii d)).
Qed.

Lemma any_suffix_contains q s :
  any_suffix (fun t => HasPrefix (ToLower t) (ToLower q)) s = Contains (ToLower s) (ToLower q).
Proof. induction s as [|c s IH]; cbn [any_suffix ToLower Contains]; [by rewrite orb_false_r|by rewrite IH]. Qed.

Lemma search_like q s :
  sql_like backslash ("%" +:+ escapeLike q +:+ "%") s = Contains (ToLower s) (ToLower q).
Proof.
  unfold sql_like. change ("%" +:+ escapeLike q +:+ "%") with (String "%" (escapeLike q +:+ "%")).
  cbn [like_tokens]. change (Ascii.eqb "%" backslash) with false. change (Ascii.eqb "%" "%") with true. cbn iota.
  rewrite (like_tokens_escaped q "%" [LAny]) by done.
  change (any_suffix (like_match (map LChar (list_ascii_of_string q) ++ [LAny])) s = Contains (ToLower s) (ToLower q)).
  rewrite <- any_suffix_contains. induction s as [|c s IH]; cbn [any_suffix]; rewrite like_literal; [done|].
  by rewrite IH.
Qed.

(** What a query asks for. *)
Definition wanted (q : EventQuery) (e : Event) : Prop :=
  (eq_Event q = "" \/ ev_Event e = eq_Event q)
  /\ (eq_Container q = "" \/ ev_ContainerName e = eq_Container q)
  /\ (eq_Stack q = "" \/ ev_StackID e = eq_Stack q)
  /\ (eq_Search q = "" \/ Contains (ToLower (ev_Title e)) (ToLower (eq_Search q)) = true
      \/ Contains (ToLower (ev_Body e)) (ToLower (eq_Search q)) = true).

Lemma matches_wanted q e : matches q e = true <-> wanted q e.
Proof.
  unfold matches, wanted. cbv zeta. rewrite !search_like, !andb_true_iff, !orb_true_iff, !String.eqb_eq. tauto.
Qed.

(** ** The order of the log *)
Lemma older_spec k e : older k e = true <-> ev_CreatedAt e < k.1 \/ (ev_CreatedAt e = k.1 /\ ev_ID e < k.2).
Proof. unfold older. rewrite orb_true_iff, andb_true_iff, !Z.ltb_lt, Z.eqb_eq. done. Qed.

Lemma newer_spec a b :
  newer a b = true <-> ev_CreatedAt b < ev_CreatedAt a \/ (ev_CreatedAt b = ev_CreatedAt a /\ ev_ID b < ev_ID a).
Proof. apply older_spec. Qed.

Lemma newer_false a b :
  newer a b = false <-> ev_CreatedAt a < ev_CreatedAt b \/ (ev_CreatedAt a = ev_CreatedAt b /\ ev_ID a <= ev_ID b).
Proof. rewrite <- not_true_iff_false, newer_spec. lia. Qed.

Lemma newer_asym a b : newer a b = true -> newer b a = false.
Proof. rewrite newer_spec, newer_false. lia. Qed.

Lemma newer_negtrans a b c : newer b a = false -> newer c b = false -> newer c a = false.
Proof. rewrite !newer_false. lia. Qed.

Lemma event_rows_sorted p d : StronglySorted (fun a b => newer b a = false) (event_rows p d).
Proof. apply sort_slice_sorted; [apply newer_asym|apply newer_negtrans]. Qed.

Lemma event_rows_elem p d e : e ∈ event_rows p d <-> e ∈ db_events d /\ p e = true.
Proof. unfold event_rows. by rewrite sort_slice_elem_of, elem_of_select. Qed.

(** Selecting from sorted rows sorts the selected rows. *)
Lemma sort_insert_select (p : Event -> bool) x l :
  StronglySorted (fun a b => newer b a = false) l ->
  List.filter p (sort_insert newer x l) =
  if p x then sort_insert newer x (List.filter p l) else List.filter p l.
Proof.
  induction 1 as [|y l Hl IH Hy]; simpl; [by destruct (p x)|].
  destruct (newer y x) eqn:Eyx; simpl.
  - rewrite IH. destruct (p x), (p y); simpl; rewrite ?Eyx; done.
  - destruct (p x) eqn:Ex; [|done]. destruct (p y) eqn:Ey; simpl; [by rewrite Eyx|].
    destruct (List.filter p l) as [|z l'] eqn:Ef; [done|]. simpl.
    replace (newer z x) with false; [done|]. symmetry. apply (newer_negtrans x y z Eyx).
    rewrite Forall_forall in Hy. apply Hy.
    assert (Hz : z ∈ List.filter p l) by (rewrite Ef; left). apply list_elem_of_In, filter_In in Hz as [Hz _].
    by apply list_elem_of_In.
Qed.

Lemma sort_slice_select (p : Event -> bool) l :
  sort_slice newer (List.filter p l) = List.filter p (sort_slice newer l).
Proof.
  induction l as [|x l IH]; simpl; [done|].
  rewrite sort_insert_select; [|apply sort_slice_sorted; [apply newer_asym|apply newer_negtrans]].
  rewrite <- IH. by destruct (p x).
Qed.

Lemma event_rows_and p p' d :
  event_rows (fun e => p e && p' e) d = List.filter p' (event_rows p d).
Proof.
  unfold event_rows, select_rows. rewrite !sort_slice_select.
  induction (sort_slice newer (db_events d)) as [|x l IH]; simpl; [done|].
  destruct (p x); simpl; rewrite IH; done.
Qed.

(** Event ids are unique and fit in 64 bits, as do the times. *)
Record events_wf (d : DB) : Prop := {
  ew_ids : NoDup (map ev_ID (db_events d));
  ew_seq : forall e, e ∈ db_events d -> ev_ID e <= db_event_seq d;
  ew_int : forall e, e ∈ db_events d -> in_int64 (ev_ID e) = true /\ in_int64 (ev_CreatedAt e) = true
}.

Lemma filter_true {A} (p : A -> bool) l : Forall (fun x => p x = true) l -> List.filter p l = l.
Proof. induction 1 as [|x l Hx _ IH]; [done|]. simpl. by rewrite Hx, IH. Qed.

(** The rows after [x] are exactly the older ones. *)
Lemma select_older pre x suf :
  NoDup (map ev_ID (pre ++ x :: suf)) ->
  StronglySorted (fun a b => newer b a = false) (pre ++ x :: suf) ->
  List.filter (older (ev_CreatedAt x, ev_ID x)) (pre ++ x :: suf) = suf.
Proof.
  intros Hnd Hs. rewrite List.filter_app. cbn [List.filter].
  assert (Hpre : List.filter (older (ev_CreatedAt x, ev_ID x)) pre = []).
  { induction pre as [|y pre IH]; [done|]. simpl in *. apply NoDup_cons in Hnd as [_ Hnd].
    apply StronglySorted_inv in Hs as [Hs Hy]. rewrite IH by done.
    replace (older (ev_CreatedAt x, ev_ID x) y) with false; [done|]. symmetry.
    rewrite Forall_app, Forall_cons in Hy. apply Hy. }
  rewrite Hpre. clear Hpre.
  replace (older (ev_CreatedAt x, ev_ID x) x) with false by (symmetry; apply newer_false; lia).
  simpl. assert (Hall : Forall (fun b => newer x b = true) suf).
  { clear -Hnd Hs. induction pre as [|y pre IH]; simpl in *.
    - apply StronglySorted_inv in Hs as [_ Hs]. apply NoDup_cons in Hnd as [Hx _].
      rewrite Forall_forall in Hs |- *. intros b Hb. specialize (Hs b Hb). rewrite newer_false in Hs. apply newer_spec.
      assert (ev_ID b <> ev_ID x); [|lia]. intros He. apply Hx. rewrite <- He. by apply list_elem_of_fmap_2.
    - apply NoDup_cons in Hnd as [_ Hnd]. apply StronglySorted_inv in Hs as [Hs _]. auto. }
  by apply filter_true.
Qed.

(** ** Paging *)
Lemma encode_nonempty a b : String.eqb (encodeEventCursor a b) "" = false.
Proof.
  apply String.eqb_neq. unfold encodeEventCursor. intros H. apply (f_equal String.length) in H.
  rewrite !str_app_length in H. simpl in H. lia.
Qed.

Lemma decode_encode_cursor a b :
  in_int64 a = true -> in_int64 b = true -> decodeEventCursor (encodeEventCursor a b) = Ok (a, b).
Proof.
  intros Ha Hb. unfold decodeEventCursor, encodeEventCursor.
  change (Itoa a +:+ "_" +:+ Itoa b) with (Itoa a +:+ String "_" (Itoa b)).
  rewrite (Cut_char "_" (Itoa a) (Itoa b)) by apply Itoa_no_underscore.
  by rewrite !Atoi_Itoa.
Qed.

Lemma page_limit_bounds q : 1 <= page_limit q <= 200.
Proof.
  unfold page_limit, DefaultEventLimit, MaxEventLimit.
  destruct (Z.leb_spec (eq_Limit q) 0); [done|]. destruct (Z.ltb_spec 200 (eq_Limit q)); lia.
Qed.

(** Reading every page, from the query's own cursor on. *)
Fixpoint walk (fuel : nat) (q : EventQuery) (d : DB) : option (list EventPage) :=
  match fuel with
  | O => None
  | S fuel' =>
      match (ListEvents q d).2 with
      | Fail _ => None
      | Ok page =>
          if String.eqb (ep_NextCursor page) "" then Some [page]
          else cons page <$> walk fuel' (with_cursor (ep_NextCursor page) q) d
      end
  end.

Lemma rows_wf p d :
  events_wf d -> NoDup (map ev_ID (event_rows p d)).
Proof.
  intros Hwf. unfold event_rows.
  assert (Hp : map ev_ID (sort_slice newer (select_rows p (db_events d))) ≡ₚ map ev_ID (select_rows p (db_events d)))
    by (apply Permutation_map, sort_slice_perm).
  rewrite Hp. apply NoDup_map_filter, Hwf.
Qed.

(** A query whose cursor stands after the rows [pre]. *)
Definition at_rows (q : EventQuery) (d : DB) (rest : list Event) : Prop :=
  ListEvents q d = (d, Ok (page_of (Z.to_nat (page_limit q)) (firstn (Z.to_nat (page_limit q) + 1) rest))).

Lemma at_start q d : eq_Cursor q = "" -> at_rows q d (event_rows (matches q) d).
Proof. intros Hc. unfold at_rows, ListEvents. by rewrite Hc. Qed.

Lemma at_cursor q d pre x suf :
  events_wf d -> event_rows (matches q) d = pre ++ x :: suf ->
  at_rows (with_cursor (encodeEventCursor (ev_CreatedAt x) (ev_ID x)) q) d suf.
Proof.
  intros Hwf Hr. unfold at_rows, ListEvents. cbn [eq_Cursor with_cursor]. rewrite encode_nonempty.
  destruct (ew_int d Hwf x) as [Hi Hc].
  { apply (event_rows_elem (matches q)). rewrite Hr. set_solver. }
  rewrite decode_encode_cursor by done.
  change (page_limit (with_cursor _ q)) with (page_limit q).
  change (matches (with_cursor _ q)) with (matches q).
  rewrite event_rows_and, Hr, select_older; [done| |].
  - rewrite <- Hr. by apply rows_wf.
  - rewrite <- Hr. apply event_rows_sorted.
Qed.

Lemma walk_rows q d fuel pre rest q' :
  events_wf d -> event_rows (matches q) d = pre ++ rest -> (length rest < fuel)%nat ->
  at_rows q' d rest -> (exists c, q' = with_cursor c q) ->
  exists pages, walk fuel q' d = Some pages
    /\ concat (map ep_Items pages) = rest
    /\ Forall (fun p => Z.of_nat (length (ep_Items p)) <= page_limit q) pages.
Proof.
  intros Hwf. revert pre rest q'. induction fuel as [|fuel IH]; intros pre rest q' Hr Hf Hat (c & ->); [lia|].
  pose proof (page_limit_bounds q) as Hb. change (page_limit (with_cursor c q)) with (page_limit q) in *.
  cbn [walk]. unfold at_rows in Hat. rewrite Hat. cbn [snd]. clear Hat.
  change (page_limit (with_cursor c q)) with (page_limit q).
  set (n := Z.to_nat (page_limit q)). assert (Hn : (1 <= n)%nat) by (unfold n; lia).
  unfold page_of. rewrite length_firstn. destruct (Nat.ltb_spec n (Nat.min (n + 1) (length rest))) as [Hl|Hl].
  - destruct (lookup_lt_is_Some_2 rest (n - 1)) as [x Hx]; [lia|].
    rewrite lookup_take_lt, Hx by lia. cbn [ep_NextCursor]. rewrite encode_nonempty.
    assert (Hsplit : rest = firstn (n - 1) rest ++ x :: skipn n rest).
    { replace n with (S (n - 1)) at 2 by lia. by rewrite take_drop_middle. }
    assert (Hfirst : firstn n (firstn (n + 1) rest) = firstn (n - 1) rest ++ [x]).
    { rewrite take_take, Nat.min_l by lia. replace n with (S (n - 1)) at 1 by lia. by apply take_S_r. }
    destruct (IH (pre ++ firstn (n - 1) rest ++ [x]) (skipn n rest)
                (with_cursor (encodeEventCursor (ev_CreatedAt x) (ev_ID x)) (with_cursor c q))) as (pages & Hw & Hc & Hp).
    + rewrite Hr. rewrite Hsplit at 1. by rewrite <- !app_assoc.
    + rewrite length_skipn. lia.
    + apply (at_cursor q d (pre ++ firstn (n - 1) rest) x (skipn n rest) Hwf).
      rewrite Hr. rewrite Hsplit at 1. by rewrite <- !app_assoc.
    + by eexists.
    + exists ({| ep_Items := firstn n (firstn (n + 1) rest);
                 ep_NextCursor := encodeEventCursor (ev_CreatedAt x) (ev_ID x) |} :: pages).
      rewrite Hw. split; [done|]. cbn [map concat ep_Items]. rewrite Hc, Hfirst. split.
      * rewrite <- app_assoc. by rewrite Hsplit at 3.
      * constructor; [|done]. cbn [ep_Items]. rewrite length_app, length_firstn. simpl. lia.
  - cbn [ep_NextCursor]. change (String.eqb "" "") with true. cbn iota.
    eexists. split; [done|]. cbn [map concat ep_Items]. rewrite app_nil_r, take_ge by lia.
    split; [done|]. constructor; [|done]. cbn [ep_Items]. lia.
Qed.

(** C17. Following the cursors from the newest page on ends, and the pages
    together hold exactly the events the query asks for (type, service,
    case-insensitive substring, with no wildcard leaking from the search text),
    each once, newest first, at most the page limit on each. *)
Theorem ListEvents_walk q d :
  events_wf d -> eq_Cursor q = "" ->
  exists pages, walk (S (length (db_events d))) q d = Some pages
    /\ let log := concat (map ep_Items pages) in
       StronglySorted (fun a b => newer b a = false) log
       /\ NoDup (map ev_ID log)
       /\ (forall e, e ∈ log <-> e ∈ db_events d /\ wanted q e)
       /\ Forall (fun p => Z.of_nat (length (ep_Items p)) <= page_limit q <= 200) pages.
Proof.
  intros Hwf Hc.
  destruct (walk_rows q d (S (length (db_events d))) [] (event_rows (matches q) d) q Hwf eq_refl)
    as (pages & Hw & Hl & Hp).
  - unfold event_rows. rewrite sort_slice_length. unfold select_rows.
    pose proof (List.filter_length_le (matches q) (db_events d)). lia.
  - by apply at_start.
  - exists "". destruct q. simpl in Hc. by subst.
  - exists pages. split; [done|]. cbv zeta. rewrite Hl. split; [apply event_rows_sorted|].
    split; [by apply rows_wf|]. split.
    + intros e. by rewrite event_rows_elem, matches_wanted.
    + eapply Forall_impl; [exact Hp|]. simpl. pose proof (page_limit_bounds q). lia.
Qed.

(** ** Appending and pruning *)
Lemma AppendEvent_wf now ev d :
  events_wf d -> in_int64 (db_event_seq d + 1) = true -> in_int64 now = true -> in_int64 (ev_CreatedAt ev) = true ->
  events_wf (AppendEvent now ev d).1.
Proof.
  intros [Hi Hs Hz] Hseq Hnow Hev. constructor; simpl.
  - rewrite map_app. simpl. apply NoDup_app. split; [done|]. split; [|apply NoDup_singleton].
    intros x Hx Hx'%list_elem_of_singleton. simpl in Hx'. subst x.
    apply list_elem_of_In, in_map_iff in Hx as (e & He & Hin%list_elem_of_In). specialize (Hs e Hin). lia.
  - intros e [He|He%list_elem_of_singleton]%elem_of_app; [specialize (Hs e He); lia|]. by subst.
  - intros e [He|He%list_elem_of_singleton]%elem_of_app; [by apply Hz|]. subst. simpl. by destruct (_ =? 0).
Qed.

Lemma Prune_wf cutoff d : events_wf d -> events_wf (PruneEventsOlderThan cutoff d).1.
Proof.
  intros Hwf. unfold PruneEventsOlderThan. destruct (cutoff <=? 0); [done|]. destruct Hwf as [Hi Hs Hz].
  constructor; simpl; [by apply NoDup_map_delete| |]; intros e [He _]%elem_of_delete; auto.
Qed.

(** Pruning deletes exactly the events before a positive cutoff and counts them;
    the log stays well-formed and the ids of pruned events are never given to
    new ones. *)
Theorem Prune_spec cutoff d :
  events_wf d ->
  let '(d', r) := PruneEventsOlderThan cutoff d in
  events_wf d' /\ db_event_seq d' = db_event_seq d
  /\ (forall e, e ∈ db_events d' <-> e ∈ db_events d /\ (0 < cutoff -> cutoff <= ev_CreatedAt e))
  /\ r = Ok (Z.of_nat (length (db_events d)) - Z.of_nat (length (db_events d')))
  /\ (forall now ev e, e ∈ db_events d -> forall new, (AppendEvent now ev d').2 = Ok new -> ev_ID e < ev_ID new).
Proof.
  intros Hwf. pose proof (Prune_wf cutoff d Hwf) as Hwf'. revert Hwf'.
  unfold PruneEventsOlderThan. destruct (Z.leb_spec cutoff 0) as [Hc|Hc]; cbn [fst]; intros Hwf'.
  - split; [done|]. split; [done|]. split; [|split; [f_equal; lia|]].
    + intros e. split; [|naive_solver]. intros He. split; [done|lia].
    + intros now ev e He new. simpl. intros [= <-]. simpl. pose proof (ew_seq d Hwf e He). lia.
  - split; [done|]. split; [done|]. split; [|split].
    + intros e. simpl. rewrite elem_of_delete, Z.ltb_ge. naive_solver.
    + simpl. f_equal. clear Hwf'. unfold rows_affected, delete_rows.
      induction (db_events d) as [|e l IH]; [done|]. cbn [List.filter].
      destruct (ev_CreatedAt e <? cutoff); cbn [negb length] in *; lia.
    + intros now ev e He new. simpl. intros [= <-]. simpl. pose proof (ew_seq d Hwf e He). lia.
Qed.

(** A page read from a cursor does not change when newer events are appended in
    the meantime. *)
Theorem ListEvents_stable_under_append now ev q k d :
  decodeEventCursor (eq_Cursor q) = Ok k -> eq_Cursor q <> "" ->
  k.1 <= (if ev_CreatedAt ev =? 0 then now else ev_CreatedAt ev) -> k.2 <= db_event_seq d ->
  (ListEvents q (AppendEvent now ev d).1).2 = (ListEvents q d).2.
Proof.
  intros Hk Hc%String.eqb_neq Ht Hid. unfold ListEvents. rewrite Hc, Hk. cbn [snd].
  unfold event_rows, select_rows. cbn [AppendEvent fst set_log db_events]. rewrite List.filter_app. cbn [List.filter].
  match goal with |- context [older k ?x] => replace (older k x) with false end.
  - by rewrite andb_false_r, app_nil_r.
  - symmetry. apply not_true_iff_false. rewrite older_spec. simpl. lia.
Qed.

(** ** Concrete inputs *)
Definition demo_event (title : string) : Event :=
  {| ev_ID := 0; ev_Event := EventContainerStatus; ev_Title := title; ev_Body := ""; ev_ContainerName := "web";
     ev_StackID := "s"; ev_CreatedAt := 0 |}.

Definition demo_log : DB :=
  (AppendEvent 30 (demo_event "100% full") (AppendEvent 20 (demo_event "web stopped")
     (AppendEvent 20 (demo_event "web started") empty_db).1).1).1.

Lemma demo_log_wf : events_wf demo_log.
Proof.
  repeat (apply AppendEvent_wf; [|reflexivity|reflexivity|reflexivity]).
  constructor; simpl; [constructor| |]; intros e He; by apply elem_of_nil in He.
Defined.

Definition demo_query : EventQuery :=
  {| eq_Cursor := ""; eq_Limit := 1; eq_Event := ""; eq_Container := ""; eq_Stack := ""; eq_Search := "WEB" |}.

(** A search for "%" finds only the row that has one. *)
Example search_percent :
  match (ListEvents {| eq_Cursor := ""; eq_Limit := 0; eq_Event := ""; eq_Container := ""; eq_Stack := "";
                       eq_Search := "%" |} demo_log).2 with
  | Ok p => map ev_Title (ep_Items p)
  | Fail _ => []
  end = ["100% full"].
Proof. vm_compute. reflexivity. Qed.

Lemma ListEvents_walk_witness :
  events_wf demo_log /\ exists pages, walk 4 demo_query demo_log = Some pages.
Proof.
  split; [apply demo_log_wf|].
  destruct (ListEvents_walk demo_query demo_log demo_log_wf eq_refl) as (pages & Hp & _). by exists pages.
Defined.

Lemma Prune_spec_witness :
  forall e, e ∈ db_events (PruneEventsOlderThan 25 demo_log).1 <-> e ∈ db_events demo_log /\ (0 < 25 -> 25 <= ev_CreatedAt e).
Proof. apply (Prune_spec 25 demo_log demo_log_wf). Defined.

Lemma ListEvents_stable_under_append_witness :
  (ListEvents (with_cursor "20_2" demo_query) (AppendEvent 40 (demo_event "web again") demo_log).1).2
  = (ListEvents (with_cursor "20_2" demo_query) demo_log).2.
Proof.
  apply (ListEvents_stable_under_append 40 (demo_event "web again") (with_cursor "20_2" demo_query) (20, 2) demo_log).
  - vm_compute. reflexivity.
  - discriminate.
  - simpl. lia.
  - simpl. lia.
Defined.
