(* ===== verification/StoreSettings.v ===== *)
(** * Settings in the store (src/internal/store: settings.go, notifications.go, mdadm.go)

    The key-value table and what is kept in it: the app settings, the
    notification targets, and the maps the watchers remember between sweeps.
    Values that are not plain numbers are JSON; [JsonCodec] stands for
    encoding/json at one type. *)
From S2P Require Import Prelude GoStrings Api Db Docker World Sim.
Open Scope Z_scope.

(** ** The table *)
Definition GetSetting (key : string) : Sql string := fun d =>
  match db_settings d !! key with
  | Some v => (d, Ok v)
  | None => (d, Fail errNotFound)
  end.

Definition SetSetting (key value : string) : Sql unit := fun d =>
  (set_log d (<[key := value]> (db_settings d)) (db_events d) (db_event_seq d), Ok tt).

Definition DefaultPollIntervalSeconds : Z := 5.
Definition DefaultAutoUpdateDefault : bool := false.
Definition DefaultAutoUpdateIntervalMinutes : Z := 60.
Definition DefaultEventLogRetentionDays : Z := 30.

Definition keyPollInterval : string := "poll_interval_seconds".
Definition keyAutoUpdateDefault : string := "auto_update_default".
Definition keyAutoUpdateInterval : string := "auto_update_interval_minutes".
Definition keyEventRetention : string := "event_log_retention_days".
Definition keyDiskVisibility : string := "disk_visibility".
Definition keyNotifyTargets : string := "notify_targets".
Definition keyNotifyURLs : string := "notify_urls".
Definition keyNotifyEvents : string := "notify_events".
Definition keyNotifiedStatuses : string := "notify_last_statuses".
Definition keyNotifiedUpdates : string := "notify_last_update_available".
Definition keyMdadmSchedules : string := "mdadm_schedules".
Definition keyMdadmLastScan : string := "mdadm_last_scan".
Definition keyMdadmLastRun : string := "mdadm_last_run".
Definition keyMdadmBaseline : string := "mdadm_notify_baseline".
Definition keyMdadmFailures : string := "mdadm_scan_failures".

Section Settings.
Context {E : Type} `{!Env E}.

Definition getInt (key : string) : M E (result Z) :=
  let? v := sql (GetSetting key) in
  match Atoi v with
  | Some n => mret (Ok n)
  | None => mret (Fail (errorf ("strconv.Atoi: parsing " +:+ v +:+ ": invalid syntax")))
  end.

Section Json.
Context {A : Type} `{!JsonCodec A}.

(** The value decoded over [dst]; [dst] itself when the key is unset, and what
    the failed decoding left of it when the value does not fit. *)
Definition getJSON (key : string) (dst : A) : M E (result A) :=
  r ← sql (GetSetting key);
  match r with
  | Fail e => if errors_Is e ErrNotFound then mret (Ok dst) else mret (Fail e)
  | Ok v => mret (Ok (unmarshal_into v dst))
  end.

(** The loaders of settings.go that return a fresh [empty] value when the
    stored one does not fit. *)
Definition loadJSON (key : string) (empty : A) : M E (result A) :=
  r ← sql (GetSetting key);
  match r with
  | Fail e => if errors_Is e ErrNotFound then mret (Ok empty) else mret (Fail e)
  | Ok v => match json_Unmarshal v with Some a => mret (Ok a) | None => mret (Ok empty) end
  end.

Definition setJSON (key : string) (v : A) : M E (result unit) :=
  sql (SetSetting key (json_Marshal v)).
End Json.

(** One optional setting of [LoadSettings]: a missing key keeps the default,
    any other failure is returned. *)
Definition or_default {A} (m : M E (result A)) (d : A) : M E (result A) :=
  r ← m;
  match r with
  | Ok v => mret (Ok v)
  | Fail e => if errors_Is e ErrNotFound then mret (Ok d) else mret (Fail e)
  end.

Section WithJson.
Context `{!JsonCodec (gmap string bool)}.

Definition LoadDiskVisibility : M E (result (gmap string bool)) :=
  loadJSON keyDiskVisibility ∅.

Definition SaveDiskVisibility (vis : gmap string bool) : M E (result unit) :=
  setJSON keyDiskVisibility vis.

Definition LoadSettings : M E (result Settings) :=
  let? poll := or_default (getInt keyPollInterval) DefaultPollIntervalSeconds in
  let? auto := or_default (r ← sql (GetSetting keyAutoUpdateDefault);
                           match r with Ok v => mret (Ok (String.eqb v "1")) | Fail e => mret (Fail e) end)
                 DefaultAutoUpdateDefault in
  let? interval := or_default (getInt keyAutoUpdateInterval) DefaultAutoUpdateIntervalMinutes in
  let? retention := or_default (getInt keyEventRetention) DefaultEventLogRetentionDays in
  let? vis := LoadDiskVisibility in
  mret (Ok {| set_PollIntervalSeconds := poll; set_AutoUpdateDefault := auto;
              set_AutoUpdateIntervalMinutes := interval;
              set_EventLogRetentionDays := retention;
              set_DiskVisibility := Some vis |}).

Definition SaveSettings (cfg : Settings) : M E (result unit) :=
  let? _ := sql (SetSetting keyPollInterval (Itoa (set_PollIntervalSeconds cfg))) in
  let? _ := sql (SetSetting keyAutoUpdateInterval (Itoa (set_AutoUpdateIntervalMinutes cfg))) in
  let? _ := sql (SetSetting keyEventRetention (Itoa (set_EventLogRetentionDays cfg))) in
  let? _ := sql (SetSetting keyAutoUpdateDefault (if set_AutoUpdateDefault cfg then "1" else "0")) in
  match set_DiskVisibility cfg with
  | Some vis => SaveDiskVisibility vis
  | None => mret (Ok tt)
  end.

Definition LoadNotifiedUpdates : M E (result (gmap string bool)) := getJSON keyNotifiedUpdates ∅.
Definition SaveNotifiedUpdates (m : gmap string bool) : M E (result unit) := setJSON keyNotifiedUpdates m.
End WithJson.

Section Statuses.
Context `{!JsonCodec (gmap string ContainerStatus)}.
Definition LoadNotifiedStatuses : M E (result (gmap string ContainerStatus)) :=
  getJSON keyNotifiedStatuses ∅.
Definition SaveNotifiedStatuses (m : gmap string ContainerStatus) : M E (result unit) :=
  setJSON keyNotifiedStatuses m.
End Statuses.

Section Targets.
Context `{!JsonCodec (list NotificationTarget)} `{!JsonCodec (list string)}
        `{!JsonCodec (gmap NotificationEvent bool)}.

(** The pre-per-target keys: every URL gets the event map they all shared. *)
Definition legacyNotificationConfig : M E (result NotificationConfig) :=
  let? urls := getJSON keyNotifyURLs [] in
  let? events := getJSON keyNotifyEvents ∅ in
  mret (Ok {| nc_Targets := map (fun u => {| nt_URL := u; nt_Events := events |}) urls;
              nc_EnvManaged := false |}).

Definition LoadNotificationConfig : M E (result NotificationConfig) :=
  let? targets := getJSON keyNotifyTargets [] in
  match targets with
  | _ :: _ => mret (Ok {| nc_Targets := targets; nc_EnvManaged := false |})
  | [] => legacyNotificationConfig
  end.

Definition SaveNotificationConfig (cfg : NotificationConfig) : M E (result unit) :=
  let? _ := setJSON keyNotifyTargets (nc_Targets cfg) in
  let? _ := setJSON keyNotifyURLs ([] : list string) in
  setJSON keyNotifyEvents (∅ : gmap NotificationEvent bool).
End Targets.
End Settings.

(** ** Lemmas *)
Section Facts.
Context {E : Type} `{!Env E}.

Lemma sql_no_fault {A} (s : Sql A) w :
  no_faults -> sql s w = (set_db (set_env w (sql_fault (w_env w)).1) (s (w_db w)).1, Ret (s (w_db w)).2).
Proof.
  intros Hn. unfold sql. specialize (Hn (w_env w)).
  destruct (sql_fault (w_env w)) as [e [err|]]; [done|]. done.
Qed.

Lemma GetSetting_quiet key d : (GetSetting key d).1 = d.
Proof. unfold GetSetting. by destruct (_ !! _). Qed.

Lemma observes_GetSetting key : observes (E:=E) (sql (GetSetting key)).
Proof. apply observes_sql, GetSetting_quiet. Qed.

Lemma observes_getJSON {A} `{!JsonCodec A} key (dst : A) : observes (E:=E) (getJSON key dst).
Proof. unfold getJSON. repeat first [apply observes_GetSetting | observes_step]. Qed.

Lemma observes_loadJSON {A} `{!JsonCodec A} key (empty : A) : observes (E:=E) (loadJSON key empty).
Proof. unfold loadJSON. repeat first [apply observes_GetSetting | observes_step]. Qed.

Lemma observes_LoadSettings `{!JsonCodec (gmap string bool)} : observes (E:=E) LoadSettings.
Proof.
  unfold LoadSettings, LoadDiskVisibility, or_default, getInt.
  repeat first [apply observes_GetSetting | apply observes_loadJSON | observes_step].
Qed.

Lemma observes_LoadNotificationConfig `{!JsonCodec (list NotificationTarget)} `{!JsonCodec (list string)}
    `{!JsonCodec (gmap NotificationEvent bool)} : observes (E:=E) LoadNotificationConfig.
Proof.
  unfold LoadNotificationConfig, legacyNotificationConfig.
  repeat first [apply observes_getJSON | observes_step].
Qed.

Lemma wp_sql_ok {A} (s : Sql A) (Q : outcome (result A) -> World E -> Prop) w :
  no_faults ->
  (forall e, Q (Ret (s (w_db w)).2) (set_db (set_env w e) (s (w_db w)).1)) ->
  wp (sql s) Q w.
Proof. intros Hn H. unfold wp. rewrite sql_no_fault by done. apply H. Qed.

Lemma wp_getInt_hit key n w Q :
  no_faults -> db_settings (w_db w) !! key = Some (Itoa n) -> in_int64 n = true ->
  (forall e, Q (Ret (Ok n)) (set_env w e)) -> wp (E:=E) (getInt key) Q w.
Proof.
  intros Hn Hk Hr HQ. unfold getInt. apply wp_bind, wp_sql_ok; [done|]. intros e.
  unfold GetSetting. rewrite Hk. simpl. rewrite Atoi_Itoa by done. apply wp_ret, HQ.
Qed.

Lemma wp_getJSON_hit {A} `{!JsonCodec A} `{!JsonCodecOk A} key (a dst : A) w Q :
  no_faults -> db_settings (w_db w) !! key = Some (json_Marshal a) ->
  (forall e, Q (Ret (Ok a)) (set_env w e)) -> wp (E:=E) (getJSON key dst) Q w.
Proof.
  intros Hn Hk HQ. unfold getJSON. apply wp_bind, wp_sql_ok; [done|]. intros e.
  unfold GetSetting. rewrite Hk. simpl. unfold unmarshal_into. rewrite json_roundtrip. apply wp_ret, HQ.
Qed.

Lemma wp_loadJSON_hit {A} `{!JsonCodec A} `{!JsonCodecOk A} key (a empty : A) w Q :
  no_faults -> db_settings (w_db w) !! key = Some (json_Marshal a) ->
  (forall e, Q (Ret (Ok a)) (set_env w e)) -> wp (E:=E) (loadJSON key empty) Q w.
Proof.
  intros Hn Hk HQ. unfold loadJSON. apply wp_bind, wp_sql_ok; [done|]. intros e.
  unfold GetSetting. rewrite Hk. simpl. rewrite json_roundtrip. apply wp_ret, HQ.
Qed.

Lemma wp_setting (k v : string) w (Q : outcome (result unit) -> World E -> Prop) :
  no_faults ->
  (forall e, Q (Ret (Ok tt)) (set_db (set_env w e) (SetSetting k v (w_db w)).1)) ->
  wp (sql (SetSetting k v)) Q w.
Proof. intros Hn H. by apply wp_sql_ok. Qed.
End Facts.

(** The database after settings were written. *)
Ltac setting_lookup := simpl; simplify_map_eq; try done.

Section RoundTrips.
Context {E : Type} `{!Env E}.

Lemma wp_or_default {A} (m : M E (result A)) d w Q :
  wp m (fun o w' => match o with
    | Ret (Ok v) => Q (Ret (Ok v)) w'
    | Ret (Fail e) => Q (Ret (if errors_Is e ErrNotFound then Ok d else Fail e)) w'
    | Panic s => Q (Panic s) w' end) w ->
  wp (or_default m d) Q w.
Proof.
  intros H. unfold or_default. apply wp_bind. eapply wp_mono; [exact H|].
  intros [[v|e]|s] w' HQ; [by apply wp_ret| |done].
  by destruct (errors_Is e ErrNotFound); apply wp_ret.
Qed.

(** Settings that were saved load back unchanged. *)
Theorem settings_roundtrip `{!JsonCodec (gmap string bool)} `{!JsonCodecOk (gmap string bool)}
    cfg vis (w : World E) :
  no_faults (E:=E) -> set_DiskVisibility cfg = Some vis ->
  in_int64 (set_PollIntervalSeconds cfg) = true ->
  in_int64 (set_AutoUpdateIntervalMinutes cfg) = true ->
  in_int64 (set_EventLogRetentionDays cfg) = true ->
  wp (let? _ := SaveSettings cfg in LoadSettings) (fun o _ => o = Ret (Ok cfg)) w.
Proof.
  intros Hn Hv H1 H2 H3. apply wp_bind. unfold SaveSettings. rewrite Hv.
  do 4 (apply wp_bind, wp_setting; [done|]; intros ?).
  apply wp_setting; [done|]. intros ?. unfold LoadSettings.
  apply wp_bind, wp_or_default, wp_getInt_hit with (set_PollIntervalSeconds cfg); [done|setting_lookup..|].
  intros ?. apply wp_bind, wp_or_default, wp_bind, wp_sql_ok; [done|]. intros ?.
  unfold GetSetting at 1 2. simplify_map_eq. simpl. apply wp_ret.
  apply wp_bind, wp_or_default, wp_getInt_hit with (set_AutoUpdateIntervalMinutes cfg); [done|setting_lookup..|].
  intros ?. apply wp_bind, wp_or_default, wp_getInt_hit with (set_EventLogRetentionDays cfg); [done|setting_lookup..|].
  intros ?. apply wp_bind, wp_loadJSON_hit with vis; [done|setting_lookup..|].
  intros ?. apply wp_ret. destruct cfg as [a b c d v]. simpl in *. subst v.
  by destruct b.
Qed.

(** The notification targets that were saved load back unchanged; saving none
    leaves none, so the targets of older versions do not come back. *)
Theorem targets_roundtrip `{!JsonCodec (list NotificationTarget)} `{!JsonCodecOk (list NotificationTarget)}
    `{!JsonCodec (list string)} `{!JsonCodecOk (list string)}
    `{!JsonCodec (gmap NotificationEvent bool)} `{!JsonCodecOk (gmap NotificationEvent bool)}
    cfg (w : World E) :
  no_faults (E:=E) ->
  wp (let? _ := SaveNotificationConfig cfg in LoadNotificationConfig)
     (fun o _ => o = Ret (Ok {| nc_Targets := nc_Targets cfg; nc_EnvManaged := false |})) w.
Proof.
  intros Hn. apply wp_bind. unfold SaveNotificationConfig.
  do 2 (apply wp_bind, wp_setting; [done|]; intros ?).
  apply wp_setting; [done|]. intros ?. unfold LoadNotificationConfig.
  apply wp_bind, wp_getJSON_hit with (nc_Targets cfg); [done|setting_lookup..|]. intros ?.
  destruct (nc_Targets cfg) as [|t ts] eqn:Et; [|by apply wp_ret].
  unfold legacyNotificationConfig.
  apply wp_bind, wp_getJSON_hit with (a := [] : list string); [done|setting_lookup..|]. intros ?.
  apply wp_bind, wp_getJSON_hit with (a := ∅ : gmap NotificationEvent bool); [done|setting_lookup..|]. intros ?.
  by apply wp_ret.
Qed.
End RoundTrips.

(** ** Instances at concrete inputs *)
Definition sample_settings : Settings :=
  {| set_PollIntervalSeconds := 7; set_AutoUpdateDefault := true;
     set_AutoUpdateIntervalMinutes := 90; set_EventLogRetentionDays := 0;
     set_DiskVisibility := Some {["mount:/" := true]} |}.

Lemma settings_roundtrip_witness :
  wp (E:=Sim) (let? _ := SaveSettings sample_settings in LoadSettings)
     (fun o _ => o = Ret (Ok sample_settings)) (sim_world empty_db sim_empty).
Proof.
  exact (settings_roundtrip sample_settings {["mount:/" := true]} (sim_world empty_db sim_empty)
           sim_no_faults eq_refl eq_refl eq_refl eq_refl).
Defined.

Lemma targets_roundtrip_witness :
  wp (E:=Sim) (let? _ := SaveNotificationConfig {| nc_Targets := []; nc_EnvManaged := false |}
               in LoadNotificationConfig)
     (fun o _ => o = Ret (Ok {| nc_Targets := []; nc_EnvManaged := false |})) (sim_world empty_db sim_empty).
Proof.
  exact (targets_roundtrip {| nc_Targets := []; nc_EnvManaged := false |}
           (sim_world empty_db sim_empty) sim_no_faults).
Defined.
