(* ===== verification/Notify.v ===== *)
(** * Notification delivery (src/internal/notify/notify.go)

    A notifier records every event in the log and hands it to the targets
    subscribed to it. Shoutrrr, which builds a sender from a service URL and
    delivers through it, is [Shoutrrr]; net/url is [UrlLib]; the calendar of the
    local time zone is [Calendar]. The goroutine that delivers is an [EvGoSend]
    in the trace, and [Send] is what it runs. *)
From S2P Require Import Prelude GoStrings Api Db Docker World Sim StoreEvents StoreSettings.
Open Scope Z_scope.

(** [shoutrrr.CreateSender] and [sender.Send(msg, {title})]. *)
Class Shoutrrr (E : Type) := {
  Sender : Type;
  sr_CreateSender : string -> result Sender;
  sr_Send : Sender -> string -> string -> E -> E * list (option error)
}.

(** [url.Parse]: the scheme, and the first value of a query key. *)
Class UrlLib := { url_Parse : string -> option (string * (string -> string)) }.

(** [t.AddDate(0, 0, days)], in nanoseconds. *)
Class Calendar := { cal_AddDays : Z -> Z -> Z }.

Definition EnvURLs : string := "VEERY_NOTIFY_URLS".
Definition EnvEvents : string := "VEERY_NOTIFY_EVENTS".

(** [Notifier]: whether it has a store, the config pinned by the environment,
    and whether the live-push sink is attached. *)
Record Notifier := { n_st : bool; n_env : option NotificationConfig; n_bc : bool }.

(** ** The environment's config *)
(** [envEvents] *)
Definition envEvents (raw : string) : gmap NotificationEvent bool :=
  if String.eqb (TrimSpace raw) "" then ∅
  else
    let out := fold_left (fun m ev => <[ev := false]> m) AllNotificationEvents ∅ in
    fold_left (fun m part =>
      let name := TrimSpace part in
      if String.eqb name "" then m
      else match m !! name with
           | None => m
           | Some _ => <[name := true]> m
           end) (Split raw ",") out.

(** [New]; [getenv] is [os.Getenv]. *)
Definition New (getenv : string -> string) (st : bool) : Notifier :=
  let raw := getenv EnvURLs in
  {| n_st := st;
     n_env := if negb (String.eqb (TrimSpace raw) "") then
                let events := envEvents (getenv EnvEvents) in
                Some {| nc_Targets := map (fun u => {| nt_URL := u; nt_Events := events |}) (Fields raw);
                        nc_EnvManaged := true |}
              else None;
     n_bc := false |}.

Definition SetBroadcaster (n : Notifier) : Notifier := {| n_st := n_st n; n_env := n_env n; n_bc := true |}.

Definition errEnvManaged : error :=
  mkErr ("notifications are configured by " +:+ EnvURLs +:+ " and cannot be changed here") [ErrEnvManaged].

(** ** URLs *)
(** [cleanURLs] *)
Definition cleanURLs (urls : list string) : list string :=
  List.filter (fun u => negb (String.eqb u "")) (map TrimSpace urls).

(** [cleanTargets]; a nil event map reads like an empty one. *)
Definition cleanTargets (targets : list NotificationTarget) : list NotificationTarget :=
  List.filter (fun t => negb (String.eqb (nt_URL t) ""))
    (map (fun t => {| nt_URL := TrimSpace (nt_URL t); nt_Events := nt_Events t |}) targets).

(** [redact] *)
Definition redact (url : string) : string :=
  match Cut url "://" with
  | Some (scheme, _) => scheme +:+ " target"
  | None => "notification target"
  end.

Definition redacted (url : string) (err : error) : error := wrapf (redact url +:+ ": ") err.

(** [errors.Join] *)
Definition errors_Join (errs : list error) : option error :=
  match errs with
  | [] => None
  | _ => Some (mkErr (Join (map Error errs) (String "010" "")) (concat (map wraps errs)))
  end.

Section Notify.
Context {E : Type} `{!Env E} `{!Shoutrrr E} `{!UrlLib} `{!Calendar}
  `{!JsonCodec (gmap string bool)} `{!JsonCodec (list NotificationTarget)} `{!JsonCodec (list string)}.

(** [inlinesTitle] *)
Definition inlinesTitle (rawURL : string) : bool :=
  match url_Parse rawURL with
  | None => false
  | Some (uscheme, query) =>
      let scheme := match Cut uscheme "+" with Some (a, _) => a | None => uscheme end in
      if negb (String.eqb scheme "generic") then false
      else if negb (String.eqb uscheme "generic") then true
      else negb (String.eqb (ToLower (query "template")) "json")
  end.

(** [Validate] *)
Fixpoint Validate (urls : list string) : option error :=
  match urls with
  | [] => None
  | u :: urls' =>
      match sr_CreateSender u with
      | Fail err => Some (redacted u err)
      | Ok _ => Validate urls'
      end
  end.

(** ** The config *)
(** [Config] *)
Definition Config (n : Notifier) : M E (result NotificationConfig) :=
  match n_env n with
  | Some cfg => mret (Ok cfg)
  | None => if n_st n then LoadNotificationConfig else panic "nil store"
  end.

(** [Save] *)
Definition Save (n : Notifier) (cfg : NotificationConfig) : M E (option error) :=
  match n_env n with
  | Some _ => mret (Some errEnvManaged)
  | None =>
      let targets := cleanTargets (nc_Targets cfg) in
      match Validate (map nt_URL targets) with
      | Some err => mret (Some err)
      | None =>
          if n_st n then
            r ← SaveNotificationConfig {| nc_Targets := targets; nc_EnvManaged := false |};
            mret (err_of r)
          else panic "nil store"
      end
  end.

(** ** Delivery *)
(** The sends of one URL and their failures. *)
Definition send_one (title body : string) (failures : list error) (u : string) : M E (list error) :=
  match sr_CreateSender u with
  | Fail err => mret (failures ++ [redacted u err])
  | Ok sender =>
      let msg := if inlinesTitle u
                 then title +:+ String "010" (String "010" body) else body in
      errs ← call (sr_Send sender msg title) (fun errs => [EvSend u msg title errs]);
      mret (failures ++ map (redacted u) (omap id errs))
  end.

(** [Send] *)
Definition Send (urls : list string) (title body : string) : M E (option error) :=
  failures ← for_fold urls (send_one title body) [];
  mret (errors_Join failures).

Definition test_title : string := "Veery test notification".
Definition test_body : string := "Notifications are working. This is a test from Veery.".

(** [SendTest] *)
Definition SendTest (n : Notifier) (urls : list string) : M E (option error) :=
  let! urls := match cleanURLs urls with
               | [] => r ← Config n; mret (match r with Ok cfg => Ok (URLs cfg) | Fail e => Fail e end)
               | urls => mret (Ok urls)
               end in
  match urls with
  | [] => mret (Some (errorf "no notification targets configured"))
  | _ => Send urls test_title test_body
  end.

(** ** Recording *)
(** [pruneEvents] *)
Definition pruneEvents : M E unit :=
  r ← LoadSettings;
  match r with
  | Fail _ => mret tt
  | Ok settings =>
      if set_EventLogRetentionDays settings <=? 0 then mret tt
      else
        now ← Now;
        let cutoff := cal_AddDays now (- set_EventLogRetentionDays settings) / second in
        _ ← sql (PruneEventsOlderThan cutoff); mret tt
  end.

(** [record]; the callers pass one [EventMeta] at most. *)
Definition record (n : Notifier) (ev : NotificationEvent) (title body : string) (meta : option EventMeta) : M E unit :=
  if negb (n_st n) then mret tt
  else
    let row := {| ev_ID := 0; ev_Event := ev; ev_Title := title; ev_Body := body;
                  ev_ContainerName := match meta with Some m => em_ContainerName m | None => "" end;
                  ev_StackID := match meta with Some m => em_StackID m | None => "" end;
                  ev_CreatedAt := 0 |} in
    now ← unixNow;
    r ← sql (AppendEvent now row);
    match r with
    | Fail _ => mret tt
    | Ok stored =>
        _ ← pruneEvents;
        if n_bc n then tell [EvBroadcast (WSEvent stored)] else mret tt
    end.

(** [Notify] *)
Definition Notify (n : Notifier) (ev : NotificationEvent) (title body : string) (meta : option EventMeta) : M E unit :=
  _ ← record n ev title body meta;
  r ← Config n;
  match r with
  | Fail _ => mret tt
  | Ok cfg =>
      match URLsFor cfg ev with
      | [] => mret tt
      | urls => tell [EvGoSend urls title body]
      end
  end.
End Notify.

(** ** What is recorded *)
Section Facts.
Context {E : Type} `{!Env E} `{!Shoutrrr E} `{!UrlLib} `{!Calendar}
  `{!JsonCodec (gmap string bool)} `{!JsonCodec (list NotificationTarget)} `{!JsonCodec (list string)}.
Implicit Types (n : Notifier) (w : World E).

(** The config can be read: the environment pins it, or there is a store. *)
Definition readable n : Prop := n_env n = None -> n_st n = true.

Lemma observes_Config n : readable n -> observes (E:=E) (Config n).
Proof.
  unfold Config, readable. intros Hr. destruct (n_env n); [apply observes_ret|].
  rewrite Hr by done. apply observes_LoadNotificationConfig.
Qed.

(** A notification changes the log and nothing else of the database. *)
Lemma preserves_Notify (P : DB -> Prop) n ev title body meta :
  (forall d a b c, P d -> P (set_log d a b c)) -> preserves (E:=E) P (Notify n ev title body meta).
Proof.
  intros HP. assert (forall l : list string, preserves (E:=E) P match l with [] => mret tt | _ => tell [EvGoSend l title body] end) as Hgo.
  { intros [|? ?]; [apply preserves_ret|apply preserves_tell]. }
  unfold Notify, record, pruneEvents, Config, unixNow, Now. repeat first
    [ apply observes_preserves; first [apply observes_LoadSettings | apply observes_LoadNotificationConfig]
    | progress preserves_step ].
  - by apply HP.
  - unfold PruneEventsOlderThan. case_match; simpl; auto.
Qed.

(** The events the retention bound spares: all of them, or those that are not
    older than a positive number of days. *)
Definition spares (keep : Event -> bool) : Prop :=
  (forall e, keep e = true) \/
  exists t days, 0 < days /\ forall e, keep e = negb (ev_CreatedAt e <? cal_AddDays t (- days) / second).

Definition with_events (d : DB) (evs : list Event) (seq : Z) : DB := set_log d (db_settings d) evs seq.

Lemma filter_always {A} (l : list A) : List.filter (fun _ => true) l = l.
Proof. induction l as [|x l IH]; simpl; [done|]. by rewrite IH. Qed.

Lemma with_events_same (d : DB) : with_events d (db_events d) (db_event_seq d) = d.
Proof. by destruct d. Qed.

Lemma wp_pruneEvents w (Q : outcome unit -> World E -> Prop) :
  (forall e keep, spares keep ->
     Q (Ret tt) (set_db (set_env w e) (with_events (w_db w) (List.filter keep (db_events (w_db w))) (db_event_seq (w_db w))))) ->
  wp pruneEvents Q w.
Proof.
  intros HQ.
  assert (Hid : forall e, Q (Ret tt) (set_env w e)).
  { intros e. specialize (HQ e (fun _ => true)). rewrite filter_always, with_events_same in HQ. apply HQ. by left. }
  unfold pruneEvents. apply wp_bind, wp_observes; [apply observes_LoadSettings|]. intros e [settings|err] _; [|by apply wp_ret].
  destruct (set_EventLogRetentionDays settings <=? 0) eqn:Hd; [by apply wp_ret|].
  apply wp_bind, wp_call. intros e1 t _. rewrite log_nil. apply wp_bind, wp_sql.
  - intros. apply wp_ret, Hid.
  - intros e2. apply wp_ret. unfold PruneEventsOlderThan. simpl.
    set (c := cal_AddDays t _ / second). destruct (c <=? 0); [apply Hid|]. simpl.
    apply (HQ e2 (fun ev => negb (ev_CreatedAt ev <? c))). right. exists t, (set_EventLogRetentionDays settings).
    split; [lia|]. done.
Qed.

(** The row a notification becomes. *)
Definition row_of (ev : NotificationEvent) (title body : string) (meta : option EventMeta) (id t : Z) : Event :=
  {| ev_ID := id; ev_Event := ev; ev_Title := title; ev_Body := body;
     ev_ContainerName := match meta with Some m => em_ContainerName m | None => "" end;
     ev_StackID := match meta with Some m => em_StackID m | None => "" end;
     ev_CreatedAt := t |}.

Lemma wp_record n ev title body meta w (Q : outcome unit -> World E -> Prop) :
  n_st n = true ->
  (forall e, ~ no_faults (E:=E) -> Q (Ret tt) (set_env w e)) ->
  (forall e keep t, spares keep ->
     let stored := row_of ev title body meta (db_event_seq (w_db w) + 1) t in
     Q (Ret tt) (log (set_db (set_env w e)
       (with_events (w_db w) (List.filter keep (db_events (w_db w) ++ [stored])) (db_event_seq (w_db w) + 1)))
       (if n_bc n then [EvBroadcast (WSEvent stored)] else []))) ->
  wp (record n ev title body meta) (fun o w' => Q o w') w.
Proof.
  intros Hst Hfail HQ. unfold record. rewrite Hst. cbn [negb]. unfold unixNow, Now.
  apply wp_bind, wp_bind, wp_call. intros e1 t _. rewrite log_nil. apply wp_ret.
  apply wp_bind. unfold wp at 1.
  match goal with |- context [sql ?s ?v] => destruct (sql_run s v) as [e2 [(err & Hf & ->)| ->]] end; cbn [fst snd].
  { apply wp_ret, Hfail. intros Hn. specialize (Hn e1). cbn in Hf. congruence. }
  cbn [AppendEvent snd ev_CreatedAt].
  apply wp_bind, wp_pruneEvents. intros e3 keep Hk.
  specialize (HQ e3 keep (t / second) Hk). unfold row_of in HQ. cbv zeta in HQ.
  destruct (n_bc n).
  - apply wp_tell. exact HQ.
  - apply wp_ret. by rewrite log_nil in HQ.
Qed.

(** Every notification goes to the log, whatever targets are muted or missing
    and whether or not they can be read: with a store that works, the event is
    appended under a fresh id, nothing but events past the retention bound is
    dropped, nothing else of the database changes, and the connected clients are
    told of the row before anything is delivered. *)
Theorem Notify_records n ev title body meta w :
  no_faults (E:=E) -> n_st n = true ->
  wp (Notify n ev title body meta) (fun o w' => o = Ret tt /\
    exists keep t rest, spares keep /\
      let stored := row_of ev title body meta (db_event_seq (w_db w) + 1) t in
      w_db w' = with_events (w_db w) (List.filter keep (db_events (w_db w) ++ [stored])) (db_event_seq (w_db w) + 1) /\
      w_trace w' = w_trace w ++ (if n_bc n then [EvBroadcast (WSEvent stored)] else []) ++ rest /\
      Forall (fun e => exists urls, e = EvGoSend urls title body) rest) w.
Proof.
  intros Hn Hst. unfold Notify. apply wp_bind, wp_record; [done|by intros e []|].
  intros e keep t Hk stored. apply wp_bind, wp_observes; [apply observes_Config; by intros _|]. intros e' r _.
  set (w1 := set_env _ e').
  assert (forall rest, Forall (fun ev => exists urls, ev = EvGoSend urls title body) rest ->
    exists keep0 t0 rest0, spares keep0 /\
      w_db (log w1 rest) = with_events (w_db w) (List.filter keep0 (db_events (w_db w)
        ++ [row_of ev title body meta (db_event_seq (w_db w) + 1) t0])) (db_event_seq (w_db w) + 1) /\
      w_trace (log w1 rest) = w_trace w ++ (if n_bc n then [EvBroadcast (WSEvent
        (row_of ev title body meta (db_event_seq (w_db w) + 1) t0))] else []) ++ rest0 /\
      Forall (fun ev => exists urls, ev = EvGoSend urls title body) rest0) as Hrest.
  { intros rest Hrest. exists keep, t, rest. repeat split; [done| |done]. simpl. by rewrite app_assoc. }
  destruct r as [cfg|err].
  - destruct (URLsFor cfg ev) as [|u us].
    + apply wp_ret. split; [done|]. rewrite <- (log_nil w1). apply Hrest. constructor.
    + apply wp_tell. split; [done|]. apply Hrest. repeat constructor. eauto.
  - apply wp_ret. split; [done|]. rewrite <- (log_nil w1). apply Hrest. constructor.
Qed.

(** ** What is delivered *)
Definition is_go (e : Ev) : bool := match e with EvGoSend _ _ _ => true | _ => false end.
Definition go_sends (t : list Ev) : list Ev := List.filter is_go t.

(** What a notification hands to the background for a config. *)
Definition delivery (cfg : NotificationConfig) ev title body : list Ev :=
  match URLsFor cfg ev with [] => [] | urls => [EvGoSend urls title body] end.

Lemma record_frame n ev title body meta w :
  wp (record n ev title body meta) (fun o w' => o = Ret tt /\
    db_settings (w_db w') = db_settings (w_db w) /\ go_sends (w_trace w') = go_sends (w_trace w)) w.
Proof.
  destruct (n_st n) eqn:Hst; [|unfold record; rewrite Hst; by apply wp_ret].
  apply wp_record; [done|done|]. intros e keep t _ stored. split; [done|]. split; [done|].
  unfold log, go_sends. simpl. rewrite List.filter_app. destruct (n_bc n); simpl; by rewrite app_nil_r.
Qed.

(** After the event is recorded, delivery is what the config in force says. *)
Lemma wp_Notify_delivers n ev title body meta cfg w :
  (forall w1, db_settings (w_db w1) = db_settings (w_db w) ->
     wp (Config n) (fun o w2 => o = Ret (Ok cfg) /\ go_sends (w_trace w2) = go_sends (w_trace w1)) w1) ->
  wp (Notify n ev title body meta) (fun o w' => o = Ret tt /\
    go_sends (w_trace w') = go_sends (w_trace w) ++ delivery cfg ev title body) w.
Proof.
  intros Hc. unfold Notify. apply wp_bind. eapply wp_mono; [apply record_frame|]. cbv beta.
  intros o w1 (-> & Hs & Ht). apply wp_bind. eapply wp_mono; [by apply Hc|]. cbv beta.
  intros o2 w2 (-> & Ht2). unfold delivery. destruct (URLsFor cfg ev) as [|u us].
  - apply wp_ret. split; [done|]. by rewrite Ht2, Ht, app_nil_r.
  - apply wp_tell. split; [done|]. unfold go_sends in *. unfold log. cbn [w_trace].
    rewrite List.filter_app, Ht2, Ht. done.
Qed.

(** The environment's config wins: it cannot be changed here, it is reported as
    managed, and an event is delivered to exactly the URLs of the variable, all
    of them when the event is selected and none when it is not, whatever the
    database holds. *)
Theorem env_config_wins (getenv : string -> string) st ev title body meta w :
  let n := New getenv st in
  TrimSpace (getenv EnvURLs) <> "" ->
  (forall cfg, wp (Save n cfg) (fun o w' => o = Ret (Some errEnvManaged) /\ w' = w) w) /\
  wp (Notify n ev title body meta) (fun o w' => o = Ret tt /\
    go_sends (w_trace w') = go_sends (w_trace w) ++
      (if default true (envEvents (getenv EnvEvents) !! ev)
       then match Fields (getenv EnvURLs) with [] => [] | us => [EvGoSend us title body] end
       else [])) w.
Proof.
  intros n Hne. apply String.eqb_neq in Hne.
  assert (Henv : n_env n = Some {| nc_Targets := map (fun u => {| nt_URL := u; nt_Events := envEvents (getenv EnvEvents) |})
    (Fields (getenv EnvURLs)); nc_EnvManaged := true |}) by (unfold n, New; cbn; by rewrite Hne).
  split; [intros cfg; unfold Save; rewrite Henv; by apply wp_ret|].
  eapply wp_mono; [eapply wp_Notify_delivers|].
  - intros w1 _. unfold Config. rewrite Henv. by apply wp_ret.
  - cbv beta. intros o w' [-> Ht]. split; [done|]. rewrite Ht. f_equal. unfold delivery, URLsFor.
    cbn [nc_Targets]. generalize (Fields (getenv EnvURLs)). intros us.
    assert (urls_for (map (fun u => {| nt_URL := u; nt_Events := envEvents (getenv EnvEvents) |}) us) ev =
      if default true (envEvents (getenv EnvEvents) !! ev) then us else []) as ->.
    { induction us as [|u us IH]; cbn [map urls_for Enabled nt_Events nt_URL].
      - by destruct (default _ _).
      - unfold Enabled at 1. cbn [nt_Events]. rewrite IH. by destruct (envEvents _ !! ev) as [[]|]. }
    by destruct (default _ _), us.
Qed.

(** Looking a setting up in a database whose settings are known. *)
Lemma wp_Load_saved `{!JsonCodecOk (list NotificationTarget)} `{!JsonCodecOk (list string)}
    `{!JsonCodecOk (gmap string bool)} targets w (Q : outcome (result NotificationConfig) -> World E -> Prop) :
  no_faults (E:=E) ->
  db_settings (w_db w) !! keyNotifyTargets = Some (json_Marshal targets) ->
  db_settings (w_db w) !! keyNotifyURLs = Some (json_Marshal ([] : list string)) ->
  db_settings (w_db w) !! keyNotifyEvents = Some (json_Marshal (∅ : gmap NotificationEvent bool)) ->
  (forall e, Q (Ret (Ok {| nc_Targets := targets; nc_EnvManaged := false |})) (set_env w e)) ->
  wp LoadNotificationConfig Q w.
Proof.
  intros Hn H1 H2 H3 HQ. unfold LoadNotificationConfig.
  apply wp_bind, wp_getJSON_hit with targets; [done|done|]. intros e.
  destruct targets as [|t ts]; [|apply wp_ret, HQ].
  unfold legacyNotificationConfig. apply wp_bind, wp_getJSON_hit with (a := [] : list string); [done|done|].
  intros e'. apply wp_bind, wp_getJSON_hit with (a := ∅ : gmap NotificationEvent bool); [done|done|].
  intros e2. apply wp_ret, HQ.
Qed.

(** Who hears of an event: the URLs of a config that are not blank, trimmed, of
    the targets that have not muted it. *)
Definition recipients (targets : list NotificationTarget) (ev : NotificationEvent) : list string :=
  omap (fun t => let u := TrimSpace (nt_URL t) in
                 if decide (u <> "" /\ nt_Events t !! ev <> Some false) then Some u else None) targets.

Lemma urls_for_clean targets ev : urls_for (cleanTargets targets) ev = recipients targets ev.
Proof.
  unfold cleanTargets, recipients. induction targets as [|t ts IH]; [done|]. cbn [map List.filter omap list_omap nt_URL].
  destruct (String.eqb_spec (TrimSpace (nt_URL t)) "") as [He|He]; cbn [negb].
  - rewrite IH, decide_False by tauto. done.
  - cbn [urls_for nt_URL]. unfold Enabled. cbn [nt_Events]. destruct (nt_Events t !! ev) as [[]|].
    + rewrite decide_True by done. by rewrite IH.
    + rewrite decide_False by tauto. exact IH.
    + rewrite decide_True by done. by rewrite IH.
Qed.

(** A target of a config that is kept, and its URL. *)
Definition kept (targets : list NotificationTarget) (u : string) : Prop :=
  u <> "" /\ exists t, t ∈ targets /\ u = TrimSpace (nt_URL t).

Lemma kept_clean targets u : u ∈ map nt_URL (cleanTargets targets) <-> kept targets u.
Proof.
  unfold cleanTargets, kept. rewrite list_elem_of_In, in_map_iff. split.
  - intros (x & <- & [(t & <- & Ht)%in_map_iff Hne%negb_true_iff%String.eqb_neq]%filter_In).
    split; [done|]. exists t. by rewrite list_elem_of_In.
  - intros (Hne & t & Ht%list_elem_of_In & ->).
    exists {| nt_URL := TrimSpace (nt_URL t); nt_Events := nt_Events t |}. split; [done|]. apply filter_In. split.
    + by apply (in_map (fun t => {| nt_URL := TrimSpace (nt_URL t); nt_Events := nt_Events t |})).
    + by apply negb_true_iff, String.eqb_neq.
Qed.

Lemma Validate_spec us :
  match Validate us with
  | None => forall u, u ∈ us -> exists sender, sr_CreateSender u = Ok sender
  | Some err => exists u e, u ∈ us /\ sr_CreateSender u = Fail e /\ err = redacted u e
  end.
Proof.
  induction us as [|u us IH]; cbn [Validate]; [set_solver|].
  destruct (sr_CreateSender u) as [sender|e] eqn:Hu; [|exists u, e; split; [left|done]].
  destruct (Validate us) as [err|].
  - destruct IH as (v & e & Hv & ?). exists v, e. split; [by right|done].
  - intros v [->|Hv]%elem_of_cons; eauto.
Qed.

(** C29. What is saved is what is delivered. On a store that works, and unless
    the targets come from the environment, saving a config is refused, with
    nothing changed, exactly when some URL of it that is not blank cannot be
    built once trimmed, and the error names that target. Once it is saved, a
    notification is handed to the trimmed URLs of the targets that are not blank
    and have not muted its event, in order, and to nobody else. *)
Theorem saved_targets_deliver `{!JsonCodecOk (list NotificationTarget)} `{!JsonCodecOk (list string)}
    `{!JsonCodecOk (gmap string bool)} n cfg ev title body meta w :
  no_faults (E:=E) -> n_env n = None -> n_st n = true ->
  wp (Save n cfg) (fun o w1 =>
    (exists u e, kept (nc_Targets cfg) u /\ sr_CreateSender u = Fail e /\ o = Ret (Some (redacted u e)) /\ w1 = w) \/
    (o = Ret None /\ (forall u, kept (nc_Targets cfg) u -> exists sender, sr_CreateSender u = Ok sender) /\
     wp (Notify n ev title body meta) (fun o2 w2 => o2 = Ret tt /\
       go_sends (w_trace w2) = go_sends (w_trace w) ++
         match recipients (nc_Targets cfg) ev with [] => [] | urls => [EvGoSend urls title body] end) w1)) w.
Proof.
  intros Hn Henv Hst. unfold Save. rewrite Henv, Hst. set (saved := cleanTargets (nc_Targets cfg)).
  pose proof (Validate_spec (map nt_URL saved)) as Hv. destruct (Validate (map nt_URL saved)) as [err|].
  { apply wp_ret. left. destruct Hv as (u & e & Hu & He & ->). exists u, e. split; [by apply kept_clean|done]. }
  unfold SaveNotificationConfig. apply wp_bind. do 2 (apply wp_bind, wp_setting; [done|]; intros ?). apply wp_setting; [done|].
  intros ?. apply wp_ret. right. split; [done|]. split; [intros u Hu; apply Hv; by apply kept_clean|].
  eapply wp_mono; [apply (wp_Notify_delivers n ev title body meta {| nc_Targets := saved; nc_EnvManaged := false |})|].
  - intros w1 Hs. unfold Config. rewrite Henv, Hst.
    apply (wp_Load_saved saved); [done|rewrite Hs; setting_lookup..|]. intros e'. done.
  - cbv beta. intros o w' [-> Ht]. split; [done|]. rewrite Ht. unfold delivery, URLsFor. cbn [nc_Targets].
    unfold saved. by rewrite urls_for_clean.
Qed.

(** ** Delivering *)
Definition buildable (u : string) : bool := is_ok (sr_CreateSender u).

Definition tried (t : list Ev) : list string :=
  omap (fun e => match e with EvSend u _ _ _ => Some u | _ => None end) t.

(** What one send carries: the title is inlined where the target drops it. *)
Definition carries (title body : string) (e : Ev) : Prop :=
  match e with
  | EvSend u msg t _ => t = title /\
      msg = (if inlinesTitle u then title +:+ String "010" (String "010" body) else body)
  | _ => False
  end.

Definition delivered (e : Ev) : Prop :=
  match e with EvSend _ _ _ errs => omap id errs = [] | _ => False end.

Lemma errors_Join_None errs : errors_Join errs = None <-> errs = [].
Proof. by destruct errs. Qed.

(** One dead target does not silence the others: sending tries every URL a
    sender can be built for, once and in order, whatever the earlier ones
    answered, with the title in the message where the target would drop it; it
    reports success exactly when all of them could be built and delivered. *)
Theorem Send_tries_every_target urls title body :
  emits (E:=E) (Send urls title body) (fun o t =>
    tried t = List.filter buildable urls /\ Forall (carries title body) t /\
    exists e, o = Ret e /\ (e = None <-> forallb buildable urls = true /\ Forall delivered t)).
Proof.
  unfold Send.
  pose proof (emits_for_fold (E:=E)
    (fun done failures t => tried t = List.filter buildable done /\ Forall (carries title body) t /\
       (failures = [] <-> forallb buildable done = true /\ Forall delivered t))
    (fun _ => False) urls (send_one title body) []) as Hloop.
  eapply emits_bind; [apply Hloop| |].
  - split; [done|]. split; [constructor|]. split; [intros _; split; [done|constructor]|done].
  - intros dn u rest failures t _ (Ht & Hc & Hf). unfold send_one.
    destruct (sr_CreateSender u) as [sender|err] eqn:Hs.
    + eapply emits_bind; [apply emits_call with (P := fun o t' => exists errs, o = Ret errs /\
          t' = [EvSend u (if inlinesTitle u then title +:+ String "010" (String "010" body) else body) title errs]);
          eauto|by intros s ? (? & ? & ?)|].
      intros errs t1 (errs' & [= <-] & ->). apply emits_ret. rewrite app_nil_r. split; [|split].
      * unfold tried. rewrite omap_app, List.filter_app. fold (tried t). rewrite Ht. simpl.
        unfold buildable at 3. by rewrite Hs.
      * apply Forall_app. split; [done|]. by repeat constructor.
      * rewrite forallb_app, Forall_app, Forall_singleton. simpl. unfold buildable at 2. rewrite Hs. simpl.
        rewrite andb_true_r. rewrite app_nil, Hf.
        assert (map (redacted u) (omap id errs) = [] <-> omap id errs = []) as -> by (by destruct (omap id errs)).
        tauto.
    + apply emits_ret. rewrite app_nil_r, List.filter_app, forallb_app. simpl.
      unfold buildable at 2 4. rewrite Hs. simpl. rewrite app_nil_r, andb_false_r. split; [done|]. split; [done|].
      split; [by intros [? ?]%app_eq_nil|by intros [? ?]].
  - done.
  - intros failures t (Ht & Hc & Hf). apply emits_ret. rewrite app_nil_r. split; [done|]. split; [done|].
    eexists. split; [done|]. by rewrite errors_Join_None.
Qed.
End Facts.

(** ** What an error may say of a URL *)
(** A rejected config names a target by its scheme only: two lists of URLs that
    agree on the schemes and on what Shoutrrr answers are rejected with the same
    error, whatever tokens and passwords the URLs carry. *)
Theorem Validate_redacts {E} `{!Shoutrrr E} (urls urls' : list string) :
  Forall2 (fun u v => fst <$> Cut u "://" = fst <$> Cut v "://" /\
    err_of (sr_CreateSender u) = err_of (sr_CreateSender v)) urls urls' ->
  Validate urls = Validate urls'.
Proof.
  induction 1 as [|u v us vs [Hs He] _ IH]; [done|]. cbn [Validate].
  destruct (sr_CreateSender u), (sr_CreateSender v); simpl in He; try done. injection He as ->.
  unfold redacted, redact. destruct (Cut u "://") as [[]|], (Cut v "://") as [[]|]; simpl in *; congruence.
Qed.

(** ** Instances at concrete inputs *)
(** A sender for every service but carrier pigeons, a parser of schemes, and a
    zone without daylight saving. *)
#[local] Instance demo_shoutrrr : Shoutrrr Sim := {
  Sender := string;
  sr_CreateSender u := if HasPrefix u "carrier-pigeon:" then Fail (errorf "unknown service") else Ok u;
  sr_Send u msg title e := (e, [if HasPrefix u "discord:" then Some (errorf "status 500") else None])
}.

#[local] Instance demo_url : UrlLib := {
  url_Parse s := (fun p => (p.1, fun _ => "")) <$> Cut s "://"
}.

#[local] Instance demo_calendar : Calendar := { cal_AddDays t days := t + days * (86400 * second) }.

Definition demo_notifier : Notifier := {| n_st := true; n_env := None; n_bc := true |}.
Definition demo_getenv (v : string) : string :=
  if String.eqb v EnvURLs then "discord://token@channel  ntfy://ntfy.sh/topic"
  else if String.eqb v EnvEvents then "auth, update_applied" else "".

Lemma Notify_records_witness :
  wp (E:=Sim) (Notify demo_notifier EventAuth "t" "b" None) (fun o w' => o = Ret tt /\
    exists keep t rest, spares keep /\
      let stored := row_of EventAuth "t" "b" None 1 t in
      w_db w' = with_events empty_db (List.filter keep [stored]) 1 /\
      w_trace w' = [EvBroadcast (WSEvent stored)] ++ rest /\
      Forall (fun e => exists urls, e = EvGoSend urls "t" "b") rest) (sim_world empty_db sim_empty).
Proof.
  exact (Notify_records demo_notifier EventAuth "t" "b" None (sim_world empty_db sim_empty) sim_no_faults eq_refl).
Defined.

Lemma env_config_wins_witness :
  wp (E:=Sim) (Notify (New demo_getenv true) EventAuth "t" "b" None) (fun o w' => o = Ret tt /\
    go_sends (w_trace w') = [EvGoSend ["discord://token@channel"; "ntfy://ntfy.sh/topic"] "t" "b"])
    (sim_world empty_db sim_empty) /\
  wp (E:=Sim) (Notify (New demo_getenv true) EventContainerStatus "t" "b" None) (fun o w' => o = Ret tt /\
    go_sends (w_trace w') = []) (sim_world empty_db sim_empty).
Proof.
  split.
  - exact (proj2 (env_config_wins demo_getenv true EventAuth "t" "b" None (sim_world empty_db sim_empty)
      ltac:(vm_compute; discriminate))).
  - exact (proj2 (env_config_wins demo_getenv true EventContainerStatus "t" "b" None (sim_world empty_db sim_empty)
      ltac:(vm_compute; discriminate))).
Defined.

Definition demo_config : NotificationConfig :=
  {| nc_Targets := [ {| nt_URL := " ntfy://ntfy.sh/a "; nt_Events := ∅ |};
                     {| nt_URL := ""; nt_Events := ∅ |};
                     {| nt_URL := "ntfy://ntfy.sh/b"; nt_Events := {[EventAuth := false]} |} ];
     nc_EnvManaged := false |}.

Lemma saved_targets_deliver_witness :
  wp (E:=Sim) (Save demo_notifier demo_config) (fun o w1 =>
    (exists u e, kept (nc_Targets demo_config) u /\ sr_CreateSender (E:=Sim) u = Fail e /\ o = Ret (Some (redacted u e))
       /\ w1 = sim_world empty_db sim_empty) \/
    (o = Ret None /\ (forall u, kept (nc_Targets demo_config) u -> exists sender, sr_CreateSender (E:=Sim) u = Ok sender) /\
     wp (Notify demo_notifier EventAuth "t" "b" None) (fun o2 w2 => o2 = Ret tt /\
       go_sends (w_trace w2) = [EvGoSend ["ntfy://ntfy.sh/a"] "t" "b"]) w1)) (sim_world empty_db sim_empty).
Proof.
  exact (saved_targets_deliver demo_notifier demo_config EventAuth "t" "b" None (sim_world empty_db sim_empty)
    sim_no_faults eq_refl eq_refl).
Defined.

Lemma Validate_redacts_witness :
  Validate (E:=Sim) ["ntfy://a"; "carrier-pigeon://hunter2"] = Validate (E:=Sim) ["ntfy://b"; "carrier-pigeon://roost"].
Proof. apply (Validate_redacts (E:=Sim)). repeat constructor. Defined.
