(* ===== verification/StoreMdadm.v ===== *)
(** * RAID state in the store (src/internal/store/mdadm.go)

    The maps the RAID watcher keeps between sweeps, each a JSON value in the
    settings table. *)
From S2P Require Import Prelude GoStrings Api Db Docker World StoreSettings.
Open Scope Z_scope.

Record MdArrayBaseline := {
  mb_State : MdArrayState;
  mb_SyncAction : string;
  mb_Members : gmap string bool
}.

#[export] Instance MdArrayBaseline_eq_dec : EqDecision MdArrayBaseline.
Proof. solve_decision. Defined.

#[export] Instance MdScanFailure_eq_dec : EqDecision MdScanFailure.
Proof. solve_decision. Defined.

(** encoding/json at the four types. *)
Class RaidCodecs := {
  rc_schedules :: JsonCodec (gmap string MdadmSchedule);
  rc_times :: JsonCodec (gmap string Z);
  rc_baseline :: JsonCodec (gmap string MdArrayBaseline);
  rc_failures :: JsonCodec (gmap string MdScanFailure)
}.

Class RaidCodecsOk `{!RaidCodecs} : Prop := {
  rc_schedules_ok :: JsonCodecOk (gmap string MdadmSchedule);
  rc_times_ok :: JsonCodecOk (gmap string Z);
  rc_baseline_ok :: JsonCodecOk (gmap string MdArrayBaseline);
  rc_failures_ok :: JsonCodecOk (gmap string MdScanFailure)
}.

Section Accessors.
Context {E : Type} `{!Env E} `{!RaidCodecs}.

Definition LoadMdadmSchedules : M E (result (gmap string MdadmSchedule)) := getJSON keyMdadmSchedules ∅.
Definition SaveMdadmSchedules (m : gmap string MdadmSchedule) : M E (result unit) := setJSON keyMdadmSchedules m.
Definition LoadMdadmLastScan : M E (result (gmap string Z)) := getJSON keyMdadmLastScan ∅.
Definition SaveMdadmLastScan (m : gmap string Z) : M E (result unit) := setJSON keyMdadmLastScan m.
Definition LoadMdadmLastRun : M E (result (gmap string Z)) := getJSON keyMdadmLastRun ∅.
Definition SaveMdadmLastRun (m : gmap string Z) : M E (result unit) := setJSON keyMdadmLastRun m.
Definition LoadMdadmBaseline : M E (result (gmap string MdArrayBaseline)) := getJSON keyMdadmBaseline ∅.
Definition SaveMdadmBaseline (m : gmap string MdArrayBaseline) : M E (result unit) := setJSON keyMdadmBaseline m.
Definition LoadMdadmScanFailures : M E (result (gmap string MdScanFailure)) := getJSON keyMdadmFailures ∅.
Definition SaveMdadmScanFailures (m : gmap string MdScanFailure) : M E (result unit) := setJSON keyMdadmFailures m.
End Accessors.

(** ** The value a key holds *)
Definition loaded {A} `{!JsonCodec A} (key : string) (dst : A) (d : DB) : A :=
  match db_settings d !! key with
  | Some v => unmarshal_into v dst
  | None => dst
  end.

(** ... read by a loader that ignores a value that does not fit. *)
Definition loaded_whole {A} `{!JsonCodec A} (key : string) (empty : A) (d : DB) : A :=
  match db_settings d !! key with
  | Some v => default empty (json_Unmarshal v)
  | None => empty
  end.

Section Loaded.
Context {E : Type} `{!Env E} {A : Type} `{!JsonCodec A}.

Lemma wp_getJSON key (dst : A) (Q : outcome (result A) -> World E -> Prop) w :
  no_faults -> (forall e, Q (Ret (Ok (loaded key dst (w_db w)))) (set_env w e)) -> wp (getJSON key dst) Q w.
Proof.
  intros Hn HQ. unfold getJSON. apply wp_bind, wp_sql_ok; [done|]. intros e. specialize (HQ e).
  unfold loaded in HQ. unfold GetSetting. destruct (db_settings (w_db w) !! key) as [v|]; simpl.
  - apply wp_ret, HQ.
  - apply wp_ret, HQ.
Qed.

Lemma wp_loadJSON key (empty : A) (Q : outcome (result A) -> World E -> Prop) w :
  no_faults -> (forall e, Q (Ret (Ok (loaded_whole key empty (w_db w)))) (set_env w e)) ->
  wp (loadJSON key empty) Q w.
Proof.
  intros Hn HQ. unfold loadJSON. apply wp_bind, wp_sql_ok; [done|]. intros e. specialize (HQ e).
  unfold loaded_whole in HQ. unfold GetSetting. destruct (db_settings (w_db w) !! key) as [v|]; simpl.
  - destruct (json_Unmarshal v); apply wp_ret, HQ.
  - apply wp_ret, HQ.
Qed.

Lemma wp_setJSON key (v : A) (Q : outcome (result unit) -> World E -> Prop) w :
  no_faults -> (forall e, Q (Ret (Ok tt)) (set_db (set_env w e) (SetSetting key (json_Marshal v) (w_db w)).1)) ->
  wp (setJSON key v) Q w.
Proof. apply wp_setting. Qed.

Lemma loaded_set `{!JsonCodecOk A} key (v dst : A) d : loaded key dst (SetSetting key (json_Marshal v) d).1 = v.
Proof. unfold loaded, unmarshal_into. simpl. rewrite lookup_insert_eq. by rewrite json_roundtrip. Qed.

Lemma loaded_whole_set `{!JsonCodecOk A} key (v empty : A) d :
  loaded_whole key empty (SetSetting key (json_Marshal v) d).1 = v.
Proof. unfold loaded_whole. simpl. rewrite lookup_insert_eq. by rewrite json_roundtrip. Qed.

Lemma loaded_other key k v (dst : A) d : k <> key -> loaded key dst (SetSetting k v d).1 = loaded key dst d.
Proof. intros Hk. unfold loaded. simpl. by rewrite lookup_insert_ne. Qed.
End Loaded.
