(* ===== verification/Stateful.v ===== *)
(** * Components with a state of their own

    The HTTP side of Veery keeps maps in memory next to the database (pending
    ceremonies, sign-in flows, connected clients). [SM S E] is [M E] with such a
    state [S] threaded through; [zoom] runs a component on its part of a larger
    state. *)
From S2P Require Import Prelude GoStrings Api Db Docker World.
Open Scope Z_scope.

Definition SM (S E A : Type) : Type := S -> M E (S * A).

#[export] Instance SM_ret {S E} : MRet (SM S E) := fun A a s => mret (M:=M E) (s, a).
#[export] Instance SM_bind {S E} : MBind (SM S E) := fun A B k m s =>
  mbind (M:=M E) (fun p : S * A => k p.2 p.1) (m s).

Section Stateful.
Context {S E : Type}.

Definition lift {A} (m : M E A) : SM S E A := fun s => mbind (M:=M E) (fun a => mret (s, a)) m.
Definition state : SM S E S := fun s => mret (s, s).
Definition put_state (s' : S) : SM S E unit := fun _ => mret (s', tt).

(** A part of the state. *)
Definition zoom {T A} (get : T -> S) (set : T -> S -> T) (m : SM S E A) : SM T E A := fun t =>
  mbind (M:=M E) (fun p : S * A => mret (set t p.1, p.2)) (m (get t)).

Lemma wp_sret {A} (a : A) s (Q : outcome (S * A) -> World E -> Prop) w :
  Q (Ret (s, a)) w -> wp ((mret a : SM S E A) s) Q w.
Proof. done. Qed.

Lemma wp_sbind {A B} (m : SM S E A) (k : A -> SM S E B) s Q w :
  wp (m s) (fun o w' => match o with
    | Ret p => wp (k p.2 p.1) Q w'
    | Panic msg => Q (Panic msg) w'
    end) w ->
  wp ((m ≫= k) s) Q w.
Proof. intros H. unfold mbind, SM_bind. apply wp_bind. exact H. Qed.

Lemma wp_lift {A} (m : M E A) s (Q : outcome (S * A) -> World E -> Prop) w :
  wp m (fun o w' => match o with Ret a => Q (Ret (s, a)) w' | Panic msg => Q (Panic msg) w' end) w ->
  wp (lift m s) Q w.
Proof.
  intros H. unfold lift. apply wp_bind. eapply wp_mono; [exact H|]. by intros [a|msg] w' HQ.
Qed.

Lemma wp_state s (Q : outcome (S * S) -> World E -> Prop) w : Q (Ret (s, s)) w -> wp (state s) Q w.
Proof. done. Qed.

Lemma wp_put s s' (Q : outcome (S * unit) -> World E -> Prop) w : Q (Ret (s', tt)) w -> wp (put_state s' s) Q w.
Proof. done. Qed.

Lemma wp_zoom {T A} (get : T -> S) set (m : SM S E A) t (Q : outcome (T * A) -> World E -> Prop) w :
  wp (m (get t)) (fun o w' => match o with
    | Ret p => Q (Ret (set t p.1, p.2)) w'
    | Panic msg => Q (Panic msg) w'
    end) w ->
  wp (zoom get set m t) Q w.
Proof.
  intros H. unfold zoom. apply wp_bind. eapply wp_mono; [exact H|]. by intros [p|msg] w' HQ.
Qed.

(** [m] returns, and leaves its state as it was. *)
Definition stays {A} (m : SM S E A) : Prop := forall s w, exists a, (m s w).2 = Ret (s, a).

Lemma stays_ret {A} (a : A) : stays (mret a).
Proof. intros s w. by exists a. Qed.

Lemma stays_bind {A B} (m : SM S E A) (k : A -> SM S E B) : stays m -> (forall a, stays (k a)) -> stays (m ≫= k).
Proof.
  intros Hm Hk s w. destruct (Hm s w) as [a Ha]. unfold mbind, SM_bind, mbind, M_bind.
  destruct (m s w) as [w' o]. simpl in *. subst o. simpl. apply Hk.
Qed.

Lemma stays_lift {A} (m : M E A) : no_panic m -> stays (lift m).
Proof.
  intros Hm s w. destruct (Hm w) as [a Ha]. unfold lift, mbind, M_bind. destruct (m w) as [w' o].
  simpl in *. subst o. by exists a.
Qed.

Lemma wp_stays {A} (m : SM S E A) s (Q : outcome (S * A) -> World E -> Prop) w :
  stays m -> (forall a w', Q (Ret (s, a)) w') -> wp (m s) Q w.
Proof. intros Hm HQ. destruct (Hm s w) as [a Ha]. unfold wp. rewrite Ha. apply HQ. Qed.
End Stateful.

(** ** Invariants *)
Section Preserves.
Context {E : Type}.

(** An invariant [I] of the component's state and [P] of the database: [P] holds
    after [m] whatever it does, even if it panics, and [I] does if it returns. *)
Definition spreserves {S A} (I : S -> Prop) (P : DB -> Prop) (m : SM S E A) : Prop :=
  forall s w, I s -> P (w_db w) -> wp (m s) (fun o w' => P (w_db w') /\ forall s' a, o = Ret (s', a) -> I s') w.

Implicit Types P : DB -> Prop.

Lemma spreserves_ret {S A} I P (a : A) : spreserves I P (mret a : SM S E A).
Proof. intros s w HI HP. split; [done|]. by intros s' a' [= <- _]. Qed.

Lemma spreserves_bind {S A B} I P (m : SM S E A) (k : A -> SM S E B) :
  spreserves I P m -> (forall a, spreserves I P (k a)) -> spreserves I P (m ≫= k).
Proof.
  intros Hm Hk s w HI HP. apply wp_sbind. eapply wp_mono; [by apply Hm|].
  intros [[s' a]|msg] w' [HP' HI']; [apply Hk; [by eapply HI'|done]|by split].
Qed.

Lemma spreserves_lift {S A} (I : S -> Prop) P (m : M E A) : preserves P m -> spreserves I P (lift m).
Proof.
  intros Hm s w HI HP. apply wp_lift. specialize (Hm w HP). unfold wp. destruct (m w) as [w' [a|msg]]; (split; [exact Hm|]);
    [by intros s' a' [= <- _]|done].
Qed.

Lemma spreserves_state_bind {S B} I P (k : S -> SM S E B) :
  (forall s, I s -> spreserves I P (k s)) -> spreserves I P (state ≫= k).
Proof. intros Hk s w HI HP. apply wp_sbind, wp_state. by apply Hk. Qed.

Lemma spreserves_put {S} (I : S -> Prop) P s' : I s' -> spreserves I P (put_state s').
Proof. intros HI s w _ HP. apply wp_put. split; [done|]. by intros s2 a [= <- _]. Qed.

(** A part of the state, and the invariant on it. *)
Lemma spreserves_zoom {S T A} (I : S -> Prop) (J : T -> Prop) P (get : T -> S) set (m : SM S E A) :
  (forall t, J t -> I (get t)) -> (forall t s, J t -> I s -> J (set t s)) ->
  spreserves I P m -> spreserves J P (zoom get set m).
Proof.
  intros Hg Hs Hm t w HJ HP. apply wp_zoom. eapply wp_mono; [apply Hm; [by apply Hg|done]|].
  intros [[s a]|msg] w' [HP' HI]; (split; [done|]); [|done]. intros t' a' [= <- _]. cbn [fst]. apply Hs; [done|by eapply HI].
Qed.

Lemma spreserves_bind_ret {S A} I P (m : SM S E A) :
  spreserves I P (m ≫= fun a => mret a) -> spreserves I P m.
Proof.
  intros Hm s w HI HP. specialize (Hm s w HI HP). unfold wp, mbind, SM_bind, mbind, M_bind in Hm. unfold wp.
  by destruct (m s w) as [w' [[s' a]|msg]].
Qed.

(** The rule that turns an invariant into a postcondition. *)
Lemma wp_spreserves {S A} I P (m : SM S E A) s w :
  spreserves I P m -> I s -> P (w_db w) -> wp (m s) (fun _ w' => P (w_db w')) w.
Proof. intros Hm HI HP. by apply (Hm s w). Qed.
End Preserves.

Ltac spreserves_step :=
  match goal with
  | |- spreserves _ _ (state ≫= _) => apply spreserves_state_bind; intros ? ?
  | |- spreserves _ _ (_ ≫= _) => apply spreserves_bind; [|intros ?]
  | |- spreserves _ _ (mret _) => apply spreserves_ret
  | |- spreserves _ _ (lift _) => apply spreserves_lift
  | |- spreserves _ _ (put_state _) => apply spreserves_put
  | |- spreserves _ _ (match ?x with _ => _ end) => destruct x eqn:?
  | |- spreserves _ _ (let _ := _ in _) => intros ?
  | |- _ => preserves_step
  end.

(** ** Programs that only look *)
Section Looks.
Context {E : Type}.

(** [m] returns; it may change its own state but neither the database, the
    manager nor the trace. *)
Definition sobserves {S A} (m : SM S E A) : Prop := forall s, observes (m s).

Lemma sobserves_ret {S A} (a : A) : sobserves (mret a : SM S E A).
Proof. intros s. apply observes_ret. Qed.

Lemma sobserves_bind {S A B} (m : SM S E A) (k : A -> SM S E B) :
  sobserves m -> (forall a, sobserves (k a)) -> sobserves (m ≫= k).
Proof. intros Hm Hk s. apply observes_bind; [apply Hm|]. intros p. apply Hk. Qed.

Lemma sobserves_lift {S A} (m : M E A) : observes m -> sobserves (lift m : SM S E A).
Proof. intros Hm s. apply observes_bind; [done|]. intros a. apply observes_ret. Qed.

Lemma sobserves_state {S} : sobserves (state : SM S E S).
Proof. intros s. apply observes_ret. Qed.

Lemma sobserves_put {S} (s' : S) : sobserves (put_state s' : SM S E unit).
Proof. intros s. apply observes_ret. Qed.

Lemma sobserves_zoom {S T A} (get : T -> S) set (m : SM S E A) : sobserves m -> sobserves (zoom get set m).
Proof. intros Hm t. apply observes_bind; [apply Hm|]. intros p. apply observes_ret. Qed.
End Looks.

Ltac sobserves_step :=
  match goal with
  | |- sobserves (_ ≫= _) => apply sobserves_bind; [|intros ?]
  | |- sobserves (mret _) => apply sobserves_ret
  | |- sobserves (lift _) => apply sobserves_lift
  | |- sobserves state => apply sobserves_state
  | |- sobserves (put_state _) => apply sobserves_put
  | |- sobserves (zoom _ _ _) => apply sobserves_zoom
  | |- sobserves (match ?x with _ => _ end) => destruct x eqn:?
  | |- sobserves (let _ := _ in _) => intros ?
  | |- _ => observes_step
  end.

(** ** Maps of pending entries

    Ceremonies and sign-in flows are kept the same way: an entry carries the time
    it ends, is taken out by its key, and expired entries are swept when a new
    one is put in. *)
Section Pending.
Context {E V : Type} `{!Env E} (expires : V -> Z).
Abbreviation Pending := (gmap string V).

(** [gcLocked] *)
Definition gc_pending : SM Pending E unit :=
  now ← lift Now;
  m ← state;
  put_state (filter (fun p => ~ expires p.2 < now) m).

(** [take]: an expired entry is removed too, but not returned. *)
Definition take_pending (id : string) : SM Pending E (option V) :=
  m ← state;
  match m !! id with
  | None => mret None
  | Some c =>
      _ ← put_state (delete id m);
      now ← lift Now;
      if expires c <? now then mret None else mret (Some c)
  end.

Lemma wp_lift_Now {S} (s : S) (Q : outcome (S * Z) -> World E -> Prop) w :
  (forall e t, time_Now (w_env w) = (e, t) -> Q (Ret (s, t)) (set_env w e)) -> wp (lift Now s) Q w.
Proof. intros H. apply wp_lift, wp_call. intros e t Ht. rewrite log_nil. by apply H. Qed.

Lemma wp_gc_pending (m : Pending) (Q : outcome (Pending * unit) -> World E -> Prop) w :
  (forall e t, time_Now (w_env w) = (e, t) -> Q (Ret (filter (fun p => ~ expires p.2 < t) m, tt)) (set_env w e)) ->
  wp (gc_pending m) Q w.
Proof.
  intros H. unfold gc_pending. apply wp_sbind, wp_lift_Now. intros e t Ht. cbn [fst snd].
  apply wp_sbind, wp_state. cbn [fst snd]. by apply wp_put, H.
Qed.

(** An entry that is taken leaves the map, in time or not. *)
Lemma wp_take_pending id (m : Pending) (Q : outcome (Pending * option V) -> World E -> Prop) w :
  (forall e, (m !! id = None \/ exists c now, m !! id = Some c /\ time_Now (w_env w) = (e, now) /\ expires c < now) ->
     Q (Ret (delete id m, None)) (set_env w e)) ->
  (forall c e now, m !! id = Some c -> time_Now (w_env w) = (e, now) -> now <= expires c ->
     Q (Ret (delete id m, Some c)) (set_env w e)) ->
  wp (take_pending id m) Q w.
Proof.
  intros H1 H2. unfold take_pending. apply wp_sbind, wp_state. cbn [fst snd].
  destruct (m !! id) as [c|] eqn:Hc.
  - apply wp_sbind, wp_put. apply wp_sbind, wp_lift_Now. intros e t Ht. cbn [fst snd].
    destruct (expires c <? t) eqn:El; apply wp_sret; [apply H1; right|apply (H2 c e t)]; try done; [|lia].
    exists c, t. split; [done|]. split; [done|lia].
  - apply wp_sret. rewrite <- (set_env_same w), <- (delete_id m id Hc) at 1. apply H1. by left.
Qed.
End Pending.

Ltac stays_step :=
  match goal with
  | |- stays (_ ≫= _) => apply stays_bind; [|intros ?]
  | |- stays (mret _) => apply stays_ret
  | |- stays (lift _) => apply stays_lift
  | |- stays (match ?x with _ => _ end) => destruct x eqn:?
  | |- stays (let _ := _ in _) => intros ?
  | |- _ => no_panic_step
  end.
