(* ===== verification/Migrate.v ===== *)
(** * Schema migrations (src/internal/store: migrations.go, sqlite.go)

    [Open] brings the database file to the current schema before anything reads
    it. The DDL of the migrations is [Stmt]; [exec_ddl] is what SQLite documents
    of it. What the file holds before its tables can be read as a [DB] is a
    [File]. *)
From S2P Require Import Prelude GoStrings Api Db Docker World Sim StoreSettings Stateful.
Open Scope Z_scope.

(** ** Statements *)
Inductive Stmt :=
| CreateTable (name : string) (columns : list string)
| AddColumn (table column : string)
| CreateIndex (name table : string) (columns : list string).

Record Schema := { sc_tables : gmap string (list string); sc_indexes : gset string }.

Definition has (l : list string) (c : string) : bool := existsb (String.eqb c) l.

Definition exec_ddl (s : Stmt) (sc : Schema) : result Schema :=
  match s with
  | CreateTable t cols =>
      if bool_decide (is_Some (sc_tables sc !! t)) then Fail (errorf ("table " +:+ t +:+ " already exists"))
      else Ok {| sc_tables := <[t := cols]> (sc_tables sc); sc_indexes := sc_indexes sc |}
  | AddColumn t c =>
      match sc_tables sc !! t with
      | None => Fail (errorf ("no such table: " +:+ t))
      | Some cols =>
          if has cols c then Fail (errorf ("duplicate column name: " +:+ c))
          else Ok {| sc_tables := <[t := cols ++ [c]]> (sc_tables sc); sc_indexes := sc_indexes sc |}
      end
  | CreateIndex i t cols =>
      if bool_decide (i ∈ sc_indexes sc) then Fail (errorf ("index " +:+ i +:+ " already exists"))
      else match sc_tables sc !! t with
           | None => Fail (errorf ("no such table: " +:+ t))
           | Some have =>
               if forallb (has have) cols
               then Ok {| sc_tables := sc_tables sc; sc_indexes := {[i]} ∪ sc_indexes sc |}
               else Fail (errorf "no such column")
           end
  end.

(** [migrations] *)
Definition migrations : list Stmt := [
  CreateTable "users" ["id"; "name"; "is_admin"; "created_at"];
  CreateTable "credentials" ["id"; "user_id"; "cred_id"; "public_key"; "sign_count"; "transports"; "aaguid"; "name";
                             "backup_eligible"; "backup_state"; "created_at"];
  CreateTable "invites" ["token"; "created_by"; "is_admin"; "expires_at"; "used_at"; "created_at"];
  CreateTable "sessions" ["token"; "user_id"; "expires_at"; "created_at"];
  CreateTable "stacks" ["id"; "name"];
  CreateTable "managed_containers" ["id"; "stack_id"; "container_name"; "snapshot_json"; "auto_update"; "created_at"];
  CreateTable "settings" ["key"; "value"];
  AddColumn "invites" "for_user";
  CreateTable "update_jobs" ["id"; "container_name"; "image"; "phase"; "message"; "error"; "is_self"; "done";
                             "started_at"; "finished_at"];
  AddColumn "managed_containers" "container_id";
  CreateTable "events" ["id"; "event"; "title"; "body"; "container_name"; "stack_id"; "created_at"];
  CreateIndex "idx_events_created_at" "events" ["created_at"; "id"];
  CreateIndex "idx_events_container" "events" ["container_name"];
  CreateTable "oidc_identities" ["id"; "user_id"; "issuer"; "subject"; "email"; "created_at"];
  CreateIndex "idx_oidc_identities_subject" "oidc_identities" ["issuer"; "subject"];
  CreateIndex "idx_oidc_identities_user" "oidc_identities" ["user_id"]].

(** The file: its schema, and the meta table once it exists, with the
    [schema_version] row if there is one. *)
Record File := { fl_schema : Schema; fl_meta : option (option string) }.

Definition version_row (f : File) : option string := default None (fl_meta f).

(** ** The store is opened *)
Section Migrate.
Context {E : Type} `{!Env E}.
Abbreviation FM := (SM File E).

(** A statement runs, or faults and changes nothing. *)
Definition statement {A} (run : File -> result (File * A)) : FM (result A) :=
  fault ← lift (call sql_fault (fun _ => []));
  match fault with
  | Some err => mret (Fail err)
  | None =>
      f ← state;
      match run f with
      | Fail err => mret (Fail err)
      | Ok (f', a) => _ ← put_state f'; mret (Ok a)
      end
  end.

Definition create_meta (f : File) : result (File * unit) :=
  Ok ({| fl_schema := fl_schema f; fl_meta := Some (version_row f) |}, tt).

Definition read_version (f : File) : result (File * string) :=
  match version_row f with
  | Some v => Ok (f, v)
  | None => Fail (errorf "sql: no rows in result set")
  end.

Definition write_version (v : string) (f : File) : result (File * unit) :=
  Ok ({| fl_schema := fl_schema f; fl_meta := Some (Some v) |}, tt).

Definition run_ddl (s : Stmt) (f : File) : result (File * unit) :=
  match exec_ddl s (fl_schema f) with
  | Ok sc => Ok ({| fl_schema := sc; fl_meta := fl_meta f |}, tt)
  | Fail e => Fail e
  end.

(** The loop of [migrate]. *)
Fixpoint exec_all (l : list Stmt) : FM (result unit) :=
  match l with
  | [] => mret (Ok tt)
  | s :: l' => let? _ := statement (run_ddl s) in exec_all l'
  end.

(** [migrate], for the list of migrations a release has. *)
Definition migrate (migs : list Stmt) : FM (result unit) :=
  let? _ := statement create_meta in
  v ← statement read_version;
  let current := match v with
                 | Ok v => match Atoi v with Some n => n | None => 0 end
                 | Fail _ => 0
                 end in
  if current <? 0 then lift (panic "index out of range")
  else
    let? _ := exec_all (drop (Z.to_nat current) migs) in
    statement (write_version (Itoa (Z.of_nat (length migs)))).

(** [Open] *)
Definition Open (migs : list Stmt) : FM (result unit) :=
  r ← migrate migs;
  mret (match r with Ok _ => Ok tt | Fail e => Fail (wrapf "migrate: " e) end).
End Migrate.

(** ** What a run comes to *)
Fixpoint apply_all (l : list Stmt) (sc : Schema) : result Schema :=
  match l with
  | [] => Ok sc
  | s :: l' => match exec_ddl s sc with Ok sc' => apply_all l' sc' | Fail e => Fail e end
  end.

Lemma apply_all_app l1 l2 sc :
  apply_all (l1 ++ l2) sc = match apply_all l1 sc with Ok sc' => apply_all l2 sc' | Fail e => Fail e end.
Proof. revert sc. induction l1 as [|s l1 IH]; intros sc; cbn; [done|]. by destruct (exec_ddl s sc). Qed.

(** A schema grows: no table and no column is lost. *)
Definition grows (a b : Schema) : Prop :=
  sc_indexes a ⊆ sc_indexes b /\
  forall t cols, sc_tables a !! t = Some cols -> exists more, sc_tables b !! t = Some (cols ++ more).

#[local] Instance grows_preorder : PreOrder grows.
Proof.
  split.
  - intros a. split; [done|]. intros t cols Ht. exists []. by rewrite app_nil_r.
  - intros a b c [Hi Hab] [Hj Hbc]. split; [by etrans|]. intros t cols (m1 & (m2 & Hc)%Hbc)%Hab.
    exists (m1 ++ m2). by rewrite app_assoc.
Qed.

Lemma exec_ddl_grows s sc sc' : exec_ddl s sc = Ok sc' -> grows sc sc'.
Proof.
  assert (Hid : forall t cols, sc_tables sc !! t = Some cols -> exists more, sc_tables sc !! t = Some (cols ++ more)).
  { intros t cols Ht. exists []. by rewrite app_nil_r. }
  destruct s as [t cols|t c|i t cols]; cbn [exec_ddl].
  - case_bool_decide as Hn; [done|]. intros [= <-]. split; [done|]. intros u ucols Hu. cbn [sc_tables].
    rewrite lookup_insert_ne; [by apply Hid|]. intros ->. apply Hn. by rewrite Hu.
  - destruct (sc_tables sc !! t) as [cols|] eqn:Ht; [|done]. destruct (has cols c); [done|]. intros [= <-]. split; [done|].
    intros u ucols Hu. cbn [sc_tables]. destruct (decide (t = u)) as [<-|Hne].
    + rewrite lookup_insert_eq. rewrite Ht in Hu. injection Hu as ->. by exists [c].
    + rewrite lookup_insert_ne by done. by apply Hid.
  - case_bool_decide; [done|]. destruct (sc_tables sc !! t); [|done]. destruct (forallb _ _); [|done]. intros [= <-].
    split; [set_solver|apply Hid].
Qed.

Section Runs.
Context {E : Type} `{!Env E}.

Lemma wp_statement {A} (run : File -> result (File * A)) f (Q : outcome (File * result A) -> World E -> Prop) w :
  (forall e err, ~ no_faults (E:=E) -> Q (Ret (f, Fail err)) (set_env w e)) ->
  (forall e, Q (Ret (match run f with Ok (f', a) => (f', Ok a) | Fail err => (f, Fail err) end)) (set_env w e)) ->
  wp (statement run f) Q w.
Proof.
  intros Hf Hr. unfold statement. apply wp_sbind, wp_lift, wp_call. intros e fault He. rewrite log_nil. cbn [fst snd].
  destruct fault as [err|].
  - apply wp_sret, Hf. intros Hn. specialize (Hn (w_env w)). by rewrite He in Hn.
  - specialize (Hr e). apply wp_sbind, wp_state. cbn [fst snd]. destruct (run f) as [[f' a]|err]; [|by apply wp_sret].
    by apply wp_sbind, wp_put, wp_sret.
Qed.

(** However it ends, the statements that ran were the first ones. *)
Lemma wp_exec_all l f (Q : outcome (File * result unit) -> World E -> Prop) w :
  (forall e sc err, grows (fl_schema f) sc -> (no_faults (E:=E) -> apply_all l (fl_schema f) = Fail err) ->
     Q (Ret ({| fl_schema := sc; fl_meta := fl_meta f |}, Fail err)) (set_env w e)) ->
  (forall e sc, apply_all l (fl_schema f) = Ok sc -> grows (fl_schema f) sc ->
     Q (Ret ({| fl_schema := sc; fl_meta := fl_meta f |}, Ok tt)) (set_env w e)) ->
  wp (exec_all l f) Q w.
Proof.
  revert f w. induction l as [|s l IH]; intros f w HF HO; cbn [exec_all apply_all] in *.
  - apply wp_sret. rewrite <- (set_env_same w). destruct f as [sc meta]. by apply (HO _ sc).
  - apply wp_sbind, wp_statement.
    + intros e err Hn. cbn [fst snd]. apply wp_sret. destruct f as [sc meta]. by apply (HF e sc err).
    + intros e. unfold run_ddl. destruct (exec_ddl s (fl_schema f)) as [sc|err] eqn:Hs; cbn [fst snd].
      * apply exec_ddl_grows in Hs. apply IH; cbn [fl_schema fl_meta].
        -- intros e' sc' err Hg Ha. apply (HF e'); [by etrans|done].
        -- intros e' sc' Ha Hg. apply (HO e'); [done|by etrans].
      * apply wp_sret. destruct f as [sc meta]. by apply (HF e sc err).
Qed.

(** Nothing but the file and the environment takes part. *)
Lemma wp_statement_quiet {A} (run : File -> result (File * A)) f (Q : outcome (File * result A) -> World E -> Prop) w :
  (forall e f' r, Q (Ret (f', r)) (set_env w e)) -> wp (statement run f) Q w.
Proof.
  intros HQ. apply wp_statement; [intros; apply HQ|]. intros e. destruct (run f) as [[f' a]|err]; apply HQ.
Qed.

Lemma wp_exec_all_quiet l f (Q : outcome (File * result unit) -> World E -> Prop) w :
  (forall e f' r, Q (Ret (f', r)) (set_env w e)) -> wp (exec_all l f) Q w.
Proof. intros HQ. apply wp_exec_all; intros; apply HQ. Qed.

Lemma wp_Open_quiet migs f (Q : outcome (File * result unit) -> World E -> Prop) w :
  (forall e o, Q o (set_env w e)) -> wp (Open migs f) Q w.
Proof.
  intros HQ. unfold Open, migrate. apply wp_sbind, wp_sbind, wp_statement_quiet. intros e1 f1 [[]|err]; cbn [fst snd]; [|apply wp_sret, wp_sret, HQ].
  apply wp_sbind, wp_statement_quiet. intros e2 f2 r2. cbn [fst snd]. destruct (_ <? 0); [apply wp_lift, wp_panic, HQ|].
  apply wp_sbind, wp_exec_all_quiet. intros e3 f3 [[]|err]; cbn [fst snd]; [|apply wp_sret, wp_sret, HQ].
  apply wp_statement_quiet. intros e4 f4 r4. cbn [fst snd]. apply wp_sret, HQ.
Qed.

(** The version a run starts from. *)
Definition version_of (f : File) : Z :=
  match version_row f with
  | Some v => match Atoi v with Some n => n | None => 0 end
  | None => 0
  end.

(** What [migrate] makes of a file when nothing faults. *)
Definition migrated (migs : list Stmt) (f : File) (o : outcome (File * result unit)) : Prop :=
  match apply_all (drop (Z.to_nat (version_of f)) migs) (fl_schema f) with
  | Ok sc => o = Ret ({| fl_schema := sc; fl_meta := Some (Some (Itoa (Z.of_nat (length migs)))) |}, Ok tt)
  | Fail err => exists sc, grows (fl_schema f) sc /\
      o = Ret ({| fl_schema := sc; fl_meta := Some (version_row f) |}, Fail err)
  end.

Lemma wp_migrate migs f w :
  no_faults (E:=E) -> 0 <= version_of f -> wp (migrate migs f) (fun o _ => migrated migs f o) w.
Proof.
  intros Hn Hv. unfold migrate. apply wp_sbind, wp_statement; [done|]. intros e. cbn [create_meta fst snd].
  apply wp_sbind, wp_statement; [done|]. intros e2. unfold migrated.
  set (f1 := {| fl_schema := fl_schema f; fl_meta := Some (version_row f) |}).
  assert (Hc : match (match read_version f1 with Ok (f', a) => (f', Ok a) | Fail err => (f1, Fail err) end) with
    | (f', r) => f' = f1 /\ (match r with Ok v => match Atoi v with Some n => n | None => 0 end | Fail _ => 0 end) = version_of f end).
  { unfold read_version, version_of, f1, version_row at 1. cbn. by destruct (version_row f). }
  destruct (match read_version f1 with Ok (f', a) => (f', Ok a) | Fail err => (f1, Fail err) end) as [f' r].
  destruct Hc as [-> Hc]. cbn [fst snd]. rewrite Hc. rewrite (proj2 (Z.ltb_ge _ _) Hv).
  apply wp_sbind, wp_exec_all; cbn [fl_schema fl_meta f1].
  - intros e3 sc err Hg Ha. rewrite (Ha Hn). cbn [fst snd]. apply wp_sret. by exists sc.
  - intros e3 sc -> Hg. cbn [fst snd]. by apply wp_statement.
Qed.
End Runs.

(** ** Upgrades *)
Definition empty_schema : Schema := {| sc_tables := ∅; sc_indexes := ∅ |}.

(** A file as the release with the first [k] migrations leaves it; [k = 0] is a
    file without the version row. *)
Definition left_by (k : nat) (f : File) : Prop :=
  (k <= length migrations)%nat /\ apply_all (take k migrations) empty_schema = Ok (fl_schema f) /\
  (version_row f = Some (Itoa (Z.of_nat k)) \/ k = 0%nat /\ version_row f = None).

(** The file of a fresh installation. *)
Definition current : File :=
  {| fl_schema := match apply_all migrations empty_schema with Ok sc => sc | Fail _ => empty_schema end;
     fl_meta := Some (Some (Itoa (Z.of_nat (length migrations)))) |}.

Lemma current_schema : apply_all migrations empty_schema = Ok (fl_schema current).
Proof. vm_compute. reflexivity. Qed.

Lemma version_row_Itoa f (k : nat) :
  (k <= length migrations)%nat ->
  version_row f = Some (Itoa (Z.of_nat k)) \/ k = 0%nat /\ version_row f = None -> version_of f = Z.of_nat k.
Proof.
  intros Hk [Hv|[-> Hv]]; unfold version_of; rewrite Hv; [|done]. rewrite Atoi_Itoa; [done|].
  assert (k <= 16)%nat by exact Hk. unfold in_int64. apply andb_true_iff. split; apply Z.leb_le; unfold int64_min, int64_max; lia.
Qed.

Lemma left_by_current : left_by (length migrations) current.
Proof. split; [done|]. split; [rewrite take_ge by done; apply current_schema|by left]. Qed.

Section Upgrades.
Context {E : Type} `{!Env E}.

Lemma wp_Open migs f (Q : outcome (File * result unit) -> World E -> Prop) w :
  wp (migrate migs f) (fun o w' => match o with
    | Ret (f', Ok _) => Q (Ret (f', Ok tt)) w'
    | Ret (f', Fail e) => Q (Ret (f', Fail (wrapf "migrate: " e))) w'
    | Panic msg => Q (Panic msg) w'
    end) w -> wp (Open migs f) Q w.
Proof. intros H. unfold Open. apply wp_sbind. eapply wp_mono; [exact H|]. by intros [[f' [[]|e]]|msg] w' HQ. Qed.

Lemma wp_upgrade k f w :
  no_faults (E:=E) -> left_by k f -> wp (Open migrations f) (fun o _ => o = Ret (current, Ok tt)) w.
Proof.
  intros Hn (Hk & Hs & Hv). apply wp_Open. pose proof (version_row_Itoa f k Hk Hv) as Hof.
  eapply wp_mono; [apply wp_migrate; [done|lia]|]. intros o w'. unfold migrated. rewrite Hof, Nat2Z.id.
  pose proof current_schema as Hc. rewrite <- (take_drop k migrations), apply_all_app, Hs in Hc. rewrite Hc.
  intros ->. reflexivity.
Qed.

(** C21. Every release upgrades to the same schema: from a fresh file, and from
    the file any earlier release left, opening the store succeeds and leaves the
    schema and the version of a fresh installation; opening that again changes
    nothing. *)
Theorem upgrades_converge k f w (Hn : no_faults (E:=E)) (Hf : left_by k f) :
  wp (Open migrations f) (fun o w' => o = Ret (current, Ok tt) /\
    wp (Open migrations current) (fun o2 _ => o2 = Ret (current, Ok tt)) w') w.
Proof.
  eapply wp_mono; [by apply (wp_upgrade k)|]. intros o w' ->. split; [done|].
  by apply (wp_upgrade (length migrations)), left_by_current.
Qed.

(** However a run ends, with a fault at any statement or none, no table and no
    column is lost; the version advances to that of this release when it
    succeeds, and stays when it does not. *)
Theorem migrate_loses_nothing migs f w :
  wp (migrate migs f) (fun o _ => forall f' r, o = Ret (f', r) ->
    grows (fl_schema f) (fl_schema f') /\
    version_row f' = match r with Ok _ => Some (Itoa (Z.of_nat (length migs))) | Fail _ => version_row f end) w.
Proof.
  unfold migrate. apply wp_sbind, wp_statement; [intros e err _ f' r [= <- <-]; done|].
  intros e. cbn [create_meta fst snd]. set (f1 := {| fl_schema := fl_schema f; fl_meta := Some (version_row f) |}).
  assert (Hread : forall v e', wp ((if v <? 0 then lift (panic "index out of range")
      else let? _ := exec_all (drop (Z.to_nat v) migs) in statement (write_version (Itoa (Z.of_nat (length migs))))) f1)
      (fun o _ => forall f' r, o = Ret (f', r) -> grows (fl_schema f) (fl_schema f') /\
        version_row f' = match r with Ok _ => Some (Itoa (Z.of_nat (length migs))) | Fail _ => version_row f end)
      (set_env w e')).
  { intros v e'. destruct (v <? 0); [by apply wp_lift, wp_panic|]. apply wp_sbind, wp_exec_all.
    - intros e3 sc err Hg _ f' r [= <- <-]. by split.
    - intros e3 sc _ Hg. cbn [fst snd]. apply wp_statement.
      + intros e4 err _ f' r [= <- <-]. by split.
      + intros e4 f' r [= <- <-]. by split. }
  apply wp_sbind, wp_statement; [intros e2 err _; apply Hread|]. intros e2. unfold read_version.
  destruct (version_row f1) as [v|]; cbn [fst snd]; apply Hread.
Qed.
End Upgrades.

(** ** A run that was interrupted *)
(** The version row is that of the first [k] migrations, but the next one has
    been applied, too. *)
Definition half_done (migs : list Stmt) (k : nat) (f : File) : Prop :=
  version_of f = Z.of_nat k /\ version_row f <> None /\
  exists s before after, migs !! k = Some s /\ exec_ddl s before = Ok after /\ grows after (fl_schema f).

Lemma has_app l m c : has l c = true -> has (l ++ m) c = true.
Proof. unfold has. rewrite existsb_app. by intros ->. Qed.

(** No statement can be applied twice. *)
Lemma exec_ddl_once s before after later :
  exec_ddl s before = Ok after -> grows after later -> exists e, exec_ddl s later = Fail e.
Proof.
  destruct s as [t cols|t c|i t cols]; cbn [exec_ddl].
  - case_bool_decide; [done|]. intros [= <-] [_ Hg]. destruct (Hg t cols) as [more Hm]; [cbn [sc_tables]; by rewrite lookup_insert_eq|].
    rewrite Hm, bool_decide_eq_true_2 by done. eauto.
  - destruct (sc_tables before !! t) as [cols|]; [|done]. destruct (has cols c); [done|]. intros [= <-] [_ Hg].
    destruct (Hg t (cols ++ [c])) as [more Hm]; [cbn [sc_tables]; by rewrite lookup_insert_eq|]. rewrite Hm, has_app; [eauto|].
    unfold has. rewrite existsb_app. cbn. by rewrite String.eqb_refl, orb_true_r.
  - case_bool_decide; [done|]. destruct (sc_tables before !! t); [|done]. destruct (forallb _ _); [|done].
    intros [= <-] [Hi _]. cbn [sc_indexes] in Hi. rewrite bool_decide_eq_true_2 by set_solver. eauto.
Qed.

Section Interrupted.
Context {E : Type} `{!Env E}.

(** A process that dies between two migrations leaves a file that no later
    start can open: each runs the same statement again, fails on it, and leaves
    the file as it was. *)
Theorem interrupted_migration_is_stuck migs k f w (Hn : no_faults (E:=E)) (Hh : half_done migs k f) :
  wp (Open migs f) (fun o _ => exists f' e, o = Ret (f', Fail e) /\ half_done migs k f') w.
Proof.
  destruct Hh as (Hv & Hrow & s & before & after & Hs & Hb & Hg). apply wp_Open.
  eapply wp_mono; [apply wp_migrate; [done|lia]|]. intros o w'. unfold migrated. rewrite Hv, Nat2Z.id.
  rewrite (drop_S migs s k Hs). cbn [apply_all]. destruct (exec_ddl_once s before after _ Hb Hg) as [e He].
  rewrite He. intros (sc & Hsc & ->). eexists _, _. split; [done|].
  unfold half_done, version_of, version_row in *. cbn. split; [done|]. split; [done|].
  exists s, before, after. split; [done|]. split; [done|]. by etrans.
Qed.
End Interrupted.

(** ** Instances *)
Definition fresh_file : File := {| fl_schema := empty_schema; fl_meta := None |}.
Definition opened (migs : list Stmt) (f : File) : outcome (File * result unit) :=
  (Open migs f (sim_world empty_db sim_empty)).2.

Lemma upgrades_converge_witness :
  wp (Open migrations fresh_file) (fun o w' => o = Ret (current, Ok tt) /\
    wp (Open migrations current) (fun o2 _ => o2 = Ret (current, Ok tt)) w') (sim_world empty_db sim_empty).
Proof.
  apply (upgrades_converge 0 fresh_file _ sim_no_faults). split; [cbn; lia|]. split; [reflexivity|]. by right.
Defined.

(** The tables have the columns of the rows. *)
Example invites_columns :
  sc_tables (fl_schema current) !! "invites" =
    Some ["token"; "created_by"; "is_admin"; "expires_at"; "used_at"; "created_at"; "for_user"].
Proof. vm_compute. reflexivity. Qed.

(** Going back to an older release sets the version back, although the schema
    stays: the newer release cannot open the file afterwards. *)
Example downgrade_then_upgrade :
  match opened (take 13 migrations) current with
  | Ret (f, Ok _) => match opened migrations f with Ret (_, Fail e) => Some (Error e) | _ => None end
  | _ => None
  end = Some "migrate: table oidc_identities already exists".
Proof. vm_compute. reflexivity. Qed.
