(* ===== verification/Auth.v ===== *)
(** * Passkey ceremonies, invites and sessions (src/internal/auth)

    webauthn.go, invites.go, sessions.go and users.go. A pending ceremony is an
    entry of [Ceremonies], the map [Manager.mu] guards. go-webauthn is
    [WebAuthn]: it builds challenges, parses the browser's answers and verifies
    them. crypto/rand is [RandEnv]. *)
From S2P Require Import Prelude GoStrings Api Db Docker World Sim StoreAuth StoreSettings Stateful.
Open Scope Z_scope.

(** [webauthn.Credential], as far as Veery fills it in and reads it. *)
Record Credential := {
  wc_ID : string;
  wc_PublicKey : string;
  wc_AttestationType : string;
  wc_Transport : list string;
  wc_BackupEligible : bool;
  wc_BackupState : bool;
  wc_AAGUID : string;
  wc_SignCount : Z
}.

(** [authUser] *)
Record authUser := { au_id : string; au_name : string; au_creds : list Credential }.

(** [newRegistrationUser] *)
Definition newRegistrationUser (userID name : string) : authUser :=
  {| au_id := userID; au_name := name; au_creds := [] |}.

(** [toWebauthnCredential] *)
Definition toWebauthnCredential (c : StoredCredential) : Credential :=
  {| wc_ID := cr_CredID c; wc_PublicKey := cr_PublicKey c; wc_AttestationType := "none";
     wc_Transport := cr_Transports c; wc_BackupEligible := cr_BackupEligible c;
     wc_BackupState := cr_BackupState c; wc_AAGUID := cr_AAGUID c; wc_SignCount := cr_SignCount c |}.

(** go-webauthn. [wa_BeginRegistration] takes the user and the credentials to
    exclude. [wa_Discover] is what [ValidateDiscoverableLogin] hands to its
    callback, the credential id and the user handle of the answer, or why it
    refuses to; [wa_LookupError] is what it makes of the callback's error, and
    [wa_ValidateLogin] its verdict on the answer for the user it was given. *)
Class WebAuthn (E : Type) := {
  SessionData : Type;
  Creation : Type;
  Assertion : Type;
  ParsedCreation : Type;
  ParsedAssertion : Type;
  wa_BeginRegistration : authUser -> option (list Credential) -> E -> E * result (Creation * SessionData);
  wa_BeginDiscoverableLogin : E -> E * result (Assertion * SessionData);
  wa_ParseCreation : string -> result ParsedCreation;
  wa_ParseRequest : string -> result ParsedAssertion;
  wa_CreateCredential : authUser -> SessionData -> ParsedCreation -> result Credential;
  wa_Discover : SessionData -> ParsedAssertion -> result (string * string);
  wa_LookupError : error -> error;
  wa_ValidateLogin : authUser -> SessionData -> ParsedAssertion -> result Credential
}.

(** What go-webauthn documents: a login is validated with one of the user's own
    credentials, the one the answer names, and the user and the session of a
    registration agree. *)
Class WebAuthnOk (E : Type) `{!WebAuthn E} : Prop := {
  wa_login_own : forall u d p c, wa_ValidateLogin u d p = Ok c ->
    exists raw handle own, wa_Discover d p = Ok (raw, handle) /\ own ∈ au_creds u /\
      wc_ID own = raw /\ wc_ID c = raw
}.

(** [randToken(n)] *)
Class RandEnv (E : Type) := { rand_Token : nat -> E -> E * string }.

Definition errInvalidInvite : error := mkErr "invalid or expired invite" [ErrInvalidInvite].
Definition errCeremonyExpired : error := mkErr "ceremony expired, try again" [ErrCeremonyExpired].
Definition errCeremonyUser : error := errorf "ceremony does not match session user".

Definition minute : Z := 60 * second.
Definition hour : Z := 60 * minute.
Definition InviteTTL : Z := 24 * hour.
Definition SessionTTL : Z := 30 * 24 * hour.
Definition CeremonyTTL : Z := 5 * minute.

(** [InviteURL] *)
Definition InviteURL (origin token : string) : string :=
  trim_right (Ascii.eqb "/") origin +:+ "/enroll?token=" +:+ token.

Section Auth.
Context {E : Type} `{!Env E} `{!WebAuthn E} `{!RandEnv E}.

Record ceremony := {
  ce_data : SessionData;
  ce_userID : string;
  ce_name : string;
  ce_isAdmin : bool;
  ce_existingUser : bool;
  ce_expires : Z
}.

Definition Ceremonies : Type := gmap string ceremony.
Abbreviation AM := (SM Ceremonies E).

Definition randToken (n : nat) : M E string := call (rand_Token n) (fun _ => []).

(** ** Invites and sessions *)
(** [NewInvite]: the token and when it expires. *)
Definition NewInvite (createdBy forUser : string) (isAdmin : bool) : M E (result (string * Z)) :=
  token ← randToken 24;
  now ← Now;
  let exp := now + InviteTTL in
  at_ ← unixNow;
  let? _ := sql (CreateInvite at_ token createdBy forUser isAdmin (exp / second)) in
  mret (Ok (token, exp)).

(** [NewSession] *)
Definition NewSession (userID : string) : M E (result (string * Z)) :=
  token ← randToken 32;
  now ← Now;
  let exp := now + SessionTTL in
  at_ ← unixNow;
  let? _ := sql (CreateSession at_ token userID (exp / second)) in
  mret (Ok (token, exp)).

(** [Bootstrap] *)
Definition Bootstrap (origin : string) : M E (result string) :=
  let? n := sql CountUsers in
  if 0 <? n then mret (Ok "")
  else
    let? t := NewInvite "" "" true in
    mret (Ok (InviteURL origin t.1)).

(** [loadAuthUser] *)
Definition loadAuthUser (userID name : string) : M E (result authUser) :=
  let? stored := sql (CredentialsByUser userID) in
  mret (Ok {| au_id := userID; au_name := name; au_creds := map toWebauthnCredential stored |}).

(** ** Ceremonies *)
(** [put]; the ceremony comes without its expiry. *)
Definition put (c : ceremony) : AM string :=
  id ← lift (randToken 16);
  now ← lift Now;
  let c := {| ce_data := ce_data c; ce_userID := ce_userID c; ce_name := ce_name c;
              ce_isAdmin := ce_isAdmin c; ce_existingUser := ce_existingUser c;
              ce_expires := now + CeremonyTTL |} in
  cs ← state;
  _ ← put_state (<[id := c]> cs);
  _ ← gc_pending ce_expires;
  mret id.

(** [take] *)
Definition take (id : string) : AM (option ceremony) := take_pending ce_expires id.

Definition new_ceremony (data : SessionData) (userID name : string) (isAdmin existingUser : bool) : ceremony :=
  {| ce_data := data; ce_userID := userID; ce_name := name; ce_isAdmin := isAdmin;
     ce_existingUser := existingUser; ce_expires := 0 |}.

Definition begin_registration (user : authUser) (exclusions : option (list Credential)) :
    AM (result (Creation * SessionData)) :=
  lift (call (wa_BeginRegistration user exclusions) (fun _ => [])).

(** [beginRecoveryRegistration] *)
Definition beginRecoveryRegistration (userID : string) : AM (result (Creation * string * bool)) :=
  r ← lift (sql (GetUser userID));
  match r with
  | Fail _ => mret (Fail errInvalidInvite)
  | Ok u =>
      let? creds := lift (sql (CredentialsByUser (u_ID u))) in
      let user := {| au_id := u_ID u; au_name := u_Name u; au_creds := map toWebauthnCredential creds |} in
      let? begun := begin_registration user (Some (au_creds user)) in
      cid ← put (new_ceremony begun.2 (u_ID u) (u_Name u) (u_IsAdmin u) true);
      mret (Ok (begun.1, cid, u_IsAdmin u))
  end.

(** [BeginRegistration] *)
Definition BeginRegistration (inviteToken name : string) : AM (result (Creation * string * bool)) :=
  r ← lift (sql (GetInvite inviteToken));
  match r with
  | Fail _ => mret (Fail errInvalidInvite)
  | Ok inv =>
      now ← lift unixNow;
      if negb (iv_UsedAt inv =? 0) || (iv_ExpiresAt inv <? now) then mret (Fail errInvalidInvite)
      else if negb (String.eqb (iv_ForUser inv) "") then beginRecoveryRegistration (iv_ForUser inv)
      else
        let name := if String.eqb name "" then "user" else name in
        userID ← lift (randToken 16);
        let? begun := begin_registration (newRegistrationUser userID name) None in
        cid ← put (new_ceremony begun.2 userID name (iv_IsAdmin inv) false);
        mret (Ok (begun.1, cid, iv_IsAdmin inv))
  end.

(** The row of a fresh passkey. *)
Definition store_credential (userID : string) (cred : Credential) : AM (result unit) :=
  id ← lift (randToken 12);
  now ← lift unixNow;
  lift (sql (AddCredential
    {| cr_ID := id; cr_UserID := userID; cr_CredID := wc_ID cred; cr_PublicKey := wc_PublicKey cred;
       cr_SignCount := wc_SignCount cred; cr_Transports := wc_Transport cred; cr_AAGUID := wc_AAGUID cred;
       cr_Name := "Passkey"; cr_BackupEligible := wc_BackupEligible cred;
       cr_BackupState := wc_BackupState cred; cr_CreatedAt := now |})).

(** [FinishRegistration] *)
Definition FinishRegistration (ceremonyID inviteToken body : string) : AM (result string) :=
  c ← take ceremonyID;
  match c with
  | None => mret (Fail errCeremonyExpired)
  | Some cer =>
      match wa_ParseCreation body with
      | Fail e => mret (Fail e)
      | Ok parsed =>
          match wa_CreateCredential (newRegistrationUser (ce_userID cer) (ce_name cer)) (ce_data cer) parsed with
          | Fail e => mret (Fail e)
          | Ok cred =>
              now ← lift unixNow;
              r ← lift (sql (ConsumeInvite now inviteToken));
              match r with
              | Fail _ => mret (Fail errInvalidInvite)
              | Ok _ =>
                  let? _ := (if ce_existingUser cer then mret (Ok tt)
                             else now ← lift unixNow;
                                  let? _ := lift (sql (CreateUser now (ce_userID cer) (ce_name cer) (ce_isAdmin cer))) in
                                  mret (Ok tt)) in
                  let? _ := store_credential (ce_userID cer) cred in
                  mret (Ok (ce_userID cer))
              end
          end
      end
  end.

(** [BeginAddDevice] *)
Definition BeginAddDevice (userID userName : string) (existing : list StoredCredential) :
    AM (result (Creation * string)) :=
  let user := {| au_id := userID; au_name := userName; au_creds := map toWebauthnCredential existing |} in
  let? begun := begin_registration user (Some (au_creds user)) in
  cid ← put (new_ceremony begun.2 userID userName false false);
  mret (Ok (begun.1, cid)).

(** [FinishAddDevice] *)
Definition FinishAddDevice (ceremonyID userID body : string) : AM (result unit) :=
  c ← take ceremonyID;
  match c with
  | None => mret (Fail errCeremonyExpired)
  | Some cer =>
      if negb (String.eqb (ce_userID cer) userID) then mret (Fail errCeremonyUser)
      else
        match wa_ParseCreation body with
        | Fail e => mret (Fail e)
        | Ok parsed =>
            match wa_CreateCredential (newRegistrationUser (ce_userID cer) (ce_name cer)) (ce_data cer) parsed with
            | Fail e => mret (Fail e)
            | Ok cred => store_credential (ce_userID cer) cred
            end
        end
  end.

(** [BeginLogin] *)
Definition BeginLogin : AM (result (Assertion * string)) :=
  let? begun := lift (call wa_BeginDiscoverableLogin (fun _ => [])) in
  cid ← put (new_ceremony begun.2 "" "" false false);
  mret (Ok (begun.1, cid)).

(** The callback of [FinishLogin]: the user and [loggedInUserID]. *)
Definition login_handler (rawID : string) : M E (result (authUser * string)) :=
  r ← sql (CredentialByCredID rawID);
  match r with
  | Fail _ => mret (Fail (errorf "unknown credential"))
  | Ok sc =>
      let? user := sql (GetUser (cr_UserID sc)) in
      let? au := loadAuthUser (u_ID user) (u_Name user) in
      mret (Ok (au, cr_UserID sc))
  end.

(** [FinishLogin] *)
Definition FinishLogin (ceremonyID body : string) : AM (result string) :=
  c ← take ceremonyID;
  match c with
  | None => mret (Fail errCeremonyExpired)
  | Some cer =>
      match wa_ParseRequest body with
      | Fail e => mret (Fail e)
      | Ok parsed =>
          match wa_Discover (ce_data cer) parsed with
          | Fail e => mret (Fail e)
          | Ok (rawID, _) =>
              h ← lift (login_handler rawID);
              match h with
              | Fail e => mret (Fail (wa_LookupError e))
              | Ok (user, loggedInUserID) =>
                  match wa_ValidateLogin user (ce_data cer) parsed with
                  | Fail e => mret (Fail e)
                  | Ok cred =>
                      let? _ := lift (sql (UpdateSignCount (wc_ID cred) (wc_SignCount cred))) in
                      mret (Ok loggedInUserID)
                  end
              end
          end
      end
  end.
End Auth.

(** [NewManager]: the relying party's display name. *)
Definition rp_name (name : string) : string := if String.eqb name "" then "Veery" else name.

(** ** The rules of the map *)
Section Facts.
Context {E : Type} `{!Env E} `{!WebAuthn E} `{!RandEnv E}.
Implicit Types (cs : Ceremonies (E:=E)) (w : World E).

Lemma wp_unixNow (Q : outcome Z -> World E -> Prop) w :
  (forall e t, time_Now (w_env w) = (e, t) -> Q (Ret (t / second)) (set_env w e)) -> wp unixNow Q w.
Proof. intros H. apply wp_bind, wp_call. intros e t Ht. rewrite log_nil. apply wp_ret. by apply H. Qed.

Lemma wp_randToken n (Q : outcome string -> World E -> Prop) w :
  (forall e t, rand_Token n (w_env w) = (e, t) -> Q (Ret t) (set_env w e)) -> wp (randToken n) Q w.
Proof. intros H. apply wp_call. intros e t Ht. rewrite log_nil. by apply H. Qed.

(** What every finish has in common: the ceremony is taken first. *)
Lemma wp_finish {A} id (k : ceremony -> SM Ceremonies E (result A)) cs
    (Q : outcome (Ceremonies * result A) -> World E -> Prop) w :
  (forall e, (cs !! id = None \/ exists c now, cs !! id = Some c /\ ce_expires c < now) ->
     Q (Ret (delete id cs, Fail errCeremonyExpired)) (set_env w e)) ->
  (forall c e now, cs !! id = Some c -> time_Now (w_env w) = (e, now) -> now <= ce_expires c ->
     wp (k c (delete id cs)) Q (set_env w e)) ->
  wp ((c ← take id; match c with None => mret (Fail errCeremonyExpired) | Some cer => k cer end) cs) Q w.
Proof.
  intros H1 H2. apply wp_sbind, wp_take_pending.
  - intros e Hn. cbn [fst snd]. apply wp_sret, H1. destruct Hn as [Hn|(c & now & Hc & _ & Hlt)]; eauto.
  - intros c e now Hc Ht Hle. cbn [fst snd]. by apply H2 with now.
Qed.

(** ** Enrolling *)
(** The account statements of a finished registration, as far as it got. *)
Definition user_ops (cer : ceremony) (now : Z) : list AccountOp :=
  if ce_existingUser cer then [] else [OpCreateUser now (ce_userID cer) (ce_name cer) (ce_isAdmin cer)].

Inductive registered (cer : ceremony) (tok : string) (now : Z) (d : DB) : list AccountOp -> result string -> Prop :=
| reg_none e : registered cer tok now d [] (Fail e)
| reg_invite e : registered cer tok now d [OpConsumeInvite now tok] (Fail e)
| reg_user now' e :
    registered cer tok now d (OpConsumeInvite now tok :: user_ops cer now') (Fail e)
| reg_done now' c :
    cr_UserID c = ce_userID cer ->
    (AddCredential c (account_ops (OpConsumeInvite now tok :: user_ops cer now') d)).2 = Ok tt ->
    registered cer tok now d (OpConsumeInvite now tok :: user_ops cer now' ++ [OpAddCredential c]) (Ok (ce_userID cer)).

(** An invite of this token is open at [now], so the first statement can apply. *)
Definition open_invite (tok : string) (now : Z) (d : DB) : Prop :=
  exists i, i ∈ db_invites d /\ iv_Token i = tok /\ iv_UsedAt i = 0 /\ now < iv_ExpiresAt i.

Lemma wp_store_credential uid cred cs (Q : outcome (Ceremonies * result unit) -> World E -> Prop) w :
  (forall e err, Q (Ret (cs, Fail err)) (set_env w e)) ->
  (forall e c, cr_UserID c = uid -> cr_CredID c = wc_ID cred ->
     Q (Ret (cs, (AddCredential c (w_db w)).2)) (set_db (set_env w e) (AddCredential c (w_db w)).1)) ->
  wp (store_credential uid cred cs) Q w.
Proof.
  intros H1 H2. unfold store_credential. apply wp_sbind, wp_lift, wp_randToken. intros e1 id _.
  apply wp_sbind, wp_lift, wp_unixNow. intros e2 t _. cbn [fst snd]. apply wp_lift, wp_sql.
  - intros e err. apply H1.
  - intros e. by apply H2.
Qed.

Lemma AddCredential_unit c d : (AddCredential c d).2 = Ok tt \/ exists e, AddCredential c d = (d, Fail e).
Proof. unfold AddCredential. destruct (_ || _ || _); simpl; eauto. Qed.

(** The second reading of the clock of a registration: the first is the
    ceremony's, this one the invite's. *)
Definition consumed_at (e : E) : Z := (time_Now (time_Now e).1).2 / second.

(** What a registration leaves behind, from the database [d]. *)
Definition enrolled k tok cs (now : Z) (d : DB) (o : outcome (Ceremonies (E:=E) * result string)) (w' : World E) : Prop :=
  exists r, o = Ret (delete k cs, r) /\
    ((w_db w' = d /\ is_ok r = false) \/
     exists cer ops, cs !! k = Some cer /\ open_invite tok now d /\ registered cer tok now d ops r /\ w_db w' = account_ops ops d).

Lemma enrolled_so_far k tok cs now d cer ops err (w' : World E) :
  cs !! k = Some cer -> open_invite tok now d -> registered cer tok now d ops (Fail err) -> w_db w' = account_ops ops d ->
  enrolled k tok cs now d (Ret (delete k cs, Fail err)) w'.
Proof. intros. eexists. split; [done|]. right. eauto 10. Qed.

Lemma enrolled_refused k tok cs now err (w w' : World E) :
  w_db w' = w_db w -> enrolled k tok cs now (w_db w) (Ret (delete k cs, Fail err)) w'.
Proof. intros H. eexists. split; [done|]. by left. Qed.

Lemma wp_enroll_credential k tok cs now d cer now' cred w :
  cs !! k = Some cer -> open_invite tok now d ->
  w_db w = account_ops (OpConsumeInvite now tok :: user_ops cer now') d ->
  wp ((let? _ := store_credential (ce_userID cer) cred in mret (Ok (ce_userID cer))) (delete k cs))
    (enrolled k tok cs now d) w.
Proof.
  intros Hc Hopen Hw. apply wp_sbind, wp_store_credential.
  - intros e err. cbn [fst snd]. apply wp_sret. by eapply enrolled_so_far; [| |apply (reg_user _ _ _ _ now')|].
  - intros e c Hu _. cbn [fst snd]. rewrite Hw.
    destruct (AddCredential_unit c (account_ops (OpConsumeInvite now tok :: user_ops cer now') d)) as [Hok|[err Hf]].
    + rewrite Hok. apply wp_sret. eexists. split; [done|]. right.
      exists cer, (OpConsumeInvite now tok :: user_ops cer now' ++ [OpAddCredential c]).
      split; [done|]. split; [done|]. split; [by constructor|].
      cbn [w_db set_db]. unfold account_ops. rewrite app_comm_cons, fold_left_app. done.
    + rewrite Hf. cbn [fst snd]. apply wp_sret. by eapply enrolled_so_far; [| |apply (reg_user _ _ _ _ now')|].
Qed.

(** C13. No account without an invite. Whatever the browser sends and however
    the database fails, finishing a registration removes the ceremony from the
    map, and changes accounts only by consuming an invite that is open at the
    time it reads for that, then creating the user of the ceremony (with the
    ceremony's admin flag, and not for a recovery), then adding one passkey to
    that user; it succeeds exactly when all of that was done. *)
Theorem FinishRegistration_needs_invite k tok body cs w :
  wp (FinishRegistration k tok body cs) (enrolled k tok cs (consumed_at (w_env w)) (w_db w)) w.
Proof.
  unfold FinishRegistration. apply wp_finish; [intros; by apply enrolled_refused|]. intros cer e0 now0 Hc Hnow0 _.
  destruct (wa_ParseCreation body) as [parsed|err]; [|apply wp_sret; by apply enrolled_refused].
  destruct (wa_CreateCredential _ _ parsed) as [cred|err]; [|apply wp_sret; by apply enrolled_refused].
  apply wp_sbind, wp_lift, wp_unixNow. intros e1 t1 Ht1. cbn [fst snd].
  assert (consumed_at (w_env w) = t1 / second) as -> by (unfold consumed_at; rewrite Hnow0; cbn in Ht1 |- *; by rewrite Ht1).
  apply wp_sbind, wp_lift, wp_sql; [intros; apply wp_sret; by apply enrolled_refused|]. intros e2. cbn [fst snd].
  set (now := t1 / second). set (d := w_db w).
  change (w_db (set_env (set_env w e0) e1)) with d.
  destruct (ConsumeInvite now tok d) as [d1 [[]|err]] eqn:Hci; cbn [fst snd].
  2: { unfold ConsumeInvite in Hci. destruct (rows_affected _ _); [|done]. injection Hci as <- <-.
       apply wp_sret. by apply enrolled_refused. }
  assert (open_invite tok now d) as Hopen.
  { apply ConsumeInvite_Ok in Hci as [(i & ?) _]. exists i. tauto. }
  assert (d1 = account_ops [OpConsumeInvite now tok] d) as Hd1 by (cbn; by rewrite Hci).
  apply wp_sbind. destruct (ce_existingUser cer) eqn:Hex.
  - apply wp_sret. cbn [fst snd]. apply wp_enroll_credential with 0; [done|done|].
    unfold user_ops. rewrite Hex. done.
  - apply wp_sbind, wp_lift, wp_unixNow. intros e3 t3 _. cbn [fst snd]. apply wp_sbind, wp_lift, wp_sql.
    + intros e err. cbn [fst snd]. apply wp_sret. cbn [fst snd]. apply wp_sret.
      by eapply enrolled_so_far; [| |apply reg_invite|].
    + intros e. cbn [fst snd]. set (now' := t3 / second). cbn [w_db set_db set_env].
      assert ((CreateUser now' (ce_userID cer) (ce_name cer) (ce_isAdmin cer) d1).1 =
        account_ops (OpConsumeInvite now tok :: user_ops cer now') d) as Hd2.
      { unfold user_ops. rewrite Hex. cbn. by rewrite Hci. }
      destruct (CreateUser now' (ce_userID cer) (ce_name cer) (ce_isAdmin cer) d1) as [d2 [u|err]] eqn:Hcu;
        cbn [fst snd] in *; apply wp_sret; cbn [fst snd].
      * by apply wp_enroll_credential with now'.
      * apply wp_sret. by eapply enrolled_so_far; [| |apply (reg_user _ _ _ _ now')|].
Qed.

(** A failure that changed nothing. *)
Ltac refused := intros; eexists; split; done.

(** A signed-in user can add a passkey to nobody but themselves: when it
    succeeds, exactly one credential was added, it belongs to the session's
    user, who exists, and no other table changed; when it fails nothing changed;
    the ceremony is gone either way. *)
Theorem FinishAddDevice_own k userID body cs w :
  wp (FinishAddDevice k userID body cs) (fun o w' => exists r, o = Ret (delete k cs, r) /\
    match r with
    | Fail _ => w_db w' = w_db w
    | Ok _ => exists c, cr_UserID c = userID /\ user_exists (w_db w) userID = true /\
        w_db w' = set_credentials (w_db w) (db_credentials (w_db w) ++ [stored_cred c])
    end) w.
Proof.
  unfold FinishAddDevice. apply wp_finish; [refused|]. intros cer e0 now0 Hc _ _.
  destruct (String.eqb_spec (ce_userID cer) userID) as [<-|]; cbn [negb]; [|apply wp_sret; refused].
  destruct (wa_ParseCreation body) as [parsed|err]; [|apply wp_sret; refused].
  destruct (wa_CreateCredential _ _ parsed) as [cred|err]; [|apply wp_sret; refused].
  apply wp_store_credential; [refused|]. intros e c Hu _. eexists. split; [done|]. cbn [w_db set_env set_db].
  unfold AddCredential. destruct (_ || _ || _) eqn:Eb; cbn [fst snd]; [done|].
  exists c. split; [done|]. rewrite <- Hu. split; [|done].
  apply orb_false_iff in Eb as [_ Eb]. by apply negb_false_iff in Eb.
Qed.

(** C30. A login is the owner's: when go-webauthn validates with the user's own
    credential, a login that succeeds returns the user who owns the stored
    credential that was presented, and that user exists; it changes nothing but
    that credential's sign counter. A login that fails changes nothing. *)
Theorem FinishLogin_owner `{!WebAuthnOk E} k body cs w :
  wp (FinishLogin k body cs) (fun o w' => exists r, o = Ret (delete k cs, r) /\
    match r with
    | Fail _ => w_db w' = w_db w
    | Ok uid => exists c n, c ∈ db_credentials (w_db w) /\ cr_UserID c = uid /\
        user_exists (w_db w) uid = true /\ w_db w' = (UpdateSignCount (cr_CredID c) n (w_db w)).1
    end) w.
Proof.
  unfold FinishLogin. apply wp_finish; [refused|]. intros cer e0 now0 Hc _ _.
  destruct (wa_ParseRequest body) as [parsed|err]; [|apply wp_sret; refused].
  destruct (wa_Discover (ce_data cer) parsed) as [[raw handle]|err] eqn:Hd; [|apply wp_sret; refused].
  apply wp_sbind, wp_lift. unfold login_handler.
  apply wp_bind, wp_sql; [intros; apply wp_ret; cbn [fst snd]; apply wp_sret; refused|]. intros e1.
  cbn [CredentialByCredID fst snd]. cbn [w_db set_env set_db].
  destruct (query_row (cred_key raw) (db_credentials (w_db w))) as [sc|err] eqn:Hq;
    [|apply wp_ret; cbn [fst snd]; apply wp_sret; refused].
  apply query_row_Ok in Hq as [Hin Hk%String.eqb_eq].
  apply wp_bind, wp_sql; [intros; apply wp_ret; cbn [fst snd]; apply wp_sret; refused|]. intros e2.
  cbn [GetUser fst snd]. cbn [w_db set_env set_db].
  destruct (query_row (user_id (cr_UserID sc)) (db_users (w_db w))) as [user|err] eqn:Hu;
    [|apply wp_ret; cbn [fst snd]; apply wp_sret; refused].
  apply query_row_Ok in Hu as [Huin Huid%String.eqb_eq].
  unfold loadAuthUser. apply wp_bind, wp_bind, wp_sql; [intros; do 2 apply wp_ret; cbn [fst snd]; apply wp_sret; refused|].
  intros e3. cbn [CredentialsByUser fst snd]. do 2 apply wp_ret. cbn [fst snd].
  match goal with |- context [wa_ValidateLogin ?u ?d ?p] => destruct (wa_ValidateLogin u d p) as [cred|err] eqn:Hv end;
    [|apply wp_sret; refused].
  destruct (wa_login_own _ _ _ _ Hv) as (raw' & handle' & own & Hd' & _ & _ & Hcid).
  rewrite Hd in Hd'. injection Hd' as <- <-.
  apply wp_sbind, wp_lift, wp_sql; [intros; cbn [fst snd]; apply wp_sret; refused|]. intros e4.
  cbn [fst snd UpdateSignCount]. apply wp_sret. eexists. split; [done|].
  exists sc, (wc_SignCount cred). split; [done|]. split; [done|]. split.
  - apply user_exists_iff. eauto.
  - cbn [w_db set_env set_db]. by rewrite Hk, Hcid.
Qed.

(** ** Single use *)
Inductive finish :=
| FinRegistration (inviteToken body : string)
| FinAddDevice (userID body : string)
| FinLogin (body : string).

Definition run_finish (f : finish) (k : string) : SM (Ceremonies (E:=E)) E (option error) :=
  match f with
  | FinRegistration tok body => r ← FinishRegistration k tok body; mret (err_of r)
  | FinAddDevice u body => r ← FinishAddDevice k u body; mret (err_of r)
  | FinLogin body => r ← FinishLogin k body; mret (err_of r)
  end.

Lemma finish_refused_at f k cs w :
  (cs !! k = None \/ exists c, cs !! k = Some c /\ ce_expires c < (time_Now (w_env w)).2) ->
  wp (run_finish f k cs) (fun o w' => o = Ret (delete k cs, Some errCeremonyExpired) /\ w_db w' = w_db w) w.
Proof.
  intros Hgone. destruct f; unfold run_finish; apply wp_sbind;
    unfold FinishRegistration, FinishAddDevice, FinishLogin; (apply wp_finish; [intros; by apply wp_sret|]);
    intros c e now Hc Ht Hle; exfalso;
    (destruct Hgone as [Hn|(c' & Hc' & Hlt)]; [congruence|]);
    rewrite Hc in Hc'; injection Hc' as <-; rewrite Ht in Hlt; cbn in Hlt; lia.
Qed.

Lemma stays_store_credential uid cred : stays (store_credential (E:=E) uid cred).
Proof. unfold store_credential, randToken, unixNow, Now. repeat stays_step. Qed.

Lemma finish_removes f k cs w :
  wp (run_finish f k cs) (fun o w' => exists r, o = Ret (delete k cs, r)) w.
Proof.
  destruct f; unfold run_finish; apply wp_sbind;
    unfold FinishRegistration, FinishAddDevice, FinishLogin; (apply wp_finish; [intros; apply wp_sret; eauto|]);
    intros c e now _ _ _; (eapply wp_stays; [|intros; apply wp_sret; eauto]);
    unfold login_handler, loadAuthUser, unixNow, Now; repeat first [apply stays_store_credential|stays_step].
Qed.

(** C24. A ceremony can be finished once and not after it expired: the first
    attempt removes it from the map, successful or not, leaving the others; any
    later attempt with its id, of whatever kind, and any attempt after its
    expiry, is refused as expired and changes no account. *)
Theorem ceremony_single_use f g k cs w :
  (forall c e, cs !! k = Some c -> ce_expires c < (time_Now e).2 ->
     wp (run_finish f k cs) (fun o w' => o = Ret (delete k cs, Some errCeremonyExpired) /\ w_db w' = w_db w)
       (set_env w e)) /\
  wp (run_finish f k cs) (fun o w1 => exists r1, o = Ret (delete k cs, r1) /\
    wp (run_finish g k (delete k cs)) (fun o w2 =>
      o = Ret (delete k cs, Some errCeremonyExpired) /\ w_db w2 = w_db w1) w1) w.
Proof.
  split.
  - intros c e Hc He. eapply wp_mono; [apply finish_refused_at; right; eauto|]. by intros o w' [-> ->].
  - eapply wp_mono; [apply finish_removes|]. cbv beta. intros o w1 [r1 ->]. exists r1. split; [done|].
    eapply wp_mono; [apply finish_refused_at; left; unfold Ceremonies; by rewrite lookup_delete_eq|]. cbv beta.
    intros o w2 [-> ->]. split; [|done]. do 2 f_equal. apply (delete_delete_eq (M:=gmap string)).
Qed.

(** ** The first admin *)
(** An invite made by nobody and for nobody in particular. *)
Definition fresh_invite (token : string) (admin : bool) (exp created : Z) : InviteRow :=
  {| iv_Token := token; iv_CreatedBy := None; iv_IsAdmin := admin; iv_ExpiresAt := exp / second; iv_UsedAt := 0;
     iv_CreatedAt := created; iv_ForUser := "" |}.

(** The token an invite minted in [w] gets, and the reading of the clock its
    validity is counted from. *)
Definition drawn (w : World E) : string := (rand_Token 24 (w_env w)).2.
Definition minted_at (w : World E) : Z := (time_Now (rand_Token 24 (w_env w)).1).2.

Lemma wp_NewInvite admin (Q : outcome (result (string * Z)) -> World E -> Prop) w :
  no_faults (E:=E) ->
  (forall e, drawn w ∈ map iv_Token (db_invites (w_db w)) -> Q (Ret (Fail errConstraint)) (set_env w e)) ->
  (forall e created, drawn w ∉ map iv_Token (db_invites (w_db w)) ->
     Q (Ret (Ok (drawn w, minted_at w + InviteTTL)))
       (set_db (set_env w e) (set_invites (w_db w)
          (db_invites (w_db w) ++ [fresh_invite (drawn w) admin (minted_at w + InviteTTL) created])))) ->
  wp (NewInvite "" "" admin) Q w.
Proof.
  intros Hn H1 H2. unfold NewInvite. apply wp_bind, wp_randToken. intros e1 token Htok.
  apply wp_bind, wp_call. intros e2 t Ht. rewrite log_nil. apply wp_bind, wp_unixNow. intros e3 t2 _.
  cbn [w_env set_env] in Ht. assert (drawn w = token) as Hd by (unfold drawn; by rewrite Htok).
  assert (minted_at w = t) as Hm by (unfold minted_at; by rewrite Htok; cbn [fst]; rewrite Ht). rewrite Hd, Hm in *.
  apply wp_bind, wp_sql_ok; [done|]. intros e4. unfold CreateInvite. cbn [String.eqb negb andb].
  destruct (existsb (invite_token token) (db_invites _)) eqn:Hex; cbn [orb fst snd]; apply wp_ret.
  - apply (H1 e4). apply existsb_exists in Hex as (i & Hi & <-%String.eqb_eq). by apply list_elem_of_In, in_map.
  - apply (H2 e4). intros (i & <- & Hi)%list_elem_of_In%in_map_iff. rewrite <- not_true_iff_false in Hex. apply Hex.
    apply existsb_exists. exists i. split; [done|]. apply String.eqb_refl.
Qed.

(** The enrollment link printed at startup exists exactly while there is nobody
    to sign in: with a user in the table nothing is minted and nothing changes;
    with none, the link carries the token of a fresh admin invite bound to no
    user, open for a day, unless the token was taken already. *)
Theorem Bootstrap_spec origin w :
  no_faults (E:=E) ->
  wp (Bootstrap origin) (fun o w' =>
    (db_users (w_db w) <> [] /\ o = Ret (Ok "") /\ w_db w' = w_db w) \/
    (db_users (w_db w) = [] /\ exists token t created,
      (o = Ret (Ok (InviteURL origin token)) /\ w_db w' = set_invites (w_db w) (db_invites (w_db w) ++
         [{| iv_Token := token; iv_CreatedBy := None; iv_IsAdmin := true; iv_ExpiresAt := (t + 86400 * 10 ^ 9) / 10 ^ 9;
             iv_UsedAt := 0; iv_CreatedAt := created; iv_ForUser := "" |}])) \/
      (token ∈ map iv_Token (db_invites (w_db w)) /\ o = Ret (Fail errConstraint) /\ w_db w' = w_db w))) w.
Proof.
  intros Hn. unfold Bootstrap. apply wp_bind, wp_sql_ok; [done|]. intros e. cbn [CountUsers snd fst].
  destruct (db_users (w_db w)) as [|u us] eqn:Hu; [|apply wp_ret; by left].
  cbn [length Z.of_nat Z.ltb Z.compare]. apply wp_bind, wp_NewInvite; [done| |].
  - intros e1 Hin. apply wp_ret. right. split; [done|]. exists (drawn (set_env w e)), 0, 0. by right.
  - intros e1 created _. apply wp_ret. right. split; [done|]. do 3 eexists. by left.
Qed.

(** Every pending ceremony is live when [put] returns, and the new one ends five
    minutes after the clock was read. *)
Theorem put_bounds c cs w :
  wp (put c cs) (fun o w' => exists id cs' t1 t2, o = Ret (cs', id) /\
    (forall k x, cs' !! k = Some x -> t2 <= ce_expires x) /\
    (forall k x, cs' !! k = Some x -> k <> id -> cs !! k = Some x) /\
    (forall x, cs' !! id = Some x -> ce_expires x = t1 + 300 * 10 ^ 9)) w.
Proof.
  unfold put. apply wp_sbind, wp_lift, wp_randToken. intros e1 id _. cbn [fst snd].
  apply wp_sbind, wp_lift_Now. intros e2 t1 _. cbn [fst snd]. apply wp_sbind, wp_state. cbn [fst snd].
  apply wp_sbind, wp_put. cbn [fst snd]. apply wp_sbind, wp_gc_pending. intros e3 t2 _. cbn [fst snd]. apply wp_sret. unfold Ceremonies in *. do 4 eexists. split; [done|].
  split; [|split].
  - intros k x Hx. apply map_lookup_filter_Some in Hx as [_ Hx]. simpl in Hx. apply Z.nlt_ge. exact Hx.
  - intros k x Hx Hk. apply map_lookup_filter_Some in Hx as [Hx _]. by rewrite lookup_insert_ne in Hx.
  - intros x Hx. apply map_lookup_filter_Some in Hx as [Hx _]. rewrite lookup_insert_eq in Hx. by injection Hx as <-.
Qed.
End Facts.

(** ** Instances at concrete inputs *)
(** An authenticator library: a challenge is for a user, the browser answers
    with the id of a credential. *)
#[local] Instance demo_webauthn : WebAuthn Sim := {
  SessionData := string;
  Creation := string;
  Assertion := unit;
  ParsedCreation := string;
  ParsedAssertion := string;
  wa_BeginRegistration u ex e := (e, Ok (au_id u, au_id u));
  wa_BeginDiscoverableLogin e := (e, Ok (tt, ""));
  wa_ParseCreation body := Ok body;
  wa_ParseRequest body := Ok body;
  wa_CreateCredential u d p :=
    if String.eqb (au_id u) d then
      Ok {| wc_ID := p; wc_PublicKey := "key"; wc_AttestationType := "none"; wc_Transport := [];
            wc_BackupEligible := false; wc_BackupState := false; wc_AAGUID := ""; wc_SignCount := 0 |}
    else Fail (errorf "ID mismatch for User and Session");
  wa_Discover d p := Ok (p, "");
  wa_LookupError e := e;
  wa_ValidateLogin u d p :=
    match List.find (fun c => String.eqb (wc_ID c) p) (au_creds u) with
    | Some c => Ok c
    | None => Fail (errorf "unable to find the credential")
    end
}.

#[local] Instance demo_webauthn_ok : WebAuthnOk Sim.
Proof.
  split. intros u d p c. simpl. destruct (List.find _ _) as [c'|] eqn:Hf; [|done]. intros [= <-].
  apply find_some_iff in Hf as [Hin Hk%String.eqb_eq]. by exists p, "", c'.
Qed.

#[local] Instance demo_rand : RandEnv Sim := {
  rand_Token n e := (sim_with e (sim_containers e) (sim_next e + 1), "tok" +:+ Itoa (sim_next e))
}.

(** Bob has a passkey; "A" is an admin invite, "B" an ordinary one, "R" a
    recovery invite for Bob. *)
Definition demo_passkey : StoredCredential :=
  {| cr_ID := "k1"; cr_UserID := "u2"; cr_CredID := "cred"; cr_PublicKey := "key"; cr_SignCount := 0;
     cr_Transports := []; cr_AAGUID := ""; cr_Name := "Passkey"; cr_BackupEligible := false;
     cr_BackupState := false; cr_CreatedAt := 105 |}.

Definition demo_db : DB := account_ops
  [OpAddCredential demo_passkey; OpCreateInvite 110 "A" "u1" "" true 5000; OpCreateInvite 111 "B" "u1" "" false 5000;
   OpCreateInvite 112 "R" "u1" "u2" false 5000] demo_accounts.
Definition demo_world : World Sim := sim_world demo_db sim_empty.
Definition demo_ceremony (userID : string) (admin existing : bool) : ceremony (E:=Sim) :=
  {| ce_data := userID; ce_userID := userID; ce_name := "eve"; ce_isAdmin := admin; ce_existingUser := existing;
     ce_expires := 2000 * 10 ^ 9 |}.
Definition demo_pending (userID : string) (admin existing : bool) : Ceremonies (E:=Sim) :=
  {["c1" := demo_ceremony userID admin existing]}.

Lemma FinishLogin_owner_witness :
  exists c n, c ∈ db_credentials demo_db /\ cr_UserID c = "u2" /\ user_exists demo_db "u2" = true /\
    w_db (FinishLogin (E:=Sim) "c1" "cred" (demo_pending "" false false) demo_world).1
      = (UpdateSignCount (cr_CredID c) n demo_db).1.
Proof.
  pose proof (FinishLogin_owner (E:=Sim) "c1" "cred" (demo_pending "" false false) demo_world) as (r & Hr & H).
  assert ((FinishLogin (E:=Sim) "c1" "cred" (demo_pending "" false false) demo_world).2
    = Ret (delete "c1" (demo_pending "" false false), Ok "u2")) as Hrun by (vm_compute; reflexivity).
  rewrite Hrun in Hr. injection Hr as <-. exact H.
Defined.

Lemma ceremony_single_use_witness :
  wp (run_finish (E:=Sim) (FinLogin "cred") "c1" (demo_pending "" false false))
    (fun o w' => o = Ret (delete "c1" (demo_pending "" false false), Some errCeremonyExpired) /\ w_db w' = demo_db)
    (set_env demo_world (sim_tick sim_empty (1001 * 10 ^ 9))).
Proof.
  apply (proj1 (ceremony_single_use (E:=Sim) (FinLogin "cred") (FinLogin "cred") "c1"
    (demo_pending "" false false) demo_world) (demo_ceremony "" false false)); vm_compute; reflexivity.
Defined.

Lemma Bootstrap_spec_witness :
  exists w', Bootstrap (E:=Sim) "https://v/" (sim_world empty_db sim_empty) = (w', Ret (Ok "https://v/enroll?token=tok1")).
Proof.
  pose proof (Bootstrap_spec (E:=Sim) "https://v/" (sim_world empty_db sim_empty) sim_no_faults) as Hb.
  exists (Bootstrap (E:=Sim) "https://v/" (sim_world empty_db sim_empty)).1.
  apply injective_projections; [done|]. vm_compute. reflexivity.
Defined.

(** What is left of the accounts: the names of the admins, the tokens that are
    still open, and the users with a passkey. *)
Definition summary (w : World Sim) : list string * list string * list string :=
  (map u_Name (List.filter u_IsAdmin (db_users (w_db w))),
   map iv_Token (List.filter (pending 1000) (db_invites (w_db w))),
   map cr_UserID (db_credentials (w_db w))).

(** The invite a ceremony began with and the one it is finished with need not be
    the same: an enrollment begun with the admin invite "A" and finished with
    the ordinary invite "B" makes an admin and leaves "A" open. *)
Lemma finished_with_another_invite :
  summary (FinishRegistration (E:=Sim) "c1" "B" "new" (demo_pending "x" true false) demo_world).1
    = (["ann"; "eve"], ["A"; "R"], ["u2"; "x"]).
Proof. vm_compute. reflexivity. Qed.

(** A ceremony that fails after the invite was consumed leaves it consumed: the
    authenticator is registered already, and the new user has no passkey. *)
Lemma failed_enrollment_spends_the_invite :
  summary (FinishRegistration (E:=Sim) "c1" "A" "cred" (demo_pending "x" true false) demo_world).1
    = (["ann"; "eve"], ["B"; "R"], ["u2"]) /\
  (FinishRegistration (E:=Sim) "c1" "A" "cred" (demo_pending "x" true false) demo_world).2
    = Ret (∅, Fail errConstraint).
Proof. split; vm_compute; reflexivity. Qed.

(** Nothing but go-webauthn tells the kinds of ceremony apart: with this one,
    which only compares user ids, a login ceremony finished as an enrollment
    makes a user without id or name. *)
Lemma login_ceremony_enrolls :
  map u_ID (db_users (w_db (FinishRegistration (E:=Sim) "c1" "B" "new"
    {["c1" := {| ce_data := ""; ce_userID := ""; ce_name := ""; ce_isAdmin := false; ce_existingUser := false;
                 ce_expires := 2000 * 10 ^ 9 |}]} demo_world).1)) = ["u1"; "u2"; ""].
Proof. vm_compute. reflexivity. Qed.
