(* ===== verification/Digest.v ===== *)
(** * SHA-256 and base64url

    What the code uses of crypto/sha256 and encoding/base64: the digest of a
    string, and the URL alphabet without padding. *)
From S2P Require Import Prelude.
Open Scope Z_scope.

(** ** 32-bit words *)
Definition w32 (x : Z) : Z := Z.land x 0xffffffff.
Definition add32 (x y : Z) : Z := w32 (x + y).
Definition rotr (n x : Z) : Z := Z.lor (Z.shiftr x n) (w32 (Z.shiftl x (32 - n))).
Definition xor3 (x y z : Z) : Z := Z.lxor x (Z.lxor y z).

Definition Sigma0 (x : Z) : Z := xor3 (rotr 2 x) (rotr 13 x) (rotr 22 x).
Definition Sigma1 (x : Z) : Z := xor3 (rotr 6 x) (rotr 11 x) (rotr 25 x).
Definition sigma0 (x : Z) : Z := xor3 (rotr 7 x) (rotr 18 x) (Z.shiftr x 3).
Definition sigma1 (x : Z) : Z := xor3 (rotr 17 x) (rotr 19 x) (Z.shiftr x 10).
Definition Ch (x y z : Z) : Z := Z.lxor (Z.land x y) (Z.land (Z.lxor x 0xffffffff) z).
Definition Maj (x y z : Z) : Z := xor3 (Z.land x y) (Z.land x z) (Z.land y z).

(** The constants are the first 32 fractional bits of the cube roots of the first
    64 primes, and of the square roots of the first eight. *)
Definition is_prime (n : Z) : bool :=
  (2 <=? n) && forallb (fun d => negb (n mod Z.of_nat d =? 0)) (seq 2 (Z.to_nat (Z.sqrt n) - 1)).
Definition primes (bound : nat) : list Z := List.filter is_prime (map Z.of_nat (seq 0 bound)).

(** The largest root whose cube is at most [x], bit by bit. *)
Fixpoint cube_root_from (bits : nat) (root x : Z) : Z :=
  match bits with
  | O => root
  | S bits =>
      let next := root + 2 ^ Z.of_nat bits in
      cube_root_from bits (if next ^ 3 <=? x then next else root) x
  end.

Definition round_constants : list Z :=
  Eval vm_compute in map (fun p => w32 (cube_root_from 40 0 (p * 2 ^ 96))) (primes 312).
Definition initial_hash : list Z :=
  Eval vm_compute in map (fun p => w32 (Z.sqrt (p * 2 ^ 64))) (primes 20).

(** ** The digest *)
(** The bytes of a string, and words and bytes in big-endian order. *)
Definition bytes_of (s : string) : list Z := map (fun c => Z.of_N (N_of_ascii c)) (list_ascii_of_string s).
Definition string_of_bytes (l : list Z) : string := string_of_list_ascii (map (fun b => ascii_of_N (Z.to_N b)) l).

Definition be_word (l : list Z) : Z := fold_left (fun w b => 256 * w + b) l 0.
Definition be_bytes (n : nat) (w : Z) : list Z := map (fun i => Z.land (Z.shiftr w (8 * Z.of_nat i)) 255) (rev (seq 0 n)).

(** Pieces of [n] elements, the last one shorter if need be. *)
Fixpoint chunks_fuel {A} (fuel n : nat) (l : list A) : list (list A) :=
  match fuel, l with
  | S fuel, _ :: _ => firstn n l :: chunks_fuel fuel n (skipn n l)
  | _, _ => []
  end.
Definition chunks {A} (n : nat) (l : list A) : list (list A) := chunks_fuel (length l) n l.

(** A one, zeros, and the length in bits: a multiple of 64 bytes. *)
Definition pad (m : list Z) : list Z :=
  let n := Z.of_nat (length m) in
  m ++ 128 :: repeat 0 (Z.to_nat ((55 - n) mod 64)) ++ be_bytes 8 (8 * n).

(** The message schedule, the latest word first. *)
Definition schedule_word (w : list Z) : Z :=
  add32 (add32 (sigma1 (nth 1 w 0)) (nth 6 w 0)) (add32 (sigma0 (nth 14 w 0)) (nth 15 w 0)).
Definition schedule (block : list Z) : list Z :=
  rev (Nat.iter 48 (fun w => schedule_word w :: w) (rev (map be_word (chunks 4 block)))).

Definition compress_round (h : list Z) (kw : Z * Z) : list Z :=
  match h with
  | [a; b; c; d; e; f; g; h] =>
      let t1 := add32 (add32 h (Sigma1 e)) (add32 (Ch e f g) (add32 kw.1 kw.2)) in
      let t2 := add32 (Sigma0 a) (Maj a b c) in
      [add32 t1 t2; a; b; c; add32 d t1; e; f; g]
  | _ => h
  end.

Definition compress (h block : list Z) : list Z :=
  zip_with add32 h (fold_left compress_round (zip round_constants (schedule block)) h).

Definition Sum256 (s : string) : list Z :=
  flat_map (be_bytes 4) (fold_left compress (chunks 64 (pad (bytes_of s))) initial_hash).

(** ** base64url *)
Definition url_alphabet : string := "ABCDEFGHIJKLMNOPQRSTUVWXYZabcdefghijklmnopqrstuvwxyz0123456789-_".
Definition url_char (x : Z) : ascii := default "A"%char (String.get (Z.to_nat x) url_alphabet).

(** The characters of up to three bytes: one more than there are bytes. *)
Definition url_group (l : list Z) : list ascii :=
  let w := be_word (firstn 3 (l ++ [0; 0])) in
  firstn (S (length l)) (map (fun i => url_char (Z.land (Z.shiftr w (6 * i)) 63)) [3; 2; 1; 0]).

(** [base64.RawURLEncoding.EncodeToString] *)
Definition RawURLEncoding (l : list Z) : string := string_of_list_ascii (flat_map url_group (chunks 3 l)).

(** The PKCE challenge of a verifier (RFC 7636). *)
Definition S256Challenge (verifier : string) : string := RawURLEncoding (Sum256 verifier).

(** *** The digest is eight words, so a challenge is never empty *)
Lemma compress_round_length h kw : length h = 8%nat -> length (compress_round h kw) = 8%nat.
Proof. intros H. do 8 (destruct h as [|? h]; [done|]). by destruct h. Qed.

Lemma compress_length h block : length h = 8%nat -> length (compress h block) = 8%nat.
Proof.
  intros H. unfold compress. rewrite length_zip_with_l; [done|]. apply Nat.eq_le_incl. rewrite H. symmetry.
  generalize (zip round_constants (schedule block)). intros l. revert h H.
  induction l as [|kw l IH]; intros h H; cbn [fold_left]; [done|]. by apply IH, compress_round_length.
Qed.

Lemma Sum256_length s : length (Sum256 s) = 32%nat.
Proof.
  unfold Sum256. assert (forall l h, length h = 8%nat -> length (fold_left compress l h) = 8%nat) as Hf.
  { induction l as [|b l IH]; intros h Hh; cbn [fold_left]; [done|]. by apply IH, compress_length. }
  specialize (Hf (chunks 64 (pad (bytes_of s))) initial_hash eq_refl). revert Hf.
  generalize (fold_left compress (chunks 64 (pad (bytes_of s))) initial_hash). intros h Hh.
  do 8 (destruct h as [|? h]; [done|]). by destruct h.
Qed.

Lemma S256Challenge_nonempty s : S256Challenge s <> "".
Proof.
  unfold S256Challenge, RawURLEncoding. pose proof (Sum256_length s) as H. revert H.
  generalize (Sum256 s). intros l Hl. do 3 (destruct l as [|? l]; [done|]). discriminate.
Qed.

(** ** Test vectors *)
Example Sum256_abc : be_word (Sum256 "abc") = 0xba7816bf8f01cfea414140de5dae2223b00361a396177a9cb410ff61f20015ad.
Proof. vm_compute. reflexivity. Qed.

(** Appendix B of RFC 7636. *)
Example S256Challenge_rfc7636 :
  S256Challenge "dBjftJeZ4CVP-mB92K27uhbUJU1p1r_wW1gFWFOEjXk" = "E9Melhoa2OwvFrEMTJguCHaoeK1t8URWbuGJSstw-cM".
Proof. vm_compute. reflexivity. Qed.
