(* ===== verification/Oidc.v ===== *)
(** * OpenID Connect sign-in (src/internal/oidc/oidc.go)

    The relying party's side of the authorization-code flow. The flows in flight
    and the cached discovery document are [OidcState]; go-oidc, golang.org/x/oauth2
    and the provider behind them are [OidcLib]. *)
From S2P Require Import Prelude GoStrings Api Db Docker World Sim Stateful Auth.
Open Scope Z_scope.

(** ** Configuration *)
Record Config := {
  oc_Issuer : string;
  oc_ClientID : string;
  oc_ClientSecret : string;
  oc_RedirectURL : string;
  oc_Scopes : list string;
  oc_AdminGroups : list string;
  oc_ProviderName : string
}.

Record Identity := {
  id_Issuer : string;
  id_Subject : string;
  id_Email : string;
  id_Name : string;
  id_Groups : list string
}.

(** [Manager], without the maps its mutex guards. *)
Record Manager := { om_cfg : Config; om_adminGroups : gset string }.

Record loginFlow := { lf_nonce : string; lf_verifier : string; lf_expires : Z }.

(** [hasScope] *)
Definition hasScope (scopes : list string) (want : string) : bool := existsb (String.eqb want) scopes.

Definition with_scopes (c : Config) (scopes : list string) : Config :=
  {| oc_Issuer := oc_Issuer c; oc_ClientID := oc_ClientID c; oc_ClientSecret := oc_ClientSecret c;
     oc_RedirectURL := oc_RedirectURL c; oc_Scopes := scopes; oc_AdminGroups := oc_AdminGroups c;
     oc_ProviderName := oc_ProviderName c |}.

Definition group_key (g : string) : string := ToLower (TrimSpace g).

(** [New] *)
Definition New (cfg : Config) : result Manager :=
  let empty s := String.eqb s "" in
  if empty (oc_Issuer cfg) && empty (oc_ClientID cfg) then Fail (errorf "oidc: issuer and client id are both empty")
  else if empty (oc_Issuer cfg) || empty (oc_ClientID cfg) then Fail (errorf "oidc: issuer and client id must both be set")
  else if empty (oc_RedirectURL cfg) then Fail (errorf "oidc: redirect url is required")
  else
    let scopes := match oc_Scopes cfg with [] => ["openid"; "profile"; "email"] | s => s end in
    let groups := fold_left (fun (m : gset string) g =>
                    let g := TrimSpace g in if empty g then m else {[ToLower g]} ∪ m) (oc_AdminGroups cfg) ∅ in
    let scopes := if (0 <? Z.of_nat (size groups)) && negb (hasScope scopes "groups")
                  then scopes ++ ["groups"] else scopes in
    Ok {| om_cfg := with_scopes cfg scopes; om_adminGroups := groups |}.

(** [Enabled]; a nil manager is [None]. *)
Definition Enabled (m : option Manager) : bool :=
  match m with
  | None => false
  | Some m => negb (String.eqb (oc_Issuer (om_cfg m)) "") && negb (String.eqb (oc_ClientID (om_cfg m)) "")
  end.

(** [Name] *)
Definition Name (m : Manager) : string :=
  if negb (String.eqb (oc_ProviderName (om_cfg m)) "") then oc_ProviderName (om_cfg m) else "SSO".

(** [Issuer] *)
Definition Issuer (m : Manager) : string := oc_Issuer (om_cfg m).

(** [IsAdmin] *)
Definition IsAdmin (m : Manager) (groups : list string) : bool :=
  existsb (fun g => bool_decide (group_key g ∈ om_adminGroups m)) groups.

(** [HasAdminGroups] *)
Definition HasAdminGroups (m : Manager) : bool := 0 <? Z.of_nat (size (om_adminGroups m)).

(** ** Claims *)
Record claims := {
  cl_Sub : string;
  cl_Name : string;
  cl_PreferredUsername : string;
  cl_DisplayName : string;
  cl_Email : string;
  cl_Groups : list string
}.

(** [displayName] *)
Definition displayName (c : claims) : string :=
  match List.find (fun s => negb (String.eqb (TrimSpace s) ""))
    [cl_Name c; cl_DisplayName c; cl_PreferredUsername c; cl_Email c; cl_Sub c] with
  | Some s => s
  | None => ""
  end.

(** The loop of [merge] over the other groups: [seen] and [c.Groups]. *)
Definition merge_group (acc : gset string * list string) (g : string) : gset string * list string :=
  if decide (g ∈ acc.1) then acc else ({[g]} ∪ acc.1, acc.2 ++ [g]).

(** [merge] *)
Definition merge (c other : claims) : claims :=
  let pick a b := if String.eqb a "" then b else a in
  {| cl_Sub := pick (cl_Sub c) (cl_Sub other);
     cl_Name := pick (cl_Name c) (cl_Name other);
     cl_PreferredUsername := pick (cl_PreferredUsername c) (cl_PreferredUsername other);
     cl_DisplayName := pick (cl_DisplayName c) (cl_DisplayName other);
     cl_Email := pick (cl_Email c) (cl_Email other);
     cl_Groups := match cl_Groups other with
                  | [] => cl_Groups c
                  | gs => (fold_left merge_group gs (list_to_set (cl_Groups c), cl_Groups c)).2
                  end |}.

(** ** The provider *)
(** [oauth2.Config] *)
Record oauthConfig (Endpoint : Type) := {
  oa_ClientID : string;
  oa_ClientSecret : string;
  oa_Endpoint : Endpoint;
  oa_RedirectURL : string;
  oa_Scopes : list string
}.
Arguments oa_ClientID {Endpoint}.
Arguments oa_ClientSecret {Endpoint}.
Arguments oa_Endpoint {Endpoint}.
Arguments oa_RedirectURL {Endpoint}.
Arguments oa_Scopes {Endpoint}.

(** go-oidc and oauth2. [ol_AuthCodeURL] takes the state, the nonce and the PKCE
    verifier whose S256 challenge goes into the URL; [ol_Verify] checks a raw ID
    token for a client id. *)
Class OidcLib (E : Type) := {
  Provider : Type;
  Endpoint : Type;
  Token : Type;
  IDToken : Type;
  UserInfo : Type;
  ol_NewProvider : string -> E -> E * result Provider;
  ol_Endpoint : Provider -> Endpoint;
  ol_GenerateVerifier : E -> E * string;
  ol_AuthCodeURL : oauthConfig Endpoint -> string -> string -> string -> string;
  ol_Exchange : oauthConfig Endpoint -> string -> string -> E -> E * result Token;
  ol_RawIDToken : Token -> option string;
  ol_Verify : Provider -> string -> string -> E -> E * result IDToken;
  ol_Nonce : IDToken -> string;
  ol_TokenIssuer : IDToken -> string;
  ol_Claims : IDToken -> result claims;
  ol_UserInfo : Provider -> Token -> E -> E * result UserInfo;
  ol_UserInfoClaims : UserInfo -> result claims
}.

Definition errInvalidState : error := mkErr "login expired or state mismatch" [ErrInvalidState].
Definition errMissingIDToken : error := mkErr "provider returned no id token" [ErrMissingIDToken].
Definition errNonceMismatch : error := mkErr "id token nonce mismatch" [ErrNonceMismatch].
Definition errMissingSubject : error := mkErr "id token has no subject" [ErrMissingSubject].

Definition FlowTTL : Z := 10 * minute.

Section Oidc.
Context {E : Type} `{!Env E} `{!RandEnv E} `{!OidcLib E}.

(** What the mutex of [Manager] guards: the cached discovery document with its
    oauth config, and the flows by state. *)
Record OidcState := {
  os_provider : option (Provider * oauthConfig Endpoint);
  os_flows : gmap string loginFlow
}.

Definition set_flows (s : OidcState) (f : gmap string loginFlow) : OidcState :=
  {| os_provider := os_provider s; os_flows := f |}.

Abbreviation OM := (SM OidcState E).

(** [discover] *)
Definition discover (m : Manager) : OM (result (Provider * oauthConfig Endpoint)) :=
  s ← state;
  match os_provider s with
  | Some p => mret (Ok p)
  | None =>
      r ← lift (call (ol_NewProvider (oc_Issuer (om_cfg m))) (fun _ => []));
      match r with
      | Fail e => mret (Fail (wrapf "oidc discovery: " e))
      | Ok p =>
          let oauth := {| oa_ClientID := oc_ClientID (om_cfg m); oa_ClientSecret := oc_ClientSecret (om_cfg m);
                          oa_Endpoint := ol_Endpoint p; oa_RedirectURL := oc_RedirectURL (om_cfg m);
                          oa_Scopes := oc_Scopes (om_cfg m) |} in
          _ ← put_state {| os_provider := Some (p, oauth); os_flows := os_flows s |};
          mret (Ok (p, oauth))
      end
  end.

(** [takeFlow] *)
Definition takeFlow (st : string) : OM (option loginFlow) :=
  zoom os_flows set_flows (take_pending lf_expires st).

(** [gcLocked] *)
Definition gcLocked : SM (gmap string loginFlow) E unit := gc_pending lf_expires.

(** [Start]: the URL and the state. *)
Definition Start (m : Manager) : OM (result (string * string)) :=
  let? p := discover m in
  st ← lift (randToken 24);
  nonce ← lift (randToken 24);
  verifier ← lift (call ol_GenerateVerifier (fun _ => []));
  now ← lift Now;
  _ ← zoom os_flows set_flows
        (flows ← state;
         _ ← put_state (<[st := {| lf_nonce := nonce; lf_verifier := verifier; lf_expires := now + FlowTTL |}]> flows);
         gcLocked);
  mret (Ok (ol_AuthCodeURL p.2 st nonce verifier, st)).

(** The claims of a verified token, with those of the userinfo endpoint when it
    answers. *)
Definition userinfo_claims (p : Provider) (tok : Token) (c : claims) : M E claims :=
  r ← call (ol_UserInfo p tok) (fun _ => []);
  mret (match r with
        | Ok ui => match ol_UserInfoClaims ui with Ok uc => merge c uc | Fail _ => c end
        | Fail _ => c
        end).

(** [Finish] *)
Definition Finish (m : Manager) (st code : string) : OM (result Identity) :=
  f ← takeFlow st;
  match f with
  | None => mret (Fail errInvalidState)
  | Some flow =>
      let? p := discover m in
      r ← lift (call (ol_Exchange p.2 code (lf_verifier flow)) (fun _ => []));
      match r with
      | Fail e => mret (Fail (wrapf "exchange code: " e))
      | Ok tok =>
          match ol_RawIDToken tok with
          | None | Some EmptyString => mret (Fail errMissingIDToken)
          | Some rawID =>
              v ← lift (call (ol_Verify p.1 (oc_ClientID (om_cfg m)) rawID) (fun _ => []));
              match v with
              | Fail e => mret (Fail (wrapf "verify id token: " e))
              | Ok idToken =>
                  if negb (String.eqb (ol_Nonce idToken) (lf_nonce flow)) then mret (Fail errNonceMismatch)
                  else
                    match ol_Claims idToken with
                    | Fail e => mret (Fail (wrapf "read id token claims: " e))
                    | Ok c =>
                        c ← lift (userinfo_claims p.1 tok c);
                        if String.eqb (cl_Sub c) "" then mret (Fail errMissingSubject)
                        else mret (Ok {| id_Issuer := ol_TokenIssuer idToken; id_Subject := cl_Sub c;
                                         id_Email := cl_Email c; id_Name := displayName c;
                                         id_Groups := cl_Groups c |})
                    end
              end
          end
      end
  end.
End Oidc.

(** ** Groups *)
Lemma merge_group_fold gs seen l :
  (forall g, g ∈ seen <-> g ∈ l) ->
  exists extra, (fold_left merge_group gs (seen, l)).2 = l ++ extra /\ NoDup extra /\
    (forall g, g ∈ extra <-> g ∈ gs /\ g ∉ l).
Proof.
  revert seen l. induction gs as [|g gs IH]; intros seen l Hs; cbn [fold_left].
  - exists []. rewrite app_nil_r. split; [done|]. split; [constructor|]. set_solver.
  - unfold merge_group at 2. cbn [fst snd]. destruct (decide (g ∈ seen)) as [Hg|Hg].
    + destruct (IH seen l Hs) as (extra & Hf & Hnd & He). exists extra. split; [done|]. split; [done|].
      intros x. rewrite He. apply Hs in Hg. set_solver.
    + destruct (IH ({[g]} ∪ seen) (l ++ [g])) as (extra & Hf & Hnd & He); [set_solver|].
      exists (g :: extra). rewrite Hf, <- app_assoc. split; [done|]. rewrite Hs in Hg. split.
      * constructor; [|done]. rewrite He. set_solver.
      * intros x. rewrite !elem_of_cons, He, elem_of_app, list_elem_of_singleton. clear -Hg.
        destruct (decide (x = g)) as [->|]; tauto.
Qed.

(** The userinfo answer only fills gaps: a field the ID token carries keeps its
    value, an empty one takes the other's; the ID token's groups stay in front,
    and behind them come exactly the other groups it did not have, each once. *)
Theorem merge_spec c other :
  let m := merge c other in
  (forall f, f ∈ [cl_Sub; cl_Name; cl_PreferredUsername; cl_DisplayName; cl_Email] ->
     f m = if String.eqb (f c) "" then f other else f c) /\
  exists extra, cl_Groups m = cl_Groups c ++ extra /\ NoDup extra /\
    (forall g, g ∈ extra <-> g ∈ cl_Groups other /\ g ∉ cl_Groups c).
Proof.
  intros m. split.
  - intros f Hf. do 5 (apply elem_of_cons in Hf as [->|Hf]; [reflexivity|]). by apply not_elem_of_nil in Hf.
  - unfold m, merge. cbn [cl_Groups]. destruct (cl_Groups other) as [|g gs] eqn:Hg.
    + exists []. rewrite app_nil_r. split; [done|]. split; [constructor|]. intros x. split; [intros Hx|intros [Hx _]]; by apply not_elem_of_nil in Hx.
    + apply merge_group_fold. intros x. by rewrite elem_of_list_to_set.
Qed.

Lemma fold_groups l (acc : gset string) x :
  x ∈ fold_left (fun (m : gset string) g => let g := TrimSpace g in if String.eqb g "" then m else {[ToLower g]} ∪ m) l acc <->
  x ∈ acc \/ exists a, a ∈ l /\ TrimSpace a <> "" /\ x = group_key a.
Proof.
  revert acc. induction l as [|a l IH]; intros acc; cbn [fold_left]; [set_solver|].
  rewrite IH. unfold group_key. destruct (String.eqb_spec (TrimSpace a) "") as [E|E]; set_solver.
Qed.

(** Which sign-ins are admins: a manager that [New] accepts grants admin exactly
    to groups that equal a configured group up to case and surrounding space,
    blank entries granting nothing; and it asks the provider for the groups
    whenever such a group is configured. *)
Theorem New_admin_groups cfg m :
  New cfg = Ok m ->
  (forall gs, IsAdmin m gs = true <->
     exists g a, g ∈ gs /\ a ∈ oc_AdminGroups cfg /\ TrimSpace a <> "" /\ group_key g = group_key a) /\
  (HasAdminGroups m = true <-> exists a, a ∈ oc_AdminGroups cfg /\ TrimSpace a <> "") /\
  (HasAdminGroups m = true -> hasScope (oc_Scopes (om_cfg m)) "groups" = true) /\
  Enabled (Some m) = true /\ oc_RedirectURL (om_cfg m) <> "".
Proof.
  unfold New. cbv zeta. set (groups := fold_left _ _ _).
  assert (Hgr : forall x, x ∈ groups <-> exists a, a ∈ oc_AdminGroups cfg /\ TrimSpace a <> "" /\ x = group_key a).
  { intros x. unfold groups. rewrite fold_groups. set_solver. }
  destruct (String.eqb_spec (oc_Issuer cfg) "") as [|Hi], (String.eqb_spec (oc_ClientID cfg) "") as [|Hc]; cbn [andb orb]; try done.
  destruct (String.eqb_spec (oc_RedirectURL cfg) "") as [|Hr]; [done|]. intros [= <-].
  assert (Hhas : 0 < Z.of_nat (size groups) <-> exists a, a ∈ oc_AdminGroups cfg /\ TrimSpace a <> "").
  { split.
    - intros Hs. destruct (set_choose_or_empty groups) as [[x Hx]|He].
      + apply Hgr in Hx as (a & ? & ? & _). eauto.
      + apply size_empty_iff in He. lia.
    - intros (a & Ha & Hne). assert (group_key a ∈ groups) as Hx by (apply Hgr; eauto).
      assert (size groups <> 0%nat); [|lia]. intros Hz%size_empty_iff. set_solver. }
  split; [|split; [|split; [|split]]].
  - intros gs. unfold IsAdmin. cbn [om_adminGroups]. rewrite existsb_exists. split.
    + intros (g & Hg & Hb%bool_decide_eq_true). apply Hgr in Hb as (a & ? & ? & ?). exists g, a. by rewrite list_elem_of_In.
    + intros (g & a & Hg & Ha & Hne & He). exists g. rewrite <- list_elem_of_In. split; [done|].
      apply bool_decide_eq_true, Hgr. eauto.
  - unfold HasAdminGroups. cbn [om_adminGroups]. rewrite Z.ltb_lt. exact Hhas.
  - unfold HasAdminGroups. cbn [om_adminGroups om_cfg with_scopes oc_Scopes]. intros ->. cbn [andb].
    set (scopes := match oc_Scopes cfg with [] => _ | _ => _ end).
    destruct (hasScope scopes "groups") eqn:Hs; cbn [negb]; [exact Hs|].
    unfold hasScope. rewrite existsb_app. simpl. by rewrite orb_true_r.
  - cbn. apply String.eqb_neq in Hi, Hc. by rewrite Hi, Hc.
  - done.
Qed.

(** ** Finishing *)
Section Facts.
Context {E : Type} `{!Env E} `{!RandEnv E} `{!OidcLib E}.
Implicit Types (s : OidcState (E:=E)) (w : World E).

Lemma wp_discover m s (Q : outcome (OidcState * result (Provider * oauthConfig Endpoint)) -> World E -> Prop) w :
  (forall e r s', os_flows s' = os_flows s -> Q (Ret (s', r)) (set_env w e)) -> wp (discover m s) Q w.
Proof.
  intros H. unfold discover. apply wp_sbind, wp_state. cbn [fst snd].
  destruct (os_provider s) as [p|].
  - apply wp_sret. rewrite <- (set_env_same w). by apply H.
  - apply wp_sbind, wp_lift, wp_call. intros e [p|err] _; rewrite log_nil; cbn [fst snd].
    + apply wp_sbind, wp_put. cbn [fst snd]. apply wp_sret. by apply H.
    + apply wp_sret. by apply H.
Qed.

Lemma wp_quiet_call {A} (op : E -> E * A) s (Q : outcome (OidcState * A) -> World E -> Prop) w :
  (forall e a, op (w_env w) = (e, a) -> Q (Ret (s, a)) (set_env w e)) -> wp (lift (call op (fun _ => [])) s) Q w.
Proof. intros H. apply wp_lift, wp_call. intros e a Ha. rewrite log_nil. by apply H. Qed.

(** What a sign-in that succeeds rests on; [e0] is the environment it begins in. *)
Definition signed_in (m : Manager) (st code : string) s (e0 : E) (ident : Identity) : Prop :=
  exists flow p oauth tok raw idToken e1 e2 e3 c uc,
    os_flows s !! st = Some flow /\ (time_Now e0).2 <= lf_expires flow /\
    (ol_Exchange oauth code (lf_verifier flow) e1).2 = Ok tok /\ ol_RawIDToken tok = Some raw /\
    (ol_Verify p (oc_ClientID (om_cfg m)) raw e2).2 = Ok idToken /\ ol_Nonce idToken = lf_nonce flow /\
    ol_Claims idToken = Ok c /\
    (uc = c \/ exists ui other, (ol_UserInfo p tok e3).2 = Ok ui /\ ol_UserInfoClaims ui = Ok other /\ uc = merge c other) /\
    ident = {| id_Issuer := ol_TokenIssuer idToken; id_Subject := cl_Sub uc; id_Email := cl_Email uc;
               id_Name := displayName uc; id_Groups := cl_Groups uc |} /\ id_Subject ident <> "".

(** Every run of [Finish]: the flow is taken out, and an identity it returns was
    signed in. *)
Lemma wp_Finish m st code s (Q : outcome (OidcState * result Identity) -> World E -> Prop) w :
  (forall s' r w', w_db w' = w_db w -> os_flows s' = delete st (os_flows s) ->
     (forall ident, r = Ok ident -> signed_in m st code s (w_env w) ident) -> Q (Ret (s', r)) w') ->
  wp (Finish m st code s) Q w.
Proof.
  intros HQ. assert (Hfail : forall s' w' err, w_db w' = w_db w -> os_flows s' = delete st (os_flows s) ->
    Q (Ret (s', Fail err)) w') by (intros; by apply HQ).
  unfold Finish. apply wp_sbind, wp_zoom, wp_take_pending.
  { intros e _. cbn [fst snd]. apply wp_sret. by apply Hfail. }
  intros flow e0 now Hflow Hnow Hlive. cbn [fst snd].
  apply wp_sbind, wp_discover. intros e1 [[p oauth]|err] s1 Hs1; cbn [fst snd]; [|by apply wp_sret, Hfail].
  apply wp_sbind, wp_quiet_call. intros e2 [tok|err] Hx; cbn [fst snd]; [|by apply wp_sret, Hfail].
  destruct (ol_RawIDToken tok) as [[|a raw]|] eqn:Hraw; [by apply wp_sret, Hfail| |by apply wp_sret, Hfail].
  apply wp_sbind, wp_quiet_call. intros e3 [idToken|err] Hv; cbn [fst snd]; [|by apply wp_sret, Hfail].
  destruct (String.eqb_spec (ol_Nonce idToken) (lf_nonce flow)) as [Hn|]; cbn [negb]; [|by apply wp_sret, Hfail].
  destruct (ol_Claims idToken) as [c|err] eqn:Hc; [|by apply wp_sret, Hfail].
  apply wp_sbind, wp_lift. unfold userinfo_claims. apply wp_bind, wp_call. intros e4 ui Hui. rewrite log_nil.
  apply wp_ret. cbn [fst snd]. set (uc := match ui with Ok _ => _ | Fail _ => c end).
  destruct (String.eqb_spec (cl_Sub uc) "") as [|Hsub]; [by apply wp_sret, Hfail|].
  apply wp_sret, HQ; [done|done|]. intros ident [= <-].
  apply (f_equal snd) in Hx, Hv, Hui. cbn [fst snd] in Hx, Hv, Hui.
  do 11 eexists. split; [exact Hflow|]. split; [rewrite Hnow; exact Hlive|]. split; [exact Hx|]. split; [exact Hraw|].
  split; [exact Hv|]. split; [exact Hn|]. split; [exact Hc|]. split; [|by split].
  unfold uc. destruct ui as [u|err]; [|by left].
  destruct (ol_UserInfoClaims u) as [other|err] eqn:Hoc; [|by left]. right. eauto.
Qed.

(** A sign-in is accepted only for a flow this process started: the state names
    a pending flow that has not expired, the code was exchanged with that flow's
    PKCE verifier, the ID token was verified for our client id and carries that
    flow's nonce, and it has a subject. Whatever happens, the flow is gone and
    the others remain, nothing in the database changes, and the same state is
    refused when it comes again. *)
Theorem Finish_safe m st code code' s w :
  wp (Finish m st code s) (fun o w' => exists s' r, o = Ret (s', r) /\ w_db w' = w_db w /\
    os_flows s' = delete st (os_flows s) /\
    (forall ident, r = Ok ident -> signed_in m st code s (w_env w) ident) /\
    wp (Finish m st code' s') (fun o2 _ => exists s2, o2 = Ret (s2, Fail errInvalidState)) w') w.
Proof.
  apply wp_Finish. intros s' r w' Hw Hs Hr. exists s', r. repeat (split; [done|]).
  unfold Finish. apply wp_sbind, wp_zoom, wp_take_pending.
  - intros e _. cbn [fst snd]. apply wp_sret. eauto.
  - intros c e now Hc. by rewrite Hs, lookup_delete_eq in Hc.
Qed.
End Facts.

(** ** Instances at concrete inputs *)
Definition demo_cfg : Config :=
  {| oc_Issuer := "https://id"; oc_ClientID := "veery"; oc_ClientSecret := ""; oc_RedirectURL := "https://v/cb";
     oc_Scopes := []; oc_AdminGroups := [" Ops "; ""]; oc_ProviderName := "" |}.
Definition demo_manager : Manager :=
  {| om_cfg := with_scopes demo_cfg ["openid"; "profile"; "email"; "groups"]; om_adminGroups := {["ops"]} |}.

Lemma New_admin_groups_witness :
  New demo_cfg = Ok demo_manager /\ (IsAdmin demo_manager ["users"; "OPS"] = true <->
     exists g a, g ∈ ["users"; "OPS"] /\ a ∈ oc_AdminGroups demo_cfg /\ TrimSpace a <> "" /\ group_key g = group_key a).
Proof.
  assert (New demo_cfg = Ok demo_manager) as Hm by (vm_compute; reflexivity).
  split; [exact Hm|]. exact (proj1 (New_admin_groups demo_cfg demo_manager Hm) ["users"; "OPS"]).
Defined.

(** A provider that knows Ann; its userinfo endpoint speaks of Bob. *)
Definition ann_claims : claims :=
  {| cl_Sub := "ann"; cl_Name := ""; cl_PreferredUsername := "ann"; cl_DisplayName := ""; cl_Email := "";
     cl_Groups := ["users"] |}.
Definition bob_claims : claims :=
  {| cl_Sub := "bob"; cl_Name := "Bob"; cl_PreferredUsername := ""; cl_DisplayName := ""; cl_Email := "bob@x";
     cl_Groups := ["ops"; "users"] |}.

#[local] Instance demo_provider : OidcLib Sim := {
  Provider := unit;
  Endpoint := unit;
  Token := string;
  IDToken := string;
  UserInfo := unit;
  ol_NewProvider _ e := (e, Ok tt);
  ol_Endpoint _ := tt;
  ol_GenerateVerifier e := (e, "pkce");
  ol_AuthCodeURL c st nonce verifier := oa_RedirectURL c +:+ "?state=" +:+ st;
  ol_Exchange c code verifier e := (e, if String.eqb verifier "pkce" then Ok code else Fail (errorf "invalid_grant"));
  ol_RawIDToken t := Some t;
  ol_Verify _ cid raw e := (e, Ok raw);
  ol_Nonce t := t;
  ol_TokenIssuer _ := "https://id";
  ol_Claims _ := Ok ann_claims;
  ol_UserInfo _ _ e := (e, Ok tt);
  ol_UserInfoClaims _ := Ok bob_claims
}.

#[local] Instance demo_oidc_rand : RandEnv Sim := {
  rand_Token n e := (sim_with e (sim_containers e) (sim_next e + 1), "r" +:+ Itoa (sim_next e))
}.

Definition no_flows : OidcState (E:=Sim) := {| os_provider := None; os_flows := ∅ |}.

(** Start and finish: the state is the first random token, the nonce the second.
    The groups of the userinfo answer are taken over although it names another
    subject than the ID token. *)
Lemma userinfo_of_another_subject :
  exists w, (p ← Start demo_manager; Finish demo_manager "r1" "r2") no_flows (sim_world empty_db sim_empty)
    = (w, Ret ({| os_provider := Some (tt, {| oa_ClientID := "veery"; oa_ClientSecret := ""; oa_Endpoint := tt;
                                              oa_RedirectURL := "https://v/cb"; oa_Scopes := oc_Scopes (om_cfg demo_manager) |});
                  os_flows := ∅ |},
               Ok {| id_Issuer := "https://id"; id_Subject := "ann"; id_Email := "bob@x"; id_Name := "Bob";
                     id_Groups := ["users"; "ops"] |})) /\
    IsAdmin demo_manager ["users"; "ops"] = true.
Proof. eexists. split; vm_compute; reflexivity. Qed.
