(* ===== verification/FakeIdp.v ===== *)
(** * The identity provider of the tests (src/internal/oidc/fakeidp)

    A small OpenID Connect provider: go-oidc's test server answers discovery and
    the keys, [handleToken] mints the ID token. It shows the other half of
    Oidc.v: at a provider that behaves, a sign-in goes through. *)
From S2P Require Import Prelude GoStrings Api Db Docker World Sim Stateful Auth Digest Oidc.
Open Scope Z_scope.

Definition RS256 : string := "RS256".

(** A value of a JSON document, RSA keys, and the tokens of oidctest. *)
Class FakeLib := {
  any : Type;
  any_string : string -> any;
  any_int64 : Z -> any;
  json_claims : gmap string any -> string;                      (* json.Marshal *)
  PrivateKey : Type;
  PublicKey : Type;
  Public : PrivateKey -> PublicKey;
  SignIDToken : PrivateKey -> string -> string -> string -> string
}.

(** crypto/rsa's generator and httptest. *)
Class FakeEnv (E : Type) `{!FakeLib} := {
  rsa_GenerateKey : E -> E * result PrivateKey;
  httptest_NewServer : E -> E * string;                         (* its URL *)
  httptest_Close : string -> E -> E
}.

Section FakeIdp.
Context `{!FakeLib}.

(** [oidctest.PublicKey], [oidctest.Server] and [httptest.Server] with what it
    serves besides [/token]. *)
Record oidctest_PublicKey := { ok_PublicKey : PublicKey; ok_KeyID : string; ok_Algorithm : string }.
Record oidctest_Server := { ot_PublicKeys : list oidctest_PublicKey; ot_issuer : string }.
Record httptest_Server := { ts_URL : string; ts_oidc : oidctest_Server }.

Record fakeidp_Provider := {
  pv_Server : httptest_Server;
  pv_ClientID : string;
  pv_Claims : gmap string any;
  pv_Nonce : string;
  pv_Challenge : string;
  pv_pkceOK : bool;
  pv_priv : PrivateKey;
  pv_keyID : string
}.

Record TokenResponse := {
  tr_ContentType : string;
  tr_access_token : string;
  tr_token_type : string;
  tr_id_token : string;
  tr_expires_in : Z
}.

(** [New] *)
Definition fakeidp_New `{!Env E, !FakeEnv E} (clientID : string) : M E fakeidp_Provider :=
  priv ← call rsa_GenerateKey (fun _ => []);
  match priv with
  | Fail e => panic (Error e)
  | Ok priv =>
      let keys := [{| ok_PublicKey := Public priv; ok_KeyID := "k1"; ok_Algorithm := RS256 |}] in
      url ← call httptest_NewServer (fun _ => []);
      mret {| pv_Server := {| ts_URL := url; ts_oidc := {| ot_PublicKeys := keys; ot_issuer := url |} |};
              pv_ClientID := clientID; pv_Claims := ∅; pv_Nonce := ""; pv_Challenge := ""; pv_pkceOK := false;
              pv_priv := priv; pv_keyID := "k1" |}
  end.

Definition fakeidp_URL (p : fakeidp_Provider) : string := ts_URL (pv_Server p).
Definition fakeidp_Close `{!FakeEnv E} (p : fakeidp_Provider) : M E unit :=
  call (fun e => (httptest_Close (fakeidp_URL p) e, tt)) (fun _ => []).
Definition PKCEOK (p : fakeidp_Provider) : bool := pv_pkceOK p.

Definition set_pkceOK (ok : bool) (p : fakeidp_Provider) : fakeidp_Provider :=
  {| pv_Server := pv_Server p; pv_ClientID := pv_ClientID p; pv_Claims := pv_Claims p; pv_Nonce := pv_Nonce p;
     pv_Challenge := pv_Challenge p; pv_pkceOK := ok; pv_priv := pv_priv p; pv_keyID := pv_keyID p |}.

(** The claims of a token minted at [now]. *)
Definition minted (now : Z) (p : fakeidp_Provider) : gmap string any :=
  let claims := <["exp" := any_int64 ((now + hour) / second)]>
    (<["aud" := any_string (pv_ClientID p)]> (<["iss" := any_string (fakeidp_URL p)]> (pv_Claims p))) in
  if negb (String.eqb (pv_Nonce p) "") then <["nonce" := any_string (pv_Nonce p)]> claims else claims.

(** [handleToken], on the form of the request. *)
Definition handleToken (now : Z) (form : string -> string) (p : fakeidp_Provider) : fakeidp_Provider * TokenResponse :=
  let v := form "code_verifier" in
  let p := if negb (String.eqb v "") && negb (String.eqb (pv_Challenge p) "")
           then set_pkceOK (String.eqb (S256Challenge v) (pv_Challenge p)) p else p in
  (p, {| tr_ContentType := "application/json"; tr_access_token := "at"; tr_token_type := "Bearer";
         tr_id_token := SignIDToken (pv_priv p) (pv_keyID p) RS256 (json_claims (minted now p)); tr_expires_in := 3600 |}).

(** The mux of [New]. *)
Inductive fake_answer := AnswerOIDC (server : oidctest_Server) (path : string) | AnswerToken (r : TokenResponse).
Definition fakeidp_serve (now : Z) (path : string) (form : string -> string) (p : fakeidp_Provider) :
    fakeidp_Provider * fake_answer :=
  if String.eqb path "/token" then let r := handleToken now form p in (r.1, AnswerToken r.2)
  else (p, AnswerOIDC (ts_oidc (pv_Server p)) path).

(** What the test takes out of the URL it is sent to. *)
Definition configured (query : string -> string) (p : fakeidp_Provider) : fakeidp_Provider :=
  {| pv_Server := pv_Server p; pv_ClientID := pv_ClientID p; pv_Claims := pv_Claims p; pv_Nonce := query "nonce";
     pv_Challenge := query "code_challenge"; pv_pkceOK := pv_pkceOK p; pv_priv := pv_priv p; pv_keyID := pv_keyID p |}.

(** The tokens verify against what the server publishes. *)
Definition consistent (p : fakeidp_Provider) : Prop :=
  ot_issuer (ts_oidc (pv_Server p)) = fakeidp_URL p /\
  {| ok_PublicKey := Public (pv_priv p); ok_KeyID := pv_keyID p; ok_Algorithm := RS256 |} ∈
    ot_PublicKeys (ts_oidc (pv_Server p)).

Lemma fakeidp_New_consistent `{!Env E, !FakeEnv E} clientID (w : World E) :
  wp (fakeidp_New clientID) (fun o _ => forall p, o = Ret p -> consistent p /\ pv_ClientID p = clientID) w.
Proof.
  unfold fakeidp_New. apply wp_bind, wp_call. intros e [priv|err] _; [|by apply wp_panic].
  apply wp_bind, wp_call. intros e' url _. apply wp_ret. intros p [= <-]. by repeat constructor.
Qed.

Lemma minted_claims now p :
  minted now p !! "iss" = Some (any_string (fakeidp_URL p)) /\ minted now p !! "aud" = Some (any_string (pv_ClientID p)) /\
  minted now p !! "exp" = Some (any_int64 ((now + hour) / second)) /\
  (pv_Nonce p <> "" -> minted now p !! "nonce" = Some (any_string (pv_Nonce p))).
Proof. unfold minted. destruct (String.eqb_spec (pv_Nonce p) ""); cbn [negb]; by simplify_map_eq. Qed.
End FakeIdp.

(** ** A sign-in at this provider *)
(** The test's requests reach the provider and nothing else does: [idp] is its
    state in an environment. The clock is read within ten minutes, from [lo] on.
    go-oidc discovers what the server publishes and accepts a token that was
    signed with a published key, for this issuer and client, and has not
    expired; oauth2 posts the verifier to the token endpoint and returns the
    answer's token; the URL of a sign-in carries state, nonce and challenge. *)
Class Reaches (E : Type) `{!Env E} `{!RandEnv E} `{!OidcLib E} `{!FakeLib} (lo : Z) := {
  idp : E -> fakeidp_Provider;
  at_idp : (fakeidp_Provider -> fakeidp_Provider) -> E -> E;
  idp_at : forall f e, idp (at_idp f e) = f (idp e);
  discovered : Provider -> oidctest_Server -> Prop;
  url_query : string -> string -> string;
  form_of : string -> string -> string;
  read_claims : gmap string any -> result claims;
  now_window : forall e, lo <= (time_Now e).2 <= lo + FlowTTL;
  idp_now : forall e, idp (time_Now e).1 = idp e;
  idp_rand : forall n e, idp (rand_Token n e).1 = idp e;
  idp_verifier : forall e, idp (ol_GenerateVerifier e).1 = idp e;
  verifier_nonempty : forall e, (ol_GenerateVerifier e).2 <> "";
  token_nonempty : forall n e, (rand_Token n e).2 <> "";
  AuthCodeURL_query : forall c st nonce verifier,
    let q := url_query (ol_AuthCodeURL c st nonce verifier) in
    q "state" = st /\ q "nonce" = nonce /\ q "code_challenge" = S256Challenge verifier;
  form_verifier : forall v, form_of v "code_verifier" = v;
  NewProvider_discovers : forall e, exists p,
    (ol_NewProvider (fakeidp_URL (idp e)) e).2 = Ok p /\ discovered p (ts_oidc (pv_Server (idp e)));
  idp_NewProvider : forall url e, idp (ol_NewProvider url e).1 = idp e;
  Exchange_posts : forall p c code v e, discovered p (ts_oidc (pv_Server (idp e))) -> oa_Endpoint c = ol_Endpoint p ->
    exists now tok, (ol_Exchange c code v e).2 = Ok tok /\ lo <= now <= lo + FlowTTL /\
      idp (ol_Exchange c code v e).1 = (handleToken now (form_of v) (idp e)).1 /\
      ol_RawIDToken tok = Some (tr_id_token (handleToken now (form_of v) (idp e)).2);
  SignIDToken_nonempty : forall priv kid alg raw, SignIDToken priv kid alg raw <> "";
  idp_Verify : forall p cid raw e, idp (ol_Verify p cid raw e).1 = idp e;
  Verify_accepts : forall p srv priv kid cid cl exp e, discovered p srv ->
    {| ok_PublicKey := Public priv; ok_KeyID := kid; ok_Algorithm := RS256 |} ∈ ot_PublicKeys srv ->
    cl !! "iss" = Some (any_string (ot_issuer srv)) -> cl !! "aud" = Some (any_string cid) ->
    cl !! "exp" = Some (any_int64 exp) -> lo + FlowTTL < exp * second ->
    exists t, (ol_Verify p cid (SignIDToken priv kid RS256 (json_claims cl)) e).2 = Ok t /\
      ol_TokenIssuer t = ot_issuer srv /\ ol_Claims t = read_claims cl /\
      forall n, cl !! "nonce" = Some (any_string n) -> ol_Nonce t = n;
  read_claims_own : forall k v cl, k ∈ ["iss"; "aud"; "exp"; "nonce"] -> read_claims (<[k := v]> cl) = read_claims cl;
  idp_UserInfo : forall p tok e, idp (ol_UserInfo p tok e).1 = idp e
}.

Section SignIn.
Context {E : Type} `{!Env E} `{!RandEnv E} `{!OidcLib E} `{!FakeLib} (lo : Z) `{!Reaches E lo}.
Implicit Types (s : OidcState (E:=E)) (w : World E) (p : fakeidp_Provider).

(** Whatever discovery is cached is this provider's. *)
Definition caches p s : Prop :=
  forall pr oauth, os_provider s = Some (pr, oauth) ->
    discovered pr (ts_oidc (pv_Server p)) /\ oa_Endpoint oauth = ol_Endpoint pr.

Lemma minted_read now p : read_claims (minted now p) = read_claims (pv_Claims p).
Proof.
  unfold minted. destruct (negb _); rewrite !read_claims_own; try done; set_solver.
Qed.

(** Discovery succeeds, from the cache or at the provider. *)
Lemma wp_discover_idp m s (Q : outcome (OidcState * result (Provider * oauthConfig Endpoint)) -> World E -> Prop) w :
  oc_Issuer (om_cfg m) = fakeidp_URL (idp (w_env w)) -> caches (idp (w_env w)) s ->
  (forall e pr oauth s', idp e = idp (w_env w) -> discovered pr (ts_oidc (pv_Server (idp e))) ->
     oa_Endpoint oauth = ol_Endpoint pr -> os_flows s' = os_flows s -> os_provider s' = Some (pr, oauth) ->
     Q (Ret (s', Ok (pr, oauth))) (set_env w e)) ->
  wp (discover m s) Q w.
Proof.
  intros Hi Hc HQ. unfold discover. apply wp_sbind, wp_state. cbn [fst snd].
  destruct (os_provider s) as [[pr oauth]|] eqn:Hp.
  - apply wp_sret. rewrite <- (set_env_same w). destruct (Hc pr oauth Hp). by apply HQ.
  - apply wp_sbind, wp_lift, wp_call. intros e r Hr. rewrite log_nil. cbn [fst snd].
    destruct (NewProvider_discovers (w_env w)) as (pr & Hok & Hd). pose proof (idp_NewProvider (fakeidp_URL (idp (w_env w))) (w_env w)) as Hidp.
    rewrite Hi in Hr. rewrite Hr in Hok, Hidp. cbn [fst snd] in Hok, Hidp. subst r.
    apply wp_sbind, wp_put. cbn [fst snd]. apply wp_sret. apply HQ; try done. by rewrite Hidp.
Qed.
(** A flow that outlives the window. *)
Definition started (st nonce verifier : string) s : Prop :=
  exists f, os_flows s !! st = Some f /\ lf_nonce f = nonce /\ lf_verifier f = verifier /\ lo + FlowTTL <= lf_expires f.

(** [Start] remembers the flow whose parameters it puts into the URL. *)
Lemma wp_Start_idp m s (Q : outcome (OidcState * result (string * string)) -> World E -> Prop) w :
  oc_Issuer (om_cfg m) = fakeidp_URL (idp (w_env w)) -> caches (idp (w_env w)) s ->
  (forall e s' st nonce verifier oauth, idp e = idp (w_env w) -> caches (idp e) s' -> nonce <> "" -> verifier <> "" ->
     started st nonce verifier s' -> Q (Ret (s', Ok (ol_AuthCodeURL oauth st nonce verifier, st))) (set_env w e)) ->
  wp (Start m s) Q w.
Proof.
  intros Hi Hc HQ. unfold Start. apply wp_sbind, wp_discover_idp; [done..|].
  intros e0 pr oauth s1 He0 Hd Hep _ Hs1. cbn [fst snd].
  apply wp_sbind, wp_quiet_call. intros e1 st Hst. cbn [fst snd].
  apply wp_sbind, wp_quiet_call. intros e2 nonce Hn. cbn [fst snd].
  apply wp_sbind, wp_quiet_call. intros e3 verifier Hv. cbn [fst snd].
  apply wp_sbind, wp_lift_Now. intros e4 now Hnow. cbn [fst snd].
  apply wp_sbind, wp_zoom, wp_sbind, wp_state. cbn [fst snd]. apply wp_sbind, wp_put. cbn [fst snd].
  apply wp_gc_pending. intros e5 t Ht. cbn [fst snd].
  pose proof (idp_rand 24 e0) as I1. pose proof (idp_rand 24 e1) as I2. pose proof (idp_verifier e2) as I3.
  pose proof (idp_now e3) as I4. pose proof (idp_now e4) as I5.
  pose proof (now_window e3) as W1. pose proof (now_window e4) as W2.
  pose proof (token_nonempty 24 e1) as N1. pose proof (verifier_nonempty e2) as N2.
  cbn [w_env set_env] in Hst, Hn, Hv, Hnow, Ht. rewrite Hst in I1. rewrite Hn in I2, N1. rewrite Hv in I3, N2.
  rewrite Hnow in I4, W1. rewrite Ht in I5, W2. cbn [fst snd] in *.
  assert (idp e5 = idp (w_env w)) as He5 by congruence.
  apply (HQ e5); [done| |done|done|].
  - intros pr' oauth' Hp'. cbn in Hp'. rewrite Hs1 in Hp'. injection Hp' as <- <-. split; [|done]. congruence.
  - exists {| lf_nonce := nonce; lf_verifier := verifier; lf_expires := now + FlowTTL |}.
    cbn [lf_nonce lf_verifier lf_expires]. split; [|split; [done|split; [done|lia]]].
    apply map_lookup_filter_Some. split; [apply lookup_insert_eq|].
    cbn [snd lf_expires]. lia.
Qed.

(** The identity carries what the test's claims say. *)
Definition identifies (p : fakeidp_Provider) (c : claims) (ident : Identity) : Prop :=
  id_Issuer ident = fakeidp_URL p /\ id_Subject ident = cl_Sub c /\
  (cl_Email c <> "" -> id_Email ident = cl_Email c) /\
  (TrimSpace (cl_Name c) <> "" -> id_Name ident = cl_Name c) /\
  exists extra, id_Groups ident = cl_Groups c ++ extra.

(** What the userinfo endpoint adds does not replace anything. *)
Lemma merge_identifies p c uc iss :
  (uc = c \/ exists other, uc = merge c other) -> iss = fakeidp_URL p -> cl_Sub c <> "" ->
  identifies p c {| id_Issuer := iss; id_Subject := cl_Sub uc; id_Email := cl_Email uc; id_Name := displayName uc;
                    id_Groups := cl_Groups uc |}.
Proof.
  intros Huc -> Hsub. assert (Hkeep : forall f, f ∈ [cl_Sub; cl_Name; cl_PreferredUsername; cl_DisplayName; cl_Email] ->
    f c <> "" -> f uc = f c).
  { intros f Hf Hne. destruct Huc as [->|[other ->]]; [done|]. rewrite (proj1 (merge_spec c other) f Hf).
    by rewrite (proj2 (String.eqb_neq _ _) Hne). }
  split; [done|]. cbn. split; [apply Hkeep; [set_solver|done]|]. split; [apply Hkeep; set_solver|]. split.
  - intros Hn. assert (cl_Name uc = cl_Name c) as Hname by (apply Hkeep; [set_solver|by intros He; rewrite He in Hn]).
    unfold displayName. cbn [List.find]. rewrite Hname. by rewrite (proj2 (String.eqb_neq _ _) Hn).
  - destruct Huc as [->|[other ->]]; [exists []; by rewrite app_nil_r|].
    destruct (merge_spec c other) as [_ (extra & He & _)]. by exists extra.
Qed.

(** The token of the exchange outlives the window. *)
Lemma expires_after t : lo <= t <= lo + FlowTTL -> lo + FlowTTL < (t + hour) / second * second.
Proof.
  intros Ht. pose proof (Z.mod_pos_bound (t + hour) second ltac:(done)). pose proof (Z.div_mod (t + hour) second ltac:(done)).
  assert (FlowTTL = 600 * second /\ hour = 3600 * second /\ 0 < second) as (-> & Hh & Hs) by done. lia.
Qed.

(** [Finish] at the provider the flow was configured in. *)
Lemma wp_Finish_idp m st nonce verifier code c s (Q : outcome (OidcState * result Identity) -> World E -> Prop) w :
  let p := idp (w_env w) in
  oc_Issuer (om_cfg m) = fakeidp_URL p -> oc_ClientID (om_cfg m) = pv_ClientID p -> consistent p -> caches p s ->
  started st nonce verifier s -> nonce <> "" -> verifier <> "" ->
  pv_Nonce p = nonce -> pv_Challenge p = S256Challenge verifier ->
  read_claims (pv_Claims p) = Ok c -> cl_Sub c <> "" ->
  (forall s' ident e, identifies p c ident -> idp e = set_pkceOK true p ->
     Q (Ret (s', Ok ident)) (set_env w e)) ->
  wp (Finish m st code s) Q w.
Proof.
  intros p Hi Hcid [Hiss Hkey] Hca (f & Hf & Hfn & Hfv & Hfe) Hn Hv Hpn Hpc Hc Hsub HQ.
  unfold Finish. apply wp_sbind, wp_zoom, wp_take_pending.
  { intros e0 [Hnone|(f' & now & Hf' & Hnow & Hlt)]; [by rewrite Hf in Hnone|].
    pose proof (now_window (w_env w)) as W. rewrite Hnow in W. cbn [snd] in W. rewrite Hf in Hf'. injection Hf' as <-. lia. }
  intros f' e0 now Hf' Hnow _. cbn [fst snd]. rewrite Hf in Hf'. injection Hf' as <-.
  pose proof (idp_now (w_env w)) as I0. rewrite Hnow in I0. cbn [fst] in I0.
  apply wp_sbind, wp_discover_idp; [cbn; by rewrite I0|cbn; by rewrite I0|].
  intros e1 pr oauth s1 He1 Hd Hep _ _. cbn [fst snd]. cbn [w_env set_env] in He1.
  assert (idp e1 = p) as I1 by (unfold p; congruence).
  destruct (Exchange_posts pr oauth code verifier e1) as (t & tok & Hx & Ht & Ix & Hraw); [done|done|].
  apply wp_sbind, wp_quiet_call. intros e2 r Hr. cbn [w_env set_env] in Hr. rewrite Hfv in Hr. rewrite Hr in Hx, Ix. cbn [fst snd] in Hx, Ix |- *. subst r.
  rewrite I1 in Ix, Hraw. unfold handleToken in Ix, Hraw. rewrite form_verifier, (proj2 (String.eqb_neq _ _) Hv), Hpc in Ix, Hraw.
  rewrite (proj2 (String.eqb_neq _ _) (S256Challenge_nonempty verifier)), String.eqb_refl in Ix, Hraw. cbn [negb andb fst snd tr_id_token] in Ix, Hraw.
  destruct (minted_claims t (set_pkceOK true p)) as (Miss & Maud & Mexp & Mnonce).
  destruct (Verify_accepts pr (ts_oidc (pv_Server p)) (pv_priv p) (pv_keyID p) (oc_ClientID (om_cfg m)) (minted t (set_pkceOK true p))
    ((t + hour) / second) e2) as (idt & Hver & Hti & Htc & Htn); [by rewrite <- I1|done|by rewrite Miss, Hiss|by rewrite Maud, Hcid|done| |].
  { by apply expires_after. }
  cbn [pv_priv pv_keyID set_pkceOK] in Hraw.
  pose proof (SignIDToken_nonempty (pv_priv p) (pv_keyID p) RS256 (json_claims (minted t (set_pkceOK true p)))) as Hne.
  revert Hraw Hver Hne. generalize (SignIDToken (pv_priv p) (pv_keyID p) RS256 (json_claims (minted t (set_pkceOK true p)))).
  intros [|ch raw] Hraw Hver Hne; [done|]. rewrite Hraw.
  apply wp_sbind, wp_quiet_call. intros e3 r' Hr'. cbn [w_env set_env] in Hr'.
  pose proof (idp_Verify pr (oc_ClientID (om_cfg m)) (String ch raw) e2) as I3. rewrite Hr' in Hver, I3. cbn [fst snd] in Hver, I3 |- *. subst r'.
  rewrite Htn with nonce by (rewrite Mnonce; cbn; by rewrite Hpn). rewrite Hfn, String.eqb_refl. cbn [negb].
  rewrite Htc, minted_read. cbn [pv_Claims set_pkceOK]. rewrite Hc.
  apply wp_sbind, wp_lift. unfold userinfo_claims. apply wp_bind, wp_call. intros e4 ui Hui. rewrite log_nil. apply wp_ret. cbn [fst snd].
  cbn [w_env set_env] in Hui. pose proof (idp_UserInfo pr tok e3) as I4. rewrite Hui in I4. cbn [fst] in I4.
  set (uc := match ui with Ok _ => _ | Fail _ => c end).
  assert (Huc : uc = c \/ exists other, uc = merge c other).
  { unfold uc. destruct ui as [u|]; [|by left]. destruct (ol_UserInfoClaims u) as [o|]; [right; by exists o|by left]. }
  pose proof (merge_identifies p c uc (ol_TokenIssuer idt) Huc ltac:(by rewrite Hti, Hiss) Hsub) as Hid.
  destruct (String.eqb_spec (cl_Sub uc) "") as [He|_]; [destruct Hid as (_ & Hs & _); cbn in Hs; by rewrite Hs in He|].
  apply wp_sret. eapply HQ; [exact Hid|]. congruence.
Qed.

(** C38. A sign-in at a provider that behaves goes through. Whatever discovery
    is cached and whatever the userinfo endpoint answers, [Start] gives a URL
    with the state, a nonce and the challenge of a PKCE verifier; once the
    provider has them, [Finish] with that state returns the user's identity as
    the ID token states it, and the provider has received the verifier that
    belongs to the challenge. *)
Theorem sign_in_completes m c s w
  (Hi : Issuer m = fakeidp_URL (idp (w_env w))) (Hcid : oc_ClientID (om_cfg m) = pv_ClientID (idp (w_env w)))
  (Hok : consistent (idp (w_env w))) (Hca : caches (idp (w_env w)) s)
  (Hc : read_claims (pv_Claims (idp (w_env w))) = Ok c) (Hsub : cl_Sub c <> "") :
  wp (Start m s) (fun o w1 => exists s1 url st, o = Ret (s1, Ok (url, st)) /\ url_query url "state" = st /\
    forall code, wp (Finish m st code s1) (fun o2 w2 => exists s2 ident, o2 = Ret (s2, Ok ident) /\
      identifies (idp (w_env w)) c ident /\ PKCEOK (idp (w_env w2)) = true)
      (set_env w1 (at_idp (configured (url_query url)) (w_env w1)))) w.
Proof.
  apply wp_Start_idp; [done..|]. intros e s1 st nonce verifier oauth He Hca1 Hn Hv Hst.
  destruct (AuthCodeURL_query oauth st nonce verifier) as (Qs & Qn & Qc). rewrite <- He in *.
  do 3 eexists. split; [reflexivity|]. split; [done|]. intros code.
  apply (wp_Finish_idp m st nonce verifier code c); cbn [w_env set_env]; rewrite ?idp_at; try done.
  intros s2 ident e2 Hid He2. exists s2, ident. split; [done|]. split; [done|]. cbn [w_env set_env]. by rewrite He2.
Qed.
End SignIn.

(** ** Instances at concrete inputs *)
(** Claims are strings, numbers and lists of strings; a token is its key and its
    claims; an environment is a counter and the provider. *)
Definition demo_any : Type := string + Z + list string.

#[local] Instance demo_fake : FakeLib := {
  any := demo_any;
  any_string s := inl (inl s);
  any_int64 z := inl (inr z);
  json_claims := count_Marshal;
  PrivateKey := string;
  PublicKey := string;
  Public k := k;
  SignIDToken priv kid alg raw := String "t" (count_Marshal (priv, raw))
}.

Definition claim_string (cl : gmap string demo_any) (k : string) : string :=
  match cl !! k with Some (inl (inl s)) => s | _ => "" end.
Lemma claim_string_of cl k v : cl !! k = Some (inl (inl v)) -> claim_string cl k = v.
Proof. unfold claim_string. by intros ->. Qed.

Definition demo_read (cl : gmap string demo_any) : claims :=
  {| cl_Sub := claim_string cl "sub"; cl_Name := claim_string cl "name"; cl_PreferredUsername := "";
     cl_DisplayName := ""; cl_Email := claim_string cl "email";
     cl_Groups := match cl !! "groups" with Some (inr l) => l | _ => [] end |}.

Definition demo_now : Z := sim_clock sim_empty.
Definition demo_verify (srv : oidctest_Server) (cid raw : string) : option (gmap string demo_any) :=
  match raw with
  | String "t" body =>
      kr ← count_Unmarshal (A:=string * string) body;
      cl ← count_Unmarshal (A:=gmap string demo_any) kr.2;
      if existsb (fun k => String.eqb (ok_PublicKey k) kr.1) (ot_PublicKeys srv)
         && bool_decide (cl !! "iss" = Some (inl (inl (ot_issuer srv)))) && bool_decide (cl !! "aud" = Some (inl (inl cid)))
         && match cl !! "exp" with Some (inl (inr exp)) => demo_now <? exp * second | _ => false end
      then Some cl else None
  | _ => None
  end.

Definition demo_form (v k : string) : string := if String.eqb k "code_verifier" then v else "".
Definition demo_query (url k : string) : string :=
  match count_Unmarshal (A:=string * string * string) url with
  | Some (st, nonce, challenge) =>
      if String.eqb k "state" then st else if String.eqb k "nonce" then nonce
      else if String.eqb k "code_challenge" then challenge else ""
  | None => ""
  end.

#[local] Instance demo_fake_env : Env (Z * fakeidp_Provider) := frozen sim_empty.
#[local] Instance demo_fake_rand : RandEnv (Z * fakeidp_Provider) := {
  rand_Token n e := ((e.1 + 1, e.2), "r" +:+ Itoa e.1)
}.

#[local] Instance demo_fake_oidc : OidcLib (Z * fakeidp_Provider) := {
  Provider := oidctest_Server;
  Endpoint := string;
  Token := string;
  IDToken := gmap string demo_any;
  UserInfo := unit;
  ol_NewProvider url e :=
    (e, if String.eqb url (fakeidp_URL e.2) then Ok (ts_oidc (pv_Server e.2)) else Fail (errorf "no such host"));
  ol_Endpoint srv := ot_issuer srv +:+ "/token";
  ol_GenerateVerifier e := ((e.1 + 1, e.2), "v" +:+ Itoa e.1);
  ol_AuthCodeURL c st nonce verifier := count_Marshal (st, nonce, S256Challenge verifier);
  ol_Exchange c code v e :=
    let r := handleToken demo_now (demo_form v) e.2 in ((e.1, r.1), Ok (tr_id_token r.2));
  ol_RawIDToken t := Some t;
  ol_Verify srv cid raw e := (e, match demo_verify srv cid raw with Some cl => Ok cl | None => Fail (errorf "invalid token") end);
  ol_Nonce cl := claim_string cl "nonce";
  ol_TokenIssuer cl := claim_string cl "iss";
  ol_Claims cl := Ok (demo_read cl);
  ol_UserInfo _ _ e := (e, Fail (errorf "no userinfo endpoint"));
  ol_UserInfoClaims _ := Fail (errorf "no userinfo endpoint")
}.

Lemma demo_verify_signed srv priv kid cid (cl : gmap string demo_any) exp :
  {| ok_PublicKey := priv; ok_KeyID := kid; ok_Algorithm := RS256 |} ∈ ot_PublicKeys srv ->
  cl !! "iss" = Some (inl (inl (ot_issuer srv))) -> cl !! "aud" = Some (inl (inl cid)) ->
  cl !! "exp" = Some (inl (inr exp)) -> demo_now < exp * second ->
  demo_verify srv cid (String "t" (count_Marshal (priv, count_Marshal cl))) = Some cl.
Proof.
  intros Hk Hi Ha He Hlt. unfold demo_verify. rewrite count_roundtrip. cbn [mbind option_bind snd fst]. rewrite count_roundtrip.
  cbn [mbind option_bind]. rewrite !bool_decide_eq_true_2 by done. rewrite He, (proj2 (Z.ltb_lt _ _) Hlt).
  rewrite (proj2 (existsb_exists _ _)); [done|]. eexists. split; [by apply list_elem_of_In|]. by apply String.eqb_eq.
Qed.

#[local] Instance demo_reaches : Reaches (Z * fakeidp_Provider) demo_now.
Proof.
  unshelve eapply Build_Reaches;
    [exact snd|exact (fun f e => (e.1, f e.2))|exact eq|exact demo_query|exact demo_form|exact (fun cl => Ok (demo_read cl))|..].
  all: try done.
  - intros c st nonce verifier. cbn. unfold demo_query. by rewrite count_roundtrip.
  - intros e. eexists. split; [|reflexivity]. cbn. by rewrite String.eqb_refl.
  - intros p c code v e _ _. by exists demo_now, (tr_id_token (handleToken demo_now (demo_form v) e.2).2).
  - intros p srv priv kid cid cl exp e -> Hk Hi Ha He Hlt. exists cl.
    pose proof (demo_verify_signed srv priv kid cid cl exp Hk Hi Ha He) as Hd.
    split; [apply (f_equal (fun o => match o with Some cl => Ok cl | None => Fail (errorf "invalid token") end) (Hd ltac:(unfold FlowTTL, minute, second in *; lia)))|].
    split; [by apply claim_string_of|]. split; [done|]. intros n. apply claim_string_of.
  - intros k v cl Hk. cbn. unfold demo_read, claim_string.
    repeat (apply elem_of_cons in Hk as [->|Hk]; [by rewrite !lookup_insert_ne by done|]). by apply not_elem_of_nil in Hk.
Defined.

(** Ada signs in; the administrators' group is among hers. *)
Definition ada_claims : gmap string demo_any :=
  {["sub" := inl (inl "user-123"); "name" := inl (inl "Ada Lovelace"); "groups" := inr ["users"; "ops"]]}.
Definition ada_idp : fakeidp_Provider :=
  {| pv_Server := {| ts_URL := "https://id";
       ts_oidc := {| ot_PublicKeys := [{| ok_PublicKey := "key"; ok_KeyID := "k1"; ok_Algorithm := RS256 |}]; ot_issuer := "https://id" |} |};
     pv_ClientID := "veery"; pv_Claims := ada_claims; pv_Nonce := ""; pv_Challenge := ""; pv_pkceOK := false;
     pv_priv := "key"; pv_keyID := "k1" |}.
Definition fake_world : World (Z * fakeidp_Provider) := mkWorld (1, ada_idp) empty_db (NewManager true true) [].

Lemma sign_in_completes_witness :
  wp (Start demo_manager {| os_provider := None; os_flows := ∅ |}) (fun o w1 => exists s1 url st,
    o = Ret (s1, Ok (url, st)) /\ url_query url "state" = st /\
    forall code, wp (Finish demo_manager st code s1) (fun o2 w2 => exists s2 ident, o2 = Ret (s2, Ok ident) /\
      identifies (idp (w_env fake_world)) (demo_read ada_claims) ident /\ PKCEOK (idp (w_env w2)) = true)
      (set_env w1 (at_idp (configured (url_query url)) (w_env w1)))) fake_world.
Proof.
  apply (sign_in_completes demo_now demo_manager (demo_read ada_claims) {| os_provider := None; os_flows := ∅ |} fake_world);
    [reflexivity|reflexivity|repeat constructor|discriminate|reflexivity|discriminate].
Defined.
