(* ===== verification/Disks.v ===== *)
(** * Disks and host metrics (src/internal/metrics: disks.go, build.go, host.go)

    Which mounts and devices exist, which the dashboard shows, their labels and
    throughput, and the CPU load. gopsutil, which reads the host, is
    [Gopsutil]; a [float64] is a [f64]. *)
From Stdlib Require Import SpecFloat.
From S2P Require Import Prelude GoStrings Regex Float64 Api Db Docker World StoreSettings Stateful.
Open Scope Z_scope.
Open Scope re_scope.

Record MountUsage := {
  mu_Mount : string;
  mu_Fstype : string;
  mu_Device : string;
  mu_Used : Z;
  mu_Total : Z;
  mu_Noise : bool
}.

Record DeviceIO := { io_Device : string; io_ReadPerSec : Z; io_WritePerSec : Z }.

Record DevicePeak := { pk_Read : Z; pk_Write : Z }.
Definition no_peak : DevicePeak := {| pk_Read := 0; pk_Write := 0 |}.

#[export] Instance DevicePeak_eq_dec : EqDecision DevicePeak.
Proof. solve_decision. Defined.

(** gopsutil's disk, cpu and mem packages. *)
Record Partition := { pt_Device : string; pt_Mountpoint : string; pt_Fstype : string }.
Record TimesStat := {
  ts_User : f64; ts_System : f64; ts_Nice : f64; ts_Iowait : f64; ts_Irq : f64; ts_Softirq : f64; ts_Steal : f64;
  ts_Idle : f64
}.
Class Gopsutil (E : Type) := {
  ps_Partitions : E -> E * result (list Partition);
  ps_Usage : string -> E -> E * result (Z * Z);              (* used, total *)
  ps_IOCounters : E -> E * result (gmap string (Z * Z));     (* bytes read, written *)
  ps_Times : E -> E * result (list TimesStat);
  ps_VirtualMemory : E -> E * result (Z * Z)                 (* used, total *)
}.

(** ** Mounts *)
Definition one_of (l : list string) (s : string) : bool := existsb (String.eqb s) l.

Definition pseudoFS : string -> bool := one_of
  ["proc"; "sysfs"; "tmpfs"; "devtmpfs"; "devpts"; "cgroup"; "cgroup2"; "mqueue"; "debugfs"; "tracefs";
   "securityfs"; "pstore"; "bpf"; "nsfs"; "fusectl"; "configfs"; "binfmt_misc"; "hugetlbfs"; "efivarfs"; "devfs"].

Definition networkOrVirtualFS : string -> bool := one_of
  ["nfs"; "nfs4"; "smbfs"; "cifs"; "afpfs"; "webdav"; "ftp"; "nullfs"; "overlay"; "autofs"; "squashfs"; "ramfs"; "9p"].

Definition excludeMountPrefixes : list string :=
  ["/System/Volumes"; "/Volumes/.timemachine"; "/private/var/folders"; "/dev"; "/proc"; "/sys"; "/run"; "/boot"].

Definition excludeMount (mount : string) : bool :=
  if HasSuffix mount ".backup" || Contains mount "com.apple.TimeMachine" || Contains mount ".localsnapshots" then true
  else existsb (fun p => String.eqb mount p || HasPrefix mount (p +:+ "/")) excludeMountPrefixes.

Definition isNoiseMount (mount fstype : string) : bool :=
  if networkOrVirtualFS fstype then true
  else if String.eqb mount "/Volumes" || HasPrefix mount "/Volumes/" then true
  else let lower := ToLower mount in Contains lower "backup" || Contains lower "time machine".

(** The largest first. *)
Definition by_total (a b : MountUsage) : bool := mu_Total b <? mu_Total a.

(** ** Devices *)
Definition partitionSuffix : re :=
  (((lit "sd" · Plus lower) ∥ (lit "vd" · Plus lower) ∥ (lit "hd" · Plus lower) ∥ (lit "xvd" · Plus lower))
     · Plus digit · Eot)
  ∥ (((lit "nvme" · Plus digit · lit "n" · Plus digit) ∥ (lit "mmcblk" · Plus digit) ∥ (lit "loop" · Plus digit))
     · lit "p" · Plus digit · Eot).

Definition isWholeDisk (name : string) : bool :=
  match match_here partitionSuffix name with Some _ => false | None => true end.

Definition partitionToWhole : list re :=
  [Grp 1 ((Plus lower · lit "vd" · Plus lower) ∥ (lit "sd" · Plus lower) ∥ (lit "vd" · Plus lower) ∥ (lit "hd" · Plus lower))
     · Plus digit · Eot;
   Grp 1 (lit "nvme" · Plus digit · lit "n" · Plus digit) · lit "p" · Plus digit · Eot;
   Grp 1 (lit "mmcblk" · Plus digit) · lit "p" · Plus digit · Eot].

Definition wholeDiskOf (device : string) : string :=
  let name := Base (TrimPrefix device "/dev/") in
  let fix go rs :=
    match rs with
    | [] => name
    | r :: rs' => match match_here r name with Some m => group 1 m | None => go rs' end
    end in
  go partitionToWhole.

Definition MountKey (mount : string) : string := "mount:" +:+ mount.
Definition DeviceKey (device : string) : string := "dev:" +:+ device.
Definition deviceLabel (name : string) : string := Base name.

(** [mountLabel] (build.go) *)
Definition mountLabel (mount : string) : string :=
  if String.eqb mount "/" then "Main disk"
  else
    let seg := match LastIndexByte (trim_right (Ascii.eqb "/") mount) "/" with
               | Some i => str_drop (S i) mount
               | None => mount
               end in
    match TrimSpace seg with
    | EmptyString => "Disk"
    | String c rest => ToUpper_byte c +:+ rest +:+ " disk"
    end.

(** [deviceLabels]: the labels by whole device, each label once. *)
Definition label_step (acc : gset string * gmap string (list string)) (m : MountUsage) :
    gset string * gmap string (list string) :=
  let '(seen, byDevice) := acc in
  if String.eqb (mu_Device m) "" then acc
  else
    let whole := wholeDiskOf (mu_Device m) in
    let label := mountLabel (mu_Mount m) in
    let k := whole +:+ String "000" label in
    if decide (k ∈ seen) then acc
    else ({[k]} ∪ seen, <[whole := default [] (byDevice !! whole) ++ [label]]> byDevice).

Definition deviceLabels (mounts : list MountUsage) (devices : list DeviceIO) : gmap string string :=
  let byDevice := (fold_left label_step mounts (∅, ∅)).2 in
  fold_left (fun out d =>
    match default [] (byDevice !! io_Device d) with
    | [] => out
    | names => <[io_Device d := Join names ", "]> out
    end) devices ∅.

(** ** Visibility *)
Definition largest_mount (m : MountUsage) (ms : list MountUsage) : MountUsage :=
  fold_left (fun largest m => if mu_Total largest <? mu_Total m then m else largest) ms m.

Definition DefaultVisibility (mounts : list MountUsage) (devices : list DeviceIO) : gmap string bool :=
  let def := fold_left (fun d m => <[MountKey (mu_Mount m) := negb (mu_Noise m)]> d) mounts (∅ : gmap string bool) in
  let anyMountShown := existsb (fun m => negb (mu_Noise m)) mounts in
  let def := match mounts with
             | m :: ms => if negb anyMountShown then <[MountKey (mu_Mount (largest_mount m ms)) := true]> def else def
             | [] => def
             end in
  fold_left (fun d io => <[DeviceKey (io_Device io) := true]> d) devices def.

Definition Effective (defaults overrides : gmap string bool) : gmap string bool :=
  map_imap (fun k v => Some (default v (overrides !! k))) defaults.

(** ** The dashboard *)
Definition maxDisks : nat := 12.

Record Sample := {
  sa_CPUPercent : f64;
  sa_MemUsed : Z;
  sa_MemTotal : Z;
  sa_Mounts : list MountUsage;
  sa_Devices : list DeviceIO
}.

(** The capacity gauges of [BuildHostMetrics]. *)
Definition gauges (eff : gmap string bool) (mounts : list MountUsage) : list DiskUsage :=
  let shown := List.filter (fun m => map_bool eff (MountKey (mu_Mount m))) mounts in
  let disks := map (fun m => {| du_Key := MountKey (mu_Mount m); du_Mount := mu_Mount m;
                                du_Used := mu_Used m; du_Total := mu_Total m |}) shown in
  let sorted := sort_slice (fun a b => du_Total b <? du_Total a) disks in
  if (maxDisks <? length sorted)%nat then firstn maxDisks sorted else sorted.

Definition BuildHostMetrics (s : Sample) (overrides : gmap string bool) (peaks : gmap string DevicePeak) :
    HostMetrics :=
  let eff := Effective (DefaultVisibility (sa_Mounts s) (sa_Devices s)) overrides in
  let labels := deviceLabels (sa_Mounts s) (sa_Devices s) in
  {| hm_CPUPercent := sa_CPUPercent s; hm_MemUsed := sa_MemUsed s; hm_MemTotal := sa_MemTotal s;
     hm_Disks := gauges eff (sa_Mounts s);
     hm_DiskActivity :=
       map (fun d =>
         let p := default no_peak (peaks !! io_Device d) in
         {| da_Key := DeviceKey (io_Device d); da_Device := deviceLabel (io_Device d);
            da_Label := default "" (labels !! io_Device d);
            da_ReadBytesPerSec := io_ReadPerSec d; da_WriteBytesPerSec := io_WritePerSec d;
            da_ReadPeakBytesPerSec := pk_Read p; da_WritePeakBytesPerSec := pk_Write p |})
         (List.filter (fun d => map_bool eff (DeviceKey (io_Device d))) (sa_Devices s));
     hm_Mdadm := [] |}.

(** [UpdatePeaks]: the map afterwards, and whether anything changed. *)
Definition peak_step (acc : gmap string DevicePeak * bool) (d : DeviceIO) : gmap string DevicePeak * bool :=
  let p := default no_peak (acc.1 !! io_Device d) in
  let r := pk_Read p <? io_ReadPerSec d in
  let wr := pk_Write p <? io_WritePerSec d in
  (<[io_Device d := {| pk_Read := if r then io_ReadPerSec d else pk_Read p;
                       pk_Write := if wr then io_WritePerSec d else pk_Write p |}]> acc.1,
   acc.2 || r || wr).

Definition UpdatePeaks (peaks : gmap string DevicePeak) (devices : list DeviceIO) : gmap string DevicePeak * bool :=
  fold_left peak_step devices (peaks, false).

Definition BuildDiskItems (mounts : list MountUsage) (devices : list DeviceIO) (overrides : gmap string bool) :
    list DiskItem :=
  let defaults := DefaultVisibility mounts devices in
  let eff := Effective defaults overrides in
  let labels := deviceLabels mounts devices in
  map (fun m =>
    let key := MountKey (mu_Mount m) in
    {| di_Key := key; di_Kind := DiskCapacity; di_Label := mountLabel (mu_Mount m);
       di_Detail := if negb (String.eqb (mu_Fstype m) "") then mu_Mount m +:+ " · " +:+ mu_Fstype m else mu_Mount m;
       di_Shown := map_bool eff key; di_DefaultShown := map_bool defaults key |}) mounts
  ++ map (fun d =>
    let key := DeviceKey (io_Device d) in
    let v := default "" (labels !! io_Device d) in
    {| di_Key := key; di_Kind := DiskActivityKind; di_Label := deviceLabel (io_Device d);
       di_Detail := if negb (String.eqb v "") then v else "Read / write activity";
       di_Shown := map_bool eff key; di_DefaultShown := map_bool defaults key |}) devices.

(** ** Reading the host *)
Record devSample := { ds_read : Z; ds_write : Z; ds_at : Z }.

Record Collector := {
  co_lastCPUTotal : f64;
  co_lastCPUBusy : f64;
  co_haveCPU : bool;
  co_lastDev : gmap string devSample
}.

(** [New] (host.go) *)
Definition NewCollector : Collector :=
  {| co_lastCPUTotal := f64_zero; co_lastCPUBusy := f64_zero; co_haveCPU := false; co_lastDev := ∅ |}.

Section Read.
Context {E : Type} `{!Env E} `{!Gopsutil E} `{!Arch}.

(** One partition of [enumerateMounts]: [seenMount], [seenDevice] and [out]. *)
Definition mount_step (acc : gset string * gset string * list MountUsage) (p : Partition) :
    M E (gset string * gset string * list MountUsage) :=
  let '(seenMount, seenDevice, out) := acc in
  if pseudoFS (pt_Fstype p) || HasPrefix (pt_Fstype p) "fuse." then mret acc
  else if excludeMount (pt_Mountpoint p) then mret acc
  else if decide (pt_Mountpoint p ∈ seenMount) then mret acc
  else if negb (String.eqb (pt_Device p) "") && bool_decide (pt_Device p ∈ seenDevice) then mret acc
  else
    u ← call (ps_Usage (pt_Mountpoint p)) (fun _ => []);
    match u with
    | Fail _ => mret acc
    | Ok (used, total) =>
        if total =? 0 then mret acc
        else
          mret ({[pt_Mountpoint p]} ∪ seenMount,
                (if negb (String.eqb (pt_Device p) "") then {[pt_Device p]} ∪ seenDevice else seenDevice),
                out ++ [{| mu_Mount := pt_Mountpoint p; mu_Fstype := pt_Fstype p; mu_Device := pt_Device p;
                           mu_Used := used; mu_Total := total;
                           mu_Noise := isNoiseMount (pt_Mountpoint p) (pt_Fstype p) |}])
    end.

Definition enumerateMounts : M E (list MountUsage) :=
  r ← call ps_Partitions (fun _ => []);
  match r with
  | Fail _ => mret []
  | Ok parts =>
      acc ← for_fold parts mount_step (∅, ∅, []);
      mret (sort_slice by_total acc.2)
  end.

Definition listDeviceNames : M E (list string) :=
  r ← call ps_IOCounters (fun _ => []);
  match r with
  | Fail _ => mret []
  | Ok counters => mret (sort_slice str_lt (List.filter isWholeDisk (map_to_list counters).*1))
  end.

(** [Enumerate] (host.go) *)
Definition Enumerate : M E (list MountUsage * list DeviceIO) :=
  mounts ← enumerateMounts;
  names ← listDeviceNames;
  mret (mounts, map (fun n => {| io_Device := n; io_ReadPerSec := 0; io_WritePerSec := 0 |}) names).

(** [uint64(float64(delta) / secs)], for a time in nanoseconds. *)
Definition rate (delta dt : Z) : Z := f64_to_uint64 (f64_div (f64_of_Z delta) (Seconds dt)).

(** One device of [deviceIO]: [c.lastDev] and [out]. *)
Definition device_step (counters : gmap string (Z * Z)) (now : Z) (acc : gmap string devSample * list DeviceIO)
    (name : string) : gmap string devSample * list DeviceIO :=
  match counters !! name with
  | None => acc
  | Some (rd, wr) =>
      let d := match acc.1 !! name with
               | Some prev =>
                   let dt := now - ds_at prev in
                   {| io_Device := name;
                      io_ReadPerSec := if (0 <? dt) && (ds_read prev <=? rd) then rate (rd - ds_read prev) dt else 0;
                      io_WritePerSec := if (0 <? dt) && (ds_write prev <=? wr) then rate (wr - ds_write prev) dt else 0 |}
               | None => {| io_Device := name; io_ReadPerSec := 0; io_WritePerSec := 0 |}
               end in
      (<[name := {| ds_read := rd; ds_write := wr; ds_at := now |}]> acc.1, acc.2 ++ [d])
  end.

(** [deviceIO] (host.go) *)
Definition deviceIO : SM Collector E (list DeviceIO) :=
  r ← lift (call ps_IOCounters (fun _ => []));
  match r with
  | Fail _ => mret []
  | Ok counters =>
      now ← lift Now;
      names ← lift listDeviceNames;
      c ← state;
      let '(lastDev, out) := fold_left (device_step counters now) names (co_lastDev c, []) in
      _ ← put_state {| co_lastCPUTotal := co_lastCPUTotal c; co_lastCPUBusy := co_lastCPUBusy c;
                       co_haveCPU := co_haveCPU c; co_lastDev := lastDev |};
      mret out
  end.

(** [cpuPercent] *)
Definition cpuPercent : SM Collector E f64 :=
  r ← lift (call ps_Times (fun _ => []));
  match r with
  | Fail _ | Ok [] => mret f64_zero
  | Ok (t :: _) =>
      let busy := f64_add (f64_add (f64_add (f64_add (f64_add (f64_add (ts_User t) (ts_System t)) (ts_Nice t))
                    (ts_Iowait t)) (ts_Irq t)) (ts_Softirq t)) (ts_Steal t) in
      let total := f64_add busy (ts_Idle t) in
      c ← state;
      _ ← put_state {| co_lastCPUTotal := total; co_lastCPUBusy := busy; co_haveCPU := true;
                       co_lastDev := co_lastDev c |};
      if negb (co_haveCPU c) then mret f64_zero
      else
        let totalDelta := f64_sub total (co_lastCPUTotal c) in
        let busyDelta := f64_sub busy (co_lastCPUBusy c) in
        if SFleb totalDelta f64_zero then mret f64_zero
        else
          let pct := f64_mul (f64_div busyDelta totalDelta) (f64_of_Z 100) in
          if SFltb pct f64_zero then mret f64_zero
          else if SFltb (f64_of_Z 100) pct then mret (f64_of_Z 100)
          else mret pct
  end.

(** [Sample] (host.go) *)
Definition Collector_Sample : SM Collector E Sample :=
  pct ← cpuPercent;
  vm ← lift (call ps_VirtualMemory (fun _ => []));
  let mem := match vm with Ok m => m | Fail _ => (0, 0) end in
  mounts ← lift enumerateMounts;
  devices ← deviceIO;
  mret {| sa_CPUPercent := pct; sa_MemUsed := mem.1; sa_MemTotal := mem.2; sa_Mounts := mounts; sa_Devices := devices |}.
End Read.

(** ** The peaks in the store (src/internal/store/settings.go) *)
Definition keyDiskPeaks : string := "disk_io_peaks".

Section StoredPeaks.
Context {E : Type} `{!Env E} `{!JsonCodec (gmap string DevicePeak)}.

Definition LoadDiskPeaks : M E (result (gmap string DevicePeak)) := loadJSON keyDiskPeaks ∅.
Definition SaveDiskPeaks (peaks : gmap string DevicePeak) : M E (result unit) := setJSON keyDiskPeaks peaks.
End StoredPeaks.

Example whole_disks :
  map wholeDiskOf ["/dev/sda2"; "/dev/sda"; "/dev/nvme0n1p1"; "/dev/nvme0n1"; "/dev/mmcblk0p2"; "/dev/vdb3";
                   "/dev/disk3s1s1"; "OrbStack:/OrbStack"]
  = ["sda"; "sda"; "nvme0n1"; "nvme0n1"; "mmcblk0"; "vdb"; "disk3s1s1"; "OrbStack"].
Proof. vm_compute. reflexivity. Qed.

(** ** The gauges *)
Definition gauge_of (m : MountUsage) : DiskUsage :=
  {| du_Key := MountKey (mu_Mount m); du_Mount := mu_Mount m; du_Used := mu_Used m; du_Total := mu_Total m |}.

Lemma firstn_sorted {A} (R : A -> A -> Prop) n l : StronglySorted R l -> StronglySorted R (firstn n l).
Proof.
  revert n. induction l as [|x l IH]; intros [|n] H; simpl; try constructor; inversion H; subst; [by apply IH|].
  by apply Forall_take.
Qed.

Lemma sorted_split {A} (R : A -> A -> Prop) l1 l2 a b : StronglySorted R (l1 ++ l2) -> a ∈ l1 -> b ∈ l2 -> R a b.
Proof.
  induction l1 as [|x l1 IH]; intros H Ha Hb; [by apply not_elem_of_nil in Ha|]. simpl in H. inversion H as [|? ? H1 H2]; subst.
  apply elem_of_cons in Ha as [->|Ha]; [|by apply IH]. rewrite Forall_forall in H2. apply H2. set_solver.
Qed.

Lemma gauges_length eff mounts : (length (gauges eff mounts) <= maxDisks)%nat.
Proof.
  unfold gauges. destruct (_ <? _)%nat eqn:El; [apply firstn_le_length|]. by apply Nat.ltb_ge in El.
Qed.

(** The dashboard shows at most twelve capacity gauges, the largest first: each
    is a mount of the sample that the settings leave shown, none is smaller than
    a shown mount that was left out, and while at most twelve mounts are shown
    none is left out. *)
Theorem gauges_bounded (s : Sample) overrides peaks :
  let eff := Effective (DefaultVisibility (sa_Mounts s) (sa_Devices s)) overrides in
  let shown := List.filter (fun m => map_bool eff (MountKey (mu_Mount m))) (sa_Mounts s) in
  let disks := hm_Disks (BuildHostMetrics s overrides peaks) in
  (length disks <= 12)%nat /\
  StronglySorted (fun a b => du_Total b <= du_Total a) disks /\
  (exists rest, map gauge_of shown ≡ₚ disks ++ rest /\ forall a b, a ∈ disks -> b ∈ rest -> du_Total b <= du_Total a) /\
  ((length shown <= 12)%nat -> disks ≡ₚ map gauge_of shown).
Proof.
  intros eff shown disks. set (sorted := sort_slice (fun a b => du_Total b <? du_Total a) (map gauge_of shown)).
  assert (disks = firstn maxDisks sorted) as Hd.
  { unfold disks, BuildHostMetrics. cbn [hm_Disks]. unfold gauges. fold eff. fold shown. fold gauge_of.
    change (map _ shown) with (map gauge_of shown). fold sorted.
    destruct (maxDisks <? length sorted)%nat eqn:El; [done|]. apply Nat.ltb_ge in El. by rewrite firstn_all2. }
  assert (StronglySorted (fun a b => du_Total b <= du_Total a) sorted) as Hs.
  { assert (StronglySorted (fun a b => (du_Total a <? du_Total b) = false) sorted) as H.
    { apply (sort_slice_sorted (fun a b => du_Total b <? du_Total a)); intros *; rewrite ?Z.ltb_ge; lia. }
    clear -H. induction H as [|x l H IH Hx]; constructor; [done|]. eapply Forall_impl; [exact Hx|]. simpl. intros y Hy. lia. }
  rewrite Hd. split; [apply firstn_le_length|]. split; [by apply firstn_sorted|]. split.
  - exists (skipn maxDisks sorted). rewrite firstn_skipn. split; [symmetry; apply sort_slice_perm|].
    intros a b Ha Hb. rewrite <- (firstn_skipn maxDisks sorted) in Hs.
    by apply (sorted_split _ _ _ a b Hs).
  - intros Hl. rewrite firstn_all2; [apply sort_slice_perm|]. unfold sorted. rewrite sort_slice_length, length_map. exact Hl.
Qed.

(** ** Visibility *)
Lemma fold_flag_lookup {A} (key : A -> string) (val : A -> bool) l (m : gmap string bool) k b :
  fold_left (fun d x => <[key x := val x]> d) l m !! k = Some b ->
  m !! k = Some b \/ exists x, x ∈ l /\ key x = k /\ val x = b.
Proof.
  revert m. induction l as [|x l IH]; intros m; cbn [fold_left]; [by left|]. intros [Hm|(y & Hy & ?)]%IH.
  - apply lookup_insert_Some in Hm as [[<- <-]|[_ Hm]]; [right; exists x; split; [left|done]|by left].
  - right. exists y. split; [by right|done].
Qed.

Lemma fold_insert_dom {A} (key : A -> string) (val : A -> bool) l (m : gmap string bool) k :
  is_Some (fold_left (fun d x => <[key x := val x]> d) l m !! k) <-> is_Some (m !! k) \/ k ∈ map key l.
Proof.
  revert m. induction l as [|x l IH]; intros m; cbn [fold_left map].
  - rewrite elem_of_nil. tauto.
  - rewrite IH, lookup_insert_is_Some', elem_of_cons. naive_solver.
Qed.

Lemma fold_insert_other {A} (key : A -> string) (val : A -> bool) l (m : gmap string bool) k :
  k ∉ map key l -> fold_left (fun d x => <[key x := val x]> d) l m !! k = m !! k.
Proof.
  revert m. induction l as [|x l IH]; intros m Hk; cbn [fold_left]; [done|]. cbn [map] in Hk.
  apply not_elem_of_cons in Hk as [Hx Hl]. rewrite IH by done. by apply lookup_insert_ne.
Qed.

Lemma fold_insert_const {A} (key : A -> string) b l (m : gmap string bool) k :
  k ∈ map key l -> fold_left (fun d x => <[key x := b]> d) l m !! k = Some b.
Proof.
  revert m. induction l as [|x l IH]; intros m Hk; cbn [fold_left map] in *; [by apply not_elem_of_nil in Hk|].
  destruct (decide (k ∈ map key l)) as [Hl|Hl]; [by apply IH|]. apply elem_of_cons in Hk as [->|]; [|done].
  rewrite (fold_insert_other key (fun _ => b)) by done. apply lookup_insert_eq.
Qed.

Lemma elem_of_map {A B} (f : A -> B) l y : y ∈ map f l <-> exists x, x ∈ l /\ f x = y.
Proof. rewrite list_elem_of_In, in_map_iff. setoid_rewrite list_elem_of_In. naive_solver. Qed.

Lemma MountKey_DeviceKey m d : MountKey m <> DeviceKey d.
Proof. unfold MountKey, DeviceKey. simpl. congruence. Qed.

Lemma Effective_lookup defaults overrides k :
  Effective defaults overrides !! k = (fun v => default v (overrides !! k)) <$> defaults !! k.
Proof. unfold Effective. rewrite map_lookup_imap. by destruct (defaults !! k). Qed.

Lemma MountKey_not_device mount (devices : list DeviceIO) :
  MountKey mount ∉ map (fun io => DeviceKey (io_Device io)) devices.
Proof. intros (d & _ & Hd)%elem_of_map. by apply (MountKey_DeviceKey mount (io_Device d)). Qed.

Lemma largest_mount_in m ms : largest_mount m ms ∈ m :: ms.
Proof.
  unfold largest_mount. revert m. induction ms as [|x ms IH]; intros m; cbn [fold_left]; [left|].
  specialize (IH (if mu_Total m <? mu_Total x then x else m)).
  destruct (mu_Total m <? mu_Total x); set_solver.
Qed.

(** The mounts' part of the defaults. *)
Lemma default_mounts_dom mounts devices k :
  is_Some (DefaultVisibility mounts devices !! k) <->
  k ∈ map (fun m => MountKey (mu_Mount m)) mounts \/ k ∈ map (fun d => DeviceKey (io_Device d)) devices.
Proof.
  unfold DefaultVisibility. cbv zeta. rewrite (fold_insert_dom (fun io => DeviceKey (io_Device io)) (fun _ => true)).
  apply or_iff_compat_r.
  assert (forall m0 : gmap string bool, is_Some (fold_left (fun d m => <[MountKey (mu_Mount m) := negb (mu_Noise m)]> d) mounts m0 !! k)
     <-> is_Some (m0 !! k) \/ k ∈ map (fun m => MountKey (mu_Mount m)) mounts) as Hm.
  { intros m0. apply (fold_insert_dom (fun m => MountKey (mu_Mount m)) (fun m => negb (mu_Noise m))). }
  destruct mounts as [|m ms]; [rewrite Hm, lookup_empty, is_Some_alt; naive_solver|].
  destruct (negb (existsb _ (m :: ms))); rewrite ?lookup_insert_is_Some', Hm, lookup_empty, (is_Some_alt (@None bool)).
  - split; [|naive_solver]. intros [<-|[[]|?]]; [|done]. apply elem_of_map. eexists. split; [apply largest_mount_in|done].
  - naive_solver.
Qed.

(** The default of a mount, before the devices are entered. *)
Lemma fold_insert_NoDup {A} (key : A -> string) (val : A -> bool) l (m : gmap string bool) x :
  NoDup (map key l) -> x ∈ l -> fold_left (fun d x => <[key x := val x]> d) l m !! key x = Some (val x).
Proof.
  revert m. induction l as [|y l IH]; intros m Hn Hx; cbn [fold_left map] in *; [by apply not_elem_of_nil in Hx|].
  apply NoDup_cons in Hn as [Hy Hn]. apply elem_of_cons in Hx as [->|Hx]; [|by apply IH].
  rewrite (fold_insert_other key val) by done. apply lookup_insert_eq.
Qed.

Lemma NoDup_mount_keys mounts : NoDup (map mu_Mount mounts) -> NoDup (map (fun m => MountKey (mu_Mount m)) mounts).
Proof.
  intros H. replace (map (fun m => MountKey (mu_Mount m)) mounts) with (MountKey <$> map mu_Mount mounts)
    by (apply map_map). apply NoDup_fmap_2; [|done]. intros a b. unfold MountKey. simpl. congruence.
Qed.

Lemma default_device (mounts : list MountUsage) (devices : list DeviceIO) d :
  d ∈ devices -> DefaultVisibility mounts devices !! DeviceKey (io_Device d) = Some true.
Proof.
  intros Hd. unfold DefaultVisibility. cbv zeta. apply (fold_insert_const (fun io => DeviceKey (io_Device io)) true).
  apply elem_of_map. by exists d.
Qed.

Definition largest_of (mounts : list MountUsage) : option MountUsage :=
  match mounts with [] => None | m :: ms => Some (largest_mount m ms) end.

Lemma default_mount mounts devices m :
  NoDup (map mu_Mount mounts) -> m ∈ mounts ->
  DefaultVisibility mounts devices !! MountKey (mu_Mount m) =
  Some (if existsb (fun m => negb (mu_Noise m)) mounts then negb (mu_Noise m)
        else match largest_of mounts with Some l => String.eqb (mu_Mount m) (mu_Mount l) | None => false end).
Proof.
  intros Hn%NoDup_mount_keys Hm. unfold DefaultVisibility. cbv zeta.
  rewrite (fold_insert_other (fun io => DeviceKey (io_Device io)) (fun _ => true)) by apply MountKey_not_device.
  destruct mounts as [|m0 ms]; [by apply not_elem_of_nil in Hm|].
  pose proof (fold_insert_NoDup (fun m => MountKey (mu_Mount m)) (fun m => negb (mu_Noise m)) (m0 :: ms) ∅ m Hn Hm) as Hb.
  cbn beta in Hb. destruct (existsb _ (m0 :: ms)) eqn:Hx; cbn [negb]; [exact Hb|]. cbn [largest_of].
  destruct (String.eqb_spec (mu_Mount m) (mu_Mount (largest_mount m0 ms))) as [->|Hne]; [by rewrite lookup_insert_eq|].
  rewrite lookup_insert_ne by (unfold MountKey; simpl; congruence). rewrite Hb. f_equal.
  rewrite <- not_true_iff_false in Hx |- *. intros Hm'. apply Hx. apply existsb_exists. exists m.
  split; [by apply list_elem_of_In|done].
Qed.

Lemma default_some_mount mounts devices :
  NoDup (map mu_Mount mounts) -> mounts <> [] ->
  exists m, m ∈ mounts /\ DefaultVisibility mounts devices !! MountKey (mu_Mount m) = Some true.
Proof.
  intros Hn Hne. destruct (existsb (fun m => negb (mu_Noise m)) mounts) eqn:Hx.
  - pose proof Hx as (m & Hm%list_elem_of_In & Hs)%existsb_exists. exists m. split; [done|].
    rewrite default_mount by done. by rewrite Hx, Hs.
  - destruct mounts as [|m0 ms]; [done|]. pose proof (largest_mount_in m0 ms) as Hl.
    exists (largest_mount m0 ms). split; [done|]. rewrite default_mount by done. rewrite Hx. cbn [largest_of].
    by rewrite String.eqb_refl.
Qed.

(** The settings say what is shown and nothing else: a key is listed exactly if
    it is one of the sample's mounts or devices; the user's choice wins where
    there is one, and where there is none the default stands; by default every
    device is shown, and of the mounts those that are not noise, or, if all of
    them are noise, the largest alone. So as long as there is a mount, some
    mount is shown by default. *)
Theorem visibility_spec mounts devices overrides (Hn : NoDup (map mu_Mount mounts)) :
  let def := DefaultVisibility mounts devices in
  let eff := Effective def overrides in
  (forall k, is_Some (eff !! k) <-> k ∈ map (fun m => MountKey (mu_Mount m)) mounts
                                  \/ k ∈ map (fun d => DeviceKey (io_Device d)) devices) /\
  (forall k, is_Some (eff !! k) -> eff !! k = match overrides !! k with Some b => Some b | None => def !! k end) /\
  (forall d, d ∈ devices -> def !! DeviceKey (io_Device d) = Some true) /\
  (forall m, m ∈ mounts -> def !! MountKey (mu_Mount m) =
     Some (if existsb (fun m => negb (mu_Noise m)) mounts then negb (mu_Noise m)
           else match largest_of mounts with Some l => String.eqb (mu_Mount m) (mu_Mount l) | None => false end)) /\
  (mounts <> [] -> exists m, m ∈ mounts /\ def !! MountKey (mu_Mount m) = Some true).
Proof.
  intros def eff. split; [|split; [|split; [|split]]].
  - intros k. rewrite <- default_mounts_dom. unfold eff. rewrite Effective_lookup. unfold def. by rewrite fmap_is_Some.
  - intros k. unfold eff. rewrite Effective_lookup. destruct (def !! k); [|by intros [? ?]]. by destruct (overrides !! k).
  - apply default_device.
  - intros m. by apply default_mount.
  - by apply default_some_mount.
Qed.

Definition two_noisy_mounts : list MountUsage :=
  [{| mu_Mount := "/Volumes/a"; mu_Fstype := "apfs"; mu_Device := "/dev/disk1"; mu_Used := 1; mu_Total := 5; mu_Noise := true |};
   {| mu_Mount := "/Volumes/b"; mu_Fstype := "apfs"; mu_Device := "/dev/disk2"; mu_Used := 1; mu_Total := 9; mu_Noise := true |}].

Lemma visibility_spec_witness :
  DefaultVisibility two_noisy_mounts [] !! MountKey "/Volumes/b" = Some true /\
  DefaultVisibility two_noisy_mounts [] !! MountKey "/Volumes/a" = Some false.
Proof.
  assert (NoDup (map mu_Mount two_noisy_mounts)) as Hn by (repeat constructor; set_solver).
  destruct (visibility_spec two_noisy_mounts [] ∅ Hn) as (_ & _ & _ & H & _).
  split; [apply (H (nth 1 two_noisy_mounts (nth 0 two_noisy_mounts
     {| mu_Mount := ""; mu_Fstype := ""; mu_Device := ""; mu_Used := 0; mu_Total := 0; mu_Noise := true |})))
        |apply (H (nth 0 two_noisy_mounts
     {| mu_Mount := ""; mu_Fstype := ""; mu_Device := ""; mu_Used := 0; mu_Total := 0; mu_Noise := true |}))];
  unfold two_noisy_mounts; simpl; set_solver.
Defined.

(** ** Peaks *)
Definition covers (p : gmap string DevicePeak) (d : DeviceIO) : Prop :=
  exists q, p !! io_Device d = Some q /\ io_ReadPerSec d <= pk_Read q /\ io_WritePerSec d <= pk_Write q.

Definition peak_le (p q : DevicePeak) : Prop := pk_Read p <= pk_Read q /\ pk_Write p <= pk_Write q.

Definition peaks_le (p q : gmap string DevicePeak) : Prop :=
  forall k a, p !! k = Some a -> exists b, q !! k = Some b /\ peak_le a b.

#[local] Instance peaks_le_preorder : PreOrder peaks_le.
Proof.
  split; [intros p k a H; exists a; split; [done|split; lia]|].
  intros p q r Hpq Hqr k a (b & (c & Hc & Hbc)%Hqr & Hab)%Hpq. exists c. split; [done|].
  destruct Hab, Hbc. split; lia.
Qed.

Lemma peak_step_grows acc d : peaks_le acc.1 (peak_step acc d).1.
Proof.
  intros k a Ha. unfold peak_step. cbn [fst]. destruct (decide (io_Device d = k)) as [<-|Hne].
  - rewrite lookup_insert_eq, Ha. cbn [from_option]. unfold id. eexists. split; [done|]. unfold peak_le. cbn [pk_Read pk_Write].
    cbn [from_option id]. repeat case_match; lia.
  - rewrite lookup_insert_ne by done. exists a. split; [done|]. split; lia.
Qed.

Lemma peak_step_covers acc d : covers (peak_step acc d).1 d.
Proof.
  unfold covers, peak_step. cbn [fst]. rewrite lookup_insert_eq. eexists. split; [done|]. cbn [pk_Read pk_Write].
  repeat case_match; lia.
Qed.

Lemma covers_grows p q d : peaks_le p q -> covers p d -> covers q d.
Proof. intros Hpq (a & (b & Hb & Hab)%Hpq & ? & ?). exists b. destruct Hab. split; [done|lia]. Qed.

Lemma peaks_fold_grows devices acc : peaks_le acc.1 (fold_left peak_step devices acc).1.
Proof.
  revert acc. induction devices as [|d l IH]; intros acc; cbn [fold_left]; [done|].
  etrans; [apply (peak_step_grows acc d)|apply IH].
Qed.

(** What was not raised was covered already. *)
Lemma peaks_unchanged devices acc :
  (fold_left peak_step devices acc).2 = false ->
  acc.2 = false /\ forall k, (fold_left peak_step devices acc).1 !! k =
    match acc.1 !! k with
    | Some a => Some a
    | None => if bool_decide (k ∈ map io_Device devices) then Some no_peak else None
    end.
Proof.
  revert acc. induction devices as [|d l IH]; intros acc H; cbn [fold_left] in *.
  - split; [done|]. intros k. by destruct (acc.1 !! k).
  - apply IH in H as [H2 H]. unfold peak_step in H2. cbn [snd] in H2.
    apply orb_false_iff in H2 as [[H2 Hr]%orb_false_iff Hw]. split; [done|]. intros k. rewrite H. clear H IH.
    unfold peak_step. cbn [fst]. rewrite Hr, Hw. destruct (decide (io_Device d = k)) as [<-|Hne].
    + rewrite lookup_insert_eq. destruct (acc.1 !! io_Device d) as [[a b]|]; [done|]. cbn [from_option].
      rewrite bool_decide_eq_true_2; [done|left].
    + rewrite lookup_insert_ne by done. destruct (acc.1 !! k); [done|]. cbn [map].
      destruct (decide (k ∈ map io_Device l)) as [Hk|Hk].
      * rewrite !bool_decide_eq_true_2; [done|by right|done].
      * rewrite !bool_decide_eq_false_2; [done| |done]. intros [->|?]%elem_of_cons; done.
Qed.

(** The peaks only rise: after [UpdatePeaks] every peak is at least what it was
    and every device is within its own; and when it reports no change, nothing
    the settings would save has changed, no peak of a known device and no new
    device but one at rest. *)
Theorem UpdatePeaks_spec peaks devices :
  let '(peaks', changed) := UpdatePeaks peaks devices in
  peaks_le peaks peaks' /\
  (forall d, d ∈ devices -> covers peaks' d) /\
  (changed = false -> forall k, peaks' !! k =
     match peaks !! k with
     | Some a => Some a
     | None => if bool_decide (k ∈ map io_Device devices) then Some no_peak else None
     end).
Proof.
  unfold UpdatePeaks. destruct (fold_left _ _ _) as [peaks' changed] eqn:H.
  change peaks' with (peaks', changed).1 at 1 2 3. rewrite <- H. split; [|split].
  - apply (peaks_fold_grows devices (peaks, false)).
  - intros d Hd. clear H. generalize (peaks, false) as acc. induction devices as [|x l IH]; intros acc; [by apply not_elem_of_nil in Hd|].
    cbn [fold_left]. apply elem_of_cons in Hd as [->|Hd]; [|by apply IH].
    eapply covers_grows; [apply peaks_fold_grows|apply peak_step_covers].
  - intros ->. assert ((fold_left peak_step devices (peaks, false)).2 = false) as H2 by (by rewrite H).
    apply peaks_unchanged in H2 as [_ H2]. done.
Qed.

(** ** The mounts that are read *)
Section Read.
Context {E : Type} `{!Env E} `{!Gopsutil E}.

(** A mount worth listing. *)
Definition mount_ok (m : MountUsage) : Prop :=
  pseudoFS (mu_Fstype m) = false /\ excludeMount (mu_Mount m) = false /\ mu_Total m <> 0 /\
  mu_Noise m = isNoiseMount (mu_Mount m) (mu_Fstype m).

Definition devices_of (ms : list MountUsage) : list string :=
  List.filter (fun d => negb (String.eqb d "")) (map mu_Device ms).

#[local] Instance devices_of_perm : Proper ((≡ₚ) ==> (≡ₚ)) devices_of.
Proof.
  intros l1 l2 H%(Permutation_map mu_Device). unfold devices_of.
  induction H; simpl; repeat case_match; try done; [by constructor|by constructor|by etrans].
Qed.

(** What holds of [seenMount], [seenDevice] and [out]. *)
Definition mounts_wf (acc : gset string * gset string * list MountUsage) : Prop :=
  let '(seenMount, seenDevice, out) := acc in
  (forall x, x ∈ map mu_Mount out -> x ∈ seenMount) /\ NoDup (map mu_Mount out) /\
  (forall x, x ∈ devices_of out -> x ∈ seenDevice) /\ NoDup (devices_of out) /\
  Forall mount_ok out.

Lemma NoDup_snoc_fresh (l : list string) (seen : gset string) x :
  (forall y, y ∈ l -> y ∈ seen) -> NoDup l -> x ∉ seen ->
  NoDup (l ++ [x]) /\ forall y, y ∈ l ++ [x] -> y ∈ {[x]} ∪ seen.
Proof.
  intros Hl Hn Hx. split.
  - apply NoDup_app. split; [done|]. split; [|apply NoDup_singleton].
    intros y Hy ->%list_elem_of_singleton. by apply Hx, Hl.
  - intros y [Hy| ->%list_elem_of_singleton]%elem_of_app; apply elem_of_union; [right; by apply Hl|left; by apply elem_of_singleton].
Qed.

Lemma devices_of_snoc ms m :
  devices_of (ms ++ [m]) = devices_of ms ++ (if String.eqb (mu_Device m) "" then [] else [mu_Device m]).
Proof. unfold devices_of. rewrite map_app, List.filter_app. simpl. by destruct (String.eqb (mu_Device m) ""). Qed.

Lemma wp_mount_step acc p w :
  mounts_wf acc -> wp (mount_step acc p) (fun o _ => match o with Ret a => mounts_wf a | Panic _ => False end) w.
Proof.
  intros H. destruct acc as [[seenMount seenDevice] out]. unfold mount_step.
  destruct (pseudoFS (pt_Fstype p) || HasPrefix (pt_Fstype p) "fuse.") eqn:Hps; [by apply wp_ret|].
  apply orb_false_iff in Hps as [Hps _].
  destruct (excludeMount (pt_Mountpoint p)) eqn:Hex; [by apply wp_ret|].
  destruct (decide (pt_Mountpoint p ∈ seenMount)) as [?|Hm]; [by apply wp_ret|].
  destruct (negb (String.eqb (pt_Device p) "") && bool_decide (pt_Device p ∈ seenDevice)) eqn:Hd; [by apply wp_ret|].
  apply wp_bind, wp_call. intros e [[used total]|?] _; [|by apply wp_ret].
  destruct (Z.eqb_spec total 0) as [?|Ht]; [by apply wp_ret|]. apply wp_ret.
  destruct H as (H1 & H2 & H3 & H4 & H5). unfold mounts_wf. rewrite map_app. cbn [map mu_Mount].
  destruct (NoDup_snoc_fresh _ _ _ H1 H2 Hm) as [N1 N2]. split; [exact N2|]. split; [exact N1|].
  rewrite devices_of_snoc. cbn [mu_Device]. apply and_assoc. split.
  - destruct (String.eqb (pt_Device p) ""); cbn [negb]; [by rewrite app_nil_r|].
    cbn [negb andb] in Hd. apply bool_decide_eq_false in Hd.
    destruct (NoDup_snoc_fresh _ _ _ H3 H4 Hd) as [D1 D2]. split; [exact D2|exact D1].
  - apply Forall_app. split; [done|]. by repeat constructor.
Qed.

(** Whatever the host reports, the mounts listed are distinct by mountpoint and
    by device, are of no pseudo file system, of none of the excluded trees and
    of nonzero size, and come with the largest first. *)
Theorem enumerateMounts_distinct (w : World E) :
  wp enumerateMounts (fun o _ => exists ms, o = Ret ms /\
    NoDup (map mu_Mount ms) /\ NoDup (devices_of ms) /\ Forall mount_ok ms /\
    StronglySorted (fun a b => mu_Total b <= mu_Total a) ms) w.
Proof.
  unfold enumerateMounts. apply wp_bind, wp_call. intros e r _. destruct r as [parts|err].
  2:{ apply wp_ret. exists []. split; [done|]. cbn. repeat split; constructor. }
  apply wp_bind. apply (wp_for_fold (fun _ acc _ => mounts_wf acc)).
  - repeat split; try constructor; by intros x Hx%not_elem_of_nil.
  - intros done x s w' Hs _. eapply wp_mono; [by apply wp_mount_step|]. by intros [a|?] w''.
  - intros [[sm sd] out] w' (_ & H1 & _ & H2 & H3). apply wp_ret. exists (sort_slice by_total out). split; [done|].
    assert (sort_slice by_total out ≡ₚ out) as Hp by apply sort_slice_perm.
    split; [by rewrite (Permutation_map mu_Mount Hp)|]. split; [by rewrite Hp|]. split; [by rewrite Hp|].
    assert (StronglySorted (fun a b => by_total b a = false) (sort_slice by_total out)) as Hs.
      { apply sort_slice_sorted; unfold by_total; intros *; rewrite ?Z.ltb_ge; lia. }
      clear -Hs. induction Hs as [|x l Hl IH Hx]; constructor; [done|]. eapply Forall_impl; [exact Hx|].
      unfold by_total. simpl. intros y Hy. lia.
Qed.
End Read.

(** ** Rates and percentages *)
Section Rates.
Context {E : Type} `{!Env E} `{!Gopsutil E} `{!Arch}.

(** C40. Whatever the host's counters do, wrap, stand still or run backwards,
    the CPU load reported is between 0 and 100 percent, or not a number; the
    first sample reports 0. *)
Theorem cpuPercent_bounded (c : Collector) (w : World E) :
  wp (cpuPercent c) (fun o _ => exists c' p, o = Ret (c', p) /\
    (is_nan p = true \/ SFleb f64_zero p = true /\ SFleb p (f64_of_Z 100) = true) /\
    (co_haveCPU c = false -> p = f64_zero)) w.
Proof.
  unfold cpuPercent. apply wp_sbind, wp_lift, wp_call. intros e r _. cbn [fst snd].
  assert (Hz : forall (c' : Collector), exists c2 p, Ret (c', f64_zero) = Ret (c2, p) /\
    (is_nan p = true \/ SFleb f64_zero p = true /\ SFleb p (f64_of_Z 100) = true) /\
    (co_haveCPU c = false -> p = f64_zero)) by (intros c'; exists c', f64_zero; split; [done|]; split; [right|]; done).
  destruct r as [[|t ts]|]; [apply wp_sret, Hz| |apply wp_sret, Hz].
  apply wp_sbind, wp_state. cbn [fst snd]. apply wp_sbind, wp_put. cbn [fst snd].
  destruct (co_haveCPU c) eqn:Hc; cbn [negb]; [|apply wp_sret, Hz].
  destruct (SFleb _ f64_zero); [apply wp_sret, Hz|]. set (pct := f64_mul _ _).
  destruct (SFltb pct f64_zero) eqn:H0; [apply wp_sret, Hz|].
  destruct (SFltb (f64_of_Z 100) pct) eqn:H1; apply wp_sret; eexists _, _; (split; [done|split; [|done]]).
  - right. done.
  - destruct (is_nan pct) eqn:Hn; [by left|right]. by split; apply SFltb_leb.
Qed.

(** The rate of one device against its last sample. *)
Definition rate_ok (last : gmap string devSample) (counters : gmap string (Z * Z)) (now : Z) (d : DeviceIO) : Prop :=
  exists rd wr, counters !! io_Device d = Some (rd, wr) /\
    match last !! io_Device d with
    | None => io_ReadPerSec d = 0 /\ io_WritePerSec d = 0
    | Some prev =>
        let dt := now - ds_at prev in
        io_ReadPerSec d = (if (0 <? dt) && (ds_read prev <=? rd) then rate (rd - ds_read prev) dt else 0) /\
        io_WritePerSec d = (if (0 <? dt) && (ds_write prev <=? wr) then rate (wr - ds_write prev) dt else 0)
    end.

Lemma device_steps counters now names last out :
  NoDup names ->
  let r := fold_left (device_step counters now) names (last, out) in
  (forall k, r.1 !! k = if bool_decide (k ∈ names) then
       match counters !! k with
       | Some (rd, wr) => Some {| ds_read := rd; ds_write := wr; ds_at := now |}
       | None => last !! k
       end else last !! k) /\
  exists new, r.2 = out ++ new /\ map io_Device new = List.filter (fun n => bool_decide (is_Some (counters !! n))) names /\
    Forall (rate_ok last counters now) new.
Proof.
  intros Hn. revert last out. induction names as [|n names IH]; intros last out r; unfold r; cbn [fold_left].
  - split; [intros k; by rewrite bool_decide_eq_false_2 by apply not_elem_of_nil|]. exists []. by rewrite app_nil_r.
  - apply NoDup_cons in Hn as [Hx Hn]. cbn [List.filter]. unfold device_step at 2 4. cbn [fst snd].
    destruct (counters !! n) as [[rd wr]|] eqn:Hc.
    + set (d := match last !! n with Some _ => _ | None => _ end).
      specialize (IH Hn (<[n:={| ds_read := rd; ds_write := wr; ds_at := now |}]> last) (out ++ [d])) as [H1 (new & H2 & H3 & H4)].
      split.
      * intros k. rewrite H1. destruct (decide (k = n)) as [->|Hne].
        -- rewrite bool_decide_eq_false_2, lookup_insert_eq, bool_decide_eq_true_2 by (done || left). by rewrite Hc.
        -- rewrite lookup_insert_ne by done. rewrite (bool_decide_ext (k ∈ n :: names) (k ∈ names)) by set_solver. done.
      * exists (d :: new). rewrite H2, <- app_assoc. split; [done|]. rewrite bool_decide_eq_true_2 by done.
        assert (io_Device d = n) as Hd by (unfold d; by destruct (last !! n)).
        split; [cbn [map]; by rewrite Hd, H3|]. constructor.
        -- exists rd, wr. rewrite Hd. split; [done|]. unfold d. by destruct (last !! n).
        -- eapply Forall_impl; [|intros x Hx'; exact Hx']. apply Forall_forall. intros x Hin.
           rewrite Forall_forall in H4. destruct (H4 x Hin) as (rd' & wr' & Hc' & Hr). exists rd', wr'. split; [done|].
           assert (io_Device x <> n) as Hne.
           { intros He. apply Hx. rewrite <- He. assert (io_Device x ∈ map io_Device new) as Hm.
             { apply list_elem_of_In, in_map, list_elem_of_In. done. }
             rewrite H3 in Hm. apply list_elem_of_In, filter_In in Hm as [Hm _]. by apply list_elem_of_In. }
           by rewrite lookup_insert_ne in Hr by done.
    + specialize (IH Hn last out) as [H1 (new & H2 & H3 & H4)]. split.
      * intros k. rewrite H1. destruct (decide (k = n)) as [->|Hne].
        -- rewrite bool_decide_eq_false_2, bool_decide_eq_true_2 by (done || left). by rewrite Hc.
        -- rewrite (bool_decide_ext (k ∈ n :: names) (k ∈ names)) by set_solver. done.
      * exists new. rewrite bool_decide_eq_false_2 by (intros [? ?]; done). done.
Qed.

Lemma wp_listDeviceNames (Q : outcome (list string) -> World E -> Prop) w :
  (forall names w', NoDup names -> Forall (fun n => isWholeDisk n = true) names -> Q (Ret names) w') ->
  wp listDeviceNames Q w.
Proof.
  intros HQ. unfold listDeviceNames. apply wp_bind, wp_call. intros e [counters|err] _; apply wp_ret, HQ; try constructor.
  - rewrite sort_slice_perm. pose proof (NoDup_map_filter id isWholeDisk (map_to_list counters).*1) as Hf.
    unfold id in Hf. rewrite !map_id in Hf. apply Hf, NoDup_fst_map_to_list.
  - rewrite sort_slice_perm. apply Forall_forall. intros n Hin%list_elem_of_In. by apply filter_In in Hin as [_ ?].
Qed.

(** The throughput of a device is measured against its own last sample and never
    underflows: a device met for the first time reports 0, so does a counter
    that went backwards and a clock that did not advance; every whole disk the
    host counts is reported once, with no partition, and its new sample is kept
    for the next time. *)
Theorem deviceIO_spec (c : Collector) (w : World E) :
  wp (deviceIO c) (fun o _ => exists c' out, o = Ret (c', out) /\
    (out = [] /\ c' = c \/
     exists counters now,
       NoDup (map io_Device out) /\ Forall (fun d => isWholeDisk (io_Device d) = true) out /\
       Forall (rate_ok (co_lastDev c) counters now) out /\
       (forall k, co_lastDev c' !! k = match counters !! k with
          | Some (rd, wr) => if bool_decide (k ∈ map io_Device out)
                             then Some {| ds_read := rd; ds_write := wr; ds_at := now |} else co_lastDev c !! k
          | None => co_lastDev c !! k end))) w.
Proof.
  unfold deviceIO. apply wp_sbind, wp_lift, wp_call. intros e r _. cbn [fst snd].
  destruct r as [counters|err]; [|apply wp_sret; eexists _, _; split; [done|by left]].
  apply wp_sbind, wp_lift_Now. intros e' now _. cbn [fst snd]. apply wp_sbind, wp_lift.
  apply wp_listDeviceNames. intros names w' Hn Hw. cbn [fst snd]. apply wp_sbind, wp_state. cbn [fst snd].
  destruct (device_steps counters now names (co_lastDev c) [] Hn) as [H1 (new & H2 & H3 & H4)].
  destruct (fold_left (device_step counters now) names (co_lastDev c, [])) as [lastDev out]. cbn [fst snd app] in *. subst new.
  apply wp_sbind, wp_put. apply wp_sret. eexists _, out. split; [done|]. right. exists counters, now.
  assert (forall k, k ∈ map io_Device out <-> k ∈ names /\ is_Some (counters !! k)) as Hin.
  { intros k. rewrite H3, list_elem_of_In, filter_In, <- list_elem_of_In, bool_decide_eq_true. done. }
  split; [|split; [|split; [done|]]].
  - rewrite H3. pose proof (NoDup_map_filter id (fun n => bool_decide (is_Some (counters !! n))) names) as Hf.
    unfold id in Hf. rewrite !map_id in Hf. by apply Hf.
  - apply Forall_forall. intros d Hd. rewrite Forall_forall in Hw. apply Hw, Hin, list_elem_of_In, in_map, list_elem_of_In, Hd.
  - intros k. cbn [co_lastDev]. rewrite H1. destruct (counters !! k) as [[rd wr]|] eqn:Hc; [|by destruct (bool_decide _)].
    rewrite (bool_decide_ext (k ∈ map io_Device out) (k ∈ names)); [done|]. rewrite Hin. rewrite Hc. naive_solver.
Qed.
End Rates.
