(* ===== verification/Stats.v ===== *)
(** * Container statistics (src/internal/docker/stats.go)

    What each running container uses, computed from one answer of the daemon's
    stats endpoint. The endpoint and the decoding of its body are
    [DockerStats]; a [uint64] is an integer reduced modulo 2^64. *)
From Stdlib Require Import SpecFloat.
From S2P Require Import Prelude GoStrings Float64 Api Db Docker World.
Open Scope Z_scope.

(** [container.StatsResponse], as far as it is read. *)
Record CPUStats := { cs_TotalUsage : Z; cs_PercpuUsage : list Z; cs_SystemUsage : Z; cs_OnlineCPUs : Z }.
Record MemoryStats := { mem_Usage : Z; mem_Limit : Z; mem_Stats : gmap string Z }.
Record StatsResponse := { st_CPUStats : CPUStats; st_PreCPUStats : CPUStats; st_MemoryStats : MemoryStats }.

(** [cli.ContainerStats] with the body it answers, and [json.Decode]. *)
Class DockerStats (E : Type) := {
  cli_ContainerStats : string -> E -> E * result string;
  dec_Stats : string -> result StatsResponse
}.

Definition uint64 (z : Z) : Prop := 0 <= z < 2 ^ 64.

Record stats_wf (s : StatsResponse) : Prop := {
  sw_usage : uint64 (mem_Usage (st_MemoryStats s));
  sw_stats : forall k v, mem_Stats (st_MemoryStats s) !! k = Some v -> uint64 v;
  sw_online : 0 <= cs_OnlineCPUs (st_CPUStats s) < 2 ^ 32
}.

(** encoding/json fills a field with a value of its type. *)
Class DockerStatsOk (E : Type) `{!DockerStats E} : Prop := {
  dec_Stats_wf : forall body s, dec_Stats body = Ok s -> stats_wf s
}.

(** ** The figures *)
Definition cpuPercent (s : StatsResponse) : f64 :=
  let cpuDelta := f64_sub (f64_of_Z (cs_TotalUsage (st_CPUStats s))) (f64_of_Z (cs_TotalUsage (st_PreCPUStats s))) in
  let sysDelta := f64_sub (f64_of_Z (cs_SystemUsage (st_CPUStats s))) (f64_of_Z (cs_SystemUsage (st_PreCPUStats s))) in
  if SFleb sysDelta f64_zero || SFltb cpuDelta f64_zero then f64_zero
  else
    let cpus := f64_of_Z (cs_OnlineCPUs (st_CPUStats s)) in
    let cpus := if SFeqb cpus f64_zero then f64_of_Z (Z.of_nat (length (cs_PercpuUsage (st_CPUStats s)))) else cpus in
    let cpus := if SFeqb cpus f64_zero then f64_of_Z 1 else cpus in
    f64_mul (f64_mul (f64_div cpuDelta sysDelta) cpus) (f64_of_Z 100).

Definition memUsed (mem : MemoryStats) : Z :=
  let used := mem_Usage mem in
  match mem_Stats mem !! "inactive_file" with
  | Some cache => if cache <=? used then (used - cache) mod 2 ^ 64 else used
  | None => used
  end.

Section Stats.
Context {E : Type} `{!Env E} `{!DockerStats E}.

Definition containerStat (id : string) : M E (result ContainerMetrics) :=
  let? body := call (cli_ContainerStats id) (fun _ => []) in
  match dec_Stats body with
  | Fail e => mret (Fail e)
  | Ok s => mret (Ok {| cm_ID := id; cm_CPUPercent := cpuPercent s; cm_MemUsed := memUsed (st_MemoryStats s);
                        cm_MemLimit := mem_Limit (st_MemoryStats s) |})
  end.

Definition running (c : Summary) : bool := String.eqb (sum_State c) "running".

(** One container of the loop. *)
Definition stat_step (out : list ContainerMetrics) (c : Summary) : M E (list ContainerMetrics) :=
  if negb (running c) then mret out
  else
    r ← containerStat (sum_ID c);
    match r with
    | Fail _ => mret out
    | Ok cm => mret (out ++ [cm])
    end.

Definition ContainerStats : M E (result (list ContainerMetrics)) :=
  let? summaries := ContainerList false in
  out ← for_fold summaries stat_step [];
  mret (Ok out).
End Stats.

(** ** Bounds *)
Lemma cpuPercent_nonneg s : 0 <= cs_OnlineCPUs (st_CPUStats s) -> nonneg (cpuPercent s) = true.
Proof.
  intros Hc. unfold cpuPercent. set (sysDelta := f64_sub _ (f64_of_Z (cs_SystemUsage _))). set (cpuDelta := f64_sub _ _).
  destruct (SFleb sysDelta f64_zero) eqn:Hs; [done|]. destruct (SFltb cpuDelta f64_zero) eqn:Hd; [done|]. cbn [orb].
  apply positive_nonneg in Hs as [Hs Hz].
  apply nonneg_mul; [apply nonneg_mul; [apply nonneg_div; [unfold nonneg; by rewrite Hd|done|done]|]|by apply nonneg_of_Z].
  repeat case_match; apply nonneg_of_Z; lia.
Qed.

Lemma memUsed_bounds s : stats_wf s -> 0 <= memUsed (st_MemoryStats s) <= mem_Usage (st_MemoryStats s).
Proof.
  intros [Hu Hs _]. unfold memUsed, uint64 in *. destruct (_ !! "inactive_file") as [cache|] eqn:Hc; [|lia].
  apply Hs in Hc. destruct (Z.leb_spec cache (mem_Usage (st_MemoryStats s))); [|lia]. rewrite Z.mod_small; lia.
Qed.

Section Facts.
Context {E : Type} `{!Env E} `{!DockerStats E} `{!DockerStatsOk E}.

(** The figures of one answer of the daemon. *)
Definition stat_ok (m : ContainerMetrics) : Prop :=
  exists s, stats_wf s /\ 0 <= cm_MemUsed m <= mem_Usage (st_MemoryStats s) /\
    cm_MemLimit m = mem_Limit (st_MemoryStats s) /\ nonneg (cm_CPUPercent m) = true.

(** The figures are of running containers, each once and in the order the
    daemon lists them, one that does not answer left out; memory never wraps
    below zero or exceeds what the daemon says is used, and no CPU load is
    negative. Nothing is changed. *)
Theorem ContainerStats_spec (w : World E) :
  wp ContainerStats (fun o w' => w_db w' = w_db w /\ w_mgr w' = w_mgr w /\ w_trace w' = w_trace w /\
    exists r, o = Ret r /\ forall ms, r = Ok ms -> Forall stat_ok ms /\
      exists l, (cli_ContainerList false (w_env w)).2 = Ok l /\
        map cm_ID ms `sublist_of` map sum_ID (List.filter running l)) w.
Proof.
  unfold ContainerStats. apply wp_bind, wp_call. intros e r He. destruct r as [l|err]; [|apply wp_ret; rewrite log_nil; naive_solver].
  rewrite log_nil. apply wp_bind.
  apply (wp_for_fold (fun seen ms w' => w_db w' = w_db w /\ w_mgr w' = w_mgr w /\ w_trace w' = w_trace w /\
    Forall stat_ok ms /\ map cm_ID ms `sublist_of` map sum_ID (List.filter running seen))).
  - repeat split; constructor.
  - intros seen c ms w' (Hd & Hm & Ht & Hf & Hs) _. rewrite List.filter_app, map_app. cbn [List.filter].
    unfold stat_step. destruct (running c) eqn:Hr; cbn [negb map].
    2: { apply wp_ret. rewrite app_nil_r. by repeat split. }
    assert (Hskip : map cm_ID ms `sublist_of` map sum_ID (List.filter running seen) ++ [sum_ID c]) by by apply sublist_inserts_r.
    apply wp_bind. unfold containerStat. apply wp_bind, wp_call. intros e' [body|err] _; rewrite log_nil; [|apply wp_ret, wp_ret; by repeat split].
    destruct (dec_Stats body) as [s|err] eqn:Hb; [|apply wp_ret, wp_ret; by repeat split].
    apply dec_Stats_wf in Hb. apply wp_ret, wp_ret. rewrite map_app. repeat split; try done; [|by apply sublist_app].
    apply Forall_app. split; [done|]. constructor; [|done]. exists s. split; [done|]. split; [by apply memUsed_bounds|].
    split; [done|]. apply cpuPercent_nonneg. apply Hb.
  - intros ms w' (Hd & Hm & Ht & Hf & Hs). apply wp_ret. repeat split; try done. exists (Ok ms). split; [done|].
    intros ? [= <-]. split; [done|]. exists l. by rewrite He.
Qed.
End Facts.
