(* ===== verification/Http.v ===== *)
(** * Requests, responses and guards (src/internal/server: middleware.go, server.go)

    A handler runs on the state [Req S]: the component state [S] it works on and
    the [Response] it has written so far. net/http's ResponseWriter keeps the
    first status, appends what is written, and drops headers set after the
    status went out. *)
From S2P Require Import Prelude GoStrings Api Db Docker World Sim StoreAuth Stateful Auth.
Open Scope Z_scope.

(** ** Requests *)
Record Request := {
  rq_Method : string;
  rq_Path : list string;                (* the cleaned path, split at "/" *)
  rq_Cookies : list (string * string);
  rq_Query : string -> string;          (* the first value of a key *)
  rq_Body : string;
  rq_SecFetchSite : string;
  rq_Origin : string;
  rq_Host : string
}.

(** [r.Cookie(name)]: the first cookie of that name. *)
Definition request_cookie (r : Request) (name : string) : option string :=
  snd <$> List.find (fun c => String.eqb c.1 name) (rq_Cookies r).

(** ** Responses *)
Record Cookie := { ck_Name : string; ck_Value : string; ck_MaxAge : Z; ck_Secure : bool }.

(** A response, with the bodies of type [B] that were encoded into it and the
    background tasks of type [T] the handler started. *)
Record Response (B T : Type) := {
  rs_Status : option Z;
  rs_Cookies : list Cookie;
  rs_Location : string;
  rs_Body : list B;
  rs_Tasks : list T
}.
Arguments rs_Status {B T}.
Arguments rs_Cookies {B T}.
Arguments rs_Location {B T}.
Arguments rs_Body {B T}.
Arguments rs_Tasks {B T}.

Definition fresh_response {B T} : Response B T :=
  {| rs_Status := None; rs_Cookies := []; rs_Location := ""; rs_Body := []; rs_Tasks := [] |}.

Definition write_status {B T} (status : Z) (r : Response B T) : Response B T :=
  match rs_Status r with
  | Some _ => r
  | None => {| rs_Status := Some status; rs_Cookies := rs_Cookies r; rs_Location := rs_Location r;
               rs_Body := rs_Body r; rs_Tasks := rs_Tasks r |}
  end.

Definition write_body {B T} (b : B) (r : Response B T) : Response B T :=
  {| rs_Status := rs_Status r; rs_Cookies := rs_Cookies r; rs_Location := rs_Location r;
     rs_Body := rs_Body r ++ [b]; rs_Tasks := rs_Tasks r |}.

Definition set_location {B T} (url : string) (r : Response B T) : Response B T :=
  match rs_Status r with
  | Some _ => r
  | None => {| rs_Status := None; rs_Cookies := rs_Cookies r; rs_Location := url; rs_Body := rs_Body r;
               rs_Tasks := rs_Tasks r |}
  end.

Definition add_cookie {B T} (c : Cookie) (r : Response B T) : Response B T :=
  match rs_Status r with
  | Some _ => r
  | None => {| rs_Status := None; rs_Cookies := rs_Cookies r ++ [c]; rs_Location := rs_Location r;
               rs_Body := rs_Body r; rs_Tasks := rs_Tasks r |}
  end.

Definition add_task {B T} (t : T) (r : Response B T) : Response B T :=
  {| rs_Status := rs_Status r; rs_Cookies := rs_Cookies r; rs_Location := rs_Location r;
     rs_Body := rs_Body r; rs_Tasks := rs_Tasks r ++ [t] |}.

Definition StatusOK : Z := 200.
Definition StatusFound : Z := 302.
Definition StatusBadRequest : Z := 400.
Definition StatusUnauthorized : Z := 401.
Definition StatusForbidden : Z := 403.
Definition StatusNotFound : Z := 404.
Definition StatusConflict : Z := 409.
Definition StatusInternalServerError : Z := 500.
Definition StatusBadGateway : Z := 502.
Definition StatusServiceUnavailable : Z := 503.

(** [Config] of the server. *)
Record ServerConfig := { sc_RPID : string; sc_Origin : string; sc_Secure : bool }.

Definition SessionCookieName : string := "veery_session".
Definition ceremonyCookieName : string := "veery_ceremony".
Definition inviteCookieName : string := "veery_invite".
Definition oidcStateCookieName : string := "veery_oidc_state".

(** [cookieName] *)
Definition cookieName (cfg : ServerConfig) (base : string) : string :=
  if sc_Secure cfg then "__Host-" +:+ base else base.

(** [s.cookie]: an empty value counts as absent. *)
Definition cookie (cfg : ServerConfig) (r : Request) (base : string) : option string :=
  match request_cookie r (cookieName cfg base) with
  | Some EmptyString => None
  | c => c
  end.

(** [ceremonyID] *)
Definition ceremonyID (cfg : ServerConfig) (r : Request) : result string :=
  match cookie cfg r ceremonyCookieName with
  | Some id => Ok id
  | None => Fail (errorf "no ceremony in progress")
  end.

(** [isNotFound] *)
Definition isNotFound (e : error) : bool := errors_Is e ErrNotFound.

Section Http.
Context {E S B T : Type} `{!Env E} (cfg : ServerConfig) (body_err : string -> B).

(** The state of a request: the components' state and the response. *)
Definition Req : Type := S * Response B T.
Abbreviation HM := (SM (S * Response B T) E).

Definition on_response (f : Response B T -> Response B T) : HM unit := fun s => mret ((s.1, f s.2), tt).
Definition component {A} (m : SM S E A) : HM A := zoom fst (fun (t : S * Response B T) (s : S) => (s, t.2)) m.

(** [writeJSON] *)
Definition writeJSON (status : Z) (b : B) : HM unit :=
  on_response (fun r => write_body b (write_status status r)).
(** [writeErr] *)
Definition writeErr (status : Z) (msg : string) : HM unit := writeJSON status (body_err msg).
(** [http.Redirect] *)
Definition redirect (url : string) : HM unit :=
  on_response (fun r => write_status StatusFound (set_location url r)).
(** A [go] statement. *)
Definition go (t : T) : HM unit := on_response (add_task t).

(** [setCookie], [clearCookie] *)
Definition setCookie (base value : string) (maxAge : Z) : HM unit :=
  on_response (add_cookie {| ck_Name := cookieName cfg base; ck_Value := value; ck_MaxAge := maxAge;
                             ck_Secure := sc_Secure cfg |}).
Definition clearCookie (base : string) : HM unit := setCookie base "" (-1).

(** [setSessionCookie], [clearSessionCookie] *)
Definition setSessionCookie (token : string) (exp : Z) : HM unit :=
  now ← lift Now;
  setCookie SessionCookieName token (Z.quot (exp - now) second).
Definition clearSessionCookie : HM unit := clearCookie SessionCookieName.
(** [setCeremonyCookie] *)
Definition setCeremonyCookie (id : string) : HM unit := setCookie ceremonyCookieName id 300.

(** [currentUser]: [None] for [ok = false]. *)
Definition currentUser (r : Request) : M E (option (User * string)) :=
  match cookie cfg r SessionCookieName with
  | None => mret None
  | Some token =>
      u ← SessionUser token;
      mret (match u with Ok user => Some (user, token) | Fail _ => None end)
  end.

(** [requireAuth]: the handler gets the user the context carries. *)
Definition requireAuth (next : User -> Request -> HM unit) (r : Request) : HM unit :=
  u ← lift (currentUser r);
  match u with
  | None => writeErr StatusUnauthorized "not authenticated"
  | Some (user, _) => next user r
  end.

(** [requireAdmin] *)
Definition requireAdmin (next : User -> Request -> HM unit) (r : Request) : HM unit :=
  u ← lift (currentUser r);
  match u with
  | None => writeErr StatusUnauthorized "not authenticated"
  | Some (user, _) =>
      if negb (u_IsAdmin user) then writeErr StatusForbidden "admin only"
      else next user r
  end.
End Http.

(** ** Cross-origin requests *)
(** [http.CrossOriginProtection] with the trusted origins of [New] ([Origin]
    without trailing slashes); [origin_host] is the host of a parsed origin. *)
Definition csrf_allows (origin_host : string -> option string) (trusted : list string) (r : Request) : bool :=
  let safe := existsb (String.eqb (rq_Method r)) ["GET"; "HEAD"; "OPTIONS"] in
  let exempt := existsb (String.eqb (rq_Origin r)) trusted in
  if safe then true
  else if String.eqb (rq_SecFetchSite r) "" then
    if String.eqb (rq_Origin r) "" then true
    else match origin_host (rq_Origin r) with
         | Some h => String.eqb h (rq_Host r) || exempt
         | None => exempt
         end
  else if String.eqb (rq_SecFetchSite r) "same-origin" || String.eqb (rq_SecFetchSite r) "none" then true
  else exempt.

(** ** Lemmas *)
Section Facts.
Context {E S B T : Type} `{!Env E} (cfg : ServerConfig) (body_err : string -> B).
Abbreviation HM := (SM (S * Response B T) E).

Lemma wp_on_response f (s : S * Response B T) (Q : outcome ((S * Response B T) * unit) -> World E -> Prop) w :
  Q (Ret ((s.1, f s.2), tt)) w -> wp (on_response f s) Q w.
Proof. done. Qed.

Lemma wp_component {A} (m : SM S E A) (s : S * Response B T) (Q : outcome ((S * Response B T) * A) -> World E -> Prop) w :
  wp (m s.1) (fun o w' => match o with
    | Ret p => Q (Ret ((p.1, s.2), p.2)) w'
    | Panic msg => Q (Panic msg) w'
    end) w ->
  wp (component m s) Q w.
Proof. intros H. apply wp_zoom. exact H. Qed.

(** Resolving the session touches no table but the sessions, where it drops at
    most the presented token, and emits nothing. *)
Definition only_session (w w' : World E) : Prop :=
  w_trace w' = w_trace w /\ w_mgr w' = w_mgr w /\
  (w_db w' = w_db w \/ exists token, w_db w' = (DeleteSession token (w_db w)).1).

(** The time a request reads when it resolves its session. *)
Definition request_time (e : E) : Z := (time_Now (sql_fault e).1).2 / second.

(** The session the token is of, which has not expired. *)
Definition live_session (token : string) (user : User) (w : World E) : Prop :=
  exists s, s ∈ db_sessions (w_db w) /\ ss_Token s = token /\ ss_UserID s = u_ID user /\
    request_time (w_env w) <= ss_ExpiresAt s.

Lemma wp_currentUser r w (Q : outcome (option (User * string)) -> World E -> Prop) :
  (forall w', only_session w w' -> Q (Ret None) w') ->
  (forall user token e, cookie cfg r SessionCookieName = Some token -> user ∈ db_users (w_db w) ->
     live_session token user w ->
     Q (Ret (Some (user, token))) (set_env w e)) ->
  wp (currentUser cfg r) Q w.
Proof.
  intros Hno Hyes. unfold currentUser.
  assert (Hsame : forall e, only_session w (set_env w e)) by (intros e; split; [done|]; split; [done|by left]).
  destruct (cookie cfg r SessionCookieName) as [token|] eqn:Hc.
  2: { apply wp_ret, Hno. rewrite <- (set_env_same w) at 2. apply Hsame. }
  unfold SessionUser. apply wp_bind, wp_bind, wp_sql_at; [intros; apply wp_ret, wp_ret, Hno, Hsame|].
  set (e1 := (sql_fault (w_env w)).1). cbn [SessionRowByToken fst snd]. change (set_db (set_env w e1) (w_db w)) with (set_env w e1).
  destruct (query_row (session_token token) (db_sessions (w_db w))) as [s|err] eqn:Hq; [|apply wp_ret, wp_ret, Hno, Hsame].
  apply query_row_Ok in Hq as [Hs Ht%String.eqb_eq].
  apply wp_bind, wp_unixNow. intros e2 t Htime. destruct (ss_ExpiresAt s <? t / second) eqn:Hexp.
  - apply wp_bind, wp_sql; intros; apply wp_ret, wp_ret, Hno; [apply Hsame|].
    split; [done|]. split; [done|]. right. by exists token.
  - apply wp_sql; [intros; apply wp_ret, Hno, Hsame|]. intros e3. cbn [GetUser fst snd].
    change (set_db (set_env (set_env (set_env w e1) e2) e3) _) with (set_env w e3). cbn [w_db set_env].
    destruct (query_row (user_id (ss_UserID s)) (db_users (w_db w))) as [user|err] eqn:Hu; [|apply wp_ret, Hno, Hsame].
    apply query_row_Ok in Hu as [Hu Hid%String.eqb_eq]. apply wp_ret, Hyes; [done|done|]. exists s. repeat (split; [done|]).
    unfold request_time. fold e1. cbn [w_env set_env] in Htime. rewrite Htime. cbn [snd]. lia.
Qed.

(** What a refused request leaves behind. *)
Definition refused_with (code : Z) (s : S * Response B T) (w : World E)
    (o : outcome ((S * Response B T) * unit)) (w' : World E) : Prop :=
  exists msg, only_session w w' /\ o = Ret ((s.1, write_body (body_err msg) (write_status code s.2)), tt).

Lemma requireAdmin_guards next r s w (P : outcome ((S * Response B T) * unit) -> World E -> Prop) :
  (forall user token e, u_IsAdmin user = true -> cookie cfg r SessionCookieName = Some token ->
     user ∈ db_users (w_db w) ->
     live_session token user w ->
     wp (next user r s) P (set_env w e)) ->
  wp (requireAdmin cfg body_err next r s)
    (fun o w' => refused_with StatusUnauthorized s w o w' \/ refused_with StatusForbidden s w o w' \/ P o w') w.
Proof.
  intros HP. unfold requireAdmin. apply wp_sbind, wp_lift, wp_currentUser.
  - intros w' Hw. cbn [fst snd]. apply wp_on_response. left. eexists. split; [exact Hw|done].
  - intros user token e Hc Hu Hs. cbn [fst snd]. destruct (u_IsAdmin user) eqn:Ha; cbn [negb].
    + eapply wp_mono; [by apply (HP user token e)|]. auto.
    + apply wp_on_response. right. left. eexists. split; [|done]. split; [done|]. split; [done|by left].
Qed.

Lemma requireAuth_guards next r s w (P : outcome ((S * Response B T) * unit) -> World E -> Prop) :
  (forall user token e, cookie cfg r SessionCookieName = Some token -> user ∈ db_users (w_db w) ->
     live_session token user w ->
     wp (next user r s) P (set_env w e)) ->
  wp (requireAuth cfg body_err next r s) (fun o w' => refused_with StatusUnauthorized s w o w' \/ P o w') w.
Proof.
  intros HP. unfold requireAuth. apply wp_sbind, wp_lift, wp_currentUser.
  - intros w' Hw. cbn [fst snd]. apply wp_on_response. left. eexists. split; [exact Hw|done].
  - intros user token e Hc Hu Hs. cbn [fst snd]. eapply wp_mono; [by apply (HP user token e)|]. auto.
Qed.
End Facts.

(** A request that could change something and comes from a page of
    another site is rejected: an unsafe method with a cross-site or same-site
    fetch marker, or with an Origin header of another host, passes only if the
    origin is the configured one. *)
Theorem csrf_blocks_other_sites origin_host trusted r :
  csrf_allows origin_host trusted r = true ->
  rq_Method r ∈ ["GET"; "HEAD"; "OPTIONS"] \/ rq_Origin r ∈ trusted \/
  rq_SecFetchSite r ∈ ["same-origin"; "none"] \/
  (rq_SecFetchSite r = "" /\ (rq_Origin r = "" \/ origin_host (rq_Origin r) = Some (rq_Host r))).
Proof.
  assert (Hex : forall x l, existsb (String.eqb x) l = true -> x ∈ l).
  { intros x l (y & Hy & ->%String.eqb_eq)%existsb_exists. by apply list_elem_of_In. }
  unfold csrf_allows. destruct (existsb (String.eqb (rq_Method r)) _) eqn:Hm; [left; by apply Hex|].
  destruct (String.eqb_spec (rq_SecFetchSite r) "") as [Hs|Hs].
  - destruct (String.eqb_spec (rq_Origin r) "") as [Ho|Ho]; [intros _; right; right; right; auto|].
    destruct (origin_host (rq_Origin r)) as [h|] eqn:Hh.
    + intros [->%String.eqb_eq|He%Hex]%orb_true_iff; [right; right; right|]; auto.
    + intros He%Hex. auto.
  - destruct (String.eqb_spec (rq_SecFetchSite r) "same-origin") as [->|]; [intros _; right; right; left; set_solver|].
    destruct (String.eqb_spec (rq_SecFetchSite r) "none") as [->|]; [intros _; right; right; left; set_solver|].
    intros He%Hex. auto.
Qed.
