(* ===== verification/Server.v ===== *)
(** * The server (src/internal/server/server.go): what its handlers share

    The dependencies of [Server], the bodies that requests and responses carry,
    the work a handler leaves running, and the helpers the handlers use. The
    encoding of requests is [RequestCodecs]. *)
From S2P Require Import Prelude GoStrings Api Db Docker World StoreEvents StoreSettings Notify Stateful Auth Oidc Http.
Open Scope Z_scope.

(** ** Requests *)
Record EnrollRequest := { er_Token : string; er_Name : string }.
Record CreateInviteRequest := { ci_IsAdmin : bool }.
Record SetAutoUpdateRequest := { sa_ContainerID : string; sa_AutoUpdate : bool }.
Record SetDiskVisibilityRequest := { dv_Visibility : gmap string bool }.
Record TestNotificationRequest := { tn_URLs : list string }.
(** [api.MdadmScheduleConfig] *)
Record MdadmScheduleConfig := {
  mc_Schedules : gmap string MdadmSchedule;
  mc_TimeZone : string;
  mc_TimeZoneOffsetSeconds : Z
}.

(** [json.NewDecoder(r.Body).Decode]: the fields that were read, with the error
    if the body is not one of these objects. [dec_Test] says whether the error
    is [io.EOF]. *)
Class RequestCodecs := {
  dec_Enroll : string -> result EnrollRequest;
  dec_CreateInvite : string -> CreateInviteRequest;
  dec_SetAutoUpdate : string -> result SetAutoUpdateRequest;
  dec_Settings : string -> result Settings;
  dec_Schedules : string -> result MdadmScheduleConfig;
  dec_DiskVisibility : string -> result SetDiskVisibilityRequest;
  dec_Notifications : string -> result NotificationConfig;
  dec_Test : string -> TestNotificationRequest * option bool
}.

(** github.com/coder/websocket: why [Accept] refuses an upgrade, if it does. *)
Class WebSocket := { ws_Accept : list string -> Request -> option (Z * string) }.

(** The embedded web client: the files it has. *)
Class Spa := { spa_Open : string -> bool }.

(** ** Responses *)
Record ApiCredential := { ac_ID : string; ac_Name : string; ac_CreatedAt : Z }.
Record Invite := {
  in_Token : string;
  in_IsAdmin : bool;
  in_ExpiresAt : Z;
  in_UsedAt : Z;
  in_URL : string;
  in_ForUserName : string
}.
Record SessionInfo := { si_User : User; si_Credentials : list ApiCredential }.
Record AuthProviders := { ap_OIDC : bool; ap_OIDCName : string }.

(** What is encoded into a response. *)
Inductive Body {E : Type} `{!WebAuthn E} :=
| BError (msg : string)
| BMap (key value : string)
| BFlag
| BCreation (c : Creation)
| BAssertion (a : Assertion)
| BSession (i : SessionInfo)
| BInvite (i : Invite)
| BInvites (l : list Invite)
| BUsers (l : list User)
| BProviders (p : AuthProviders)
| BStacks (l : list Stack)
| BUpdateCheck (updatesAvailable : Z)
| BSettings (s : Settings)
| BDisks (l : list DiskItem)
| BSchedules (c : MdadmScheduleConfig)
| BNotifications (c : NotificationConfig)
| BEvents (p : EventPage)
| BFile (name : string)
| BText (s : string)
| BUpgrade (admin : bool).

(** The jobs a handler starts with [go]. *)
Inductive Task :=
| TStartStack (id : string)
| TStopStack (id : string)
| TRestartStack (id : string)
| TBringUpStack (id : string)
| TStart (id : string)
| TStop (id : string)
| TRestart (id : string)
| TUpdate (id : string).

(** ** The server *)
(** [Server]: the components it may lack are options, or flags where the
    component's state is the world's. *)
Record Server := {
  srv_cfg : ServerConfig;
  srv_dkr : bool;
  srv_notif : option Notifier;
  srv_raid : bool;
  srv_oidc : option Oidc.Manager
}.

Section Server.
Context {E : Type} `{!Env E} `{!WebAuthn E} `{!OidcLib E} `{!Shoutrrr E} `{!UrlLib} `{!Calendar}
  `{!JsonCodec (gmap string bool)} `{!JsonCodec (list NotificationTarget)} `{!JsonCodec (list string)}.

(** The state the handlers keep next to the database. *)
Record Components := { cp_ceremonies : Ceremonies (E:=E); cp_oidc : OidcState (E:=E) }.

Definition Conn : Type := Components * Response (Body (E:=E)) Task.
Definition HM (A : Type) : Type := SM Conn E A.
#[export] Instance HM_ret : MRet HM := @SM_ret Conn E.
#[export] Instance HM_bind : MBind HM := @SM_bind Conn E.
Definition Handler : Type := Request -> HM unit.

Definition with_ceremonies (c : Components) (cs : Ceremonies (E:=E)) : Components :=
  {| cp_ceremonies := cs; cp_oidc := cp_oidc c |}.
Definition with_oidc (c : Components) (os : OidcState (E:=E)) : Components :=
  {| cp_ceremonies := cp_ceremonies c; cp_oidc := os |}.

Definition ceremonies {A} (m : SM (Ceremonies (E:=E)) E A) : HM A :=
  component (zoom cp_ceremonies with_ceremonies m).
Definition oidc {A} (m : SM (OidcState (E:=E)) E A) : HM A :=
  component (zoom cp_oidc with_oidc m).
Definition store {A} (m : M E A) : HM A := lift m.

Definition respond (status : Z) (b : Body (E:=E)) : HM unit := writeJSON status b.
Definition fail (status : Z) (msg : string) : HM unit := writeErr BError status msg.
Definition ok : HM unit := respond StatusOK BFlag.

(** [Server.notify] *)
Definition server_notify (srv : Server) (ev : NotificationEvent) (title body : string) : M E unit :=
  match srv_notif srv with
  | Some n => Notify.Notify n ev title body None
  | None => mret tt
  end.

(** [dockerReady], [notifyReady]: the rest of the handler runs only if ready. *)
Definition dockerReady (srv : Server) (next : HM unit) : HM unit :=
  if srv_dkr srv then next else fail StatusServiceUnavailable "docker unavailable".

Definition notifyReady (srv : Server) (next : Notifier -> HM unit) : HM unit :=
  match srv_notif srv with
  | Some n => next n
  | None => fail StatusServiceUnavailable "notifications unavailable"
  end.
End Server.
Arguments Components E {_ _}.
Arguments Conn E {_ _}.
Arguments HM E {_ _} A.
Arguments Handler E {_ _}.

(** A step that can fail ends the handler with [bad]. *)
Notation "'let_or' x := m 'orelse' bad 'in' k" :=
  (mbind (fun r => match r with Fail err => bad err | Ok x => k end) m)
  (at level 10, x name, m at level 100, bad at level 100, k at level 200, only parsing).
