(* ===== verification/Mdstat.v ===== *)
(** * Software RAID health (src/internal/metrics/mdadm.go)

    [ScanMdadm] reads /proc/mdstat and the sysfs attributes of the arrays it
    lists; [StartMdadmCheck] starts a data-scrub by writing to sysfs. The host's
    files and the process environment are [FilesEnv]. A reading that indexes out
    of range is [None]; [parseMdstat_total] shows that none does. *)
From S2P Require Import Prelude GoStrings Regex Api.
Open Scope Z_scope.
Open Scope re_scope.

(** [os.Getenv], [os.ReadFile] and [os.WriteFile]. *)
Class FilesEnv (E : Type) := {
  fs_Getenv : string -> E -> string;
  fs_ReadFile : string -> E -> E * result string;
  fs_WriteFile : string -> string -> E -> E * option error
}.

(** ** The expressions *)
Definition headerRe : re :=
  Grp 1 (lit "md" · Plus nonspace) · Many true re_space · chr ":" · Many true re_space
  · Grp 2 (Many true dot) · Eot.
Definition countRe : re :=
  chr "[" · Grp 1 (Plus digit) · chr "/" · Grp 2 (Plus digit) · chr "]".
Definition slot (c : ascii) : bool := Ascii.eqb c "U" || Ascii.eqb c "_".
Definition bitmapRe : re := chr "[" · Grp 1 (Plus slot) · chr "]".
Definition digit_or_dot (c : ascii) : bool := digit c || Ascii.eqb c ".".
Definition progressRe : re :=
  Grp 1 (lit "check" ∥ lit "resync" ∥ lit "recovery" ∥ lit "reshape")
  · Many true re_space · chr "=" · Many true re_space · Grp 2 (Plus digit_or_dot) · chr "%"
  · Many false dot · lit "speed=" · Grp 3 (Plus digit) · lit "K/sec".
Definition finishRe : re := lit "finish=" · Grp 1 (Plus nonspace).
Definition memberRe : re :=
  Grp 1 (LazyPlus nonspace) · chr "[" · Grp 2 (Plus digit) · chr "]"
  · Opt (Grp 3 (chr "(" · Plus upper · chr ")")) · Eot.

(** ** mdstat *)
Record mdRaw := {
  r_name : string;
  r_level : string;
  r_state : string;
  r_members : list MdMember;
  r_roles : list Z;
  r_total : Z;
  r_up : Z;
  r_haveCount : bool;
  r_action : string;
  r_percent : Decimal;
  r_speedKBs : Z;
  r_finish : string
}.

Definition new_raw (name level state : string) (members : list MdMember) (roles : list Z) : mdRaw :=
  {| r_name := name; r_level := level; r_state := state; r_members := members; r_roles := roles;
     r_total := 0; r_up := 0; r_haveCount := false; r_action := ""; r_percent := zero_decimal;
     r_speedKBs := 0; r_finish := "" |}.

Definition set_members (r : mdRaw) (ms : list MdMember) : mdRaw :=
  {| r_name := r_name r; r_level := r_level r; r_state := r_state r; r_members := ms;
     r_roles := r_roles r; r_total := r_total r; r_up := r_up r; r_haveCount := r_haveCount r;
     r_action := r_action r; r_percent := r_percent r; r_speedKBs := r_speedKBs r;
     r_finish := r_finish r |}.

Definition set_count (r : mdRaw) (total up : Z) : mdRaw :=
  {| r_name := r_name r; r_level := r_level r; r_state := r_state r; r_members := r_members r;
     r_roles := r_roles r; r_total := total; r_up := up; r_haveCount := true;
     r_action := r_action r; r_percent := r_percent r; r_speedKBs := r_speedKBs r;
     r_finish := r_finish r |}.

Definition set_progress (r : mdRaw) (action : string) (percent : Decimal) (speed : Z) (finish : string) : mdRaw :=
  {| r_name := r_name r; r_level := r_level r; r_state := r_state r; r_members := r_members r;
     r_roles := r_roles r; r_total := r_total r; r_up := r_up r; r_haveCount := r_haveCount r;
     r_action := action; r_percent := percent; r_speedKBs := speed; r_finish := finish |}.

(** One field of the member list. *)
Definition parse_member (field : string) : option (MdMember * Z) :=
  match match_here memberRe field with
  | Some mm =>
      let m := {| mm_Device := group 1 mm; mm_Up := true |} in
      let m := if negb (String.eqb (group 3 mm) "") then {| mm_Device := mm_Device m; mm_Up := false |} else m in
      Some (m, Atoi_or_max (group 2 mm))
  | None => None
  end.

Definition parseHeader (name rest : string) : mdRaw :=
  match Fields rest with
  | [] => new_raw name "" "" [] []
  | state :: fields =>
      let '(level, fields) :=
        match fields with
        | f :: more => if negb (Contains f "[") then (f, more) else ("", fields)
        | [] => ("", fields)
        end in
      let parsed := omap parse_member fields in
      new_raw name level state (parsed.*1) (parsed.*2)
  end.

(** The loop of [applyBitmap]; [None] is [r.roles[i]] out of range. *)
Fixpoint apply_slots (members : list MdMember) (roles : list Z) (bitmap : string) : option (list MdMember) :=
  match members, roles with
  | [], _ => Some []
  | _ :: _, [] => None
  | m :: members', role :: roles' =>
      match apply_slots members' roles' bitmap with
      | None => None
      | Some rest =>
          if (0 <=? role) && (role <? Z.of_nat (String.length bitmap)) then
            match String.get (Z.to_nat role) bitmap with
            | Some c =>
                Some ((if negb (Ascii.eqb c "U") then {| mm_Device := mm_Device m; mm_Up := false |} else m) :: rest)
            | None => None
            end
          else Some (m :: rest)
      end
  end.

Definition applyBitmap (r : mdRaw) (bitmap : string) : option mdRaw :=
  set_members r <$> apply_slots (r_members r) (r_roles r) bitmap.

(** A line inside the section of [cur]. *)
Definition parse_body (cur : mdRaw) (line : string) : option mdRaw :=
  match search countRe line with
  | Some cm =>
      let cur := set_count cur (Atoi_or_max (group 1 cm)) (Atoi_or_max (group 2 cm)) in
      match search bitmapRe line with
      | Some bm => applyBitmap cur (group 1 bm)
      | None => Some cur
      end
  | None =>
      match search progressRe line with
      | Some pm =>
          Some (set_progress cur (group 1 pm) (ParseFloat (group 2 pm)) (ParseUint (group 3 pm)).1
                  (match search finishRe line with
                   | Some fm => group 1 fm
                   | None => r_finish cur
                   end))
      | None => Some cur
      end
  end.

(** [flush] *)
Definition flush (out : list mdRaw) (cur : option mdRaw) : list mdRaw :=
  match cur with Some r => out ++ [r] | None => out end.

Fixpoint parse_lines (lines : list string) (out : list mdRaw) (cur : option mdRaw) : option (list mdRaw) :=
  match lines with
  | [] => Some (flush out cur)
  | line :: lines' =>
      match match_here headerRe line with
      | Some m => parse_lines lines' (flush out cur) (Some (parseHeader (group 1 m) (group 2 m)))
      | None =>
          match cur with
          | None => parse_lines lines' out None
          | Some r =>
              if String.eqb (TrimSpace line) "" then parse_lines lines' (flush out cur) None
              else match parse_body r line with
                   | Some r' => parse_lines lines' out (Some r')
                   | None => None
                   end
          end
      end
  end.

Definition parseMdstat (data : string) : option (list mdRaw) := parse_lines (Split data "010") [] None.

(** ** The badge *)
Definition normalizeAction (action : string) : string :=
  if String.eqb action "" then ""
  else if String.eqb action "recovery" then "recover"
  else action.

Definition rollupState (r : mdRaw) (action : string) : MdArrayState :=
  if String.eqb (r_state r) "inactive" then MdFailed
  else if negb (String.eqb action "") && negb (String.eqb action "idle") then MdRecovering
  else if r_haveCount r && (r_up r <? r_total r) then MdDegraded
  else if existsb (fun m => negb (mm_Up m)) (r_members r) then MdDegraded
  else MdHealthy.

(** ** The host *)
(** A computation on the environment. *)
Definition IO (E A : Type) : Type := E -> E * A.
#[export] Instance IO_ret {E} : MRet (IO E) := fun A a e => (e, a).
#[export] Instance IO_bind {E} : MBind (IO E) := fun A B k m e => let r := m e in k r.2 r.1.

Section Scan.
Context {E : Type} `{!FilesEnv E}.

Definition hostDir (var dflt : string) (e : E) : string :=
  let v := fs_Getenv var e in if String.eqb v "" then dflt else v.
Definition hostProc : IO E string := fun e => (e, hostDir "HOST_PROC" "/proc" e).
Definition hostSys : IO E string := fun e => (e, hostDir "HOST_SYS" "/sys" e).

Definition sysAttrPath (sys name attr : string) : string :=
  filepath_Join [sys; "block"; name; "md"; attr].

Definition readSysAttr (name attr : string) : IO E string :=
  sys ← hostSys;
  r ← fs_ReadFile (sysAttrPath sys name attr);
  mret (match r with Ok data => TrimSpace data | Fail _ => "" end).

(** One array of the listing, with what sysfs adds. *)
Definition scan_one (r : mdRaw) : IO E MdArray :=
  let act0 := normalizeAction (r_action r) in
  action ← readSysAttr (r_name r) "sync_action";
  let act1 := if negb (String.eqb action "") && String.eqb act0 "" then normalizeAction action else act0 in
  let act2 := if String.eqb act1 "" then "idle" else act1 in
  cnt ← readSysAttr (r_name r) "mismatch_cnt";
  let mismatch := if negb (String.eqb cnt "") then
                    let n := ParseUint cnt in if (n.2 : bool) then n.1 else 0
                  else 0 in
  mret {| md_Name := r_name r; md_Level := r_level r; md_State := rollupState r act2;
          md_DevicesTotal := if r_haveCount r then r_total r else Z.of_nat (length (r_members r));
          md_DevicesUp := r_up r; md_Members := r_members r; md_SyncAction := act2;
          md_SyncPercent := r_percent r; md_SyncSpeedKBs := r_speedKBs r; md_SyncFinish := r_finish r;
          md_MismatchCnt := mismatch; md_LastScanAt := 0; md_ScanFailure := None |}.

Fixpoint scan_all (raws : list mdRaw) : IO E (list MdArray) :=
  match raws with
  | [] => mret []
  | r :: raws' => a ← scan_one r; rest ← scan_all raws'; mret (a :: rest)
  end.

Definition ScanMdadm : IO E (option (list MdArray)) :=
  proc ← hostProc;
  r ← fs_ReadFile (filepath_Join [proc; "mdstat"]);
  match r with
  | Fail _ => mret (Some [])
  | Ok data =>
      match parseMdstat data with
      | None => mret None
      | Some raws => arrays ← scan_all raws; mret (Some arrays)
      end
  end.

Definition explainStartError (name : string) (err : error) : error :=
  let say suffix := mkErr ("start check on " +:+ name +:+ ": " +:+ Error err +:+ suffix) (wraps err) in
  if errors_Is err EROFS then say ": the host /sys is mounted read-only, mount it writable"
  else if errors_Is err ErrPermission then say ": Veery must run as root with the SYS_ADMIN capability"
  else if errors_Is err EBUSY then say ": another sync operation is running on the array"
  else say "".

(** [None] is a panic; [Some None] is success. *)
Definition StartMdadmCheck (name : string) : IO E (option (option error)) :=
  arrays ← ScanMdadm;
  match arrays with
  | None => mret None
  | Some l =>
      if negb (existsb (fun a => String.eqb (md_Name a) name) l) then
        mret (Some (Some (errorf ("no such array " +:+ quoted name))))
      else
        sys ← hostSys;
        w ← fs_WriteFile (sysAttrPath sys name "sync_action") ("check" +:+ String "010" "");
        match w with
        | Some err => mret (Some (Some (explainStartError name err)))
        | None =>
            action ← readSysAttr name "sync_action";
            if negb (String.eqb action "check") then
              mret (Some (Some (errorf ("start check on " +:+ name
                +:+ ": wrote check to sync_action but the array reports " +:+ quoted action))))
            else mret (Some None)
        end
  end.
End Scan.

(** ** No index is out of range *)
Definition aligned (r : mdRaw) : Prop := length (r_members r) = length (r_roles r).

Lemma str_get_lt n s : (n < String.length s)%nat -> exists c, String.get n s = Some c.
Proof.
  revert n. induction s as [|c s IH]; intros n; simpl; [lia|].
  destruct n as [|n]; [eauto|]. intros H. apply IH. lia.
Qed.

Lemma apply_slots_some ms roles bitmap :
  length ms = length roles ->
  exists ms', apply_slots ms roles bitmap = Some ms' /\ length ms' = length ms.
Proof.
  revert roles. induction ms as [|m ms IH]; intros [|role roles] Hl; simpl in *; try done; [by exists []|].
  destruct (IH roles) as (rest & -> & Hr); [lia|].
  destruct ((0 <=? role) && (role <? Z.of_nat (String.length bitmap))) eqn:E.
  - destruct (str_get_lt (Z.to_nat role) bitmap) as [c ->]; [lia|]. eexists. split; [done|]. simpl. lia.
  - eexists. split; [done|]. simpl. lia.
Qed.

Lemma applyBitmap_some r bitmap : aligned r -> exists r', applyBitmap r bitmap = Some r' /\ aligned r'.
Proof.
  intros Ha. unfold applyBitmap. destruct (apply_slots_some (r_members r) (r_roles r) bitmap Ha) as (ms & -> & Hl).
  eexists. split; [done|]. unfold aligned in *. simpl. congruence.
Qed.

Lemma parseHeader_aligned name rest : aligned (parseHeader name rest).
Proof.
  unfold parseHeader. destruct (Fields rest) as [|state fields]; [done|].
  destruct fields as [|f more]; [done|].
  destruct (negb (Contains f "[")); unfold aligned; cbn [new_raw r_members r_roles]; by rewrite !length_fmap.
Qed.

Lemma parse_body_some r line : aligned r -> exists r', parse_body r line = Some r' /\ aligned r'.
Proof.
  intros Ha. unfold parse_body. destruct (search countRe line) as [cm|].
  - destruct (search bitmapRe line) as [bm|]; [by apply applyBitmap_some|eauto].
  - destruct (search progressRe line) as [pm|]; eauto.
Qed.

Lemma parse_lines_some lines out cur :
  Forall aligned out -> (forall r, cur = Some r -> aligned r) ->
  exists raws, parse_lines lines out cur = Some raws /\ Forall aligned raws.
Proof.
  assert (Hflush : forall o c, Forall aligned o -> (forall r, c = Some r -> aligned r) -> Forall aligned (flush o c)).
  { intros o [r|] Ho Hc; [|done]. apply Forall_app. split; [done|]. constructor; [by apply Hc|done]. }
  revert out cur. induction lines as [|line lines IH]; intros out cur Ho Hc; simpl; [eauto|].
  destruct (match_here headerRe line) as [m|].
  - apply IH; [by apply Hflush|]. intros r [= <-]. apply parseHeader_aligned.
  - destruct cur as [r|]; [|by apply IH].
    destruct (String.eqb (TrimSpace line) ""); [apply IH; [by apply Hflush|done]|].
    destruct (parse_body_some r line (Hc r eq_refl)) as (r' & -> & Hr'). apply IH; [done|]. by intros ? [= <-].
Qed.

(** Whatever text /proc/mdstat holds, parsing it stays in bounds: the parser
    returns, and every array it returns has one role per member, the index
    [applyBitmap] looks a slot up with. *)
Theorem parseMdstat_total data : exists raws, parseMdstat data = Some raws /\ Forall aligned raws.
Proof. unfold parseMdstat. apply parse_lines_some; [constructor|done]. Qed.

(** So reading the arrays never panics. *)
Lemma ScanMdadm_returns {E} `{!FilesEnv E} (e : E) : exists l, (ScanMdadm e).2 = Some l.
Proof.
  unfold ScanMdadm, hostProc, mbind, IO_bind. cbn [fst snd].
  destruct (fs_ReadFile _ e) as [e1 [data|err]]; cbn [fst snd]; [|by exists []].
  destruct (parse_lines_some (Split data "010") [] None) as (raws & Hp & _); [constructor|done|].
  unfold parseMdstat. rewrite Hp. eauto.
Qed.

(** ** What is written *)
(** The environment, recording what it is asked to write. *)
Definition Recorded (E : Type) : Type := E * list (string * string).

#[export] Instance recorded_files {E} `{!FilesEnv E} : FilesEnv (Recorded E) := {
  fs_Getenv v e := fs_Getenv v e.1;
  fs_ReadFile p e := let r := fs_ReadFile p e.1 in ((r.1, e.2), r.2);
  fs_WriteFile p d e := let r := fs_WriteFile p d e.1 in ((r.1, e.2 ++ [(p, d)]), r.2)
}.

Section Writes.
Context {E : Type} `{!FilesEnv E}.

(** A computation that writes nothing. *)
Definition reads_only {A} (m : IO (Recorded E) A) : Prop := forall e, (m e).1.2 = e.2.

Lemma reads_ret {A} (a : A) : reads_only (mret a).
Proof. done. Qed.

Lemma reads_bind {A B} (m : IO (Recorded E) A) (k : A -> IO (Recorded E) B) :
  reads_only m -> (forall a, reads_only (k a)) -> reads_only (m ≫= k).
Proof. intros Hm Hk e. unfold mbind, IO_bind. by rewrite Hk, Hm. Qed.

Lemma reads_sysAttr name attr : reads_only (readSysAttr name attr).
Proof. intros e. done. Qed.

Lemma reads_scan_one r : reads_only (scan_one r).
Proof.
  unfold scan_one. apply reads_bind; [apply reads_sysAttr|intros action].
  apply reads_bind; [apply reads_sysAttr|intros cnt]. apply reads_ret.
Qed.

Lemma reads_scan_all raws : reads_only (scan_all raws).
Proof.
  induction raws as [|r raws IH]; [apply reads_ret|]. simpl.
  apply reads_bind; [apply reads_scan_one|intros a]. apply reads_bind; [done|intros l]. apply reads_ret.
Qed.

Lemma reads_ScanMdadm : reads_only (ScanMdadm (E:=Recorded E)).
Proof.
  unfold ScanMdadm. apply reads_bind; [done|intros proc]. apply reads_bind; [done|intros [data|err]].
  - destruct (parseMdstat data); [|apply reads_ret].
    apply reads_bind; [apply reads_scan_all|intros ?]. apply reads_ret.
  - apply reads_ret.
Qed.

(** The names a listing reports are those of the header lines. *)
Lemma scan_all_names (raws : list mdRaw) (e : Recorded E) : md_Name <$> (scan_all raws e).2 = r_name <$> raws.
Proof.
  revert e. induction raws as [|r raws IH]; intros e; [done|].
  change (scan_all (r :: raws) e) with
    (let p := scan_one r e in let q := scan_all raws p.1 in (q.1, p.2 :: q.2)).
  cbv zeta. cbn [snd]. rewrite !fmap_cons, IH. done.
Qed.

(** The file of the host's mdstat. *)
Definition mdstat_path (e : Recorded E) : string := filepath_Join [hostDir "HOST_PROC" "/proc" e; "mdstat"].

(** The arrays the host's mdstat lists when it is read in [e]. *)
Definition listed (e : Recorded E) (name : string) : Prop :=
  exists data raws, (fs_ReadFile (mdstat_path e) e).2 = Ok data /\ parseMdstat data = Some raws /\ name ∈ r_name <$> raws.

Lemma ScanMdadm_listed (e : Recorded E) l a : (ScanMdadm e).2 = Some l -> a ∈ l -> listed e (md_Name a).
Proof.
  unfold ScanMdadm, listed, mdstat_path, hostProc, mbind, IO_bind. cbn [fst snd].
  destruct (fs_ReadFile _ e) as [e1 [data|err]] eqn:Hr; cbn [fst snd]; [|intros [= <-] ?; set_solver].
  destruct (parseMdstat data) as [raws|] eqn:Hp; [|done]. cbn [fst snd]. intros [= <-] Ha.
  exists data, raws. split; [done|]. split; [done|].
  rewrite <- (scan_all_names raws e1). by apply list_elem_of_fmap_2.
Qed.
End Writes.

(** A request to start a scrub writes nothing unless the array is one that
    /proc/mdstat lists at that moment; then it writes the one word "check" to
    that array's sync_action, and it reports success only when the kernel then
    reports the scrub back. *)
Theorem StartMdadmCheck_writes {E} `{!FilesEnv E} (name : string) (e : Recorded E) :
  exists e' o, StartMdadmCheck name e = (e', Some o) /\
    (e'.2 = e.2 /\ o <> None \/
     listed e name /\ exists sys, e'.2 = e.2 ++ [(sysAttrPath sys name "sync_action", "check" +:+ String "010" "")]) /\
    (o = None -> exists e1, e1.2 = e'.2 /\ (readSysAttr name "sync_action" e1).2 = "check").
Proof.
  unfold StartMdadmCheck, mbind, IO_bind.
  pose proof (reads_ScanMdadm e) as Hro. pose proof (fun l a => ScanMdadm_listed e l a) as Hl.
  pose proof (ScanMdadm_returns e) as [l Hs].
  destruct (ScanMdadm e) as [e1 o1] eqn:Hscan. cbn [fst snd] in *. subst o1.
  destruct (existsb _ l) eqn:Hin; cbn [negb].
  - apply existsb_exists in Hin as (a & Ha & <-%String.eqb_eq). rewrite <- list_elem_of_In in Ha.
    specialize (Hl l a eq_refl Ha). cbn [hostSys fst snd].
    set (sys := hostDir "HOST_SYS" "/sys" e1). set (p := sysAttrPath sys _ _).
    cbn [fs_WriteFile recorded_files]. destruct (fs_WriteFile p _ e1.1) as [e2 [err|]]; cbn [fst snd].
    + do 2 eexists. split; [done|]. cbn [snd]. rewrite Hro. split; [right; eauto|done].
    + destruct (readSysAttr _ _ _) as [e3 action] eqn:Hr. cbn [fst snd].
      assert (e3.2 = e.2 ++ [(p, "check" +:+ String "010" "")]) as Hro2.
      { rewrite <- Hro. apply (f_equal (fun x => x.1.2)) in Hr. cbn [fst snd] in Hr. rewrite <- Hr.
        exact (reads_sysAttr (md_Name a) "sync_action" (e2, e1.2 ++ [(p, "check" +:+ String "010" "")])). }
      destruct (String.eqb_spec action "check") as [->|Hne]; cbn [negb]; do 2 eexists; (split; [done|]);
        rewrite Hro2; (split; [right; eauto|]); [|done].
      intros _. eexists (e2, _). rewrite <- Hro. split; [done|]. by apply (f_equal snd) in Hr.
  - do 2 eexists. split; [done|]. split; [left; done|done].
Qed.

(** ** What the kernel prints is read back *)
Lemma run_grp {A} n r s cs (k : string -> caps -> option A) :
  run (Grp n r) s cs k = run r s cs (fun s' cs' => k s' ((n, between s s') :: cs')).
Proof. done. Qed.

Lemma run_alt {A} r1 r2 s cs (k : string -> caps -> option A) :
  run (Alt r1 r2) s cs k = orelse (run r1 s cs k) (run r2 s cs k).
Proof. done. Qed.

Lemma run_class {A} f c s cs (k : string -> caps -> option A) : f c = true -> run (Cls f) (String c s) cs k = k s cs.
Proof. simpl. by intros ->. Qed.

Lemma run_chr {A} c s cs (k : string -> caps -> option A) : run (chr c) (String c "" +:+ s) cs k = k s cs.
Proof. simpl. by rewrite Ascii.eqb_refl. Qed.

Lemma run_chr_cons {A} c s cs (k : string -> caps -> option A) : run (chr c) (String c s) cs k = k s cs.
Proof. exact (run_chr c s cs k). Qed.

Lemma digit_is_digit c : digit c = is_digit c.
Proof. done. Qed.

Lemma header_line n rest :
  n <> "" -> str_forall nonspace n = true -> str_forall dot rest = true -> stops re_space rest ->
  match_here headerRe ("md" +:+ n +:+ " : " +:+ rest) = Some [(2%nat, rest); (1%nat, "md" +:+ n)].
Proof.
  intros Hn0 Hn Hrest Hs. unfold match_here, headerRe.
  rewrite run_cat, run_grp, run_cat, run_lit.
  apply run_plus_longest; [done|done|done|].
  rewrite run_cat. change (" : " +:+ rest) with (" " +:+ ": " +:+ rest).
  apply run_many_longest; [done|done|]. rewrite run_cat. change (": " +:+ rest) with (":" +:+ " " +:+ rest). rewrite run_chr.
  rewrite run_cat.
  apply run_many_longest; [done|done|]. rewrite run_cat, run_grp.
  rewrite <- (str_app_nil_r rest) at 1. apply run_many_longest; [done|done|].
  simpl run. cbv beta iota.
  rewrite (between_eq rest rest), (between_eq _ ("md" +:+ n)); [done|done|by rewrite str_app_nil_r].
Qed.

Lemma count_line total up : 0 <= total -> 0 <= up -> forall s,
  match_here countRe ("[" +:+ Itoa total +:+ "/" +:+ Itoa up +:+ "]" +:+ s)
  = Some [(2%nat, Itoa up); (1%nat, Itoa total)].
Proof.
  intros Ht Hu s. unfold match_here, countRe. rewrite run_cat, run_chr.
  rewrite run_cat, run_grp. apply run_plus_longest; [apply Itoa_nonempty|by apply Itoa_digits|done|].
  rewrite run_cat, run_chr. rewrite run_cat, run_grp.
  apply run_plus_longest; [apply Itoa_nonempty|by apply Itoa_digits|done|].
  rewrite run_chr. by rewrite !between_app.
Qed.

Lemma bitmap_field bm s : bm <> "" -> str_forall slot bm = true ->
  match_here bitmapRe ("[" +:+ bm +:+ "]" +:+ s) = Some [(1%nat, bm)].
Proof.
  intros H0 Hb. unfold match_here, bitmapRe. rewrite run_cat, run_chr.
  rewrite run_cat, run_grp. apply run_plus_longest; [done|done|done|].
  rewrite run_chr. by rewrite between_app.
Qed.

(** A member as the kernel prints it: device, role and the flag (F), (S), ... *)
Definition show_flag (flag : string) : string := if String.eqb flag "" then "" else "(" +:+ flag +:+ ")".
Definition show_member (dev : string) (role : Z) (flag : string) : string :=
  dev +:+ "[" +:+ Itoa role +:+ "]" +:+ show_flag flag.

Lemma member_field dev role flag :
  dev <> "" -> str_forall nonspace dev = true -> no_char "[" dev -> 0 <= role -> str_forall upper flag = true ->
  exists cs, match_here memberRe (show_member dev role flag) = Some cs /\
    group 1 cs = dev /\ group 2 cs = Itoa role /\ group 3 cs = show_flag flag.
Proof.
  intros Hd0 Hd Hb Hr Hf. unfold show_member.
  set (cs := (if String.eqb flag "" then [] else [(3%nat, show_flag flag)]) ++ [(2%nat, Itoa role); (1%nat, dev)]).
  exists cs. split; [|unfold cs, show_flag; by destruct (String.eqb_spec flag "") as [->|]].
  unfold match_here, memberRe. rewrite run_cat, run_grp. unfold LazyPlus. rewrite run_cat.
  destruct dev as [|c dev]; [done|]. simpl in Hd. apply andb_true_iff in Hd as [Hc Hd].
  apply no_char_cons in Hb as [Hcb Hb]. simpl String.append at 1. rewrite run_class by done.
  apply run_many_shortest; [done| |].
  - intros a1 d a2 ->. rewrite run_cat. simpl run at 1. destruct (Ascii.eqb_spec "[" d) as [<-|]; [|done].
    exfalso. clear -Hb. induction a1 as [|x a1 IH]; simpl in Hb; apply no_char_cons in Hb as [? ?]; auto.
  - rewrite run_cat, run_chr_cons. rewrite run_cat, run_grp.
    apply run_plus_longest; [apply Itoa_nonempty|by apply Itoa_digits|done|].
    rewrite run_cat, run_chr_cons. unfold cs, show_flag. rewrite between_app.
    match goal with |- context [between ?x ?y] => rewrite (between_eq x (String c dev) y) by done end.
    destruct (String.eqb_spec flag "") as [->|Hne]; [done|].
    assert (forall k : string -> caps -> option caps, forall l x,
      k "" ((3%nat, "(" +:+ flag +:+ ")") :: l) = Some x ->
      run (Grp 3 (chr "(" · Plus upper · chr ")")) ("(" +:+ flag +:+ ")") l k = Some x) as Hgrp.
    { intros k l x Hk. rewrite run_grp, run_cat, run_chr. rewrite run_cat.
      apply run_plus_longest; [done|done|done|]. rewrite (run_chr ")" "").
      rewrite (between_eq _ ("(" +:+ flag +:+ ")")); [done|by rewrite str_app_nil_r]. }
    rewrite run_cat. unfold Opt. rewrite run_alt. by erewrite Hgrp by reflexivity.
Qed.

(** An array as /proc/mdstat shows it. A member carries its number and, if it is
    a spare or faulty, a flag. *)
Record Slot := { sl_dev : string; sl_role : Z; sl_flag : string }.

(** [[2/1] [U_]]: how many of the slots are in use, and which. *)
Record Count := { ct_total : Z; ct_up : Z; ct_slots : string }.

(** [[==>...]  check = 12.6% (1/8) finish=1.0min speed=7K/sec] *)
Record Progress := {
  pg_bar : string;
  pg_action : string;
  pg_pad : string;      (* the spaces of %3u *)
  pg_tenths : Z;
  pg_done : Z;
  pg_of : Z;
  pg_finish : string;
  pg_speed : Z
}.

(** [bitmap: 1/15 pages [4KB], 65536KB chunk] *)
Record Bitmap := { bm_used : Z; bm_pages : Z; bm_size : Z; bm_chunk : Z }.

Record Printed := {
  p_name : string;                 (* what follows "md" *)
  p_level : option string;         (* [None]: the array is inactive *)
  p_slots : list Slot;
  p_info : string;                 (* "1953382464 blocks super 1.2" *)
  p_count : option Count;          (* none for raid0, linear and inactive arrays *)
  p_progress : option Progress;
  p_bitmap : option Bitmap;
  p_blanks : list string           (* the empty lines that end the section *)
}.

Definition p_state (p : Printed) : string := match p_level p with Some _ => "active" | None => "inactive" end.
Definition level_text (p : Printed) : list string := match p_level p with Some l => [l] | None => [] end.

Definition slot_text (s : Slot) : string := show_member (sl_dev s) (sl_role s) (sl_flag s).
Definition header_rest (p : Printed) : string := Join (p_state p :: level_text p ++ map slot_text (p_slots p)) " ".
Definition header_text (p : Printed) : string := "md" +:+ p_name p +:+ " : " +:+ header_rest p.

Definition count_text (c : Count) : string :=
  "[" +:+ Itoa (ct_total c) +:+ "/" +:+ Itoa (ct_up c) +:+ "] [" +:+ ct_slots c +:+ "]".
Definition info_text (p : Printed) : string :=
  "      " +:+ p_info p +:+ match p_count p with Some c => " " +:+ count_text c | None => "" end.

Definition percent_text (t : Z) : string := Itoa (t / 10) +:+ "." +:+ Itoa (t mod 10).
Definition progress_text (g : Progress) : string :=
  ("      [" +:+ pg_bar g +:+ "]  ") +:+ pg_action g +:+ " " +:+ "=" +:+ pg_pad g +:+ percent_text (pg_tenths g) +:+ "%" +:+
  (" (" +:+ Itoa (pg_done g) +:+ "/" +:+ Itoa (pg_of g) +:+ ") finish=" +:+ pg_finish g +:+ " ") +:+
  "speed=" +:+ Itoa (pg_speed g) +:+ "K/sec".

Definition bitmap_text (b : Bitmap) : string :=
  ("      bitmap: " +:+ Itoa (bm_used b) +:+ "/" +:+ Itoa (bm_pages b) +:+ " pages ") +:+ "[" +:+ Itoa (bm_size b) +:+
  "KB], " +:+ Itoa (bm_chunk b) +:+ "KB chunk".

Definition optional {A} (f : A -> string) (o : option A) : list string := match o with Some a => [f a] | None => [] end.

Definition array_text (p : Printed) : list string :=
  header_text p :: info_text p :: optional progress_text (p_progress p) ++ optional bitmap_text (p_bitmap p) ++ p_blanks p.

Record slot_wf (s : Slot) : Prop := {
  sw_dev : word (sl_dev s) = true;
  sw_open : no_char "[" (sl_dev s);
  sw_role : 0 <= sl_role s <= int64_max;
  sw_flag : sl_flag s ∈ [""; "S"; "F"]
}.

Record count_wf (c : Count) : Prop := {
  cw_total : 0 <= ct_total c <= int64_max;
  cw_up : 0 <= ct_up c <= int64_max;
  cw_slots : ct_slots c <> "" /\ str_forall slot (ct_slots c) = true
}.

Definition bar (c : ascii) : bool := Ascii.eqb c "=" || Ascii.eqb c ">" || Ascii.eqb c ".".

Record progress_wf (g : Progress) : Prop := {
  gw_bar : str_forall bar (pg_bar g) = true;
  gw_action : pg_action g ∈ ["check"; "resync"; "recovery"; "reshape"];
  gw_pad : str_forall (Ascii.eqb " ") (pg_pad g) = true;
  gw_tenths : 0 <= pg_tenths g;
  gw_done : 0 <= pg_done g /\ 0 <= pg_of g;
  gw_finish : word (pg_finish g) = true /\ no_char "p" (pg_finish g) /\ no_char "[" (pg_finish g);
  gw_speed : 0 <= pg_speed g <= uint64_max
}.

Definition bitmap_wf (b : Bitmap) : Prop := 0 <= bm_used b /\ 0 <= bm_pages b /\ 0 <= bm_size b /\ 0 <= bm_chunk b.

Definition all {A} (P : A -> Prop) (o : option A) : Prop := match o with Some a => P a | None => True end.

Record printed_wf (p : Printed) : Prop := {
  pw_name : word (p_name p) = true;
  pw_level : all (fun l => word l = true /\ Contains l "[" = false) (p_level p);
  pw_slots : Forall slot_wf (p_slots p);
  pw_info : no_char "[" (p_info p) /\ no_char "010" (p_info p) /\ no_char "%" (p_info p);
  pw_blocks : exists c r, p_info p = String c r /\ is_space c = false;
  pw_count : all count_wf (p_count p);
  pw_progress : all progress_wf (p_progress p);
  pw_bitmap : all bitmap_wf (p_bitmap p);
  pw_blanks : p_blanks p <> [] /\ Forall (fun l => str_forall (Ascii.eqb " ") l = true) (p_blanks p)
}.

(** A member is up unless it is a spare or faulty, or its slot is not in use. *)
Definition slot_up (c : option Count) (s : Slot) : bool :=
  String.eqb (sl_flag s) "" &&
  match c with
  | Some c => match String.get (Z.to_nat (sl_role s)) (ct_slots c) with Some x => Ascii.eqb x "U" | None => true end
  | None => true
  end.

(** The array that was printed. *)
Definition read_back (p : Printed) : mdRaw :=
  {| r_name := "md" +:+ p_name p;
     r_level := default "" (p_level p);
     r_state := p_state p;
     r_members := map (fun s => {| mm_Device := sl_dev s; mm_Up := slot_up (p_count p) s |}) (p_slots p);
     r_roles := map sl_role (p_slots p);
     r_total := match p_count p with Some c => ct_total c | None => 0 end;
     r_up := match p_count p with Some c => ct_up c | None => 0 end;
     r_haveCount := match p_count p with Some _ => true | None => false end;
     r_action := match p_progress p with Some g => pg_action g | None => "" end;
     r_percent := match p_progress p with
                  | Some g => {| dec_digits := pg_tenths g; dec_scale := 1 |}
                  | None => zero_decimal
                  end;
     r_speedKBs := match p_progress p with Some g => pg_speed g | None => 0 end;
     r_finish := match p_progress p with Some g => pg_finish g | None => "" end |}.

(** *** Words and lines *)
Lemma word_spec s : word s = true <-> s <> "" /\ str_forall (fun c => negb (is_space c)) s = true.
Proof. unfold word. rewrite andb_true_iff, negb_true_iff, String.eqb_neq. done. Qed.

Lemma not_space_nonspace c : negb (is_space c) = true -> nonspace c = true.
Proof. destruct c as [[] [] [] [] [] [] [] []]; vm_compute; congruence. Qed.

Lemma not_space_dot c : negb (is_space c) = true -> dot c = true.
Proof. destruct c as [[] [] [] [] [] [] [] []]; vm_compute; congruence. Qed.

Lemma digit_not_space c : is_digit c = true -> negb (is_space c) = true.
Proof. destruct c as [[] [] [] [] [] [] [] []]; vm_compute; congruence. Qed.

Lemma upper_not_space c : upper c = true -> negb (is_space c) = true.
Proof. destruct c as [[] [] [] [] [] [] [] []]; vm_compute; congruence. Qed.

Lemma word_nonspace s : word s = true -> str_forall nonspace s = true.
Proof. intros [_ H]%word_spec. eapply str_forall_impl; [apply not_space_nonspace|done]. Qed.

Lemma flag_upper s : slot_wf s -> str_forall upper (sl_flag s) = true.
Proof. intros [_ _ _ Hf]. repeat (apply elem_of_cons in Hf as [->|Hf]; [done|]). by apply not_elem_of_nil in Hf. Qed.

Lemma slot_text_word s : slot_wf s -> word (slot_text s) = true.
Proof.
  intros Hs. pose proof (flag_upper s Hs) as Hf. destruct Hs as [[Hd0 Hd]%word_spec _ [Hr _] _].
  apply word_spec. unfold slot_text, show_member. split.
  - by destruct (sl_dev s).
  - rewrite !str_forall_app, Hd. simpl.
    rewrite (str_forall_impl _ _ _ digit_not_space (Itoa_digits _ Hr)). unfold show_flag.
    destruct (String.eqb (sl_flag s) ""); [done|]. rewrite !str_forall_app.
    by rewrite (str_forall_impl _ _ _ upper_not_space Hf).
Qed.

Lemma header_words p : printed_wf p ->
  Forall (fun w => word w = true) (p_state p :: level_text p ++ map slot_text (p_slots p)).
Proof.
  intros Hp. constructor; [unfold p_state; by destruct (p_level p)|]. apply Forall_app. split.
  - pose proof (pw_level p Hp) as Hl. unfold level_text. destruct (p_level p); [|constructor].
    constructor; [apply Hl|constructor].
  - apply List.Forall_map. eapply Forall_impl; [apply (pw_slots p Hp)|]. apply slot_text_word.
Qed.

Lemma Join_words_dot l : Forall (fun w => word w = true) l -> str_forall dot (Join l " ") = true.
Proof.
  induction 1 as [|x l Hx Hl IH]; [done|]. apply word_spec in Hx as [_ Hx].
  apply (str_forall_impl _ _ _ not_space_dot) in Hx.
  destruct l as [|y l]; [done|]. change (Join (x :: y :: l) " ") with (x +:+ " " +:+ Join (y :: l) " ").
  by rewrite !str_forall_app, Hx, IH.
Qed.

Lemma dot_no_newline s : str_forall dot s = true -> no_char "010" s.
Proof. intros H. by apply (str_forall_no_char dot). Qed.

Lemma no_char_app c a b : no_char c (a +:+ b) <-> no_char c a /\ no_char c b.
Proof.
  induction a as [|x a IH]; simpl.
  - split; [intros; by split|by intros []].
  - rewrite !no_char_cons, IH. tauto.
Qed.

Lemma no_char_forall c s : no_char c s -> str_forall (fun x => negb (Ascii.eqb c x)) s = true.
Proof.
  induction s as [|x s IH]; [done|]. intros [Hx Hs]%no_char_cons. cbn [str_forall]. rewrite IH by done.
  rewrite andb_true_r. apply negb_true_iff, Ascii.eqb_neq. congruence.
Qed.

(** *** The header *)
Lemma parse_slot s : slot_wf s ->
  parse_member (slot_text s) = Some ({| mm_Device := sl_dev s; mm_Up := String.eqb (sl_flag s) "" |}, sl_role s).
Proof.
  intros Hs. pose proof (flag_upper s Hs) as Hf. destruct Hs as [Hd Hb Hr _].
  pose proof (word_nonspace _ Hd) as Hn. apply word_spec in Hd as [Hd0 _].
  destruct (member_field (sl_dev s) (sl_role s) (sl_flag s)) as (cs & Hm & H1 & H2 & H3); try done; [lia|].
  unfold parse_member. fold (slot_text s) in Hm. rewrite Hm, H1, H2, H3, Atoi_or_max_Itoa by done.
  unfold show_flag. by destruct (String.eqb_spec (sl_flag s) "").
Qed.

Lemma parse_slots l : Forall slot_wf l ->
  omap parse_member (map slot_text l) =
  map (fun s => ({| mm_Device := sl_dev s; mm_Up := String.eqb (sl_flag s) "" |}, sl_role s)) l.
Proof. induction 1 as [|s l Hs Hl IH]; simpl; [done|]. rewrite parse_slot by done. f_equal. exact IH. Qed.

(** A member is no level: it has a bracket. *)
Lemma Contains_bracket a b : Contains (a +:+ "[" +:+ b) "[" = true.
Proof.
  change ("[" +:+ b) with (String "[" b).
  induction a as [|c a IH]; [done|]. cbn [String.append Contains]. by rewrite IH, orb_true_r.
Qed.

(** What the header says of an array. *)
Definition header_raw (p : Printed) : mdRaw :=
  new_raw ("md" +:+ p_name p) (default "" (p_level p)) (p_state p)
    (map (fun s => {| mm_Device := sl_dev s; mm_Up := String.eqb (sl_flag s) "" |}) (p_slots p))
    (map sl_role (p_slots p)).

Lemma parse_header p : printed_wf p ->
  match_here headerRe (header_text p) = Some [(2%nat, header_rest p); (1%nat, "md" +:+ p_name p)] /\
  parseHeader ("md" +:+ p_name p) (header_rest p) = header_raw p.
Proof.
  intros Hp. pose proof (header_words p Hp) as Hw. split.
  - pose proof (word_nonspace _ (pw_name p Hp)) as Hn. destruct (proj1 (word_spec _) (pw_name p Hp)) as [Hn0 _].
    apply header_line; [done|done|by apply Join_words_dot|]. unfold header_rest, p_state. by destruct (p_level p), (level_text p ++ _).
  - unfold parseHeader, header_rest. rewrite Fields_Join by done. unfold header_raw. cbv zeta.
    pose proof (pw_level p Hp) as Hl. pose proof (parse_slots _ (pw_slots p Hp)) as Hs.
    assert (Hgo : forall level, new_raw ("md" +:+ p_name p) level (p_state p)
        ((omap parse_member (map slot_text (p_slots p))).*1) ((omap parse_member (map slot_text (p_slots p))).*2)
      = new_raw ("md" +:+ p_name p) level (p_state p)
          (map (fun s => {| mm_Device := sl_dev s; mm_Up := String.eqb (sl_flag s) "" |}) (p_slots p)) (map sl_role (p_slots p))).
    { intros level. rewrite Hs. f_equal; by rewrite <- list_fmap_compose. }
    unfold level_text. destruct (p_level p) as [l|]; cbn [app default].
    + destruct Hl as [_ ->]. cbn [negb]. apply Hgo.
    + destruct (p_slots p) as [|s l]; [done|]. cbn [map]. unfold slot_text at 1, show_member at 1.
      rewrite Contains_bracket. cbn [negb]. exact (Hgo "").
Qed.

(** *** The line of the counts *)
Lemma apply_slots_spec c l : Forall slot_wf l ->
  apply_slots (map (fun s => {| mm_Device := sl_dev s; mm_Up := String.eqb (sl_flag s) "" |}) l) (map sl_role l) (ct_slots c) =
  Some (map (fun s => {| mm_Device := sl_dev s; mm_Up := slot_up (Some c) s |}) l).
Proof.
  induction 1 as [|s l Hs Hl IH]; [done|]. cbn [map apply_slots]. rewrite IH. destruct Hs as [_ _ [Hr _] _].
  unfold slot_up. set (bitmap := ct_slots c). destruct ((0 <=? sl_role s) && (sl_role s <? Z.of_nat (String.length bitmap))) eqn:E.
  - destruct (str_get_lt (Z.to_nat (sl_role s)) bitmap) as [x ->]; [lia|]. cbn [mm_Device].
    destruct (Ascii.eqb x "U"); cbn [negb]; by rewrite ?andb_true_r, ?andb_false_r.
  - assert (String.get (Z.to_nat (sl_role s)) bitmap = None) as ->; [|by rewrite andb_true_r].
    assert (String.length bitmap <= Z.to_nat (sl_role s))%nat as Hle by lia. clear -Hle. revert Hle.
    generalize (Z.to_nat (sl_role s)). induction bitmap as [|x bm IH]; intros n Hn; [by destruct n|].
    destruct n as [|n]; simpl in *; [lia|]. apply IH. lia.
Qed.

Lemma slot_not_digit c : is_digit c = true -> slot c = false.
Proof. destruct c as [[] [] [] [] [] [] [] []]; vm_compute; congruence. Qed.

(** The bitmap is the second bracket of the line: the counts are no slots. *)
Lemma find_bitmap pre total t bm :
  no_char "[" pre -> no_char "[" t -> 0 <= total -> bm <> "" -> str_forall slot bm = true ->
  search bitmapRe (pre +:+ "[" +:+ Itoa total +:+ t +:+ "[" +:+ bm +:+ "]") = Some [(1%nat, bm)].
Proof.
  intros Hpre Ht H0 Hb0 Hb. unfold bitmapRe. rewrite search_skip by done.
  change ("[" +:+ ?x) with (String "[" x). cbn [search].
  assert (match_here (chr "[" · Grp 1 (Plus slot) · chr "]")
            (String "[" (Itoa total +:+ t +:+ "[" +:+ bm +:+ "]")) = None) as ->.
  { unfold match_here. rewrite run_cat, run_chr_cons, run_cat, run_grp.
    pose proof (Itoa_digits total H0) as Hd. pose proof (Itoa_nonempty total).
    destruct (Itoa total) as [|c r]; [done|]. simpl in Hd |- *. apply andb_true_iff in Hd as [Hc _].
    by rewrite (slot_not_digit _ Hc). }
  cbn [orelse]. rewrite search_skip by by apply Itoa_no_char. rewrite search_skip by done.
  apply search_here. by apply (bitmap_field bm "").
Qed.

(** A progress line has a percent sign. *)
Lemma search_progress_None s : no_char "%" s -> search progressRe s = None.
Proof.
  intros Hs. apply search_None. intros p w s' cs -> Hm. apply no_char_app in Hs as [_ Hs]. apply no_char_app in Hs as [Hs _].
  unfold progressRe in Hm. do 5 (apply matches_cat in Hm as (? & ? & ? & -> & _ & Hm); apply no_char_app in Hs as [_ Hs]).
  apply matches_cat in Hm as (? & ? & ? & -> & [-> _]%matches_chr & _). by apply no_char_cons in Hs as [? _].
Qed.

(** The array as the header and the line of the counts leave it. *)
Definition counted_raw (p : Printed) : mdRaw :=
  let r := set_members (header_raw p) (map (fun s => {| mm_Device := sl_dev s; mm_Up := slot_up (p_count p) s |}) (p_slots p)) in
  match p_count p with Some c => set_count r (ct_total c) (ct_up c) | None => r end.

Lemma parse_info p : printed_wf p -> parse_body (header_raw p) (info_text p) = Some (counted_raw p).
Proof.
  intros Hp. destruct (pw_info p Hp) as (Hi & _ & Hpc). unfold parse_body, info_text, counted_raw.
  pose proof (pw_count p Hp) as Hc. pose proof (pw_slots p Hp) as Hm. destruct (p_count p) as [c|].
  2:{ rewrite str_app_nil_r. assert (Hno : no_char "[" ("      " +:+ p_info p)) by (rewrite no_char_app; by split).
      unfold countRe. rewrite search_absent by done.
      rewrite search_progress_None by (rewrite no_char_app; by split). f_equal. unfold header_raw, set_members, new_raw.
      cbn. f_equal. apply map_ext. intros s. unfold slot_up. by rewrite andb_true_r. }
  destruct Hc as [Ht Hu [Hb0 Hb]].
  assert (Hpre : no_char "[" (("      " +:+ p_info p) +:+ " ")) by (rewrite !no_char_app; by repeat split).
  assert (Hline : "      " +:+ p_info p +:+ " " +:+ count_text c =
    (("      " +:+ p_info p) +:+ " ") +:+ "[" +:+ Itoa (ct_total c) +:+ ("/" +:+ Itoa (ct_up c) +:+ "] ") +:+ "[" +:+ ct_slots c +:+ "]").
  { unfold count_text. by rewrite !str_app_assoc. }
  rewrite Hline. clear Hline. set (pre := ("      " +:+ p_info p) +:+ " ") in *.
  rewrite find_bitmap; try done; [|rewrite !no_char_app; repeat split; try done; by apply Itoa_no_char|lia].
  assert (search countRe (pre +:+ "[" +:+ Itoa (ct_total c) +:+ ("/" +:+ Itoa (ct_up c) +:+ "] ") +:+ "[" +:+ ct_slots c +:+ "]")
    = Some [(2%nat, Itoa (ct_up c)); (1%nat, Itoa (ct_total c))]) as ->.
  { unfold countRe. rewrite search_skip by done. apply search_here.
    replace (("/" +:+ Itoa (ct_up c) +:+ "] ") +:+ "[" +:+ ct_slots c +:+ "]")
      with ("/" +:+ Itoa (ct_up c) +:+ "]" +:+ " [" +:+ ct_slots c +:+ "]") by (by rewrite !str_app_assoc).
    apply count_line; lia. }
  unfold group. cbn [List.find fst snd Nat.eqb]. rewrite !Atoi_or_max_Itoa by done.
  unfold applyBitmap. cbn [set_count header_raw new_raw r_members r_roles]. by rewrite apply_slots_spec.
Qed.

(** *** The line of the progress *)
Lemma match_action a s (k : string -> caps -> option caps) x :
  a ∈ ["check"; "resync"; "recovery"; "reshape"] -> k s [(1%nat, a)] = Some x ->
  run (Grp 1 (lit "check" ∥ lit "resync" ∥ lit "recovery" ∥ lit "reshape")) (a +:+ s) [] k = Some x.
Proof.
  intros Ha Hk. rewrite run_grp, !run_alt.
  repeat (apply elem_of_cons in Ha as [->|Ha]; [|]); [..|by apply not_elem_of_nil in Ha];
    repeat (rewrite run_lit_no by reflexivity; cbn [orelse]); rewrite run_lit, between_app, Hk; done.
Qed.

Lemma spaces_re s : str_forall (Ascii.eqb " ") s = true -> str_forall re_space s = true.
Proof. apply str_forall_impl. by intros c <-%Ascii.eqb_eq. Qed.

Lemma percent_shape t : 0 <= t -> exists c r, percent_text t = String c r /\ is_digit c = true.
Proof.
  intros Ht. unfold percent_text. pose proof (Itoa_digits (t / 10) ltac:(apply Z.div_pos; lia)) as Hd.
  pose proof (Itoa_nonempty (t / 10)). destruct (Itoa (t / 10)) as [|c r]; [done|].
  apply andb_true_iff in Hd as [Hc _]. by eexists _, _.
Qed.

Lemma percent_chars t : 0 <= t -> str_forall digit_or_dot (percent_text t) = true.
Proof.
  intros Ht. pose proof (Z.mod_pos_bound t 10 ltac:(lia)). unfold percent_text. rewrite !str_forall_app.
  assert (Hd : forall z, 0 <= z -> str_forall digit_or_dot (Itoa z) = true).
  { intros z Hz. eapply str_forall_impl; [|by apply Itoa_digits]. intros c Hc. unfold digit_or_dot. by rewrite digit_is_digit, Hc. }
  rewrite !Hd; [done|lia|apply Z.div_pos; lia].
Qed.

(** No match of "speed=" begins in a text without a p. *)
Lemma no_speed a r : no_char "p" a -> a <> "" -> strip_prefix "speed=" (a +:+ "speed=" +:+ r) = None.
Proof.
  intros Ha Hne. destruct a as [|c a]; [done|]. apply no_char_cons in Ha as [_ Ha].
  cbn [strip_prefix String.append]. destruct (Ascii.eqb "s" c); [|done]. destruct a as [|d a]; [done|].
  apply no_char_cons in Ha as [Hd _]. cbn [strip_prefix String.append]. destruct (Ascii.eqb_spec "p" d); [by subst|done].
Qed.

Lemma digits_no c z : 0 <= z -> is_digit c = false -> no_char c (Itoa z).
Proof. intros Hz Hc. apply (str_forall_no_char is_digit); [by apply Itoa_digits|done]. Qed.

(** The text between the percent sign and the speed. *)
Definition between_text (g : Progress) : string :=
  " (" +:+ Itoa (pg_done g) +:+ "/" +:+ Itoa (pg_of g) +:+ ") finish=" +:+ pg_finish g +:+ " ".

Lemma between_no_p g : progress_wf g -> no_char "p" (between_text g).
Proof.
  intros [_ _ _ _ [Hd1 Hd2] (_ & Hp & _) _]. unfold between_text. rewrite !no_char_app.
  repeat split; try done; by apply digits_no.
Qed.

Lemma word_dot s : word s = true -> str_forall dot s = true.
Proof. intros [_ H]%word_spec. eapply str_forall_impl; [apply not_space_dot|done]. Qed.

Lemma digits_dot z : 0 <= z -> str_forall dot (Itoa z) = true.
Proof. intros Hz. eapply str_forall_impl; [|by apply Itoa_digits]. intros c Hc. by apply not_space_dot, digit_not_space. Qed.

Lemma between_dot g : progress_wf g -> str_forall dot (between_text g) = true.
Proof.
  intros [_ _ _ _ [Hd1 Hd2] (Hw & _ & _) _]. unfold between_text. rewrite !str_forall_app, (word_dot _ Hw), (digits_dot _ Hd1), (digits_dot _ Hd2). done.
Qed.

Lemma progress_line g : progress_wf g ->
  match_here progressRe (pg_action g +:+ " " +:+ "=" +:+ pg_pad g +:+ percent_text (pg_tenths g) +:+ "%" +:+
    between_text g +:+ "speed=" +:+ Itoa (pg_speed g) +:+ "K/sec")
  = Some [(3%nat, Itoa (pg_speed g)); (2%nat, percent_text (pg_tenths g)); (1%nat, pg_action g)].
Proof.
  intros Hg. pose proof (between_no_p g Hg) as Hnp. pose proof (between_dot g Hg) as Hdot.
  destruct Hg as [_ Ha Hpad Ht _ _ [Hs _]]. unfold match_here, progressRe.
  rewrite run_cat. apply match_action; [done|].
  rewrite run_cat. apply run_many_longest; [done|done|].
  rewrite run_cat, run_chr. rewrite run_cat. apply run_many_longest; [by apply spaces_re| |].
  { destruct (percent_shape (pg_tenths g) Ht) as (c & r & -> & Hc). cbn [String.append stops].
    by destruct c as [[] [] [] [] [] [] [] []]. }
  rewrite run_cat, run_grp. apply run_plus_longest; [|by apply percent_chars|done|].
  { by destruct (percent_shape (pg_tenths g) Ht) as (c & r & -> & _). }
  rewrite run_cat, run_chr. rewrite run_cat. apply run_many_shortest; [done| |].
  - intros a1 c a2 Heq. rewrite Heq in Hnp. apply no_char_app in Hnp as [_ Hnp]. rewrite run_cat.
    apply run_lit_no. by apply (no_speed (String c a2)).
  - rewrite run_cat, run_lit, run_cat, run_grp. apply run_plus_longest; [apply Itoa_nonempty|by apply Itoa_digits|done|].
    etrans; [exact (run_lit "K/sec" "" _ _)|]. by rewrite !between_app.
Qed.

Lemma progress_head c s : Ascii.eqb c "c" || Ascii.eqb c "r" = false -> match_here progressRe (String c s) = None.
Proof.
  intros [H1 H2]%orb_false_iff. unfold match_here, progressRe. rewrite run_cat, run_grp, !run_alt.
  rewrite !run_lit_no; [done|..]; cbn [strip_prefix]; rewrite (Ascii.eqb_sym _ c), ?H1, ?H2; done.
Qed.

Lemma bar_no c s : bar c = false -> str_forall bar s = true -> no_char c s.
Proof. intros Hc Hs. by apply (str_forall_no_char bar). Qed.

Lemma bar_class (f : ascii -> bool) s :
  f "="%char = true -> f ">"%char = true -> f "."%char = true -> str_forall bar s = true -> str_forall f s = true.
Proof.
  intros H1 H2 H3. apply str_forall_impl. intros c Hc. unfold bar in Hc.
  destruct (Ascii.eqb_spec c "="), (Ascii.eqb_spec c ">"), (Ascii.eqb_spec c "."); by subst.
Qed.

Lemma search_progress g : progress_wf g ->
  search progressRe (progress_text g)
  = Some [(3%nat, Itoa (pg_speed g)); (2%nat, percent_text (pg_tenths g)); (1%nat, pg_action g)].
Proof.
  intros Hg. unfold progress_text. rewrite (search_skip_class (fun c => Ascii.eqb c "c" || Ascii.eqb c "r")).
  - apply search_here. by apply progress_line.
  - apply progress_head.
  - rewrite !str_forall_app. rewrite (bar_class _ (pg_bar g)); [done..|apply Hg].
Qed.

Lemma action_class f a : a ∈ ["check"; "resync"; "recovery"; "reshape"] -> 
  str_forall f "checkresyncrecoveryreshape" = true -> str_forall f a = true.
Proof.
  intros Ha Hf. change "checkresyncrecoveryreshape" with ("check" +:+ "resync" +:+ "recovery" +:+ "reshape") in Hf.
  rewrite !str_forall_app, !andb_true_iff in Hf. destruct Hf as (H1 & H2 & H3 & H4).
  repeat (apply elem_of_cons in Ha as [->|Ha]; [assumption|]). by apply not_elem_of_nil in Ha.
Qed.

Lemma finish_head c s : Ascii.eqb c "f" = false -> match_here finishRe (String c s) = None.
Proof.
  intros Hc. unfold match_here, finishRe. rewrite run_cat. apply run_lit_no. cbn [strip_prefix].
  by rewrite (Ascii.eqb_sym _ c), Hc.
Qed.

Lemma search_finish g : progress_wf g -> search finishRe (progress_text g) = Some [(1%nat, pg_finish g)].
Proof.
  intros [Hb Ha Hpad Ht [Hd1 Hd2] (Hf & _ & _) _]. unfold progress_text.
  set (tail := "speed=" +:+ Itoa (pg_speed g) +:+ "K/sec").
  set (pre := ("      [" +:+ pg_bar g +:+ "]  ") +:+ pg_action g +:+ " " +:+ "=" +:+ pg_pad g +:+ percent_text (pg_tenths g)
    +:+ "% (" +:+ Itoa (pg_done g) +:+ "/" +:+ Itoa (pg_of g) +:+ ") ").
  match goal with |- search finishRe ?s = _ =>
    assert (s = pre +:+ "finish=" +:+ pg_finish g +:+ " " +:+ tail) as -> by (unfold pre; by rewrite !str_app_assoc) end.
  rewrite (search_skip_class (fun c => Ascii.eqb c "f")).
  - apply search_here. unfold match_here, finishRe. rewrite run_cat, run_lit, run_grp.
    apply run_plus_longest; [|by apply word_nonspace|done|].
    + by apply word_spec in Hf as [? _].
    + by rewrite between_app.
  - apply finish_head.
  - assert (Hdig : forall z, 0 <= z -> str_forall (fun c => negb (Ascii.eqb c "f")) (Itoa z) = true).
    { intros z Hz. eapply str_forall_impl; [|by apply Itoa_digits]. intros c Hc. by destruct c as [[] [] [] [] [] [] [] []]. }
    pose proof (Z.mod_pos_bound (pg_tenths g) 10 ltac:(lia)).
    unfold pre, percent_text. rewrite !str_forall_app. rewrite !Hdig; [|lia|lia|lia|apply Z.div_pos; lia].
    rewrite (bar_class _ (pg_bar g)) by done. rewrite (action_class _ _ Ha) by done.
    rewrite (str_forall_impl (Ascii.eqb " ") _ (pg_pad g)); [done| |done]. by intros c <-%Ascii.eqb_eq.
Qed.

Lemma search_count_progress g : progress_wf g -> search countRe (progress_text g) = None.
Proof.
  intros [Hb Ha Hpad Ht [Hd1 Hd2] (_ & _ & Hf) [Hs _]]. unfold countRe.
  pose proof (Z.mod_pos_bound (pg_tenths g) 10 ltac:(lia)).
  set (rest := pg_action g +:+ " " +:+ "=" +:+ pg_pad g +:+ percent_text (pg_tenths g) +:+ "%" +:+ between_text g +:+
    "speed=" +:+ Itoa (pg_speed g) +:+ "K/sec").
  assert (progress_text g = "      " +:+ String "[" (pg_bar g +:+ "]  " +:+ rest)) as ->.
  { unfold progress_text, rest, between_text. rewrite !str_app_assoc. reflexivity. }
  rewrite search_skip by done. cbn [search].
  assert (match_here (chr "[" · Grp 1 (Plus digit) · chr "/" · Grp 2 (Plus digit) · chr "]")
            (String "[" (pg_bar g +:+ "]  " +:+ rest)) = None) as ->.
  { unfold match_here. rewrite run_cat, run_chr_cons, run_cat, run_grp. destruct (pg_bar g) as [|c r]; [done|].
    cbn [str_forall] in Hb. apply andb_true_iff in Hb as [Hc _]. cbn [String.append]. unfold Plus. rewrite run_cat. cbn [run].
    assert (digit c = false) as ->; [|done]. by destruct c as [[] [] [] [] [] [] [] []]. }
  cbn [orelse]. apply search_absent. rewrite !no_char_app. split; [by apply bar_no|]. split; [done|].
  unfold rest, between_text, percent_text. rewrite !no_char_app.
  assert (Hdig : forall z, 0 <= z -> no_char "[" (Itoa z)) by (intros; by apply digits_no).
  assert (Hact : no_char "[" (pg_action g)).
  { apply (str_forall_no_char (fun c => negb (Ascii.eqb c "["))); [by apply action_class|done]. }
  assert (Hsp : no_char "[" (pg_pad g)) by by apply (str_forall_no_char (Ascii.eqb " ")).
  repeat split; try done; apply Hdig; try done; [|lia]. apply Z.div_pos; lia.
Qed.

Definition progressed (r : mdRaw) (o : option Progress) : mdRaw :=
  match o with
  | Some g => set_progress r (pg_action g) {| dec_digits := pg_tenths g; dec_scale := 1 |} (pg_speed g) (pg_finish g)
  | None => r
  end.

Lemma parse_progress g r : progress_wf g -> parse_body r (progress_text g) = Some (progressed r (Some g)).
Proof.
  intros Hg. unfold parse_body. rewrite search_count_progress, search_progress, search_finish by done.
  unfold group. cbn [List.find fst snd Nat.eqb]. unfold progressed.
  rewrite ParseUint_Itoa by apply Hg. unfold percent_text. by rewrite ParseFloat_tenths by apply Hg.
Qed.

(** *** The line of the write-intent bitmap *)
Lemma parse_bitmap b r : bitmap_wf b -> parse_body r (bitmap_text b) = Some r.
Proof.
  intros (H1 & H2 & H3 & H4). unfold parse_body.
  assert (Hdig : forall c z, 0 <= z -> is_digit c = false -> no_char c (Itoa z)) by (intros; by apply digits_no).
  assert (search countRe (bitmap_text b) = None) as ->.
  { unfold countRe, bitmap_text. rewrite search_skip by (rewrite !no_char_app; repeat split; auto; done).
    change ("[" +:+ ?x) with (String "[" x). cbn [search].
    assert (match_here (chr "[" · Grp 1 (Plus digit) · chr "/" · Grp 2 (Plus digit) · chr "]")
      (String "[" (Itoa (bm_size b) +:+ "KB], " +:+ Itoa (bm_chunk b) +:+ "KB chunk")) = None) as ->.
    { apply match_here_None. intros w s' cs Heq Hm.
      apply matches_cat in Hm as (? & w1 & ? & -> & [-> _]%matches_chr & Hm).
      apply matches_cat in Hm as (d & w2 & ? & -> & (? & _ & (_ & Hd & _)%matches_plus)%matches_grp & Hm).
      apply matches_cat in Hm as (? & w3 & ? & -> & [-> _]%matches_chr & _).
      cbn [String.append] in Heq. injection Heq as Heq. rewrite !str_app_assoc in Heq. cbn [String.append] in Heq.
      apply digits_end in Heq; [done|by apply Itoa_digits|exact Hd|done|done]. }
    cbn [orelse]. apply search_absent. rewrite !no_char_app. repeat split; auto; done. }
  rewrite search_progress_None; [done|]. unfold bitmap_text. rewrite !no_char_app. repeat split; auto; done.
Qed.

(** *** The whole file *)
(** A line that opens no array: /proc/mdstat begins with "Personalities" and
    ends with "unused devices". *)
Definition plain (line : string) : Prop := HasPrefix line "md" = false /\ no_char "010" line.

Lemma header_needs_md line : HasPrefix line "md" = false -> match_here headerRe line = None.
Proof.
  intros H. apply match_here_None. intros w s' cs -> Hm.
  enough (HasPrefix (w +:+ s') "md" = true) by congruence. apply HasPrefix_true.
  apply matches_cat in Hm as (w1 & w2 & cs1 & -> & Hg & _). apply matches_grp in Hg as (c & -> & Hg).
  apply matches_cat in Hg as (v1 & v2 & cs2 & -> & [-> _]%matches_lit & _).
  rewrite !str_app_assoc. eauto.
Qed.

Lemma parse_plain lines rest out : Forall plain lines -> parse_lines (lines ++ rest) out None = parse_lines rest out None.
Proof.
  induction 1 as [|line lines [Hl _] _ IH]; [done|]. cbn [app parse_lines]. by rewrite header_needs_md.
Qed.

Lemma TrimSpace_nonblank a c b : is_space c = false -> TrimSpace (a +:+ String c b) <> "".
Proof.
  intros Hc. unfold TrimSpace. assert (Hr : forall x, trim_right is_space (x +:+ String c b) <> "").
  { induction x as [|d x IH]; simpl.
    - rewrite Hc. by destruct (trim_right is_space b).
    - destruct (trim_right is_space (x +:+ String c b)); [by destruct IH|done]. }
  induction a as [|d a IH]; simpl.
  - rewrite Hc. exact (Hr "").
  - destruct (is_space d); [exact IH|exact (Hr (String d a))].
Qed.

(** A line of the section, and its end. *)
Lemma parse_section line r r' rest out :
  HasPrefix line "md" = false -> TrimSpace line <> "" -> parse_body r line = Some r' ->
  parse_lines (line :: rest) out (Some r) = parse_lines rest out (Some r').
Proof.
  intros Hmd Ht Hb. cbn [parse_lines]. rewrite header_needs_md by done.
  by rewrite (proj2 (String.eqb_neq _ _) Ht), Hb.
Qed.

Lemma TrimSpace_blank l : str_forall (Ascii.eqb " ") l = true -> TrimSpace l = "" /\ HasPrefix l "md" = false.
Proof.
  destruct l as [|c l]; [done|]. intros [Hc Hl]%andb_true_iff. apply Ascii.eqb_eq in Hc as <-. split; [|done].
  unfold TrimSpace. cbn. induction l as [|d l IH]; [done|]. apply andb_true_iff in Hl as [Hd Hl].
  apply Ascii.eqb_eq in Hd as <-. by apply IH.
Qed.

Lemma parse_blanks ls r rest out :
  ls <> [] -> Forall (fun l => str_forall (Ascii.eqb " ") l = true) ls ->
  parse_lines (ls ++ rest) out (Some r) = parse_lines rest (out ++ [r]) None.
Proof.
  intros Hne Hls. destruct Hls as [|l ls Hl Hls]; [done|]. destruct (TrimSpace_blank l Hl) as [Ht Hmd].
  cbn [app parse_lines]. rewrite header_needs_md, Ht by done. cbn [String.eqb flush].
  change (String.eqb "" "") with true. cbv iota. clear -Hls. induction Hls as [|l ls Hl Hls IH]; [done|].
  destruct (TrimSpace_blank l Hl) as [_ Hmd]. cbn [app parse_lines]. by rewrite header_needs_md.
Qed.

Lemma read_back_raw p : read_back p = progressed (counted_raw p) (p_progress p).
Proof. unfold read_back, progressed, counted_raw, header_raw. by destruct (p_count p), (p_progress p). Qed.

Lemma info_shape p : printed_wf p -> TrimSpace (info_text p) <> "".
Proof.
  intros Hp. destruct (pw_blocks p Hp) as (c & r & Hi & Hc). unfold info_text. rewrite Hi.
  rewrite str_app_cons, !str_app_assoc. by apply (TrimSpace_nonblank "      ").
Qed.

Lemma parse_opening p rest out : printed_wf p ->
  parse_lines (header_text p :: rest) out None = parse_lines rest out (Some (header_raw p)).
Proof.
  intros Hp. destruct (parse_header p Hp) as [Hh Hh2]. cbn [parse_lines]. rewrite Hh. unfold group.
  cbn [List.find fst snd Nat.eqb flush]. by rewrite Hh2.
Qed.

Lemma parse_array p rest out : printed_wf p ->
  parse_lines (array_text p ++ rest) out None = parse_lines rest (out ++ [read_back p]) None.
Proof.
  intros Hp. unfold array_text. cbn [app].
  assert (Hbl : forall r, parse_lines (p_blanks p ++ rest) out (Some r) = parse_lines rest (out ++ [r]) None).
  { intros r. apply parse_blanks; apply (pw_blanks p Hp). }
  rewrite parse_opening by done. rewrite (parse_section (info_text p) _ (counted_raw p)); [|done|by apply info_shape|by apply parse_info].
  rewrite read_back_raw. generalize (counted_raw p). intros r. pose proof (pw_progress p Hp) as Hg. pose proof (pw_bitmap p Hp) as Hb.
  assert (Hrest : forall r', parse_lines ((optional bitmap_text (p_bitmap p) ++ p_blanks p) ++ rest) out (Some r')
    = parse_lines rest (out ++ [r']) None).
  { intros r'. destruct (p_bitmap p) as [b|]; cbn [optional app]; [|apply Hbl].
    rewrite (parse_section (bitmap_text b) r' r'); [apply Hbl|done| |by apply parse_bitmap].
    unfold bitmap_text. rewrite !str_app_assoc. by apply (TrimSpace_nonblank "      "). }
  destruct (p_progress p) as [g|]; cbn [optional app]; [|apply Hrest].
  rewrite (parse_section (progress_text g) r (progressed r (Some g))); [apply Hrest|done| |by apply parse_progress].
  unfold progress_text. rewrite !str_app_assoc. by apply (TrimSpace_nonblank "      ").
Qed.

Lemma parse_arrays ps rest out : Forall printed_wf ps ->
  parse_lines (concat (map array_text ps) ++ rest) out None = parse_lines rest (out ++ map read_back ps) None.
Proof.
  intros Hps. revert out. induction Hps as [|p ps Hp Hps IH]; intros out; [by rewrite app_nil_r|].
  cbn [map concat]. rewrite <- app_assoc, parse_array by done. rewrite IH, <- app_assoc. done.
Qed.

Lemma array_text_lines p : printed_wf p -> Forall (no_char "010") (array_text p).
Proof.
  intros Hp. pose proof (header_words p Hp) as Hw. destruct Hp as [Hn _ _ (_ & Hi & _) _ Hc Hg Hb [_ Hbl]].
  assert (Hdig : forall z, 0 <= z -> no_char "010" (Itoa z)) by (intros; by apply digits_no).
  constructor; [|constructor; [|rewrite !Forall_app; split; [|split]]].
  - apply word_dot, dot_no_newline in Hn. unfold header_text. rewrite !no_char_app. repeat split; try done.
    by apply dot_no_newline, Join_words_dot.
  - unfold info_text. rewrite !no_char_app. split; [done|]. split; [done|]. destruct (p_count p) as [c|]; [|done].
    destruct Hc as [[Ht _] [Hu _] [_ Hs]]. unfold count_text. rewrite !no_char_app.
    repeat split; auto; try done. by apply (str_forall_no_char slot).
  - destruct (p_progress p) as [g|]; constructor; [|constructor].
    destruct Hg as [Hbar Ha Hpad Ht [Hd1 Hd2] (Hf & _ & _) [Hs _]].
    pose proof (Z.mod_pos_bound (pg_tenths g) 10 ltac:(lia)). apply word_dot, dot_no_newline in Hf.
    assert (Hact : no_char "010" (pg_action g)).
    { apply (str_forall_no_char (fun c => negb (Ascii.eqb c "010"))); [by apply action_class|done]. }
    unfold progress_text, percent_text. rewrite !no_char_app.
    repeat split; try done; try (apply Hdig; try done; try lia; apply Z.div_pos; lia).
    + by apply bar_no.
    + by apply (str_forall_no_char (Ascii.eqb " ")).
  - destruct (p_bitmap p) as [b|]; constructor; [|constructor]. destruct Hb as (? & ? & ? & ?). unfold bitmap_text.
    rewrite !no_char_app. repeat split; auto; done.
  - eapply Forall_impl; [exact Hbl|]. intros l Hl. by apply (str_forall_no_char (Ascii.eqb " ")).
Qed.
(** /proc/mdstat with the arrays [ps] between its other lines. *)
Definition mdstat_text (pre : list string) (ps : list Printed) (post : list string) : string :=
  Join (pre ++ concat (map array_text ps) ++ post) (String "010" "").

(** C18. What the kernel prints of its arrays is what the parser reads, for
    arrays that run, check, resync, recover or reshape and for inactive ones,
    with or without counts and a write-intent bitmap, as long as no member is
    flagged other than as spare or faulty: name, state, level, every member with
    its number, the counts, the progress, and which members are up, which are
    those that are no spare, not faulty and whose slot, if it is shown, is in
    use. The other lines of the file add nothing. *)
Theorem parseMdstat_roundtrip pre ps post :
  Forall plain pre -> Forall plain post -> Forall printed_wf ps -> post <> [] ->
  parseMdstat (mdstat_text pre ps post) = Some (map read_back ps).
Proof.
  intros Hpre Hpost Hps Hne. unfold parseMdstat, mdstat_text. rewrite Split_Join.
  - rewrite parse_plain, parse_arrays by done.
    rewrite <- (app_nil_r post), parse_plain by done. done.
  - destruct pre; [|done]. destruct (concat _); [done|discriminate].
  - rewrite !Forall_app. repeat split.
    + eapply Forall_impl; [exact Hpre|]. by intros ? [_ ?].
    + apply Forall_concat, List.Forall_map. eapply Forall_impl; [exact Hps|]. apply array_text_lines.
    + eapply Forall_impl; [exact Hpost|]. by intros ? [_ ?].
Qed.

(** A degraded mirror with a spare, a raid5 under check, a raid6 with a bitmap,
    a stripe and an inactive array: the fixtures of the unit tests, and what they
    leave out. *)
Definition demo_mirror : Printed :=
  {| p_name := "0"; p_level := Some "raid1";
     p_slots := [ {| sl_dev := "sdb1"; sl_role := 1; sl_flag := "" |}; {| sl_dev := "sda1"; sl_role := 0; sl_flag := "" |};
                  {| sl_dev := "sdc1"; sl_role := 2; sl_flag := "S" |} ];
     p_info := "1953382464 blocks super 1.2"; p_count := Some {| ct_total := 2; ct_up := 1; ct_slots := "U_" |};
     p_progress := None; p_bitmap := None; p_blanks := ["      "; ""] |}.

Definition demo_checking : Printed :=
  {| p_name := "1"; p_level := Some "raid5";
     p_slots := [ {| sl_dev := "sdc1"; sl_role := 3; sl_flag := "" |}; {| sl_dev := "sdd1"; sl_role := 1; sl_flag := "" |};
                  {| sl_dev := "sde1"; sl_role := 0; sl_flag := "" |} ];
     p_info := "3906764800 blocks super 1.2"; p_count := Some {| ct_total := 3; ct_up := 3; ct_slots := "UUU" |};
     p_progress := Some {| pg_bar := "====>................"; pg_action := "check"; pg_pad := " "; pg_tenths := 126;
                           pg_done := 246804480; pg_of := 1953382464; pg_finish := "189.2min"; pg_speed := 149377 |};
     p_bitmap := None; p_blanks := [""] |}.

Definition demo_bitmap : Printed :=
  {| p_name := "127"; p_level := Some "raid6";
     p_slots := [ {| sl_dev := "sda1"; sl_role := 1; sl_flag := "" |}; {| sl_dev := "sdg1"; sl_role := 0; sl_flag := "F" |} ];
     p_info := "23440416768 blocks super 1.2 level 6, 512k chunk, algorithm 2";
     p_count := Some {| ct_total := 2; ct_up := 1; ct_slots := "_U" |}; p_progress := None;
     p_bitmap := Some {| bm_used := 17; bm_pages := 30; bm_size := 68; bm_chunk := 65536 |}; p_blanks := [""] |}.

Definition demo_stripe : Printed :=
  {| p_name := "2"; p_level := Some "raid0"; p_slots := [ {| sl_dev := "nvme0n1"; sl_role := 0; sl_flag := "" |} ];
     p_info := "1000 blocks super 1.2 512k chunks"; p_count := None; p_progress := None; p_bitmap := None;
     p_blanks := ["      "; ""] |}.

Definition demo_inactive : Printed :=
  {| p_name := "3"; p_level := None; p_slots := [ {| sl_dev := "sdf1"; sl_role := 0; sl_flag := "S" |} ];
     p_info := "1000 blocks super 1.2"; p_count := None; p_progress := None; p_bitmap := None; p_blanks := [""] |}.

Definition demo_arrays : list Printed := [demo_mirror; demo_checking; demo_bitmap; demo_stripe; demo_inactive].

(** Their text, line by line. *)
Example demo_lines :
  array_text demo_checking =
    ["md1 : active raid5 sdc1[3] sdd1[1] sde1[0]"; "      3906764800 blocks super 1.2 [3/3] [UUU]";
     "      [====>................]  check = 12.6% (246804480/1953382464) finish=189.2min speed=149377K/sec"; ""]
  /\ array_text demo_bitmap =
    ["md127 : active raid6 sda1[1] sdg1[0](F)";
     "      23440416768 blocks super 1.2 level 6, 512k chunk, algorithm 2 [2/1] [_U]";
     "      bitmap: 17/30 pages [68KB], 65536KB chunk"; ""]
  /\ array_text demo_inactive = ["md3 : inactive sdf1[0](S)"; "      1000 blocks super 1.2"; ""].
Proof. by repeat split. Qed.

Ltac printed_wf :=
  repeat match goal with
  | |- Forall _ [] => apply Forall_nil_2
  | |- Forall _ (_ :: _) => apply Forall_cons; split
  | |- _ /\ _ => split
  | |- exists _ _, _ => do 2 eexists
  | |- slot_wf _ => split; cbn
  | |- count_wf _ => split; cbn
  | |- progress_wf _ => split; cbn
  | |- bitmap_wf _ => unfold bitmap_wf; cbn
  | |- printed_wf _ => split; cbn
  | |- _ ∈ _ => set_solver
  end; try done; try (by vm_compute).

Lemma demo_arrays_wf : Forall printed_wf demo_arrays.
Proof. unfold demo_arrays. printed_wf. Qed.

Lemma parseMdstat_roundtrip_witness :
  parseMdstat (mdstat_text ["Personalities : [raid1]"] demo_arrays ["unused devices: <none>"; ""])
    = Some (map read_back demo_arrays) /\
  map (fun p => map mm_Up (r_members (read_back p))) demo_arrays
    = [[false; true; false]; [true; true; true]; [true; false]; [true]; [false]].
Proof.
  split; [|reflexivity]. apply (parseMdstat_roundtrip ["Personalities : [raid1]"] demo_arrays ["unused devices: <none>"; ""]).
  - repeat constructor.
  - repeat constructor.
  - exact demo_arrays_wf.
  - discriminate.
Defined.

(** ** What the parser takes for something else *)
(** A write-mostly member in use is read as down, for any flag is; with two
    flags it is not read at all. *)
Example write_mostly_is_read_as_down :
  parseMdstat (Join ["md0 : active raid1 sdb1[1](W) sda1[0]"; "      1000 blocks super 1.2 [2/2] [UU]"; ""] (String "010" ""))
  = Some [set_count (new_raw "md0" "raid1" "active" [{| mm_Device := "sdb1"; mm_Up := false |}; {| mm_Device := "sda1"; mm_Up := true |}]
      [1; 0]) 2 2]
  /\ parse_member "sdb1[1](W)(F)" = None.
Proof. split; vm_compute; reflexivity. Qed.

(** The state of a read-only array has a second word, which is taken for the
    level. *)
Example read_only_is_taken_for_the_level :
  r_level (parseHeader "md0" "active (auto-read-only) raid1 sdb1[1] sda1[0]") = "(auto-read-only)".
Proof. vm_compute. reflexivity. Qed.

(** ** The members that match *)
(** The expression for a member accepts exactly the fields of the form device,
    decimal role in brackets, and optionally a flag of capitals in parentheses,
    where device and role are not empty. *)
Theorem memberRe_accepts field :
  match_here memberRe field <> None <->
  exists dev role flag, field = dev +:+ "[" +:+ role +:+ "]" +:+ show_flag flag /\
    dev <> "" /\ str_forall nonspace dev = true /\ role <> "" /\ str_forall digit role = true /\
    str_forall upper flag = true.
Proof.
  rewrite match_here_defined. unfold memberRe, LazyPlus, Plus, Opt. split.
  - intros (w & s' & cs & -> & H).
    apply matches_cat in H as (dev & w1 & c1 & -> & (c & -> & (Hd & Hd' & ->)%matches_plus)%matches_grp & H).
    apply matches_cat in H as (b & w2 & c2 & -> & [-> ->]%matches_chr & H).
    apply matches_cat in H as (role & w3 & c3 & -> & (c' & -> & (Hr & Hr' & ->)%matches_plus)%matches_grp & H).
    apply matches_cat in H as (b & w4 & c4 & -> & [-> ->]%matches_chr & H).
    apply matches_cat in H as (f & w5 & c5 & -> & Hf & (-> & -> & ->)%matches_eot).
    exists dev, role. apply matches_alt in Hf as [(c6 & -> & Hf)%matches_grp|[-> ->]%matches_eps].
    + apply matches_cat in Hf as (b & w7 & c7 & -> & [-> ->]%matches_chr & Hf).
      apply matches_cat in Hf as (flag & w8 & c8 & -> & (Hf & Hf' & ->)%matches_plus & [-> ->]%matches_chr).
      exists flag. unfold show_flag. apply String.eqb_neq in Hf. rewrite Hf.
      repeat split; try done. by rewrite !str_app_assoc.
    + exists "". repeat split; try done. by rewrite !str_app_assoc.
  - intros (dev & role & flag & -> & Hd & Hd' & Hr & Hr' & Hf).
    exists (dev +:+ "[" +:+ role +:+ "]" +:+ show_flag flag), "".
    eexists (if String.eqb flag "" then _ else _). split; [by rewrite str_app_nil_r|].
    apply matches_cat. exists dev, ("[" +:+ role +:+ "]" +:+ show_flag flag), [(1%nat, dev)].
    split; [done|]. split; [apply matches_grp; eexists; split; [done|]; by apply matches_plus|].
    apply matches_cat. exists "[", (role +:+ "]" +:+ show_flag flag). eexists. split; [done|]. split; [by apply matches_chr|].
    apply matches_cat. exists role, ("]" +:+ show_flag flag). eexists. split; [done|].
    split; [apply matches_grp; eexists; split; [done|]; by apply matches_plus|].
    apply matches_cat. exists "]", (show_flag flag). eexists. split; [done|]. split; [by apply matches_chr|].
    apply matches_cat. exists (show_flag flag), "". eexists. split; [by rewrite str_app_nil_r|].
    split; [|by apply matches_eot]. apply matches_alt. unfold show_flag.
    destruct (String.eqb_spec flag ""); [right; by apply matches_eps|left].
    apply matches_grp. eexists. split; [done|]. apply matches_cat. exists "(", (flag +:+ ")"). eexists. split; [done|].
    split; [by apply matches_chr|]. apply matches_cat. exists flag, ")". eexists. split; [done|].
    split; [by apply matches_plus|]. by apply matches_chr.
Qed.
