(* ===== verification/RaidWatch.v ===== *)
(** * The RAID watcher (src/internal/raidwatch: raidwatch.go, schedule.go)

    The transitions between two sweeps, the scheduler of data-scrubs with its
    retries, and manual starts. The reader of /proc/mdstat and the kernel's
    answer to a start are [RaidEnv]; rrule-go is [RRuleEnv]. *)
From S2P Require Import Prelude GoStrings Api Db Docker World Sim StoreSettings StoreMdadm.
Open Scope Z_scope.

(** The injected functions [Watcher.scan] and [Watcher.start]. *)
Class RaidEnv (E : Type) := {
  md_scan : E -> E * list MdArray;
  md_start : string -> E -> E * option error
}.

(** rrule-go: the options a rule's text stands for ([rr_StrToROption], in
    [time.Local]) with their DTSTART ([None] when it is zero), the rule made of
    them, and the first occurrence after a time, not including it ([None] when
    it is zero). Times are nanoseconds; [rr_zone] is the UTC offset of
    [time.Local] at the anchor's date. *)
Class RRuleEnv := {
  ROption : Type;
  RRule : Type;
  rr_StrToROption : string -> result ROption;
  ro_Dtstart : ROption -> option Z;
  ro_set_Dtstart : Z -> ROption -> ROption;
  rr_NewRRule : ROption -> result RRule;
  rr_After : RRule -> Z -> option Z;
  rr_zone : Z
}.

(** What the library documents: occurrences fall on whole seconds, and [After]
    finds the first one. *)
Class RRuleOk `{!RRuleEnv} (occurs : RRule -> Z -> Prop) : Prop := {
  rr_whole : forall r t, occurs r t -> t mod second = 0;
  rr_some : forall r s t, rr_After r s = Some t -> occurs r t /\ s < t;
  rr_first : forall r s t u, rr_After r s = Some t -> occurs r u -> s < u -> t <= u;
  rr_none : forall r s u, rr_After r s = None -> occurs r u -> u <= s
}.

Definition check : string := "check".

Definition badState (s : MdArrayState) : bool :=
  match s with MdDegraded | MdFailed => true | _ => false end.

Definition state_text (s : MdArrayState) : string :=
  match s with MdHealthy => "healthy" | MdDegraded => "degraded" | MdRecovering => "recovering" | MdFailed => "failed" end.

Definition snapshot (a : MdArray) : MdArrayBaseline :=
  {| mb_State := md_State a; mb_SyncAction := md_SyncAction a;
     mb_Members := fold_left (fun m x => <[mm_Device x := mm_Up x]> m) (md_Members a) ∅ |}.

Definition no_meta : EventMeta := {| em_ContainerName := ""; em_StackID := "" |}.

(** The waits between attempts, in nanoseconds. *)
Definition minute : Z := 60 * second.
Definition retryDelays : list Z := [minute; 5 * minute; 15 * minute; 60 * minute].

Section Watcher.
Context {E : Type} `{!Env E} `{!RaidEnv E} `{!RRuleEnv} `{!RaidCodecs}.

Definition scan : M E (list MdArray) := call md_scan (fun _ => []).
Definition start (name : string) : M E (option error) :=
  call (md_start name) (fun e => [EvRaidStart name e]).
Definition raid_notify (ev : NotificationEvent) (title body : string) : M E unit := notify ev title body no_meta.

(** ** Transitions *)
Definition notifyScan (a : MdArray) (prev : MdArrayBaseline) : M E bool :=
  let was := String.eqb (mb_SyncAction prev) check in
  let now := String.eqb (md_SyncAction a) check in
  if negb was && now then
    _ ← raid_notify EventRaidScanStarted (md_Name a +:+ " scan started")
          ("A data-scrub (check) started on " +:+ md_Name a +:+ " (" +:+ md_Level a
           +:+ "). This can take hours and adds disk load.");
    mret false
  else if was && negb now then
    _ ← raid_notify EventRaidScanFinished (md_Name a +:+ " scan finished")
          ("The data-scrub on " +:+ md_Name a +:+ " finished. Mismatch count: " +:+ Itoa (md_MismatchCnt a) +:+ ".");
    mret true
  else mret false.

Definition notifyHealth (a : MdArray) (prev : MdArrayBaseline) : M E unit :=
  let wasBad := badState (mb_State prev) in
  let isBad := badState (md_State a) in
  if negb wasBad && isBad then
    raid_notify EventRaidUnhealthy (md_Name a +:+ " is " +:+ state_text (md_State a))
      (md_Name a +:+ " (" +:+ md_Level a +:+ ") is " +:+ state_text (md_State a) +:+ ": "
       +:+ Itoa (md_DevicesUp a) +:+ " of " +:+ Itoa (md_DevicesTotal a) +:+ " member disks are up.")
  else if wasBad && negb isBad then
    raid_notify EventRaidUnhealthy (md_Name a +:+ " recovered") (md_Name a +:+ " is healthy again.")
  else mret tt.

Definition notifyDisks (a : MdArray) (prev : MdArrayBaseline) : M E unit :=
  for_each (md_Members a) (fun m =>
    match mb_Members prev !! mm_Device m with
    | Some true =>
        if mm_Up m then mret tt
        else raid_notify EventRaidDiskOffline (mm_Device m +:+ " dropped from " +:+ md_Name a)
               ("Member disk " +:+ mm_Device m +:+ " of " +:+ md_Name a
                +:+ " is no longer up. The array is running without it.")
    | Some false =>
        if mm_Up m then
          raid_notify EventRaidDiskOffline (mm_Device m +:+ " rejoined " +:+ md_Name a)
            ("Member disk " +:+ mm_Device m +:+ " of " +:+ md_Name a +:+ " is back up.")
        else mret tt
    | None => mret tt
    end).

(** One array of the sweep; [s] is [lastScan] and [scanChanged]. *)
Definition transition_of (baseline : gmap string MdArrayBaseline) (now : Z) (s : gmap string Z * bool) (a : MdArray) :
    M E (gmap string Z * bool) :=
  match baseline !! md_Name a with
  | None => mret s
  | Some prev =>
      finished ← notifyScan a prev;
      _ ← notifyHealth a prev;
      _ ← notifyDisks a prev;
      mret (if (finished : bool) then (<[md_Name a := now / second]> s.1, true) else s)
  end.

Definition next_baseline (arrays : list MdArray) : gmap string MdArrayBaseline :=
  fold_left (fun m a => <[md_Name a := snapshot a]> m) arrays ∅.

Definition checkTransitions (arrays : list MdArray) (now : Z) : M E unit :=
  rb ← LoadMdadmBaseline;
  match rb with
  | Fail _ => mret tt
  | Ok baseline =>
      rl ← LoadMdadmLastScan;
      match rl with
      | Fail _ => mret tt
      | Ok lastScan =>
          s ← for_fold arrays (transition_of baseline now) (lastScan, false);
          _ ← SaveMdadmBaseline (next_baseline arrays);
          if (s.2 : bool) then (_ ← SaveMdadmLastScan s.1; mret tt) else mret tt
      end
  end.

(** ** The scheduler *)
Definition scheduleAnchor : Z := (1577836800 - rr_zone) * second.

Definition parseRRule (rule : string) : result RRule :=
  match rr_StrToROption rule with
  | Fail e => Fail e
  | Ok opt => rr_NewRRule (match ro_Dtstart opt with None => ro_set_Dtstart scheduleAnchor opt | Some _ => opt end)
  end.

Definition ValidateRRule (rule : string) : option error :=
  if String.eqb rule "" then Some (errorf "empty schedule")
  else err_of (parseRRule rule).

Definition dueSince (rule : string) (since now : Z) : result bool :=
  match parseRRule rule with
  | Fail e => Fail e
  | Ok r => match rr_After r since with
            | None => Ok false
            | Some next => Ok (negb (now <? next))
            end
  end.

Definition no_failure : MdScanFailure :=
  {| sf_Error := ""; sf_FirstAt := 0; sf_LastAt := 0; sf_Attempts := 0; sf_NextRetryAt := 0; sf_Scheduled := false |}.

Definition recordFailure (name : string) (prev : MdScanFailure) (err : error) (scheduled : bool) (now : Z) :
    M E MdScanFailure :=
  let attempts := sf_Attempts prev + 1 in
  let base retry :=
    {| sf_Error := Error err; sf_FirstAt := if sf_Attempts prev =? 0 then now / second else sf_FirstAt prev;
       sf_LastAt := now / second; sf_Attempts := attempts; sf_NextRetryAt := retry; sf_Scheduled := scheduled |} in
  f ← (if scheduled && (attempts <=? Z.of_nat (length retryDelays)) then
         if attempts - 1 <? 0 then panic "index out of range"
         else match retryDelays !! Z.to_nat (attempts - 1) with
              | Some dt => mret (base ((now + dt) / second))
              | None => panic "index out of range"
              end
       else mret (base 0));
  _ ← (if negb scheduled then
         raid_notify EventRaidScanFailed ("Couldn't start scan on " +:+ name) (Error err)
       else if sf_Attempts f =? 1 then
         raid_notify EventRaidScanFailed ("Scheduled scan on " +:+ name +:+ " couldn't start")
           (Error err +:+ ". Veery will retry.")
       else if sf_NextRetryAt f =? 0 then
         raid_notify EventRaidScanFailed ("Scheduled scan on " +:+ name +:+ " failed")
           (Error err +:+ ". Gave up after " +:+ Itoa (sf_Attempts f)
            +:+ " attempts; the next scheduled run will try again.")
       else mret tt);
  mret f.

(** The variables [runSchedules] carries from array to array. *)
Record Sched := {
  sd_failures : gmap string MdScanFailure;
  sd_lastRun : gmap string Z;
  sd_runChanged : bool;
  sd_failChanged : bool
}.

Definition set_failures (s : Sched) f : Sched :=
  {| sd_failures := f; sd_lastRun := sd_lastRun s; sd_runChanged := sd_runChanged s; sd_failChanged := true |}.
Definition set_lastRun (s : Sched) r : Sched :=
  {| sd_failures := sd_failures s; sd_lastRun := r; sd_runChanged := true; sd_failChanged := sd_failChanged s |}.

Definition is_scheduled (schedules : gmap string MdadmSchedule) (name : string) : option string :=
  match schedules !! name with
  | Some sc => if ms_Enabled sc && negb (String.eqb (ms_RRule sc) "") then Some (ms_RRule sc) else None
  | None => None
  end.

(** The start of a scrub that is due, and what is remembered of it. *)
Definition try_start (name : string) (failed : option MdScanFailure) (retrying : bool) (now : Z) (s : Sched) :
    M E Sched :=
  r ← start name;
  match r with
  | Some err =>
      let prev := if retrying then default no_failure failed else no_failure in
      next ← recordFailure name prev err true now;
      let s1 := set_failures s (<[name := next]> (sd_failures s)) in
      mret (if sf_NextRetryAt next =? 0 then set_lastRun s1 (<[name := now / second]> (sd_lastRun s1)) else s1)
  | None =>
      let s1 := match failed with Some _ => set_failures s (delete name (sd_failures s)) | None => s end in
      mret (set_lastRun s1 (<[name := now / second]> (sd_lastRun s1)))
  end.

Definition schedule_one (schedules : gmap string MdadmSchedule) (now : Z) (s : Sched) (a : MdArray) : M E Sched :=
  let name := md_Name a in
  let scheduled := is_scheduled schedules name in
  let fail := sd_failures s !! name in
  let moot := match fail with
              | Some f => String.eqb (md_SyncAction a) check
                          || (sf_Scheduled f && negb (bool_decide (is_Some scheduled)))
              | None => false
              end in
  let s0 := if moot then set_failures s (delete name (sd_failures s)) else s in
  let failed := if moot then None else fail in
  match scheduled with
  | None => mret s0
  | Some rule =>
      match sd_lastRun s0 !! name with
      | None => mret (set_lastRun s0 (<[name := now / second]> (sd_lastRun s0)))
      | Some since =>
          if negb (String.eqb (md_SyncAction a) "idle") && negb (String.eqb (md_SyncAction a) "") then mret s0
          else
            match failed with
            | Some f =>
                if sf_Scheduled f && (0 <? sf_NextRetryAt f) then
                  if now / second <? sf_NextRetryAt f then mret s0 else try_start name failed true now s0
                else
                  match dueSince rule (since * second) now with
                  | Ok true => try_start name failed false now s0
                  | _ => mret s0
                  end
            | None =>
                match dueSince rule (since * second) now with
                | Ok true => try_start name failed false now s0
                | _ => mret s0
                end
            end
      end
  end.

Definition runSchedules (arrays : list MdArray) (now : Z) : M E unit :=
  rc ← LoadMdadmSchedules;
  match rc with
  | Fail _ => mret tt
  | Ok schedules =>
      rf ← LoadMdadmScanFailures;
      match rf with
      | Fail _ => mret tt
      | Ok failures =>
          rr ← LoadMdadmLastRun;
          match rr with
          | Fail _ => mret tt
          | Ok lastRun =>
              s ← for_fold arrays (schedule_one schedules now)
                    {| sd_failures := failures; sd_lastRun := lastRun; sd_runChanged := false; sd_failChanged := false |};
              _ ← (if sd_runChanged s then (_ ← SaveMdadmLastRun (sd_lastRun s); mret tt) else mret tt);
              if sd_failChanged s then (_ ← SaveMdadmScanFailures (sd_failures s); mret tt) else mret tt
          end
      end
  end.

Definition sweep (now : Z) : M E unit :=
  arrays ← scan;
  match arrays with
  | [] => mret tt
  | _ => _ ← checkTransitions arrays now; runSchedules arrays now
  end.

(** ** Manual starts *)
Definition Start (name : string) (now : Z) : M E (option error) :=
  arrays ← scan;
  if negb (existsb (fun a => String.eqb (md_Name a) name) arrays) then
    mret (Some (errorf ("no such array " +:+ quoted name)))
  else
    startErr ← start name;
    rf ← LoadMdadmScanFailures;
    match rf with
    | Fail _ => mret startErr
    | Ok failures =>
        match startErr with
        | Some err =>
            f ← recordFailure name no_failure err false now;
            _ ← SaveMdadmScanFailures (<[name := f]> failures);
            mret startErr
        | None =>
            match failures !! name with
            | Some _ => _ ← SaveMdadmScanFailures (delete name failures); mret startErr
            | None => mret None
            end
        end
    end.

(** [Watcher.interval], in nanoseconds. *)
Definition interval `{!JsonCodec (gmap string bool)} : M E Z :=
  r ← LoadSettings;
  mret (match r with
        | Ok cfg => if 0 <? set_PollIntervalSeconds cfg then set_PollIntervalSeconds cfg else DefaultPollIntervalSeconds
        | Fail _ => DefaultPollIntervalSeconds
        end * second).
End Watcher.

(** ** What a sweep announces *)

(** The changes of an array worth a message, with the title of the message. *)
Inductive raid_change (prev : MdArrayBaseline) (a : MdArray) : NotificationEvent -> string -> Prop :=
| rc_started : mb_SyncAction prev <> check -> md_SyncAction a = check ->
    raid_change prev a EventRaidScanStarted (md_Name a +:+ " scan started")
| rc_finished : mb_SyncAction prev = check -> md_SyncAction a <> check ->
    raid_change prev a EventRaidScanFinished (md_Name a +:+ " scan finished")
| rc_unhealthy : badState (mb_State prev) = false -> badState (md_State a) = true ->
    raid_change prev a EventRaidUnhealthy (md_Name a +:+ " is " +:+ state_text (md_State a))
| rc_recovered : badState (mb_State prev) = true -> badState (md_State a) = false ->
    raid_change prev a EventRaidUnhealthy (md_Name a +:+ " recovered")
| rc_dropped m : m ∈ md_Members a -> mb_Members prev !! mm_Device m = Some true -> mm_Up m = false ->
    raid_change prev a EventRaidDiskOffline (mm_Device m +:+ " dropped from " +:+ md_Name a)
| rc_rejoined m : m ∈ md_Members a -> mb_Members prev !! mm_Device m = Some false -> mm_Up m = true ->
    raid_change prev a EventRaidDiskOffline (mm_Device m +:+ " rejoined " +:+ md_Name a).

(** [t] holds only notifications of [P], and all of them when a notifier is
    attached. *)
Definition told (n : bool) (t : list Ev) (P : NotificationEvent -> string -> Prop) : Prop :=
  Forall (fun e => exists ev title body, e = EvNotify ev title body no_meta /\ P ev title) t
  /\ (n = true -> forall ev title, P ev title -> exists body, EvNotify ev title body no_meta ∈ t).

Lemma told_iff n t P P' : (forall ev ti, P ev ti <-> P' ev ti) -> told n t P -> told n t P'.
Proof.
  intros Hi [H1 H2]. split.
  - eapply Forall_impl; [exact H1|]. intros e (ev & ti & b & -> & Hp). exists ev, ti, b. by rewrite <- Hi.
  - intros Hn ev ti Hp. by apply H2, Hi.
Qed.

Lemma told_nil n P : (forall ev ti, ~ P ev ti) -> told n [] P.
Proof. intros H. split; [constructor|]. intros _ ev ti Hp. by apply H in Hp. Qed.

Lemma told_app n t1 t2 P1 P2 :
  told n t1 P1 -> told n t2 P2 -> told n (t1 ++ t2) (fun ev ti => P1 ev ti \/ P2 ev ti).
Proof.
  intros [H1 C1] [H2 C2]. split.
  - apply Forall_app. split; (eapply Forall_impl; [done|]); intros e (ev & ti & b & -> & Hp); exists ev, ti, b; auto.
  - intros Hn ev ti [Hp|Hp].
    + destruct (C1 Hn ev ti Hp) as [b Hb]. exists b. set_solver.
    + destruct (C2 Hn ev ti Hp) as [b Hb]. exists b. set_solver.
Qed.

Lemma told_one n ev title body P :
  (forall ev' ti, P ev' ti <-> ev' = ev /\ ti = title) ->
  told n (if n : bool then [EvNotify ev title body no_meta] else []) P.
Proof.
  intros Hi. destruct n.
  - split; [constructor; [|constructor]; exists ev, title, body; by rewrite Hi|].
    intros _ ev' ti Hp. apply Hi in Hp as [-> ->]. exists body. set_solver.
  - split; [constructor|done].
Qed.

Ltac raid_inv Hc := inversion Hc; subst; try congruence; try discriminate.

Lemma raid_change_kind prev a ev ti :
  raid_change prev a ev ti ->
  (ev = EventRaidScanStarted \/ ev = EventRaidScanFinished) \/ ev = EventRaidUnhealthy \/ ev = EventRaidDiskOffline.
Proof. intros Hc. inversion Hc; tauto. Qed.

Section Transitions.
Context {E : Type} `{!Env E} `{!RaidEnv E} `{!RRuleEnv} `{!RaidCodecs}.

(** [m] only notifies, of exactly the changes [P], and returns [x]. *)
Definition tells {A} (m : M E A) (x : A) (P : NotificationEvent -> string -> Prop) : Prop :=
  forall w, exists t, m w = (log w t, Ret x) /\ told (m_notif (w_mgr w)) t P.

Lemma tells_ret {A} (x : A) P : (forall ev ti, ~ P ev ti) -> tells (mret x) x P.
Proof. intros Hq w. exists []. rewrite log_nil. split; [done|]. by apply told_nil. Qed.

Lemma tells_bind {A B} (m : M E A) (k : A -> M E B) x y P1 P2 :
  tells m x P1 -> tells (k x) y P2 -> tells (m ≫= k) y (fun ev ti => P1 ev ti \/ P2 ev ti).
Proof.
  intros H1 H2 w. destruct (H1 w) as (t1 & R1 & T1). destruct (H2 (log w t1)) as (t2 & R2 & T2).
  exists (t1 ++ t2). unfold mbind, M_bind. rewrite R1, R2, log_log. split; [done|]. by apply told_app.
Qed.

Lemma tells_iff {A} (m : M E A) x P P' : (forall ev ti, P ev ti <-> P' ev ti) -> tells m x P -> tells m x P'.
Proof. intros Hi Ht w. destruct (Ht w) as (t & R & T). exists t. split; [done|]. by eapply told_iff. Qed.

Lemma tells_notify ev title body P :
  (forall ev' ti, P ev' ti <-> ev' = ev /\ ti = title) -> tells (raid_notify ev title body) tt P.
Proof.
  intros Hi w. eexists. split; [|by apply told_one].
  unfold raid_notify, notify, mbind, M_bind, gets, tell, mret, M_ret. simpl.
  by destruct (m_notif (w_mgr w)); rewrite ?log_nil.
Qed.

Lemma tells_say ev title body :
  tells (raid_notify ev title body) tt (fun ev' ti => ev' = ev /\ ti = title).
Proof. by apply tells_notify. Qed.

Lemma notifyScan_tells a prev :
  tells (notifyScan a prev)
    (bool_decide (mb_SyncAction prev = check) && negb (bool_decide (md_SyncAction a = check)))
    (fun ev ti => raid_change prev a ev ti /\ (ev = EventRaidScanStarted \/ ev = EventRaidScanFinished)).
Proof.
  unfold notifyScan.
  destruct (String.eqb_spec (mb_SyncAction prev) check) as [Hp|Hp], (String.eqb_spec (md_SyncAction a) check) as [Ha|Ha];
    cbn [negb andb].
  - rewrite !bool_decide_true by done. apply tells_ret. intros ev ti [Hc [-> | ->]]; raid_inv Hc.
  - rewrite bool_decide_true, bool_decide_false by done.
    eapply tells_iff; [|eapply tells_bind; [apply tells_say|apply (tells_ret true (fun _ _ => False)); tauto]].
    intros ev ti. split; [intros [[-> ->]|[]]; split; [by constructor|auto]|].
    intros [Hc [-> | ->]]; raid_inv Hc. by left.
  - rewrite bool_decide_false by done.
    eapply tells_iff; [|eapply tells_bind; [apply tells_say|apply (tells_ret false (fun _ _ => False)); tauto]].
    intros ev ti. split; [intros [[-> ->]|[]]; split; [by constructor|auto]|].
    intros [Hc [-> | ->]]; raid_inv Hc. by left.
  - rewrite bool_decide_false by done. apply tells_ret. intros ev ti [Hc [-> | ->]]; raid_inv Hc.
Qed.

Lemma notifyHealth_tells a prev :
  tells (notifyHealth a prev) tt
    (fun ev ti => raid_change prev a ev ti /\ ev = EventRaidUnhealthy).
Proof.
  unfold notifyHealth.
  destruct (badState (mb_State prev)) eqn:Hp, (badState (md_State a)) eqn:Ha; cbn [negb andb].
  - apply tells_ret. intros ev ti [Hc ->]. raid_inv Hc.
  - apply tells_notify. intros ev ti. split; [intros [Hc ->]; raid_inv Hc; auto|].
    intros [-> ->]. split; [by constructor|done].
  - apply tells_notify. intros ev ti. split; [intros [Hc ->]; raid_inv Hc; auto|].
    intros [-> ->]. split; [by constructor|done].
  - apply tells_ret. intros ev ti [Hc ->]. raid_inv Hc.
Qed.

(** The change of one member disk. *)
Definition disk_change (prev : MdArrayBaseline) (a : MdArray) (m : MdMember) (ev : NotificationEvent) (ti : string) : Prop :=
  ev = EventRaidDiskOffline
  /\ ((mb_Members prev !! mm_Device m = Some true /\ mm_Up m = false /\ ti = mm_Device m +:+ " dropped from " +:+ md_Name a)
      \/ (mb_Members prev !! mm_Device m = Some false /\ mm_Up m = true /\ ti = mm_Device m +:+ " rejoined " +:+ md_Name a)).

Lemma tells_for_each {A} (l : list A) (body : A -> M E unit) (P : A -> NotificationEvent -> string -> Prop) :
  (forall x, x ∈ l -> tells (body x) tt (P x)) ->
  tells (for_each l body) tt (fun ev ti => exists x, x ∈ l /\ P x ev ti).
Proof.
  induction l as [|x l IH]; intros Hb; cbn [for_each].
  - apply tells_ret. intros ev ti (x & Hx & _). set_solver.
  - eapply tells_iff; [|eapply tells_bind; [apply Hb; set_solver|apply IH; set_solver]].
    intros ev ti. simpl. split.
    + intros [Hp|(y & Hy & Hp)]; [exists x|exists y]; set_solver.
    + intros (y & Hy & Hp). apply elem_of_cons in Hy as [->|Hy]; [by left|right; eauto].
Qed.

Lemma notifyDisks_tells a prev :
  tells (notifyDisks a prev) tt (fun ev ti => raid_change prev a ev ti /\ ev = EventRaidDiskOffline).
Proof.
  unfold notifyDisks. eapply tells_iff; [|apply (tells_for_each (md_Members a) _ (disk_change prev a))].
  - intros ev ti. split.
    + intros (m & Hm & -> & [(Hp & Hu & ->)|(Hp & Hu & ->)]); split; try done; by constructor.
    + intros [Hc ->]. raid_inv Hc; eexists; (split; [done|]); split; auto.
  - intros m Hm. unfold disk_change. destruct (mb_Members prev !! mm_Device m) as [[]|], (mm_Up m).
    all: try (apply tells_ret; intros ev ti (_ & [(? & ? & _)|(? & ? & _)]); congruence).
    all: apply tells_notify; intros ev ti; split; [intros (-> & [(? & ? & ->)|(? & ? & ->)]); congruence || done|].
    all: intros [-> ->]; auto.
Qed.
(** The changes of one array against the stored baseline. *)
Definition change_of (base : gmap string MdArrayBaseline) (a : MdArray) (ev : NotificationEvent) (ti : string) : Prop :=
  exists prev, base !! md_Name a = Some prev /\ raid_change prev a ev ti.

(** A scrub of the array named [n] has just ended. *)
Definition finishes (base : gmap string MdArrayBaseline) (n : string) (a : MdArray) : bool :=
  String.eqb (md_Name a) n
  && match base !! md_Name a with
     | Some prev => bool_decide (mb_SyncAction prev = check) && negb (bool_decide (md_SyncAction a = check))
     | None => false
     end.

Definition finish_step (base : gmap string MdArrayBaseline) (now : Z) (s : gmap string Z * bool) (a : MdArray) :
    gmap string Z * bool :=
  if finishes base (md_Name a) a then (<[md_Name a := now / second]> s.1, true) else s.

Lemma transition_of_tells base now s a :
  tells (transition_of base now s a) (finish_step base now s a) (change_of base a).
Proof.
  unfold transition_of, finish_step, finishes. rewrite String.eqb_refl. cbn [andb].
  destruct (base !! md_Name a) as [prev|] eqn:Eb.
  - eapply tells_iff; [|eapply tells_bind; [apply notifyScan_tells|eapply tells_bind; [apply notifyHealth_tells|
      eapply tells_bind; [apply notifyDisks_tells|apply (tells_ret _ (fun _ _ => False)); tauto]]]].
    intros ev ti. unfold change_of. rewrite Eb. split; [naive_solver|].
    intros (p & [= <-] & Hc). destruct (raid_change_kind _ _ _ _ Hc); tauto.
  - apply tells_ret. intros ev ti (p & Hp & _). congruence.
Qed.

Lemma tells_for_fold {A S} (l : list A) (body : S -> A -> M E S) (f : S -> A -> S)
    (P : A -> NotificationEvent -> string -> Prop) s :
  (forall s x, tells (body s x) (f s x) (P x)) ->
  tells (for_fold l body s) (fold_left f l s) (fun ev ti => exists x, x ∈ l /\ P x ev ti).
Proof.
  intros Hb. revert s. induction l as [|x l IH]; intros s; cbn [for_fold fold_left].
  - apply tells_ret. intros ev ti (x & Hx & _). set_solver.
  - eapply tells_iff; [|eapply tells_bind; [apply Hb|apply IH]].
    intros ev ti. simpl. split.
    + intros [Hp|(y & Hy & Hp)]; [exists x|exists y]; set_solver.
    + intros (y & Hy & Hp). apply elem_of_cons in Hy as [->|Hy]; [by left|right; eauto].
Qed.

Lemma finish_fold base now l s n :
  (fold_left (finish_step base now) l s).1 !! n =
  if existsb (finishes base n) l then Some (now / second) else s.1 !! n.
Proof.
  revert s. induction l as [|a l IH]; intros s; [done|]. cbn [fold_left existsb]. rewrite IH.
  destruct (existsb (finishes base n) l) eqn:El; [by rewrite orb_true_r|]. rewrite orb_false_r.
  unfold finish_step. destruct (String.eqb_spec (md_Name a) n) as [<-|Hne].
  - destruct (finishes base (md_Name a) a); simpl; by simplify_map_eq.
  - assert (finishes base n a = false) as -> by (unfold finishes; by rewrite (proj2 (String.eqb_neq _ _) Hne)).
    destruct (finishes base (md_Name a) a); simpl; by simplify_map_eq.
Qed.

Lemma finish_fold_flag base now l s :
  (fold_left (finish_step base now) l s).2 = false -> fold_left (finish_step base now) l s = s.
Proof.
  revert s. induction l as [|a l IH]; intros s; [done|]. cbn [fold_left]. intros Hf.
  assert (Ht : forall l' s', s'.2 = true -> (fold_left (finish_step base now) l' s').2 = true).
  { clear. induction l' as [|a l' IH]; intros s' Hs; [done|]. cbn [fold_left]. apply IH.
    unfold finish_step. by destruct (finishes _ _ _). }
  unfold finish_step at 2. unfold finish_step at 2 in Hf. destruct (finishes base (md_Name a) a); [|auto].
  by rewrite Ht in Hf.
Qed.
End Transitions.

Section Sweeps.
Context {E : Type} `{!Env E} `{!RaidEnv E} `{!RRuleEnv} `{!RaidCodecs} `{!RaidCodecsOk}.

(** The last sweep's baseline, and the times of the last finished scrubs. *)
Definition stored_baseline (d : DB) : gmap string MdArrayBaseline := loaded keyMdadmBaseline ∅ d.
Definition stored_scans (d : DB) : gmap string Z := loaded keyMdadmLastScan ∅ d.

(** The changes of a whole sweep. *)
Definition sweep_change (base : gmap string MdArrayBaseline) (arrays : list MdArray) ev ti : Prop :=
  exists a, a ∈ arrays /\ change_of base a ev ti.

Lemma checkTransitions_run arrays now (w : World E) (Q : outcome unit -> World E -> Prop) :
  no_faults (E:=E) ->
  (forall e t d, told (m_notif (w_mgr w)) t (sweep_change (stored_baseline (w_db w)) arrays) ->
     stored_baseline d = next_baseline arrays ->
     (forall n, stored_scans d !! n =
        if existsb (finishes (stored_baseline (w_db w)) n) arrays then Some (now / second)
        else stored_scans (w_db w) !! n) ->
     Q (Ret tt) (mkWorld e d (w_mgr w) (w_trace w ++ t))) ->
  wp (checkTransitions arrays now) Q w.
Proof.
  intros Hn HQ. unfold checkTransitions, LoadMdadmBaseline, LoadMdadmLastScan.
  apply wp_bind, wp_getJSON; [done|]. intros e1. apply wp_bind, wp_getJSON; [done|]. intros e2.
  set (base := stored_baseline (w_db w)) in *. set (w2 := set_env (set_env w e1) e2).
  pose proof (tells_for_fold (E:=E) arrays (transition_of base now) (finish_step base now) (change_of base)
                (stored_scans (w_db w), false) (transition_of_tells base now)) as Hall.
  destruct (Hall w2) as (t & Ht & Htold). apply wp_bind. unfold wp at 1.
  change (loaded keyMdadmBaseline ∅ (w_db w)) with base.
  change (loaded keyMdadmLastScan ∅ (w_db (set_env w e1))) with (stored_scans (w_db w)).
  fold w2. rewrite Ht. clear Ht Hall. change (m_notif (w_mgr w2)) with (m_notif (w_mgr w)) in Htold.
  unfold SaveMdadmBaseline. apply wp_bind, wp_setJSON; [done|]. intros e3.
  pose proof (fun n => finish_fold base now arrays (stored_scans (w_db w), false) n) as Hscan. simpl in Hscan.
  destruct (fold_left (finish_step base now) arrays (stored_scans (w_db w), false)) as [scans changed] eqn:Ef.
  cbn [fst snd] in *. destruct changed.
  - unfold SaveMdadmLastScan. apply wp_bind, wp_setJSON; [done|]. intros e4. apply wp_ret, HQ; [done| |].
    + unfold stored_baseline. cbn [log set_env set_db w_db]. rewrite loaded_other by done. apply loaded_set.
    + intros n. rewrite <- Hscan. unfold stored_scans. cbn [log set_env set_db w_db]. by rewrite loaded_set.
  - apply wp_ret, HQ; [done|apply loaded_set|].
    intros n. rewrite <- Hscan. unfold stored_scans. cbn [log set_env set_db w_db]. rewrite loaded_other by done.
    pose proof (finish_fold_flag base now arrays (stored_scans (w_db w), false)) as Hsame. rewrite Ef in Hsame.
    specialize (Hsame eq_refl). injection Hsame as ->. done.
Qed.

(** C36. A sweep announces exactly the changes of the arrays against the last
    sweep (scrub started or finished, array unhealthy or recovered, disk dropped
    or rejoined), stores the new baseline, and stamps exactly the arrays whose
    scrub ended. *)
Theorem checkTransitions_announces_changes arrays now (w : World E) :
  no_faults (E:=E) ->
  wp (checkTransitions arrays now) (fun o w' =>
    o = Ret tt
    /\ (exists t, w_trace w' = w_trace w ++ t
        /\ told (m_notif (w_mgr w)) t (sweep_change (stored_baseline (w_db w)) arrays))
    /\ stored_baseline (w_db w') = next_baseline arrays
    /\ forall n, stored_scans (w_db w') !! n =
         if existsb (finishes (stored_baseline (w_db w)) n) arrays then Some (now / second)
         else stored_scans (w_db w) !! n) w.
Proof.
  intros Hn. apply checkTransitions_run; [done|]. intros e t d Ht Hb Hs. split; [done|].
  split; [by exists t|]. done.
Qed.

Lemma fold_insert_fresh {A V} (key : A -> string) (val : A -> V) l (m : gmap string V) k :
  k ∉ map key l -> fold_left (fun m x => <[key x := val x]> m) l m !! k = m !! k.
Proof.
  revert m. induction l as [|y l IH]; intros m Hk; [done|]. cbn [fold_left map] in *.
  rewrite IH by set_solver. apply lookup_insert_ne. set_solver.
Qed.

Lemma fold_insert_lookup {A V} (key : A -> string) (val : A -> V) l (m : gmap string V) x :
  NoDup (map key l) -> x ∈ l -> fold_left (fun m x => <[key x := val x]> m) l m !! key x = Some (val x).
Proof.
  revert m. induction l as [|y l IH]; intros m Hnd Hx; [set_solver|]. cbn [fold_left map] in *.
  apply NoDup_cons in Hnd as [Hy Hnd]. apply elem_of_cons in Hx as [->|Hx]; [|auto].
  rewrite fold_insert_fresh by done. apply lookup_insert_eq.
Qed.

(** Against its own snapshot an array has not changed. *)
Lemma snapshot_no_change a ev ti : NoDup (map mm_Device (md_Members a)) -> ~ raid_change (snapshot a) a ev ti.
Proof.
  intros Hnd Hc.
  assert (Hm : forall m, m ∈ md_Members a -> mb_Members (snapshot a) !! mm_Device m = Some (mm_Up m))
    by (intros m Hm; by apply (fold_insert_lookup mm_Device mm_Up)).
  inversion Hc; subst; simpl in *; try congruence.
  all: rewrite Hm in * by done; congruence.
Qed.

(** A second sweep over unchanged arrays announces nothing more. *)
Theorem checkTransitions_repeat_quiet arrays now now' (w : World E) :
  no_faults (E:=E) -> NoDup (map md_Name arrays) ->
  (forall a, a ∈ arrays -> NoDup (map mm_Device (md_Members a))) ->
  wp (_ ← checkTransitions arrays now; checkTransitions arrays now') (fun o w' =>
    o = Ret tt
    /\ (exists t, w_trace w' = w_trace w ++ t
        /\ told (m_notif (w_mgr w)) t (sweep_change (stored_baseline (w_db w)) arrays))
    /\ stored_baseline (w_db w') = next_baseline arrays) w.
Proof.
  intros Hn Hnd Hdev. apply wp_bind, checkTransitions_run; [done|]. intros e t d Ht Hb _.
  apply checkTransitions_run; [done|]. cbn [w_db w_mgr w_trace]. intros e' t' d' [Ht' _] Hb' _. split; [done|].
  split; [|done]. exists t. split; [|done].
  destruct Ht' as [|x t' (ev & ti & b & _ & a & Ha & prev & Hp & Hc) _]; [by rewrite app_nil_r|].
  exfalso. rewrite Hb in Hp. unfold next_baseline in Hp.
  rewrite (fold_insert_lookup md_Name snapshot) in Hp by done. injection Hp as <-.
  by eapply snapshot_no_change; [apply Hdev|].
Qed.
End Sweeps.

(** ** The scheduler *)

(** The attempts on the array [n] in a trace, with what the kernel answered. *)
Fixpoint starts (n : string) (t : list Ev) : list (option error) :=
  match t with
  | [] => []
  | EvRaidStart m e :: t' => if String.eqb m n then e :: starts n t' else starts n t'
  | _ :: t' => starts n t'
  end.

Lemma starts_app n t1 t2 : starts n (t1 ++ t2) = starts n t1 ++ starts n t2.
Proof.
  induction t1 as [|e t1 IH]; [done|]. destruct e; simpl; try done. destruct (String.eqb name n); simpl; by rewrite IH.
Qed.

(** At most [b] attempts, of which only the last may succeed. *)
Inductive tries : nat -> list (option error) -> Prop :=
| tries_none b : tries b []
| tries_fail b e l : tries b l -> tries (S b) (Some e :: l)
| tries_ok b : tries (S b) [None].

(** [l] attempts take the budget from [b] to [b']. *)
Definition spends (b : nat) (l : list (option error)) (b' : nat) : Prop := forall l', tries b' l' -> tries b (l ++ l').

Lemma spends_nil b : spends b [] b.
Proof. by intros l Hl. Qed.

Lemma spends_app b1 l1 b2 l2 b3 : spends b1 l1 b2 -> spends b2 l2 b3 -> spends b1 (l1 ++ l2) b3.
Proof. intros H1 H2 l Hl. rewrite <- app_assoc. auto. Qed.

Lemma spends_tries b l b' : spends b l b' -> tries b l.
Proof. intros Hs. rewrite <- (app_nil_r l). apply Hs. constructor. Qed.

Lemma tries_bound b l : tries b l -> (length l <= b)%nat.
Proof. induction 1; simpl; lia. Qed.

(** The maps of the scheduler that were not marked as changed are unchanged. *)
Definition sched_flags (s s' : Sched) : Prop :=
  (sd_runChanged s' = false -> sd_runChanged s = false /\ sd_lastRun s' = sd_lastRun s)
  /\ (sd_failChanged s' = false -> sd_failChanged s = false /\ sd_failures s' = sd_failures s).

(** Nothing about the array [n] was touched. *)
Definition sched_frame (n : string) (s s' : Sched) : Prop :=
  sd_failures s' !! n = sd_failures s !! n /\ sd_lastRun s' !! n = sd_lastRun s !! n.

Section Scheduler.
Context {E : Type} `{!Env E} `{!RaidEnv E} `{!RRuleEnv} `{!RaidCodecs}.

Lemma emits_raid_notify ev title body (P : outcome unit -> list Ev -> Prop) :
  (forall t, (forall n, starts n t = []) -> P (Ret tt) t) -> emits (E:=E) (raid_notify ev title body) P.
Proof.
  intros HP w. unfold raid_notify, notify, mbind, M_bind, gets, tell, mret, M_ret. simpl.
  destruct (m_notif (w_mgr w)); [exists [EvNotify ev title body no_meta]|exists []]; simpl; rewrite ?app_nil_r;
    (split; [done|by apply HP]).
Qed.

(** The record of a failed attempt. *)
Definition failure_of (prev : MdScanFailure) (err : error) (scheduled : bool) (now retry : Z) : MdScanFailure :=
  {| sf_Error := Error err; sf_FirstAt := if sf_Attempts prev =? 0 then now / second else sf_FirstAt prev;
     sf_LastAt := now / second; sf_Attempts := sf_Attempts prev + 1; sf_NextRetryAt := retry; sf_Scheduled := scheduled |}.

(** The wait after the [k]-th attempt, [None] when it was the last one. *)
Definition next_retry (now k : Z) : Z :=
  match retryDelays !! Z.to_nat (k - 1) with
  | Some dt => (now + dt) / second
  | None => 0
  end.

Lemma recordFailure_emits name prev err now (P : outcome MdScanFailure -> list Ev -> Prop) :
  (forall t, (forall n, starts n t = []) -> (0 <= sf_Attempts prev ->
     P (Ret (failure_of prev err true now (next_retry now (sf_Attempts prev + 1)))) t)) ->
  (sf_Attempts prev < 0 -> P (Panic "index out of range") []) ->
  emits (E:=E) (recordFailure name prev err true now) P.
Proof.
  intros HP Hpanic. unfold recordFailure. cbv zeta beta. cbn [andb negb].
  destruct (Z.leb_spec (sf_Attempts prev + 1) (Z.of_nat (length retryDelays))) as [Hle|Hgt]; cbn [andb].
  - destruct (Z.ltb_spec (sf_Attempts prev + 1 - 1) 0) as [Hneg|Hpos].
    { eapply emits_bind; [apply (emits_panic _ (fun o t => o = Panic "index out of range" /\ t = [])); done| |].
      - intros s t [[= ->] ->]. apply Hpanic. lia.
      - intros a t [? _]. done. }
    destruct (retryDelays !! Z.to_nat (sf_Attempts prev + 1 - 1)) as [dt|] eqn:Edt.
    2: { apply lookup_ge_None in Edt. simpl in *. lia. }
    assert (Hr : next_retry now (sf_Attempts prev + 1) = (now + dt) / second) by (unfold next_retry; by rewrite Edt).
    rewrite Hr in HP. fold (failure_of prev err true now ((now + dt) / second)).
    eapply emits_bind; [apply (emits_ret _ (fun o t => o = Ret (failure_of prev err true now ((now + dt) / second)) /\ t = [])); done|intros ? ? [? _]; discriminate|].
    intros f t [[= ->] ->]. cbn [app].
    eapply emits_bind with (P := fun o t => o = Ret tt /\ forall n, starts n t = []); [|by intros ? ? [? _]|].
    + repeat crack; first [by apply emits_ret | by apply emits_raid_notify].
    + intros [] t1 [_ Ht1]. apply emits_ret. rewrite app_nil_r. apply HP; [done|lia].
  - assert (Hr : next_retry now (sf_Attempts prev + 1) = 0).
    { unfold next_retry. rewrite lookup_ge_None_2; [done|]. simpl in *. lia. }
    rewrite Hr in HP. fold (failure_of prev err true now 0).
    eapply emits_bind; [apply (emits_ret _ (fun o t => o = Ret (failure_of prev err true now 0) /\ t = [])); done|intros ? ? [? _]; discriminate|].
    intros f t [[= ->] ->]. cbn [app].
    eapply emits_bind with (P := fun o t => o = Ret tt /\ forall n, starts n t = []); [|by intros ? ? [? _]|].
    + repeat crack; first [by apply emits_ret | by apply emits_raid_notify].
    + intros [] t1 [_ Ht1]. apply emits_ret. rewrite app_nil_r. apply HP; [done|]. simpl in *. lia.
Qed.
(** The only attempts of [t] are those of [l], on [name]. *)
Definition only_at (name : string) (l : list (option error)) (t : list Ev) : Prop :=
  forall n, starts n t = if String.eqb name n then l else [].

Definition after_fail (name : string) (prev : MdScanFailure) (err : error) (now : Z) (s : Sched) : Sched :=
  let f := failure_of prev err true now (next_retry now (sf_Attempts prev + 1)) in
  let s1 := set_failures s (<[name := f]> (sd_failures s)) in
  if sf_NextRetryAt f =? 0 then set_lastRun s1 (<[name := now / second]> (sd_lastRun s1)) else s1.

Definition after_ok (name : string) (failed : option MdScanFailure) (now : Z) (s : Sched) : Sched :=
  let s1 := match failed with Some _ => set_failures s (delete name (sd_failures s)) | None => s end in
  set_lastRun s1 (<[name := now / second]> (sd_lastRun s1)).

Definition prev_of (failed : option MdScanFailure) (retrying : bool) : MdScanFailure :=
  if retrying then default no_failure failed else no_failure.

Lemma try_start_emits name failed retrying now s (P : outcome Sched -> list Ev -> Prop) :
  (forall t, only_at name [None] t -> P (Ret (after_ok name failed now s)) t) ->
  (forall err t, only_at name [Some err] t -> 0 <= sf_Attempts (prev_of failed retrying) ->
     P (Ret (after_fail name (prev_of failed retrying) err now s)) t) ->
  (forall err t, only_at name [Some err] t -> sf_Attempts (prev_of failed retrying) < 0 ->
     P (Panic "index out of range") t) ->
  emits (E:=E) (try_start name failed retrying now s) P.
Proof.
  intros Hok Hfail Hpanic. unfold try_start.
  eapply emits_bind with (P := fun o t => exists r, o = Ret r /\ t = [EvRaidStart name r]).
  { apply emits_call. intros r. by exists r. }
  { intros ? ? (r & ? & _). discriminate. }
  intros r t (r' & [= <-] & ->).
  assert (Honly : forall t', (forall n, starts n t' = []) -> only_at name [r] ([EvRaidStart name r] ++ t')).
  { intros t' Ht n. simpl. rewrite Ht. done. }
  destruct r as [err|]; [|apply emits_ret, Hok; by apply Honly].
  eapply emits_bind with (P := fun o t =>
    (o = Ret (failure_of (prev_of failed retrying) err true now (next_retry now (sf_Attempts (prev_of failed retrying) + 1)))
     /\ 0 <= sf_Attempts (prev_of failed retrying) /\ forall n, starts n t = [])
    \/ (o = Panic "index out of range" /\ t = [] /\ sf_Attempts (prev_of failed retrying) < 0)).
  { apply recordFailure_emits; [intros t Ht Ha; left; auto|intros Ha; right; auto]. }
  { intros msg t [(? & _)|([= ->] & -> & Hneg)]; [discriminate|]. apply (Hpanic err); [|done]. by apply Honly. }
  intros f t1 [([= ->] & Hpos & Ht1)|(? & _)]; [|discriminate].
  apply emits_ret. rewrite app_nil_r. apply Hfail; [|done]. by apply Honly.
Qed.

(** Why the array [n] is due: its retry time has come, or an occurrence of its
    schedule has passed since the last run. *)
Definition idle (a : MdArray) : Prop := md_SyncAction a = "idle" \/ md_SyncAction a = "".

Definition retry_due (failures : gmap string MdScanFailure) (n : string) (now : Z) : Prop :=
  exists f, failures !! n = Some f /\ sf_Scheduled f = true /\ 0 < sf_NextRetryAt f <= now / second.

Definition pending_retry (failures : gmap string MdScanFailure) (n : string) : bool :=
  match failures !! n with Some f => sf_Scheduled f && (0 <? sf_NextRetryAt f) | None => false end.

Definition occurrence_due (rule : string) (since now : Z) : Prop :=
  exists r next, parseRRule rule = Ok r /\ rr_After r (since * second) = Some next /\ next <= now.

(** The rule of this text has an occurrence. *)
Definition falls_at (occurs : RRule -> Z -> Prop) (rule : string) (t : Z) : Prop :=
  exists r, parseRRule rule = Ok r /\ occurs r t.

(** The cases of one array: nothing is attempted, or it is due and tried. *)
Lemma schedule_one_emits schedules now s a (P : outcome Sched -> list Ev -> Prop) :
  (forall s', sched_flags s s' ->
     (sd_failures s' = sd_failures s \/ sd_failures s' = delete (md_Name a) (sd_failures s)
        /\ (md_SyncAction a = check \/ is_scheduled schedules (md_Name a) = None)) ->
     (sd_lastRun s' = sd_lastRun s \/ sd_lastRun s !! md_Name a = None
        /\ sd_lastRun s' = <[md_Name a := now / second]> (sd_lastRun s)) ->
     P (Ret s') []) ->
  (forall rule since failed (retrying : bool),
     is_scheduled schedules (md_Name a) = Some rule -> sd_lastRun s !! md_Name a = Some since -> idle a ->
     failed = sd_failures s !! md_Name a ->
     (if retrying then retry_due (sd_failures s) (md_Name a) now
      else occurrence_due rule since now /\ pending_retry (sd_failures s) (md_Name a) = false) ->
     emits (try_start (md_Name a) failed retrying now s) P) ->
  emits (E:=E) (schedule_one schedules now s a) P.
Proof.
  intros Hno Htry. unfold schedule_one. cbv zeta.
  set (moot := match sd_failures s !! md_Name a with Some f => _ | None => false end).
  set (s0 := if moot then set_failures s (delete (md_Name a) (sd_failures s)) else s).
  assert (Hmoot : moot = true -> md_SyncAction a = check \/ is_scheduled schedules (md_Name a) = None).
  { unfold moot. destruct (sd_failures s !! md_Name a) as [f|]; [|done]. intros [Em|Em]%orb_true_iff.
    - left. by apply String.eqb_eq.
    - right. apply andb_true_iff in Em as [_ Em%negb_true_iff%bool_decide_eq_false]. by apply eq_None_not_Some. }
  assert (Hflags : sched_flags s s0) by (unfold s0; destruct moot; split; simpl; done).
  assert (Hrun : sd_lastRun s0 = sd_lastRun s) by (unfold s0; by destruct moot).
  assert (Hfail : sd_failures s0 = sd_failures s \/ sd_failures s0 = delete (md_Name a) (sd_failures s) /\ moot = true)
    by (unfold s0; destruct moot; auto).
  assert (Hs0 : moot = false -> s0 = s) by (unfold s0; by destruct moot).
  clearbody moot s0.
  assert (Hstay : P (Ret s0) []) by (apply Hno; [done|destruct Hfail as [->|[-> ?]]; auto|by left]).
  destruct (is_scheduled schedules (md_Name a)) as [rule|] eqn:Esch; [|by apply emits_ret].
  rewrite Hrun. destruct (sd_lastRun s !! md_Name a) as [since|] eqn:Erun.
  2: { apply emits_ret, Hno; simpl; [|destruct Hfail as [->|[-> ?]]; auto|by right].
       split; simpl; [done|]. apply Hflags. }
  destruct (negb _ && negb _) eqn:Eidle; [by apply emits_ret|].
  assert (Hidle : idle a).
  { apply andb_false_iff in Eidle as [Ei|Ei]; apply negb_false_iff, String.eqb_eq in Ei; [by left|by right]. }
  destruct moot; [exfalso; destruct Hidle as [Hi|Hi], (Hmoot eq_refl) as [Hm|Hm]; unfold check in *; congruence|].
  rewrite (Hs0 eq_refl) in *. clear Hs0 Hmoot Hfail Hflags Hrun.
  assert (Hdue : pending_retry (sd_failures s) (md_Name a) = false ->
    emits match dueSince rule (since * second) now with
          | Ok true => try_start (md_Name a) (sd_failures s !! md_Name a) false now s
          | _ => mret s
          end P).
  { intros Hp. unfold dueSince. destruct (parseRRule rule) as [r|e] eqn:Er; [|by apply emits_ret].
    destruct (rr_After r (since * second)) as [next|] eqn:Ea; [|by apply emits_ret].
    destruct (Z.ltb_spec now next); cbn [negb]; [by apply emits_ret|].
    apply (Htry rule since _ false); try done. split; [by exists r, next|done]. }
  unfold pending_retry in Hdue. destruct (sd_failures s !! md_Name a) as [f|] eqn:Ef; [|by apply Hdue].
  destruct (sf_Scheduled f && (0 <? sf_NextRetryAt f)) eqn:Ep; [|by apply Hdue].
  destruct (Z.ltb_spec (now / second) (sf_NextRetryAt f)); [by apply emits_ret|].
  apply andb_true_iff in Ep as [Hs Hn%Z.ltb_lt].
  apply (Htry rule since _ true); try done. exists f. repeat split; done.
Qed.
(** ** Whole sweeps of the scheduler *)
Lemma flags_refl s : sched_flags s s.
Proof. split; auto. Qed.

Lemma flags_trans s1 s2 s3 : sched_flags s1 s2 -> sched_flags s2 s3 -> sched_flags s1 s3.
Proof. intros [A1 B1] [A2 B2]. split; [intros [? ->]%A2|intros [? ->]%B2]; auto. Qed.

Lemma after_ok_flags name failed now s : sched_flags s (after_ok name failed now s).
Proof. unfold after_ok. destruct failed; split; simpl; done. Qed.

Lemma after_fail_flags name prev err now s : sched_flags s (after_fail name prev err now s).
Proof. unfold after_fail. cbv zeta. destruct (_ =? 0); split; simpl; done. Qed.

Lemma fold_flags schedules now arrays s :
  emits (for_fold arrays (schedule_one schedules now) s)
    (fun o _ => match o with Ret s' => sched_flags s s' | Panic _ => True end).
Proof.
  apply (emits_for_fold (fun _ s' _ => sched_flags s s') (fun _ => True)); [apply flags_refl|].
  intros done a rest s1 t _ Hs1. apply schedule_one_emits.
  - intros s2 Hs2 _ _. by eapply flags_trans.
  - intros rule since failed retrying _ _ _ _ _. apply try_start_emits; try done.
    + intros t1 _. eapply flags_trans; [done|apply after_ok_flags].
    + intros err t1 _ _. eapply flags_trans; [done|apply after_fail_flags].
Qed.

Lemma schedule_fold_quiet schedules now arrays s (w : World E) :
  w_db (for_fold arrays (schedule_one schedules now) s w).1 = w_db w
  /\ w_mgr (for_fold arrays (schedule_one schedules now) s w).1 = w_mgr w.
Proof.
  split.
  - assert (Hp : preserves (fun d => d = w_db w) (for_fold arrays (schedule_one schedules now) s)).
    { unfold schedule_one, try_start, recordFailure, start, raid_notify, notify. cbv zeta.
      repeat preserves_step. }
    by apply Hp.
  - assert (Hk : keeps (fun m => m) (for_fold arrays (schedule_one schedules now) s)).
    { unfold schedule_one, try_start, recordFailure, start, raid_notify, notify. cbv zeta.
      repeat keeps_step. }
    apply Hk.
Qed.
End Scheduler.

Section SchedulerSweeps.
Context {E : Type} `{!Env E} `{!RaidEnv E} `{!RRuleEnv} `{!RaidCodecs} `{!RaidCodecsOk}.

Definition stored_schedules (d : DB) : gmap string MdadmSchedule := loaded keyMdadmSchedules ∅ d.
Definition stored_failures (d : DB) : gmap string MdScanFailure := loaded keyMdadmFailures ∅ d.
Definition stored_runs (d : DB) : gmap string Z := loaded keyMdadmLastRun ∅ d.

Definition sched_start (d : DB) : Sched :=
  {| sd_failures := stored_failures d; sd_lastRun := stored_runs d; sd_runChanged := false; sd_failChanged := false |}.

(** What the loop of a sweep does, the sweep does, and the maps it ends with
    are the ones stored. *)
Lemma runSchedules_wp arrays now (w : World E) P (Q : outcome unit -> World E -> Prop) :
  no_faults (E:=E) ->
  emits (for_fold arrays (schedule_one (stored_schedules (w_db w)) now) (sched_start (w_db w))) P ->
  (forall s' t e d, P (Ret s') t -> stored_failures d = sd_failures s' -> stored_runs d = sd_lastRun s' ->
     stored_schedules d = stored_schedules (w_db w) ->
     Q (Ret tt) (mkWorld e d (w_mgr w) (w_trace w ++ t))) ->
  (forall msg t e, P (Panic msg) t -> Q (Panic msg) (mkWorld e (w_db w) (w_mgr w) (w_trace w ++ t))) ->
  wp (runSchedules arrays now) Q w.
Proof.
  intros Hn Hemit HQ Hpanic. unfold runSchedules, LoadMdadmSchedules, LoadMdadmScanFailures, LoadMdadmLastRun.
  apply wp_bind, wp_getJSON; [done|]. intros e1. apply wp_bind, wp_getJSON; [done|]. intros e2.
  apply wp_bind, wp_getJSON; [done|]. intros e3. cbn [w_db set_env].
  fold (stored_schedules (w_db w)) (stored_failures (w_db w)) (stored_runs (w_db w)). fold (sched_start (w_db w)).
  set (w3 := set_env (set_env (set_env w e1) e2) e3).
  pose proof (emits_and _ _ _ Hemit (fold_flags (stored_schedules (w_db w)) now arrays (sched_start (w_db w))) w3)
    as (t & Htr & Hp & Hfl).
  destruct (schedule_fold_quiet (stored_schedules (w_db w)) now arrays (sched_start (w_db w)) w3) as [Hd Hm].
  apply wp_bind. unfold wp at 1.
  destruct (for_fold arrays _ _ w3) as [[e4 d4 m4 tr4] [s'|msg]]; cbn [fst snd w_trace w_db w_mgr] in *.
  2: { unfold w3 in *. cbn in Hd, Hm, Htr. subst. by apply Hpanic. }
  unfold w3 in *. cbn [w_db w_mgr w_trace set_env] in *. subst d4 m4 tr4. destruct Hfl as [Hr Hf].
  destruct (sd_runChanged s') eqn:Er, (sd_failChanged s') eqn:Ef; cbn [sched_start sd_runChanged sd_failChanged sd_lastRun sd_failures] in *.
  - unfold SaveMdadmLastRun, SaveMdadmScanFailures.
    apply wp_bind, wp_bind, wp_setJSON; [done|]. intros e5. apply wp_ret, wp_bind, wp_setJSON; [done|]. intros e6. apply wp_ret.
    apply (HQ s'); [done|apply loaded_set| |]; unfold stored_runs, stored_schedules; cbn [set_env set_db w_db];
      rewrite ?loaded_other by done; [apply loaded_set|done].
  - unfold SaveMdadmLastRun. apply wp_bind, wp_bind, wp_setJSON; [done|]. intros e5. apply wp_ret, wp_ret.
    apply (HQ s'); [done| |apply loaded_set|]; unfold stored_failures, stored_schedules; cbn [set_env set_db w_db];
      rewrite ?loaded_other by done; [by destruct Hf|done].
  - unfold SaveMdadmScanFailures.
    apply wp_bind, wp_ret, wp_bind, wp_setJSON; [done|]. intros e5. apply wp_ret.
    apply (HQ s'); [done|apply loaded_set| |]; unfold stored_runs, stored_schedules; cbn [set_env set_db w_db];
      rewrite ?loaded_other by done; [by destruct Hr|done].
  - apply wp_bind, wp_ret, wp_ret. apply (HQ s'); [done|by destruct Hf|by destruct Hr|done].
Qed.

(** Why a sweep may start a scrub. *)
Definition may_start (d : DB) (now : Z) (a : MdArray) : Prop :=
  idle a /\ exists rule since,
    is_scheduled (stored_schedules d) (md_Name a) = Some rule
    /\ stored_runs d !! md_Name a = Some since
    /\ (retry_due (stored_failures d) (md_Name a) now \/ occurrence_due rule since now).

Definition untouched (arrays : list MdArray) (s s' : Sched) : Prop :=
  forall n, n ∉ map md_Name arrays -> sched_frame n s s'.

Lemma after_ok_frame name failed now s n : n <> name -> sched_frame n s (after_ok name failed now s).
Proof. intros Hn. unfold after_ok. destruct failed; split; simpl; by simplify_map_eq. Qed.

Lemma after_fail_frame name prev err now s n : n <> name -> sched_frame n s (after_fail name prev err now s).
Proof. intros Hn. unfold after_fail. cbv zeta. destruct (_ =? 0); split; simpl; by simplify_map_eq. Qed.

Lemma frame_trans n s1 s2 s3 : sched_frame n s1 s2 -> sched_frame n s2 s3 -> sched_frame n s1 s3.
Proof. intros [A1 B1] [A2 B2]. split; congruence. Qed.

(** One array: at most one attempt, on that array, when it is due. *)
Lemma schedule_one_step schedules now s a :
  emits (E:=E) (schedule_one schedules now s a) (fun o t =>
    (exists l, only_at (md_Name a) l t /\ (length l <= 1)%nat
      /\ (l <> [] -> idle a /\ exists rule since, is_scheduled schedules (md_Name a) = Some rule
           /\ sd_lastRun s !! md_Name a = Some since
           /\ (retry_due (sd_failures s) (md_Name a) now \/ occurrence_due rule since now)))
    /\ match o with Ret s' => forall n, n <> md_Name a -> sched_frame n s s' | Panic _ => True end).
Proof.
  apply schedule_one_emits.
  - intros s' _ Hf Hr. split.
    + exists []. split; [by intros n; simpl; destruct (String.eqb _ _)|]. split; [simpl; lia|done].
    + intros n Hn. split; [destruct Hf as [->|[-> _]]|destruct Hr as [->|[_ ->]]]; by simplify_map_eq.
  - intros rule since failed retrying Hs Hr Hi -> Hdue.
    assert (Hwhy : idle a /\ exists rule since, is_scheduled schedules (md_Name a) = Some rule
           /\ sd_lastRun s !! md_Name a = Some since
           /\ (retry_due (sd_failures s) (md_Name a) now \/ occurrence_due rule since now)).
    { split; [done|]. exists rule, since. split; [done|]. split; [done|]. destruct retrying; [by left|right; apply Hdue]. }
    apply try_start_emits.
    + intros t Ht. split; [exists [None]; split; [done|]; split; [simpl; lia|done]|].
      intros n Hn. by apply after_ok_frame.
    + intros err t Ht _. split; [exists [Some err]; split; [done|]; split; [simpl; lia|done]|].
      intros n Hn. by apply after_fail_frame.
    + intros err t Ht _. split; [exists [Some err]; split; [done|]; split; [simpl; lia|done]|done].
Qed.

(** Each array was attempted at most once, and only when [may_start] held
    before the sweep. *)
Definition only_due (d : DB) (now : Z) (l : list MdArray) (t : list Ev) : Prop :=
  forall n, (length (starts n t) <= 1)%nat
    /\ (starts n t <> [] -> exists a, a ∈ l /\ md_Name a = n /\ may_start d now a).

Lemma only_due_snoc d now l t s a t' tries_a :
  only_due d now l t -> untouched l (sched_start d) s -> md_Name a ∉ map md_Name l ->
  only_at (md_Name a) tries_a t' -> (length tries_a <= 1)%nat ->
  (tries_a <> [] -> idle a /\ exists rule since, is_scheduled (stored_schedules d) (md_Name a) = Some rule
     /\ sd_lastRun s !! md_Name a = Some since
     /\ (retry_due (sd_failures s) (md_Name a) now \/ occurrence_due rule since now)) ->
  only_due d now (l ++ [a]) (t ++ t').
Proof.
  intros Hg Hu Hnew Ht Hlen Hwhy n. rewrite starts_app, (Ht n).
  destruct (String.eqb_spec (md_Name a) n) as [<-|Hne].
  - destruct (Hg (md_Name a)) as [_ Hold].
    assert (Hnone : starts (md_Name a) t = []).
    { destruct (starts (md_Name a) t) eqn:E1; [done|]. destruct Hold as (a' & Ha' & He & _); [done|].
      exfalso. apply Hnew. rewrite <- He. apply list_elem_of_In, in_map. by apply list_elem_of_In. }
    rewrite Hnone. split; [done|]. intros Hne. exists a. split; [set_solver|]. split; [done|].
    destruct (Hwhy Hne) as (Hi & rule & since & Hs & Hr & Hd). destruct (Hu (md_Name a) Hnew) as [Hf Hl].
    split; [done|]. exists rule, since. split; [done|]. split; [by rewrite Hl in Hr|].
    destruct Hd as [(f & Hf' & Hd)|Hd]; [left|by right]. exists f. by rewrite Hf in Hf'.
  - rewrite app_nil_r. destruct (Hg n) as [G1 G2]. split; [done|]. intros Hne'.
    destruct (G2 Hne') as (a' & Ha' & Hrest). exists a'. split; [set_solver|done].
Qed.

Lemma only_due_mono d now l l' t : l ⊆ l' -> only_due d now l t -> only_due d now l' t.
Proof. intros Hl Hg n. destruct (Hg n) as [G1 G2]. split; [done|]. intros Hne. destruct (G2 Hne) as (a & Ha & ?). eauto. Qed.

(** C35. On a store that never fails and for arrays with different names, a
    sweep of the scheduler attempts each array at most once, and only an idle
    one with an enabled rule it has met before, whose retry time has come or
    whose rule had an occurrence since the last run. *)
Theorem runSchedules_starts_only_due arrays now (w : World E) :
  no_faults (E:=E) -> NoDup (map md_Name arrays) ->
  wp (runSchedules arrays now) (fun _ w' =>
    exists t, w_trace w' = w_trace w ++ t
    /\ forall n, (length (starts n t) <= 1)%nat
       /\ (starts n t <> [] -> exists a, a ∈ arrays /\ md_Name a = n /\ may_start (w_db w) now a)) w.
Proof.
  intros Hn Hnd. eapply (runSchedules_wp _ _ _ (fun _ t => only_due (w_db w) now arrays t));
    [done| |intros; by eexists|intros; by eexists].
  eapply emits_mono; [apply (emits_for_fold
    (fun l s t => only_due (w_db w) now l t /\ untouched l (sched_start (w_db w)) s) (only_due (w_db w) now arrays))
    |by intros [s'|msg] t; [intros [? _]|]].
  - split; [intros n; simpl; split; [lia|done]|by intros n _].
  - intros done a rest s t Hl [Hg Hu].
    assert (Hnew : md_Name a ∉ map md_Name done).
    { rewrite <- Hl, map_app in Hnd. apply NoDup_app in Hnd as (_ & Hd & _). intros Hin. apply (Hd _ Hin). set_solver. }
    eapply emits_mono; [apply schedule_one_step|]. intros o t' [(l & Ho & Hlen & Hwhy) Hfr].
    pose proof (only_due_snoc _ now done t s a t' l Hg Hu Hnew Ho Hlen Hwhy) as Hg'.
    destruct o as [s'|msg].
    + split; [done|]. intros n Hn'. rewrite map_app in Hn'. eapply frame_trans; [apply Hu; set_solver|apply Hfr; set_solver].
    + eapply only_due_mono; [|done]. rewrite <- Hl. set_solver.
Qed.
End SchedulerSweeps.

(** ** The attempts of one occurrence *)
Section Occurrence.
Context {E : Type} `{!Env E} `{!RaidEnv E} `{!RRuleEnv} `{!RaidCodecs}.
Context (occurs : RRule -> Z -> Prop) `{!RRuleOk occurs}.
(** The array, its rule, the last run, and the time up to which the rule has at
    most one occurrence. *)
Context (n rule : string) (since horizon : Z).
Context (Honce : forall u v, falls_at occurs rule u -> falls_at occurs rule v ->
  since * second < u < horizon -> since * second < v < horizon -> u = v).

(** How many attempts are left: five before the first one, one fewer after each
    failure, none once the occurrence has been used up. *)
Inductive phase (s : Sched) : nat -> Prop :=
| ph_fresh : sd_lastRun s !! n = Some since -> pending_retry (sd_failures s) n = false -> phase s 5
| ph_retry f b : sd_lastRun s !! n = Some since -> sd_failures s !! n = Some f -> sf_Scheduled f = true ->
    sf_Attempts f = 5 - Z.of_nat b -> (1 <= b <= 4)%nat -> 0 <= since < sf_NextRetryAt f ->
    (forall u, falls_at occurs rule u -> since * second < u < horizon -> u <= sf_NextRetryAt f * second) ->
    phase s b
| ph_done last : sd_lastRun s !! n = Some last -> pending_retry (sd_failures s) n = false ->
    (forall u, falls_at occurs rule u -> last * second < u -> horizon <= u) -> phase s 0.

Lemma phase_frame s s' b : sched_frame n s s' -> phase s b -> phase s' b.
Proof.
  intros [Hf Hr] Hp.
  assert (Hpend : pending_retry (sd_failures s') n = pending_retry (sd_failures s) n) by (unfold pending_retry; by rewrite Hf).
  destruct Hp; [apply ph_fresh|eapply ph_retry|eapply ph_done]; rewrite ?Hpend, ?Hr, ?Hf; eauto.
Qed.

Lemma spends_ok b : spends (S b) [None] 0.
Proof. intros l Hl. inversion Hl; subst. apply tries_ok. Qed.

Lemma spends_fail b e : spends (S b) [Some e] b.
Proof. intros l Hl. by apply tries_fail. Qed.

Lemma next_retry_later now k : 1 <= k <= 4 -> now / second < next_retry now k /\ now <= next_retry now k * second.
Proof.
  intros Hk. assert (Hd : exists dt, retryDelays !! Z.to_nat (k - 1) = Some dt /\ minute <= dt).
  { assert (k = 1 \/ k = 2 \/ k = 3 \/ k = 4) as [-> | [-> | [-> | ->]]] by lia;
      (eexists; split; [reflexivity|]); unfold minute, second; lia. }
  destruct Hd as (dt & Hdt & Hle). unfold next_retry. rewrite Hdt. unfold minute, second in *.
  Z.to_euclidean_division_equations. lia.
Qed.

Lemma next_retry_last now : next_retry now 5 = 0.
Proof. reflexivity. Qed.

(** A used-up occurrence: everything up to the last run has passed. *)
Lemma done_after s now :
  sd_lastRun s !! n = Some (now / second) -> pending_retry (sd_failures s) n = false ->
  (forall u, falls_at occurs rule u -> since * second < u < horizon -> u <= now) ->
  since <= now / second -> phase s 0.
Proof.
  intros Hl Hp Hu Hs. apply (ph_done s (now / second)); [done|done|].
  intros u Ho Hlt. destruct (Z.le_gt_cases horizon u) as [|Hgt]; [done|]. exfalso.
  assert (Hnow : u <= now) by (apply Hu; [done|]; unfold second in *; lia).
  destruct Ho as (r & _ & Ho). pose proof (rr_whole r u Ho) as Hw. unfold second in *.
  Z.to_euclidean_division_equations. lia.
Qed.

Lemma after_ok_phase failed now s :
  failed = sd_failures s !! n ->
  (forall u, falls_at occurs rule u -> since * second < u < horizon -> u <= now) ->
  since <= now / second -> phase (after_ok n failed now s) 0.
Proof.
  intros -> Hu Hs. apply (done_after _ now); [| |done|done]; unfold after_ok.
  - simpl. by rewrite lookup_insert_eq.
  - unfold pending_retry. destruct (sd_failures s !! n) as [f|] eqn:Ef; simpl.
    + by rewrite lookup_delete_eq.
    + by rewrite Ef.
Qed.

Lemma after_fail_phase prev err now s b :
  sd_lastRun s !! n = Some since -> sf_Attempts prev = 4 - Z.of_nat b -> (b <= 4)%nat -> 0 <= since ->
  (forall u, falls_at occurs rule u -> since * second < u < horizon -> u <= now) ->
  since <= now / second -> phase (after_fail n prev err now s) b.
Proof.
  intros Hl Ha Hb Hpos Hu Hs. unfold after_fail. cbn [sf_NextRetryAt failure_of].
  destruct b as [|b].
  - replace (sf_Attempts prev + 1) with 5 by lia. rewrite next_retry_last. cbn [Z.eqb].
    apply (done_after _ now); [| |done|done]; simpl.
    + by rewrite lookup_insert_eq.
    + unfold pending_retry. rewrite lookup_insert_eq. simpl. done.
  - destruct (next_retry_later now (sf_Attempts prev + 1)) as [H1 H2]; [lia|].
    rewrite (proj2 (Z.eqb_neq _ _)) by lia.
    eapply ph_retry; simpl; [done|by rewrite lookup_insert_eq|done| |lia| |]; cbn [sf_Attempts sf_NextRetryAt failure_of].
    + lia.
    + lia.
    + intros u Ho Hr. specialize (Hu u Ho Hr). lia.
Qed.

Lemma schedule_one_phase schedules now s a b :
  md_Name a = n -> idle a -> is_scheduled schedules n = Some rule -> 0 <= now < horizon -> 0 <= since -> phase s b ->
  emits (E:=E) (schedule_one schedules now s a) (fun o t =>
    match o with
    | Ret s' => exists b', phase s' b' /\ spends b (starts n t) b'
    | Panic _ => tries b (starts n t)
    end).
Proof.
  intros Hname Hidle Hsch Hnow Hpos Hph. apply schedule_one_emits; rewrite Hname.
  - intros s' _ Hf Hr. exists b. split; [|apply spends_nil]. apply (phase_frame s); [|done]. split.
    + destruct Hf as [->|[_ [Hc|Hc]]]; [done| |congruence].
      unfold idle, check in *. destruct Hidle; congruence.
    + destruct Hr as [->|[Hr _]]; [done|]. destruct Hph; congruence.
  - intros rule' since' failed retrying Hs Hr _ Hfailed Hdue. rewrite Hsch in Hs. injection Hs as <-.
    assert (Hfacts : (forall u, falls_at occurs rule u -> since * second < u < horizon -> u <= now)
      /\ since <= now / second /\ sd_lastRun s !! n = Some since
      /\ exists b0, b = S b0 /\ (b0 <= 4)%nat /\ sf_Attempts (prev_of failed retrying) = 4 - Z.of_nat b0).
    { destruct retrying.
      - destruct Hdue as (f & Hf & Hsf & Hn). rewrite Hf in Hfailed. subst failed.
        destruct Hph as [_ Hp|f' b Hl Hf' _ Ha Hb Hsn Hu|? _ Hp _].
        1,3: unfold pending_retry in Hp; rewrite Hf, Hsf, (proj2 (Z.ltb_lt _ _)) in Hp by lia; done.
        rewrite Hf in Hf'. injection Hf' as <-. split; [|split; [lia|split; [done|]]].
        + intros u Ho Hur. specialize (Hu u Ho Hur). unfold second in *. Z.to_euclidean_division_equations. lia.
        + exists (b - 1)%nat. simpl. split; [lia|]. split; [lia|]. lia.
      - destruct Hdue as [(r & u0 & Er & Hu0 & Hle) Hp].
        destruct (rr_some r _ _ Hu0) as [Ho0' Hlt0]. assert (Ho0 : falls_at occurs rule u0) by by exists r.
        destruct Hph as [Hl _|f b Hl Hf Hsf _ _ Hsn _|last Hl _ Hd].
        + rewrite Hr in Hl. injection Hl as ->. split; [|split; [|split; [done|]]].
          * intros u Ho Hur. rewrite (Honce u u0); [done|done|done|done|]. lia.
          * unfold second in *. Z.to_euclidean_division_equations. lia.
          * exists 4%nat. simpl. done.
        + unfold pending_retry in Hp. rewrite Hf, Hsf, (proj2 (Z.ltb_lt _ _)) in Hp by lia. done.
        + rewrite Hr in Hl. injection Hl as ->. specialize (Hd u0 Ho0 Hlt0). lia. }
    destruct Hfacts as (Hu & Hs & Hl & b0 & -> & Hb0 & Ha). apply try_start_emits.
    + intros t Ht. exists 0%nat. rewrite (Ht n), String.eqb_refl. split; [by apply after_ok_phase|apply spends_ok].
    + intros err t Ht _. exists b0. rewrite (Ht n), String.eqb_refl. split; [by apply after_fail_phase|apply spends_fail].
    + intros err t _ Hneg. lia.
Qed.
Lemma schedule_fold_phase schedules now arrays s b :
  (forall a, a ∈ arrays -> md_Name a = n -> idle a) ->
  is_scheduled schedules n = Some rule -> 0 <= now < horizon -> 0 <= since -> phase s b ->
  emits (E:=E) (for_fold arrays (schedule_one schedules now) s) (fun o t =>
    match o with
    | Ret s' => exists b', phase s' b' /\ spends b (starts n t) b'
    | Panic _ => tries b (starts n t)
    end).
Proof.
  intros Hidle Hsch Hnow Hpos Hph.
  apply (emits_for_fold (fun _ s' t => exists b', phase s' b' /\ spends b (starts n t) b') (fun t => tries b (starts n t))).
  { exists b. split; [done|apply spends_nil]. }
  intros done a rest s1 t Hl (b1 & Hp1 & Hs1). destruct (decide (md_Name a = n)) as [Ha|Ha].
  - eapply emits_mono; [apply (schedule_one_phase _ _ _ _ b1 Ha); try done; apply Hidle; [set_solver|done]|].
    intros [s2|msg] t2; cbn beta iota; rewrite starts_app.
    + intros (b2 & Hp2 & Hs2). exists b2. split; [done|]. by eapply spends_app.
    + intros Ht. by apply Hs1.
  - eapply emits_mono; [apply schedule_one_step|]. intros o t2 [(l & Ho & _) Hfr].
    assert (Hnone : starts n t2 = []) by (rewrite (Ho n); by rewrite (proj2 (String.eqb_neq _ _) Ha)).
    destruct o as [s2|msg]; rewrite starts_app, Hnone, app_nil_r.
    + exists b1. split; [|done]. eapply phase_frame; [|done]. by apply Hfr.
    + by eapply spends_tries.
Qed.
End Occurrence.

Section Retries.
Context {E : Type} `{!Env E} `{!RaidEnv E} `{!RRuleEnv} `{!RaidCodecs} `{!RaidCodecsOk}.

(** C16. On a store that never fails, over any series of sweeps that find the
    array idle while its rule has at most one occurrence since the last run, the
    scheduler attempts the scrub at most five times, and never again after an
    attempt that succeeded, whatever the kernel answers. *)
Theorem attempts_per_occurrence (occurs : RRule -> Z -> Prop) `{!RRuleOk occurs}
    n rule since horizon (sweeps : list (Z * list MdArray)) (w : World E) :
  no_faults (E:=E) ->
  is_scheduled (stored_schedules (w_db w)) n = Some rule ->
  stored_runs (w_db w) !! n = Some since -> 0 <= since ->
  pending_retry (stored_failures (w_db w)) n = false ->
  (forall u v, falls_at occurs rule u -> falls_at occurs rule v ->
     since * second < u < horizon -> since * second < v < horizon -> u = v) ->
  (forall now arrays, (now, arrays) ∈ sweeps ->
     0 <= now < horizon /\ forall a, a ∈ arrays -> md_Name a = n -> idle a) ->
  wp (for_each sweeps (fun p => runSchedules p.2 p.1)) (fun _ w' =>
    exists t, w_trace w' = w_trace w ++ t /\ tries 5 (starts n t)) w.
Proof.
  intros Hn Hsch Hrun Hpos Hpend Honce Hsweeps.
  apply (wp_for_each (fun _ w' => exists t b, w_trace w' = w_trace w ++ t
    /\ stored_schedules (w_db w') = stored_schedules (w_db w)
    /\ phase occurs n rule since horizon (sched_start (w_db w')) b /\ spends 5 (starts n t) b)).
  - exists [], 5%nat. rewrite app_nil_r. split; [done|]. split; [done|]. split; [by apply ph_fresh|apply spends_nil].
  - intros done [now arrays] w1 (t1 & b1 & Ht1 & Hs1 & Hp1 & Hb1) Hin.
    destruct (Hsweeps now arrays Hin) as [Hnow Hidle]. cbn [fst snd].
    eapply runSchedules_wp; [done|rewrite Hs1; by apply (schedule_fold_phase occurs n rule since horizon Honce _ _ _ _ b1)| |].
    + intros s2 t2 e d (b2 & Hp2 & Hb2) Hf Hr Hs2. exists (t1 ++ t2), b2. cbn [w_trace w_db].
      rewrite Ht1, app_assoc, starts_app. split; [done|]. split; [by rewrite Hs2|].
      split; [|by eapply spends_app].
      eapply phase_frame; [|exact Hp2]. split; simpl; by rewrite ?Hf, ?Hr.
    + intros msg t2 e Ht2. exists (t1 ++ t2). cbn [w_trace]. rewrite Ht1, app_assoc, starts_app. split; [done|]. by apply Hb1.
  - intros w1 (t1 & b1 & Ht1 & _ & _ & Hb1). exists t1. split; [done|]. by eapply spends_tries.
Qed.
End Retries.

(** ** Manual starts, and schedules that change *)
Section Manual.
Context {E : Type} `{!Env E} `{!RaidEnv E} `{!RRuleEnv} `{!RaidCodecs} `{!RaidCodecsOk}.

Lemma wp_recordFailure_manual name err now (Q : outcome MdScanFailure -> World E -> Prop) w :
  (forall t, (forall n, starts n t = []) -> Q (Ret (failure_of no_failure err false now 0)) (log w t)) ->
  wp (recordFailure name no_failure err false now) Q w.
Proof.
  intros HQ. unfold recordFailure. cbv zeta beta. cbn [andb negb]. apply wp_bind, wp_ret, wp_bind.
  fold (failure_of no_failure err false now 0).
  unfold raid_notify, notify, wp, mbind, M_bind, gets, tell, mret, M_ret. simpl.
  destruct (m_notif (w_mgr w)); [|rewrite <- (log_nil w)]; by apply HQ.
Qed.

(** A manual start touches the kernel only for an array that is there, once,
    returns its answer, and records a failure or clears an older one. *)
Theorem Start_spec name now (w : World E) :
  no_faults (E:=E) ->
  wp (Start name now) (fun o w' =>
    exists t, w_trace w' = w_trace w ++ t
    /\ let known := existsb (fun a => String.eqb (md_Name a) name) (md_scan (w_env w)).2 in
       if known then
         exists r, o = Ret r /\ starts name t = [r]
         /\ stored_failures (w_db w') =
              match r with
              | Some err => <[name := failure_of no_failure err false now 0]> (stored_failures (w_db w))
              | None => delete name (stored_failures (w_db w))
              end
       else o = Ret (Some (errorf ("no such array " +:+ quoted name))) /\ t = [] /\ w_db w' = w_db w) w.
Proof.
  intros Hn. unfold Start, scan, start, LoadMdadmScanFailures, SaveMdadmScanFailures.
  apply wp_bind, wp_call. intros e arrays Hscan. rewrite Hscan. cbn [snd].
  destruct (existsb _ arrays) eqn:Ek; cbn [negb].
  2: { apply wp_ret. exists []. cbn. by rewrite !app_nil_r. }
  apply wp_bind, wp_call. intros e1 r Hr. apply wp_bind, wp_getJSON; [done|]. intros e2.
  cbn [log set_env w_db w_trace w_mgr w_env]. fold (stored_failures (w_db w)).
  destruct r as [err|].
  - apply wp_bind, wp_recordFailure_manual. intros t Ht. apply wp_bind, wp_setJSON; [done|]. intros e3. apply wp_ret.
    exists ([EvRaidStart name (Some err)] ++ t). cbn. rewrite !app_nil_r, <- app_assoc. split; [done|].
    exists (Some err). rewrite String.eqb_refl, Ht. split; [done|]. split; [done|]. apply loaded_set.
  - destruct (stored_failures (w_db w) !! name) as [f|] eqn:Ef.
    + apply wp_bind, wp_setJSON; [done|]. intros e3. apply wp_ret. exists [EvRaidStart name None].
      cbn. rewrite !app_nil_r, String.eqb_refl. split; [done|]. exists None. split; [done|]. split; [done|]. apply loaded_set.
    + apply wp_ret. exists [EvRaidStart name None]. cbn. rewrite !app_nil_r, String.eqb_refl. split; [done|].
      exists None. split; [done|]. split; [done|]. by rewrite delete_id.
Qed.

(** A rule that is saved for an array the scheduler has met before is anchored
    to the array's old last run: an occurrence that passed before the rule was
    saved fires on the next sweep. *)
Lemma edited_schedule_fires rule schedules now s a since :
  rule <> "" -> sd_lastRun s !! md_Name a = Some since -> idle a ->
  pending_retry (sd_failures s) (md_Name a) = false -> occurrence_due rule since now ->
  emits (E:=E) (schedule_one (<[md_Name a := {| ms_RRule := rule; ms_Enabled := true |}]> schedules) now s a)
    (fun _ t => exists r, starts (md_Name a) t = [r]).
Proof.
  intros Hr%String.eqb_neq Hl Hi Hp (r & next & Er & Hn & Hle). unfold schedule_one, is_scheduled. rewrite lookup_insert_eq.
  cbn [ms_Enabled ms_RRule andb]. rewrite Hr. cbn [negb]. cbv zeta. rewrite (bool_decide_true (is_Some (Some rule))) by done.
  assert (Hidle : negb (String.eqb (md_SyncAction a) "idle") && negb (String.eqb (md_SyncAction a) "") = false)
    by (destruct Hi as [-> | ->]; done).
  assert (Hchk : String.eqb (md_SyncAction a) check = false) by (destruct Hi as [-> | ->]; done).
  assert (Hdue : dueSince rule (since * second) now = Ok true).
  { unfold dueSince. rewrite Er, Hn. by rewrite (proj2 (Z.ltb_ge _ _) Hle). }
  rewrite Hchk, Hidle. cbn [negb orb].
  assert (Htry : forall failed, emits (try_start (md_Name a) failed false now s) (fun _ t => exists r, starts (md_Name a) t = [r])).
  { intros failed. apply try_start_emits; intros;
      match goal with Ho : only_at _ [?r] _ |- _ => exists r; rewrite (Ho (md_Name a)); by rewrite String.eqb_refl end. }
  unfold pending_retry in Hp.
  destruct (sd_failures s !! md_Name a) as [f|].
  - rewrite andb_false_r. rewrite Hl, Hp, Hdue. apply Htry.
  - rewrite Hl, Hdue. apply Htry.
Qed.
End Manual.

(** ** Concrete inputs *)
#[export] Instance MdArrayState_countable : Countable MdArrayState.
Proof.
  refine (inj_countable'
    (fun s => match s with MdHealthy => 0 | MdDegraded => 1 | MdRecovering => 2 | MdFailed => 3 end)%nat
    (fun n => match n with 0 => MdHealthy | 1 => MdDegraded | 2 => MdRecovering | _ => MdFailed end)%nat _).
  by intros [].
Defined.

#[export] Instance MdadmSchedule_eq_dec : EqDecision MdadmSchedule.
Proof. solve_decision. Defined.

#[export] Instance MdadmSchedule_countable : Countable MdadmSchedule.
Proof.
  apply (inj_countable' (fun s => (ms_RRule s, ms_Enabled s)) (fun p => {| ms_RRule := p.1; ms_Enabled := p.2 |})).
  by intros [].
Defined.

#[export] Instance MdArrayBaseline_countable : Countable MdArrayBaseline.
Proof.
  apply (inj_countable' (fun s => (mb_State s, mb_SyncAction s, mb_Members s))
           (fun p => {| mb_State := p.1.1; mb_SyncAction := p.1.2; mb_Members := p.2 |})).
  by intros [].
Defined.

#[export] Instance MdScanFailure_countable : Countable MdScanFailure.
Proof.
  apply (inj_countable' (fun f => (sf_Error f, sf_FirstAt f, sf_LastAt f, sf_Attempts f, sf_NextRetryAt f, sf_Scheduled f))
           (fun p => let '(e, a, b, c, d, s) := p in
              {| sf_Error := e; sf_FirstAt := a; sf_LastAt := b; sf_Attempts := c; sf_NextRetryAt := d; sf_Scheduled := s |})).
  by intros [].
Defined.

#[export] Instance sim_raid_codecs : RaidCodecs := Build_RaidCodecs _ _ _ _.
#[export] Instance sim_raid_codecs_ok : RaidCodecsOk := Build_RaidCodecsOk _ _ _ _ _.

Definition demo_array : MdArray :=
  {| md_Name := "md0"; md_Level := "raid1"; md_State := MdHealthy; md_DevicesTotal := 2; md_DevicesUp := 2;
     md_Members := [{| mm_Device := "sda1"; mm_Up := true |}; {| mm_Device := "sdb1"; mm_Up := true |}];
     md_SyncAction := "idle"; md_SyncPercent := zero_decimal;
     md_SyncSpeedKBs := 0; md_SyncFinish := ""; md_MismatchCnt := 0; md_LastScanAt := 0;
     md_ScanFailure := None |}.

(** A host with one array, whose kernel refuses every scrub. *)
Definition refusing : RaidEnv Sim :=
  {| md_scan s := (s, [demo_array]); md_start _ s := (s, Some (errorf "permission denied")) |}.

(** A daily rule, whatever its text; nothing when the anchor is not a whole
    second. *)
Definition day : Z := 86400 * second.
Definition daily_occurs (a t : Z) : Prop := a mod second = 0 /\ exists k, 0 <= k /\ t = a + k * day.
Definition daily : RRuleEnv :=
  {| ROption := option Z; RRule := Z;
     rr_StrToROption _ := Ok None; ro_Dtstart o := o; ro_set_Dtstart a _ := Some a; rr_NewRRule o := Ok (default 0 o);
     rr_After a s := if a mod second =? 0 then Some (if s <? a then a else a + ((s - a) / day + 1) * day) else None;
     rr_zone := 0 |}.

Lemma daily_ok : @RRuleOk daily daily_occurs.
Proof.
  constructor; unfold daily_occurs; simpl.
  - intros a t [Ha (k & _ & ->)]. unfold day, second in *. Z.to_euclidean_division_equations. lia.
  - intros a s t Ht. destruct (Z.eqb_spec (a mod second) 0) as [Ha|]; [|done]. injection Ht as <-.
    destruct (Z.ltb_spec s a) as [Hs|Hs].
    + split; [split; [done|]; exists 0; lia|lia].
    + assert (0 <= (s - a) / day) by (apply Z.div_pos; unfold day, second; lia).
      split; [split; [done|]; exists ((s - a) / day + 1); lia|].
      unfold day, second in *. Z.to_euclidean_division_equations. lia.
  - intros a s t u Ht [Ha (k & Hk & ->)] Hlt. rewrite Ha in Ht. simpl in Ht. injection Ht as <-.
    destruct (Z.ltb_spec s a) as [Hs|Hs]; unfold day, second in *; [lia|].
    Z.to_euclidean_division_equations. nia.
  - intros a s u Ht [Ha _]. rewrite Ha in Ht. done.
Qed.

Definition demo_raid_db : DB :=
  (SetSetting keyMdadmLastRun (json_Marshal ({["md0" := 1600000000]} : gmap string Z))
     (SetSetting keyMdadmSchedules
        (json_Marshal ({["md0" := {| ms_RRule := "FREQ=DAILY"; ms_Enabled := true |}]} : gmap string MdadmSchedule))
        empty_db).1).1.

Lemma demo_raid_runs : stored_runs demo_raid_db = {["md0" := 1600000000]}.
Proof. apply loaded_set. Qed.

Lemma demo_raid_schedules :
  stored_schedules demo_raid_db = {["md0" := {| ms_RRule := "FREQ=DAILY"; ms_Enabled := true |}]}.
Proof. unfold stored_schedules, demo_raid_db. rewrite loaded_other by done. apply loaded_set. Qed.

Lemma demo_raid_failures : stored_failures demo_raid_db = ∅.
Proof. unfold stored_failures, demo_raid_db. by rewrite !loaded_other by done. Qed.

Definition demo_raid_world : World Sim := sim_world demo_raid_db sim_empty.

(** 1600000000 is 2020-09-13 12:26:40 UTC; the next midnight is 1600041600. *)
Definition demo_sweeps : list (Z * list MdArray) :=
  map (fun t => (t * second, [demo_array])) [1600041605; 1600041700; 1600042000; 1600043000; 1600047000; 1600050000].

Lemma attempts_per_occurrence_witness :
  wp (for_each demo_sweeps (fun p => @runSchedules Sim _ refusing daily _ p.2 p.1)) (fun _ w' =>
    exists t, w_trace w' = w_trace demo_raid_world ++ t /\ tries 5 (starts "md0" t)) demo_raid_world.
Proof.
  apply (@attempts_per_occurrence Sim _ refusing daily _ _ daily_occurs daily_ok "md0" "FREQ=DAILY" 1600000000
           (1600128000 * second) demo_sweeps demo_raid_world sim_no_faults).
  - cbn [w_db sim_world demo_raid_world]. by rewrite demo_raid_schedules.
  - cbn [w_db sim_world demo_raid_world]. by rewrite demo_raid_runs.
  - lia.
  - unfold pending_retry. cbn [w_db sim_world demo_raid_world]. by rewrite demo_raid_failures.
  - intros u v (r & [= <-] & _ & k & _ & ->) (r' & [= <-] & _ & k' & _ & ->). unfold scheduleAnchor, day, second. simpl. lia.
  - intros now arrays Hin. assert (Hall : Forall (fun p => 0 <= p.1 < 1600128000 * second /\ p.2 = [demo_array]) demo_sweeps)
      by (repeat constructor; simpl; unfold second; lia).
    rewrite Forall_forall in Hall. destruct (Hall _ Hin) as [Hb Ha]. simpl in Hb, Ha. subst. split; [done|].
    intros a Ha%list_elem_of_singleton _. subst. by left.
Defined.

Lemma runSchedules_starts_only_due_witness :
  wp (@runSchedules Sim _ refusing daily _ [demo_array] (1600041605 * second)) (fun _ w' =>
    exists t, w_trace w' = w_trace demo_raid_world ++ t
    /\ forall n, (length (starts n t) <= 1)%nat
       /\ (starts n t <> [] -> exists a, a ∈ [demo_array] /\ md_Name a = n
             /\ @may_start daily _ (w_db demo_raid_world) (1600041605 * second) a)) demo_raid_world.
Proof.
  apply (@runSchedules_starts_only_due Sim _ refusing daily _ _ [demo_array] (1600041605 * second) demo_raid_world sim_no_faults).
  repeat constructor. set_solver.
Defined.

Lemma checkTransitions_announces_changes_witness :
  wp (checkTransitions (E:=Sim) [demo_array] (1600041605 * second)) (fun o w' =>
    stored_baseline (w_db w') = next_baseline [demo_array]) demo_raid_world.
Proof.
  eapply wp_mono; [apply (checkTransitions_announces_changes [demo_array] (1600041605 * second) demo_raid_world sim_no_faults)|].
  intros o w' (_ & _ & Hb & _). exact Hb.
Defined.

Lemma checkTransitions_repeat_quiet_witness :
  wp (_ ← checkTransitions (E:=Sim) [demo_array] 1; checkTransitions [demo_array] 2) (fun o w' =>
    stored_baseline (w_db w') = next_baseline [demo_array]) demo_raid_world.
Proof.
  eapply wp_mono; [apply (checkTransitions_repeat_quiet [demo_array] 1 2 demo_raid_world sim_no_faults)|].
  - repeat constructor. set_solver.
  - intros a ->%list_elem_of_singleton. simpl. repeat constructor; set_solver.
  - intros o w' (_ & _ & Hb). exact Hb.
Defined.

Lemma Start_spec_witness :
  wp (@Start Sim _ refusing _ "md0" (5 * second)) (fun o w' =>
    exists r, o = Ret r /\ stored_failures (w_db w') !! "md0" =
      match r with Some err => Some (failure_of no_failure err false (5 * second) 0) | None => None end) demo_raid_world.
Proof.
  eapply wp_mono; [exact (@Start_spec Sim _ refusing _ _ "md0" (5 * second) demo_raid_world sim_no_faults)|].
  intros o w' (t & _ & r & -> & _ & Hf). exists r. split; [done|]. rewrite Hf.
  destruct r; simpl; by simplify_map_eq.
Defined.
