(* ===== verification/Status.v ===== *)
(** * Friendly statuses (src/internal/docker/lifecycle.go)

    The pure half of listing stacks: names, health and exit codes read out of a
    container summary, the status of a container and the status of a stack. *)
From S2P Require Import Prelude GoStrings Api Db Docker.
Open Scope Z_scope.

Definition projectLabel : string := "com.docker.compose.project".
Definition serviceLabel : string := "com.docker.compose.service".
Definition composeReplaceLabel : string := "com.docker.compose.replace".

Definition containerName (names : list string) : string :=
  match names with
  | [] => ""
  | n :: _ => TrimPrefix n "/"
  end.

(** Parses 137 out of "Exited (137) 2 minutes ago"; -1 when there is no code. *)
Definition exitCodeFromStatus (status : string) : Z :=
  match IndexByte status "(" with
  | None => -1
  | Some open =>
      match IndexByte (str_drop open status) ")" with
      | None => -1
      | Some close =>
          match Atoi (TrimSpace (str_take (close - 1) (str_drop (open + 1) status))) with
          | None => -1
          | Some code => code
          end
      end
  end.

Definition mapStatus (state health : string) (exitCode : Z) : ContainerStatus :=
  if String.eqb state "running" then
    if String.eqb health "unhealthy" then StatusNeedsAttention else StatusRunning
  else if String.eqb state "restarting" || String.eqb state "dead" then StatusNeedsAttention
  else if String.eqb state "exited" then
    if 0 <? exitCode then StatusNeedsAttention else StatusStopped
  else StatusStopped.

Definition summaryHealth (status : string) : string :=
  let lower := ToLower status in
  if Contains lower "unhealthy" then "unhealthy"
  else if Contains lower "healthy" then "healthy"
  else "".

(** [mc] is the zero value when the container is not managed. *)
Definition buildContainer (c : Summary) (name : string) (managed : bool)
    (mc : option ManagedContainer) : Container :=
  let svc := label (sum_Labels c) serviceLabel in
  let friendly := if String.eqb svc "" then name else svc in
  let health := summaryHealth (sum_Status c) in
  {| c_ID := sum_ID c;
     c_Name := friendly;
     c_ContainerName := name;
     c_Image := sum_Image c;
     c_State := sum_State c;
     c_Status := mapStatus (sum_State c) health (exitCodeFromStatus (sum_Status c));
     c_Health := health;
     c_Managed := managed;
     c_AutoUpdate := match mc with Some m => mc_AutoUpdate m | None => false end;
     c_UpdateAvailable := false;
     c_RestartCount := 0;
     c_CreatedAt := sum_Created c |}.

Definition name_less (a b : Container) : bool := str_lt (c_Name a) (c_Name b).

Definition is_status (s : ContainerStatus) (c : Container) : bool :=
  bool_decide (c_Status c = s).

Definition count_status (s : ContainerStatus) (l : list Container) : nat :=
  length (List.filter (is_status s) l).

(** The loop over the containers keeps five counters; the switch reads them. *)
Definition stackStatus (l : list Container) : ContainerStatus :=
  let total := length l in
  let missing := count_status StatusMissing l in
  let running := count_status StatusRunning l in
  let needsAttention := existsb (is_status StatusNeedsAttention) l in
  let updating := existsb (is_status StatusUpdating) l in
  if (0 <? total)%nat && (missing =? total)%nat then StatusMissing
  else if needsAttention || (0 <? missing)%nat then StatusNeedsAttention
  else if updating then StatusUpdating
  else if (0 <? total)%nat && (running =? total)%nat then StatusRunning
  else StatusStopped.

Definition finalizeStack (st : Stack) : Stack :=
  let cs := sort_slice name_less (s_Containers st) in
  {| s_ID := s_ID st;
     s_Name := s_Name st;
     s_Managed := existsb c_Managed cs;
     s_Status := Some (stackStatus cs);
     s_Containers := cs |}.

(** ** Lemmas *)
Lemma IndexByte_app a c b : no_char c a -> IndexByte (a +:+ String c b) c = Some (String.length a).
Proof.
  induction a as [|x a IH]; intros H; simpl.
  - by rewrite Ascii.eqb_refl.
  - apply no_char_cons in H as [Hne H].
    rewrite IH by done. destruct (Ascii.eqb_spec x c); [congruence|done].
Qed.

Lemma count_status_all s l :
  count_status s l = length l <-> Forall (fun c => c_Status c = s) l.
Proof.
  unfold count_status. induction l as [|c l IH]; simpl; [split; [constructor|done]|].
  rewrite Forall_cons. unfold is_status at 1. case_bool_decide as Hc; simpl.
  - rewrite <- IH. naive_solver lia.
  - pose proof (List.filter_length_le (is_status s) l). split; [lia|naive_solver].
Qed.

Lemma count_status_pos s l :
  (0 < count_status s l)%nat <-> exists c, c ∈ l /\ c_Status c = s.
Proof.
  unfold count_status. induction l as [|c l IH]; simpl; [split; [lia|set_solver]|].
  unfold is_status at 1. case_bool_decide as Hc; simpl.
  - split; [|lia]. intros _. exists c. set_solver.
  - rewrite IH. split; intros (x & Hx & Hs); exists x; set_solver.
Qed.

Lemma existsb_status s l :
  existsb (is_status s) l = true <-> exists c, c ∈ l /\ c_Status c = s.
Proof.
  rewrite existsb_exists. setoid_rewrite <- list_elem_of_In. unfold is_status.
  setoid_rewrite bool_decide_eq_true. done.
Qed.

Lemma str_drop_S_app a c b : str_drop (String.length a + 1) (a +:+ String c b) = b.
Proof. induction a as [|x a IH]; simpl; [by destruct b|done]. Qed.

Lemma count_status_perm s l l' : l ≡ₚ l' -> count_status s l = count_status s l'.
Proof.
  intros H. unfold count_status. induction H; simpl; repeat case_match; simpl; lia.
Qed.

Lemma existsb_perm {A} (f : A -> bool) l l' : l ≡ₚ l' -> existsb f l = existsb f l'.
Proof.
  intros H. induction H; simpl; [done|congruence| |congruence].
  by rewrite !orb_assoc, (orb_comm (f y)).
Qed.

(** The status of a stack does not depend on the order of its containers. *)
Lemma stackStatus_perm l l' : l ≡ₚ l' -> stackStatus l = stackStatus l'.
Proof.
  intros H. unfold stackStatus.
  by rewrite !(count_status_perm _ _ _ H), !(existsb_perm _ _ _ H), (Permutation_length H).
Qed.

#[export] Instance stackStatus_proper : Proper (Permutation ==> eq) stackStatus.
Proof. intros l l'. apply stackStatus_perm. Qed.

Lemma all_status_eqb s l :
  (0 <? length l)%nat && (count_status s l =? length l)%nat = true <->
  l <> [] /\ Forall (fun c => c_Status c = s) l.
Proof.
  rewrite andb_true_iff, Nat.ltb_lt, Nat.eqb_eq, count_status_all.
  by destruct l; simpl; naive_solver lia.
Qed.

(** The exit code is read back out of a summary status "... (code) ..." for
    every 64-bit code. *)
Theorem exitCode_roundtrip prefix code rest :
  no_char "(" prefix -> in_int64 code = true ->
  exitCodeFromStatus (prefix +:+ String "(" (Itoa code +:+ String ")" rest)) = code.
Proof.
  intros Hp Hc. unfold exitCodeFromStatus.
  rewrite IndexByte_app, str_drop_app by done.
  assert (Hn : no_char ")" (String "(" (Itoa code))).
  { apply no_char_cons. split; [done|]. by apply Itoa_no_char. }
  change (String "(" (Itoa code +:+ String ")" rest)) with
    (String "(" (Itoa code) +:+ String ")" rest) at 1.
  rewrite IndexByte_app by done. simpl String.length.
  rewrite Nat.sub_succ, Nat.sub_0_r, str_drop_S_app, str_take_app, TrimSpace_Itoa.
  by rewrite Atoi_Itoa.
Qed.

Lemma stackStatus_spec l :
  stackStatus l =
    if decide (l <> [] /\ Forall (fun c => c_Status c = StatusMissing) l) then StatusMissing
    else if decide (Exists (fun c => c_Status c = StatusNeedsAttention \/ c_Status c = StatusMissing) l)
    then StatusNeedsAttention
    else if decide (Exists (fun c => c_Status c = StatusUpdating) l) then StatusUpdating
    else if decide (l <> []) then
      if decide (Forall (fun c => c_Status c = StatusRunning) l) then StatusRunning else StatusStopped
    else StatusStopped.
Proof.
  unfold stackStatus.
  destruct (_ && (count_status StatusMissing l =? _)%nat) eqn:E1.
  { apply all_status_eqb in E1. by rewrite decide_True. }
  rewrite decide_False by (rewrite <- all_status_eqb; congruence).
  destruct (_ || _) eqn:E2.
  { rewrite decide_True; [done|]. rewrite Exists_exists.
    apply orb_true_iff in E2 as [E2|E2%Nat.ltb_lt].
    - apply existsb_status in E2. naive_solver.
    - apply count_status_pos in E2. naive_solver. }
  apply orb_false_iff in E2 as [E2 E3%Nat.ltb_ge].
  rewrite decide_False.
  2:{ rewrite Exists_exists. intros (c & Hc & [Hs|Hs]).
      - assert (existsb (is_status StatusNeedsAttention) l = true); [|congruence].
        apply existsb_status. eauto.
      - assert (0 < count_status StatusMissing l)%nat; [|lia]. apply count_status_pos. eauto. }
  destruct (existsb (is_status StatusUpdating) l) eqn:E4.
  { rewrite decide_True; [done|]. rewrite Exists_exists. by apply existsb_status. }
  rewrite decide_False.
  2:{ rewrite Exists_exists. intros H%existsb_status. congruence. }
  destruct (_ && (count_status StatusRunning l =? _)%nat) eqn:E5.
  { apply all_status_eqb in E5 as [H1 H2]. by rewrite !decide_True. }
  case_decide as Hl; [|done]. rewrite decide_False; [done|].
  intros Hr. apply not_true_iff_false in E5. apply E5, all_status_eqb. done.
Qed.

(** Finalizing a stack sorts its containers by name without losing one, marks it
    managed when one of them is, and gives it the status of the first applicable
    rule. *)
Theorem finalizeStack_spec st :
  let st' := finalizeStack st in
  s_Containers st' ≡ₚ s_Containers st
  /\ StronglySorted (fun a b => name_less b a = false) (s_Containers st')
  /\ (s_Managed st' = true <-> exists c, c ∈ s_Containers st /\ c_Managed c = true)
  /\ s_Status st' = Some
       (if decide (s_Containers st <> [] /\ Forall (fun c => c_Status c = StatusMissing) (s_Containers st))
        then StatusMissing
        else if decide (Exists (fun c => c_Status c = StatusNeedsAttention \/ c_Status c = StatusMissing)
                          (s_Containers st)) then StatusNeedsAttention
        else if decide (Exists (fun c => c_Status c = StatusUpdating) (s_Containers st)) then StatusUpdating
        else if decide (s_Containers st <> []) then
          if decide (Forall (fun c => c_Status c = StatusRunning) (s_Containers st))
          then StatusRunning else StatusStopped
        else StatusStopped).
Proof.
  simpl. set (l := s_Containers st).
  assert (Hp : sort_slice name_less l ≡ₚ l) by apply sort_slice_perm.
  split; [done|]. split; [by apply (sort_by_key_sorted c_Name)|]. split.
  - rewrite existsb_exists. setoid_rewrite <- list_elem_of_In. by setoid_rewrite sort_slice_elem_of.
  - f_equal. rewrite (stackStatus_perm _ l Hp). apply stackStatus_spec.
Qed.

(** ** Instances at concrete inputs *)
Lemma exitCode_roundtrip_witness :
  exitCodeFromStatus "Exited (137) 2 minutes ago" = 137.
Proof. exact (exitCode_roundtrip "Exited " 137 " 2 minutes ago" eq_refl eq_refl). Defined.
