(* ===== verification/Snapshot.v ===== *)
(** * Snapshots (src/internal/docker/snapshot.go)

    The create-spec Veery keeps of every managed container, and the recreation
    of a container from it. *)
From S2P Require Import Prelude GoStrings Api Db Docker World Sim Status.
Open Scope Z_scope.

Record Snapshot := {
  sn_Name : string;
  sn_Image : string;
  sn_Project : string;
  sn_Service : string;
  sn_Config : option Config;
  sn_HostConfig : option HostConfig;
  sn_NetworkingConfig : option Endpoints
}.

(** [json.Marshal] and [json.Unmarshal] of a snapshot: those of the Docker
    library's structs, whose field tags and custom marshallers are not in the
    repository. *)
Class SnapshotCodec := {
  snapshot_Marshal : Snapshot -> result string;
  snapshot_Unmarshal : string -> result Snapshot
}.

Definition marshal `{!SnapshotCodec} (s : Snapshot) : result string := snapshot_Marshal s.

(** No caller looks at the snapshot that comes with an error. *)
Definition parseSnapshot `{!SnapshotCodec} (js : string) : result Snapshot := snapshot_Unmarshal js.

(** What the code relies on: a marshalled snapshot reads back unchanged. *)
Class SnapshotCodecOk `{!SnapshotCodec} : Prop :=
  parse_marshal : forall s js, marshal s = Ok js -> parseSnapshot js = Ok s.

(** The encodings the docker package reads and writes. *)
Class DockerCodecs := {
  dc_snapshot :: SnapshotCodec;
  dc_flags :: JsonCodec (gmap string bool);
  dc_statuses :: JsonCodec (gmap string ContainerStatus)
}.

(** [None] is the panic on [insp.Config.Image] of a nil Config. *)
Definition snapshotFromInspect (insp : InspectResponse) : option Snapshot :=
  let netCfg := match in_Networks insp with Some n => n | None => ∅ end in
  let labels := match in_Config insp with Some c => cfg_Labels c | None => ∅ end in
  match in_Config insp with
  | None => None
  | Some c =>
      Some {| sn_Name := TrimPrefix (in_Name insp) "/";
              sn_Image := cfg_Image c;
              sn_Project := label labels projectLabel;
              sn_Service := label labels serviceLabel;
              sn_Config := in_Config insp;
              sn_HostConfig := in_HostConfig insp;
              sn_NetworkingConfig := Some netCfg |}
  end.

Definition sanitizeEndpoint (ep : option EndpointSettings) : option EndpointSettings :=
  match ep with
  | None => None
  | Some e =>
      Some {| ep_IPAMConfig := ep_IPAMConfig e; ep_Aliases := ep_Aliases e;
              ep_NetworkID := ""; ep_EndpointID := ""; ep_IPAddress := "";
              ep_Gateway := ""; ep_IPPrefixLen := 0; ep_MacAddress := "";
              ep_IPv6Gateway := ""; ep_GlobalIPv6Address := "";
              ep_GlobalIPv6PrefixLen := 0; ep_other := ep_other e |}
  end.

(** The endpoint names in [sort.Strings] order. *)
Definition endpoint_names (eps : Endpoints) : list string :=
  sort_slice str_lt (map fst (map_to_list eps)).

Definition is_default_network (name : string) : bool :=
  String.eqb name "default" || HasSuffix name "_default".

Definition primaryNetwork (project : string) (eps : Endpoints) (names : list string) : string :=
  match names with
  | [] => ""
  | first :: _ =>
      let by_suffix :=
        match List.find is_default_network names with Some n => n | None => first end in
      if negb (String.eqb project "") then
        match eps !! (project +:+ "_default") with
        | Some _ => project +:+ "_default"
        | None => by_suffix
        end
      else by_suffix
  end.

(** The endpoints handed to ContainerCreate (at most the primary one) and the
    names connected afterwards. *)
Definition recreate_ep (eps : Endpoints) (n : string) : option EndpointSettings :=
  sanitizeEndpoint (default None (eps !! n)).

Definition recreate_primary (project : string) (eps : Endpoints) : Endpoints :=
  let names := endpoint_names eps in
  list_to_map (map (fun n => (n, recreate_ep eps n))
    (List.filter (String.eqb (primaryNetwork project eps names)) names)).

Definition recreate_extra (project : string) (eps : Endpoints) : list string :=
  let names := endpoint_names eps in
  List.filter (fun n => negb (String.eqb (primaryNetwork project eps names) n)) names.

Definition recreate_config (c : Config) (newImage : string) : Config :=
  if String.eqb newImage "" then c else with_image newImage c.

Section Recreate.
Context {E : Type} `{!Env E}.

(** Returns the id of the container and the error; a container that was
    created but did not start is reported with both. *)
Definition recreate (snap : Snapshot) (newImage : string) : M E (string * option error) :=
  match sn_Config snap with
  | None => panic "nil Config"
  | Some c =>
    match sn_NetworkingConfig snap with
    | None => panic "nil NetworkingConfig"
    | Some eps =>
      resp ← ContainerCreate (recreate_config c newImage) (sn_HostConfig snap)
               (recreate_primary (sn_Project snap) eps) (sn_Name snap);
      match resp with
      | Fail e => mret ("", Some e)
      | Ok id =>
          for_each (recreate_extra (sn_Project snap) eps)
            (fun n => NetworkConnect n id (recreate_ep eps n) ≫= fun _ => mret tt) ≫= fun _ =>
          (err ← ContainerStart id; mret (id, err))
      end
    end
  end.
End Recreate.

(** ** Lemmas *)
Lemma endpoint_names_iff eps n : n ∈ endpoint_names eps <-> is_Some (eps !! n).
Proof.
  unfold endpoint_names. rewrite sort_slice_elem_of, list_elem_of_In, in_map_iff.
  setoid_rewrite <- list_elem_of_In. split.
  - intros ([k v] & <- & H). apply elem_of_map_to_list in H. eauto.
  - intros [v Hv]. exists (n, v). split; [done|]. by apply elem_of_map_to_list.
Qed.

Lemma endpoint_names_NoDup eps : NoDup (endpoint_names eps).
Proof.
  unfold endpoint_names. rewrite sort_slice_perm. apply NoDup_fst_map_to_list.
Qed.

Lemma primary_in project eps :
  endpoint_names eps <> [] ->
  primaryNetwork project eps (endpoint_names eps) ∈ endpoint_names eps.
Proof.
  unfold primaryNetwork. destruct (endpoint_names eps) as [|n l] eqn:El; [done|intros _].
  set (bs := match List.find _ _ with Some _ => _ | None => _ end).
  assert (Hbs : bs ∈ n :: l).
  { subst bs. destruct (List.find _ _) eqn:Ef; [|set_solver]. by apply find_some_iff in Ef as [? _]. }
  destruct (negb _); [|done]. destruct (eps !! _) eqn:Ee; [|done].
  rewrite <- El. apply endpoint_names_iff. eauto.
Qed.

Lemma filter_eqb_NoDup x (l : list string) :
  NoDup l -> x ∈ l -> List.filter (String.eqb x) l = [x].
Proof.
  induction 1 as [|y l Hy Hl IH]; intros Hx; [set_solver|]. simpl.
  destruct (String.eqb_spec x y) as [<-|Hne].
  - f_equal. assert (forall z, z ∈ l -> String.eqb x z = false) as Hf.
    { intros z Hz. apply String.eqb_neq. naive_solver. }
    clear -Hf. induction l as [|z l IH]; [done|]. simpl.
    rewrite Hf by set_solver. apply IH. set_solver.
  - apply IH. set_solver.
Qed.

(** ** What [recreate] does on the daemon *)

(** The endpoints a run of calls gave to the container. *)
Definition attached (t : list Ev) : list (string * option EndpointSettings) :=
  flat_map (fun e => match e with
    | EvCreate _ _ _ net _ => map_to_list net
    | EvConnect n _ ep _ => [(n, ep)]
    | _ => []
    end) t.

(** Every endpoint of a network configuration, without its runtime-only fields. *)
Definition sanitized (eps : Endpoints) : list (string * option EndpointSettings) :=
  map (fun p => (p.1, sanitizeEndpoint p.2)) (map_to_list eps).

Section RecreateFacts.
Context {E : Type} `{!Env E}.

Lemma connects_trace (l : list string) id (ep : string -> option EndpointSettings) :
  emits (E:=E) (for_each l (fun n => NetworkConnect n id (ep n) ≫= fun _ => mret tt))
    (fun o t => o = Ret tt /\ exists errs, t = zip_with (fun n e => EvConnect n id (ep n) e) l errs
                                      /\ length errs = length l).
Proof.
  induction l as [|n l IH]; simpl.
  - apply emits_ret. split; [done|]. by exists [].
  - eapply (emits_bind _ _ (fun o t => exists e, o = Ret tt /\ t = [EvConnect n id (ep n) e])).
    + eapply (emits_bind _ _ (fun o t => exists e, o = Ret e /\ t = [EvConnect n id (ep n) e])).
      * apply emits_call. eauto.
      * naive_solver.
      * intros a t1 (e & _ & ->). apply emits_ret. eexists. done.
    + naive_solver.
    + intros a t1 (e & _ & ->). eapply emits_mono; [exact IH|].
      intros o t (-> & errs & -> & Hl). split; [done|]. exists (e :: errs). simpl. by rewrite Hl.
Qed.

(** How a recreation ends, and the calls it made. *)
Definition recreate_result (snap : Snapshot) (newImage : string)
    (o : outcome (string * option error)) (t : list Ev) : Prop :=
  match o with
  | Panic _ => t = [] /\ (sn_Config snap = None \/ sn_NetworkingConfig snap = None)
  | Ret (id, err) =>
      exists c eps, sn_Config snap = Some c /\ sn_NetworkingConfig snap = Some eps /\
      let create := EvCreate (sn_Name snap) (recreate_config c newImage) (sn_HostConfig snap)
                      (recreate_primary (sn_Project snap) eps) in
      (exists e, t = [create (Fail e)] /\ id = "" /\ err = Some e) \/
      (exists errs, t = create (Ok id) ::
            zip_with (fun n e => EvConnect n id (recreate_ep eps n) e)
              (recreate_extra (sn_Project snap) eps) errs ++ [EvStart id err]
          /\ length errs = length (recreate_extra (sn_Project snap) eps))
  end.

Lemma recreate_emits snap newImage :
  emits (recreate (E:=E) snap newImage) (recreate_result snap newImage).
Proof.
  unfold recreate. destruct (sn_Config snap) as [c|] eqn:Ec; [|apply emits_panic; simpl; auto].
  destruct (sn_NetworkingConfig snap) as [eps|] eqn:En; [|apply emits_panic; simpl; auto].
  eapply (emits_bind _ _ (fun o t => exists r, o = Ret r /\
     t = [EvCreate (sn_Name snap) (recreate_config c newImage) (sn_HostConfig snap)
            (recreate_primary (sn_Project snap) eps) r])).
  { apply emits_call. eauto. }
  { naive_solver. }
  intros r t1 (r' & [= <-] & ->). destruct r as [id|e].
  - eapply emits_bind; [apply connects_trace|naive_solver|].
    intros ? t1 (_ & errs & -> & Hl).
    eapply (emits_bind _ _ (fun o t => exists e, o = Ret e /\ t = [EvStart id e])).
    { apply emits_call. eauto. }
    { naive_solver. }
    intros e t2 (e' & [= <-] & ->). apply emits_ret. simpl. exists c, eps.
    do 2 (split; [done|]). right. exists errs. done.
  - apply emits_ret. simpl. exists c, eps. do 2 (split; [done|]). left. eauto.
Qed.
End RecreateFacts.

Lemma attached_app t1 t2 : attached (t1 ++ t2) = attached t1 ++ attached t2.
Proof. apply flat_map_app. Qed.

Lemma attached_recreate name cfg hc net id t :
  attached (EvCreate name cfg hc net (Ok id) :: t) = map_to_list net ++ attached t.
Proof. done. Qed.

Lemma attached_connects l id f (errs : list (option error)) :
  length errs = length l ->
  attached (zip_with (fun n e => EvConnect n id (f n) e) l errs) = map (fun n => (n, f n)) l.
Proof.
  revert errs. induction l as [|n l IH]; intros [|e errs] H; simpl in *; try done.
  f_equal. apply IH. lia.
Qed.

Lemma filter_split {A} (f : A -> bool) (l : list A) :
  List.filter f l ++ List.filter (fun x => negb (f x)) l ≡ₚ l.
Proof.
  induction l as [|x l IH]; simpl; [done|]. destruct (f x); simpl.
  - by rewrite IH.
  - by rewrite <- Permutation_middle, IH.
Qed.

Lemma map_to_list_names eps :
  map (fun n => (n, recreate_ep eps n)) (endpoint_names eps) ≡ₚ sanitized eps.
Proof.
  unfold endpoint_names, sanitized. rewrite sort_slice_perm, map_map.
  erewrite map_ext_in; [done|]. intros [k v] Hin%list_elem_of_In%elem_of_map_to_list.
  cbn [fst snd]. unfold recreate_ep. by rewrite Hin.
Qed.

(** The primary endpoint and the extra ones are the whole network
    configuration, each endpoint once, without its runtime-only fields. *)
Lemma recreate_endpoints project eps :
  map_to_list (recreate_primary project eps) ++
  map (fun n => (n, recreate_ep eps n)) (recreate_extra project eps) ≡ₚ
  sanitized eps.
Proof.
  unfold recreate_primary, recreate_extra. cbv zeta.
  set (pn := primaryNetwork _ _ _).
  rewrite map_to_list_to_map.
  2:{ change (NoDup (map fst (map (fun n : string => (n, recreate_ep eps n))
        (List.filter (String.eqb pn) (endpoint_names eps))))).
      rewrite map_map, map_id.
      pose proof (NoDup_map_filter id (String.eqb pn) (endpoint_names eps)) as H.
      rewrite !map_id in H. apply H, endpoint_names_NoDup. }
  rewrite <- map_app, filter_split. apply map_to_list_names.
Qed.

(** C27. Recreating a container from its stored snapshot creates it with the
    name, configuration and host configuration that were recorded, attaches
    every recorded network once, and starts it last. *)
Theorem recreate_restores_container {E : Type} `{!Env E} `{!SnapshotCodec} `{!SnapshotCodecOk}
    insp c eps snap js snap' :
  in_Config insp = Some c -> in_Networks insp = Some eps ->
  snapshotFromInspect insp = Some snap -> marshal snap = Ok js -> parseSnapshot js = Ok snap' ->
  emits (E:=E) (recreate snap' "") (fun o t =>
    exists id err, o = Ret (id, err) /\
    match t with
    | EvCreate name cfg hc _ r :: t' =>
        name = TrimPrefix (in_Name insp) "/" /\ cfg = c /\ hc = in_HostConfig insp /\
        match r with
        | Fail e => t' = [] /\ err = Some e
        | Ok id' => id' = id /\ last t' = Some (EvStart id err)
                    /\ attached t ≡ₚ sanitized eps
        end
    | _ => False
    end).
Proof.
  intros Hc He Hs Hm Hp. pose proof (parse_marshal _ _ Hm) as Hp'. rewrite Hp in Hp'.
  injection Hp' as ->. unfold snapshotFromInspect in Hs. rewrite Hc, He in Hs.
  injection Hs as <-. eapply emits_mono; [apply recreate_emits|].
  intros [[id err]|s] t; simpl.
  - intros (c' & eps' & [= <-] & [= <-] & [(e & -> & -> & ->)|(errs & -> & Hl)]);
      exists (id) || exists ""; eexists; (split; [done|]); repeat (split; [done|]); [done|].
    split; [by rewrite last_snoc|].
    rewrite attached_recreate, (attached_app _ [EvStart id err]), attached_connects, app_nil_r by done.
    apply recreate_endpoints.
  - intros [_ [Hn|Hn]]; done.
Qed.

(** The primary network is one of the container's networks and the only one
    handed to the create call: the compose default network when there is one,
    else the smallest name. *)
Theorem primaryNetwork_spec project eps :
  eps <> ∅ ->
  let p := primaryNetwork project eps (endpoint_names eps) in
  is_Some (eps !! p)
  /\ recreate_primary project eps = {[p := recreate_ep eps p]}
  /\ (project <> "" -> is_Some (eps !! (project +:+ "_default")) -> p = project +:+ "_default")
  /\ ((project = "" \/ eps !! (project +:+ "_default") = None) ->
      (forall n, is_Some (eps !! n) -> is_default_network n = false) ->
      forall n, is_Some (eps !! n) -> str_lt n p = false).
Proof.
  intros Hne p.
  assert (Hnames : endpoint_names eps <> []).
  { intros H. apply Hne, map_eq. intros k. rewrite lookup_empty.
    apply eq_None_not_Some. rewrite <- endpoint_names_iff, H. set_solver. }
  pose proof (primary_in project eps Hnames) as Hin. fold p in Hin.
  split; [by apply endpoint_names_iff|]. split; [|split].
  - unfold recreate_primary. fold p. by rewrite filter_eqb_NoDup by (done || apply endpoint_names_NoDup).
  - intros Hp [v Hv]. subst p. unfold primaryNetwork.
    destruct (endpoint_names eps); [done|]. apply String.eqb_neq in Hp. by rewrite Hp, Hv.
  - intros Hp Hdef n Hn. assert (Hfirst : hd_error (endpoint_names eps) = Some p).
    { subst p. unfold primaryNetwork. destruct (endpoint_names eps) as [|f l] eqn:El; [done|].
      destruct (List.find is_default_network (f :: l)) as [x|] eqn:Ef.
      { apply find_some_iff in Ef as [Hx Hd]. rewrite <- El in Hx.
        apply endpoint_names_iff, Hdef in Hx. congruence. }
      simpl. destruct Hp as [->|Hp]; [done|]. rewrite Hp. by destruct (negb _). }
    pose proof (sort_by_key_sorted id (map fst (map_to_list eps))) as Hs.
    change (StronglySorted (fun a b => str_lt b a = false) (endpoint_names eps)) in Hs.
    clearbody p. destruct (endpoint_names eps) as [|f l] eqn:El; [done|]. injection Hfirst as ->.
    apply endpoint_names_iff in Hn. rewrite El in Hn. inversion Hs as [|? ? ? Hall]; subst.
    apply elem_of_cons in Hn as [->|Hn]; [apply str_lt_irrefl|].
    by eapply Forall_forall in Hall.
Qed.

(** ** Instances at concrete inputs *)
#[export] Instance Snapshot_eq_dec : EqDecision Snapshot.
Proof. solve_decision. Defined.

#[export] Instance Snapshot_countable : Countable Snapshot.
Proof.
  apply (inj_countable'
    (fun s => (sn_Name s, sn_Image s, sn_Project s, sn_Service s,
               (sn_Config s, sn_HostConfig s, sn_NetworkingConfig s)))
    (fun p => match p with
      | (a, b, c, d, (e, f, g)) =>
          {| sn_Name := a; sn_Image := b; sn_Project := c; sn_Service := d;
             sn_Config := e; sn_HostConfig := f; sn_NetworkingConfig := g |}
      end)). by intros [].
Defined.

(** The reference codec (see Sim.v). *)
#[export] Instance sim_codec : SnapshotCodec | 100 :=
  {| snapshot_Marshal s := Ok (count_Marshal s);
     snapshot_Unmarshal js := match count_Unmarshal js with
                         | Some s => Ok s
                         | None => Fail (errorf "unexpected end of JSON input")
                         end |}.

#[export] Instance sim_codec_ok : @SnapshotCodecOk sim_codec.
Proof. intros s js [= <-]. simpl. by rewrite count_roundtrip. Qed.

#[export] Instance sim_codecs : DockerCodecs | 100 :=
  {| dc_snapshot := sim_codec; dc_flags := count_codec _; dc_statuses := count_codec _ |}.

Definition demo_config (img : string) : Config :=
  {| cfg_Image := img; cfg_Entrypoint := []; cfg_Cmd := []; cfg_Env := ["A=1"]; cfg_User := "";
     cfg_WorkingDir := "/"; cfg_Labels := {[projectLabel := "web"]}; cfg_Healthcheck := None;
     cfg_other := "" |}.

Definition demo_ep (ip : string) : EndpointSettings :=
  {| ep_IPAMConfig := None; ep_Aliases := ["a"]; ep_NetworkID := "n"; ep_EndpointID := "e";
     ep_IPAddress := ip; ep_Gateway := "10.0.0.1"; ep_IPPrefixLen := 16; ep_MacAddress := "02";
     ep_IPv6Gateway := ""; ep_GlobalIPv6Address := ""; ep_GlobalIPv6PrefixLen := 0; ep_other := "" |}.

Definition demo_eps : Endpoints :=
  {["front" := Some (demo_ep "10.0.0.2"); "web_default" := Some (demo_ep "10.1.0.2")]}.

Definition demo_container (id name img_id img : string) (st : ContainerState) : InspectResponse :=
  {| in_ID := id; in_Name := "/" +:+ name; in_Image := img_id; in_State := Some st;
     in_Config := Some (demo_config img); in_HostConfig := None; in_Networks := Some demo_eps;
     in_RestartCount := 0 |}.

Definition demo_snapshot : Snapshot :=
  {| sn_Name := "nginx"; sn_Image := "nginx:1"; sn_Project := "web"; sn_Service := "";
     sn_Config := Some (demo_config "nginx:1"); sn_HostConfig := None;
     sn_NetworkingConfig := Some demo_eps |}.

Lemma demo_marshal : marshal demo_snapshot = Ok (count_Marshal demo_snapshot).
Proof. reflexivity. Defined.

Lemma recreate_restores_container_witness :
  exists id err, (recreate demo_snapshot "" (sim_world empty_db sim_empty)).2 = Ret (id, err).
Proof.
  destruct (recreate_restores_container (E:=Sim) (demo_container "c9" "nginx" "sha256:a" "nginx:1" up)
    (demo_config "nginx:1") demo_eps demo_snapshot (count_Marshal demo_snapshot) demo_snapshot
    eq_refl eq_refl eq_refl demo_marshal (parse_marshal _ _ demo_marshal) (sim_world empty_db sim_empty))
    as (t & _ & id & err & H & _).
  exists id, err. exact H.
Defined.

Lemma primaryNetwork_spec_witness :
  primaryNetwork "web" demo_eps (endpoint_names demo_eps) = "web_default".
Proof.
  destruct (primaryNetwork_spec "web" demo_eps ltac:(vm_compute; discriminate)) as (_ & _ & H & _).
  apply H; [discriminate|]. eexists. vm_compute. reflexivity.
Defined.
