(* ===== verification/Notices.v ===== *)
(** * Status notifications (src/internal/docker/notify.go)

    The manager compares the statuses of the managed containers with those of
    the previous sweep and tells the user about the transitions. *)
From S2P Require Import Prelude GoStrings Api Db Docker World Sim StoreSettings Status Snapshot.
Open Scope Z_scope.

Definition friendlyStatus (s : ContainerStatus) : string :=
  match s with
  | StatusNeedsAttention => "in trouble"
  | StatusMissing => "missing"
  | _ => "stopped"
  end.

(** An empty title: the transition is not worth a notification. *)
Definition statusMessage (c : Container) (prev : ContainerStatus) : string * string :=
  match c_Status c with
  | StatusNeedsAttention =>
      (c_ContainerName c +:+ " needs attention",
       if String.eqb (c_Health c) "unhealthy" then
         "The container is running but its health check is failing."
       else if 0 <? c_RestartCount c then
         "The container is crash-looping (" +:+ Itoa (c_RestartCount c) +:+ " restarts). Last state: "
           +:+ c_State c +:+ "."
       else "The container stopped unexpectedly. Last state: " +:+ c_State c +:+ ".")
  | StatusStopped =>
      (c_ContainerName c +:+ " stopped", "The container is no longer running.")
  | StatusRunning =>
      (c_ContainerName c +:+ " is running",
       "The container is back up, after being " +:+ friendlyStatus prev +:+ ".")
  | _ => ("", "")
  end.

(** [message]: title, body, container name. *)
Record message := { msg_title : string; msg_body : string; msg_containerName : string }.

Definition takedown_message (st : Stack) (n : nat) : message :=
  {| msg_title := s_Name st +:+ " was taken down";
     msg_body := "All " +:+ Itoa (Z.of_nat n) +:+ " of its containers were removed from this machine. "
       +:+ "Bring it back up to recreate them, or forget it if you meant to get rid of it.";
     msg_containerName := "" |}.

Definition removed_message (c : Container) : message :=
  {| msg_title := c_ContainerName c +:+ " was removed";
     msg_body := "The container no longer exists on this machine. It may have been removed outside Veery. "
       +:+ "Bring it back up to recreate it, or forget it if you meant to remove it.";
     msg_containerName := c_ContainerName c |}.

Definition removalMessages (st : Stack) (gone : list Container) (managed : nat) : list message :=
  if (length gone =? 0)%nat then []
  else if (1 <? length gone)%nat && (length gone =? managed)%nat then [takedown_message st (length gone)]
  else map removed_message gone.

(** [a] and [b] hold the same statuses; a missing key reads as the empty
    status, which no entry has. *)
Definition sameStatuses (a b : gmap string ContainerStatus) : bool :=
  (size a =? size b)%nat &&
  forallb (fun kv : string * ContainerStatus =>
             bool_decide (b !! kv.1 = Some kv.2)) (map_to_list a).

(** A container whose status is a transition from the previous sweep. *)
Definition transition (last : gmap string ContainerStatus) (c : Container) : bool :=
  match last !! c_ContainerName c with
  | None => false
  | Some prev =>
      negb (bool_decide (prev = c_Status c)
            || bool_decide (prev = StatusUpdating)
            || bool_decide (c_Status c = StatusUpdating))
  end.

(** The inner loop over one stack: [changed] and [gone]. *)
Definition managed_of (st : Stack) : list Container := List.filter c_Managed (s_Containers st).

Definition gone_of (last : gmap string ContainerStatus) (st : Stack) : list Container :=
  List.filter (fun c => transition last c && is_status StatusMissing c) (managed_of st).

Definition changed_of (last : gmap string ContainerStatus) (st : Stack) : list Container :=
  List.filter (fun c => transition last c && negb (is_status StatusMissing c)) (managed_of st).

(** [seen], over all stacks; a later container of the same name wins. *)
Definition seen_statuses (stacks : list Stack) : gmap string ContainerStatus :=
  fold_left (fun m c => <[c_ContainerName c := c_Status c]> m) (flat_map managed_of stacks) ∅.

Section Note.
Context {E : Type} `{!Env E} `{!DockerCodecs}.

Definition note_changed (last : gmap string ContainerStatus) (st : Stack) (c : Container) : M E unit :=
  match last !! c_ContainerName c with
  | None => mret tt
  | Some prev =>
      let (title, body) := statusMessage c prev in
      if String.eqb title "" then mret tt
      else notify EventContainerStatus title body
             {| em_ContainerName := c_ContainerName c; em_StackID := s_ID st |}
  end.

Definition note_stack (last : gmap string ContainerStatus) (st : Stack) : M E unit :=
  for_each (changed_of last st) (note_changed last st) ≫= fun _ =>
  for_each (removalMessages st (gone_of last st) (length (managed_of st))) (fun msg =>
    notify EventContainerMissing (msg_title msg) (msg_body msg)
      {| em_ContainerName := msg_containerName msg; em_StackID := s_ID st |}).

(** Loads the statuses of the last sweep, once per process; [false]: it could
    not, and the sweep is skipped. *)
Definition ensure_status_baseline : M E bool :=
  base ← gets m_statusBaseline;
  if (base : bool) then mret true
  else
    r ← LoadNotifiedStatuses;
    match r with
    | Fail _ => mret false
    | Ok saved => modify (fun m => set_status m saved true) ≫= fun _ => mret true
    end.

Definition noteStatuses (stacks : list Stack) : M E unit :=
  ok ← ensure_status_baseline;
  if negb (ok : bool) then mret tt
  else
    last ← gets m_lastStatus;
    for_each stacks (note_stack last) ≫= fun _ =>
    let seen := seen_statuses stacks in
    if sameStatuses last seen then mret tt
    else
      modify (fun m => set_status m seen (m_statusBaseline m)) ≫= fun _ =>
      (_ ← SaveNotifiedStatuses seen; mret tt).
End Note.

(** ** Lemmas *)
Lemma sameStatuses_spec a b : sameStatuses a b = true <-> a = b.
Proof.
  unfold sameStatuses. rewrite andb_true_iff, Nat.eqb_eq, forallb_forall. split.
  - intros [Hs Hf]. apply map_subseteq_size_eq; [|lia]. apply map_subseteq_spec.
    intros k v Hk. specialize (Hf (k, v)). simpl in Hf.
    apply bool_decide_eq_true in Hf; [done|]. apply list_elem_of_In.
    by apply elem_of_map_to_list.
  - intros ->. split; [done|]. intros [k v] Hin%list_elem_of_In%elem_of_map_to_list.
    by apply bool_decide_eq_true.
Qed.

Lemma transition_iff last c :
  transition last c = true <->
  exists prev, last !! c_ContainerName c = Some prev /\ prev <> c_Status c
               /\ prev <> StatusUpdating /\ c_Status c <> StatusUpdating.
Proof.
  unfold transition. destruct (last !! _) as [prev|]; [|naive_solver].
  rewrite negb_true_iff, !orb_false_iff, !bool_decide_eq_false. naive_solver.
Qed.

Lemma elem_of_managed st c : c ∈ managed_of st <-> c ∈ s_Containers st /\ c_Managed c = true.
Proof. unfold managed_of. by rewrite !list_elem_of_In, filter_In. Qed.

Lemma elem_of_changed last st c :
  c ∈ changed_of last st <-> c ∈ managed_of st /\ transition last c = true /\ c_Status c <> StatusMissing.
Proof.
  unfold changed_of. rewrite list_elem_of_In, filter_In, <- list_elem_of_In, andb_true_iff, negb_true_iff.
  unfold is_status. by rewrite bool_decide_eq_false.
Qed.

Lemma elem_of_gone last st c :
  c ∈ gone_of last st <-> c ∈ managed_of st /\ transition last c = true /\ c_Status c = StatusMissing.
Proof.
  unfold gone_of. rewrite list_elem_of_In, filter_In, <- list_elem_of_In, andb_true_iff.
  unfold is_status. by rewrite bool_decide_eq_true.
Qed.

Lemma no_transition_last last st :
  (forall c, c ∈ managed_of st -> last !! c_ContainerName c = Some (c_Status c)) ->
  changed_of last st = [] /\ gone_of last st = [].
Proof.
  intros H. assert (Ht : forall c, c ∈ managed_of st -> transition last c = false).
  { intros c Hc. apply not_true_iff_false. intros (p & Hp & Hne & _)%transition_iff.
    rewrite H in Hp by done. congruence. }
  unfold changed_of, gone_of. induction (managed_of st) as [|c l IH]; [done|]. simpl.
  rewrite Ht by set_solver. simpl. apply IH; intros c' ?; [apply H|apply Ht]; set_solver.
Qed.

(** ** The notifications of one sweep *)
Definition changed_events (last : gmap string ContainerStatus) (st : Stack) (c : Container) : list Ev :=
  match last !! c_ContainerName c with
  | None => []
  | Some prev =>
      let tb := statusMessage c prev in
      if String.eqb tb.1 "" then []
      else [EvNotify EventContainerStatus tb.1 tb.2
              {| em_ContainerName := c_ContainerName c; em_StackID := s_ID st |}]
  end.

Definition removal_events (last : gmap string ContainerStatus) (st : Stack) : list Ev :=
  map (fun msg => EvNotify EventContainerMissing (msg_title msg) (msg_body msg)
                    {| em_ContainerName := msg_containerName msg; em_StackID := s_ID st |})
    (removalMessages st (gone_of last st) (length (managed_of st))).

Definition stack_events (last : gmap string ContainerStatus) (st : Stack) : list Ev :=
  flat_map (changed_events last st) (changed_of last st) ++ removal_events last st.

(** [e] is a notification about the transition of container [c] of [st]. *)
Definition about (e : Ev) (st : Stack) (c : Container) : Prop :=
  exists ev title body meta, e = EvNotify ev title body meta /\ em_StackID meta = s_ID st /\
  match c_Status c with
  | StatusMissing => ev = EventContainerMissing
                     /\ (em_ContainerName meta = c_ContainerName c \/ em_ContainerName meta = "")
  | _ => ev = EventContainerStatus /\ em_ContainerName meta = c_ContainerName c
  end.

Section NoteFacts.
Context {E : Type} `{!Env E} `{!DockerCodecs}.

Lemma for_each_tells {A} (l : list A) (f : A -> M E unit) (g : A -> list Ev) :
  (forall x w, m_notif (w_mgr w) = true -> f x w = (log w (g x), Ret tt)) ->
  forall w, m_notif (w_mgr w) = true -> for_each l f w = (log w (flat_map g l), Ret tt).
Proof.
  intros Hf. induction l as [|x l IH]; intros w Hw; simpl.
  - by rewrite log_nil.
  - unfold mbind, M_bind. rewrite Hf by done. rewrite IH by done. by rewrite log_log.
Qed.

Lemma note_changed_run last st c (w : World E) :
  m_notif (w_mgr w) = true ->
  note_changed last st c w = (log w (changed_events last st c), Ret tt).
Proof.
  intros Hw. unfold note_changed, changed_events. destruct (last !! _) as [prev|].
  2:{ by rewrite log_nil. }
  destruct (statusMessage c prev) as [t b]. cbn [fst snd]. destruct (String.eqb t "").
  - by rewrite log_nil.
  - unfold notify, mbind, M_bind, gets. by rewrite Hw.
Qed.

Lemma removals_run st (msgs : list message) (w : World E) :
  m_notif (w_mgr w) = true ->
  for_each msgs (fun msg => notify EventContainerMissing (msg_title msg) (msg_body msg)
      {| em_ContainerName := msg_containerName msg; em_StackID := s_ID st |}) w =
  (log w (map (fun msg => EvNotify EventContainerMissing (msg_title msg) (msg_body msg)
      {| em_ContainerName := msg_containerName msg; em_StackID := s_ID st |}) msgs), Ret tt).
Proof.
  revert w. induction msgs as [|x l IH]; intros w Hw; cbn [for_each map].
  - by rewrite log_nil.
  - unfold mbind, M_bind, notify at 1, mbind, M_bind, gets. rewrite Hw. cbn [tell].
    unfold tell. rewrite IH by done. by rewrite log_log.
Qed.

Lemma note_stack_run last st (w : World E) :
  m_notif (w_mgr w) = true -> note_stack last st w = (log w (stack_events last st), Ret tt).
Proof.
  intros Hw. unfold note_stack. unfold mbind at 1, M_bind at 1.
  rewrite (for_each_tells _ _ (changed_events last st)); [|intros; by apply note_changed_run|done].
  rewrite removals_run by done. by rewrite log_log.
Qed.

Lemma statusMessage_titled c prev :
  c_Status c <> StatusMissing -> c_Status c <> StatusUpdating ->
  String.eqb (statusMessage c prev).1 "" = false.
Proof.
  intros H1 H2. apply String.eqb_neq. unfold statusMessage.
  destruct (c_Status c); try done; simpl; by destruct (c_ContainerName c).
Qed.

Lemma removal_about last st c :
  c ∈ gone_of last st -> exists e, e ∈ removal_events last st /\ about e st c.
Proof.
  intros Hc. pose proof Hc as (_ & _ & Hs)%elem_of_gone. unfold removal_events, removalMessages.
  destruct (length (gone_of last st)) as [|n] eqn:El.
  { apply nil_length_inv in El. rewrite El in Hc. set_solver. }
  simpl (Nat.eqb _ 0). cbv iota. destruct ((1 <? S n)%nat && _) eqn:Eb.
  - eexists. split; [by left|]. unfold about. do 4 eexists. split; [done|].
    split; [done|]. rewrite Hs. split; [done|]. by right.
  - eexists. split.
    + apply list_elem_of_In, in_map. apply in_map. by apply list_elem_of_In.
    + unfold about. do 4 eexists. split; [done|]. split; [done|]. rewrite Hs.
      split; [done|]. by left.
Qed.

Lemma stack_events_sound last st e :
  e ∈ stack_events last st ->
  exists c, c ∈ managed_of st /\ transition last c = true /\ about e st c.
Proof.
  unfold stack_events. rewrite elem_of_app. intros [He|He].
  - apply list_elem_of_In, in_flat_map in He as (c & Hc & He).
    apply list_elem_of_In, elem_of_changed in Hc as (Hm & Ht & Hs).
    exists c. split; [done|]. split; [done|]. unfold changed_events in He.
    destruct (last !! _); [|done]. destruct (String.eqb _ ""); [done|].
    destruct He as [<-|[]]. unfold about. do 4 eexists. split; [done|]. split; [done|].
    destruct (c_Status c); done.
  - assert (Hg : exists c, c ∈ gone_of last st /\ about e st c).
    { unfold removal_events, removalMessages in He.
      destruct (gone_of last st) as [|g l] eqn:Eg; [simpl in He; set_solver|].
      assert (Hgs : forall c, c ∈ g :: l -> c_Status c = StatusMissing).
      { intros c Hc. rewrite <- Eg in Hc. by apply elem_of_gone in Hc as (_ & _ & ?). }
      simpl (Nat.eqb _ 0) in He. cbv iota in He. destruct (_ && _).
      - exists g. split; [set_solver|]. apply list_elem_of_singleton in He as ->.
        unfold about. do 4 eexists. split; [done|]. split; [done|].
        rewrite Hgs by set_solver. split; [done|]. by right.
      - apply list_elem_of_In, in_map_iff in He as (msg & <- & Hin).
        apply in_map_iff in Hin as (c & <- & Hc). apply list_elem_of_In in Hc.
        exists c. split; [done|]. unfold about. do 4 eexists. split; [done|]. split; [done|].
        rewrite Hgs by done. split; [done|]. by left. }
    destruct Hg as (c & Hc & Ha). apply elem_of_gone in Hc as (? & ? & _). eauto.
Qed.

Lemma stack_events_complete last st c :
  c ∈ managed_of st -> transition last c = true ->
  exists e, e ∈ stack_events last st /\ about e st c.
Proof.
  intros Hm Ht. unfold stack_events. destruct (decide (c_Status c = StatusMissing)) as [Hs|Hs].
  - assert (Hg : c ∈ gone_of last st) by (apply elem_of_gone; done).
    destruct (removal_about _ _ _ Hg) as (e & ? & ?). exists e. set_solver.
  - pose proof Ht as (prev & Hp & _ & _ & Hu)%transition_iff.
    exists (EvNotify EventContainerStatus (statusMessage c prev).1 (statusMessage c prev).2
              {| em_ContainerName := c_ContainerName c; em_StackID := s_ID st |}). split.
    + apply elem_of_app. left. apply list_elem_of_In, in_flat_map. exists c.
      split; [apply list_elem_of_In, elem_of_changed; done|].
      unfold changed_events. rewrite Hp, statusMessage_titled by done. by left.
    + unfold about. do 4 eexists. split; [done|]. split; [done|]. destruct (c_Status c); done.
Qed.

(** What [noteStatuses] does once the baseline is loaded: it announces, and
    remembers what it saw. *)
Lemma noteStatuses_run stacks (w : World E) :
  m_statusBaseline (w_mgr w) = true -> m_notif (w_mgr w) = true ->
  exists w', noteStatuses stacks w = (w', Ret tt)
    /\ w_trace w' = w_trace w ++ flat_map (stack_events (m_lastStatus (w_mgr w))) stacks
    /\ m_lastStatus (w_mgr w') = seen_statuses stacks
    /\ m_statusBaseline (w_mgr w') = true /\ m_notif (w_mgr w') = true.
Proof.
  intros Hb Hn. set (last := m_lastStatus (w_mgr w)).
  unfold noteStatuses, ensure_status_baseline, mbind, M_bind, gets, mret, M_ret.
  rewrite Hb. cbv beta iota. change (negb true) with false. cbv beta iota. fold last.
  rewrite (for_each_tells _ _ (stack_events last)); [|intros; by apply note_stack_run|done].
  destruct (sameStatuses last (seen_statuses stacks)) eqn:Es.
  - apply sameStatuses_spec in Es. exists (log w (flat_map (stack_events last) stacks)).
    split; [done|]. split; [done|]. simpl. split; [by rewrite <- Es|done].
  - unfold modify. cbv beta iota. unfold SaveNotifiedStatuses, setJSON, sql.
    destruct (sql_fault _) as [e [err|]]; eexists; (split; [reflexivity|]); simpl; done.
Qed.

(** A sweep announces exactly the managed containers whose status changed since
    the last sweep, neither from nor to updating. *)
Theorem noteStatuses_announces_transitions stacks (w : World E) :
  m_statusBaseline (w_mgr w) = true -> m_notif (w_mgr w) = true ->
  let last := m_lastStatus (w_mgr w) in
  exists t, w_trace (noteStatuses stacks w).1 = w_trace w ++ t
    /\ (forall e, e ∈ t -> exists st c, st ∈ stacks /\ c ∈ managed_of st
          /\ transition last c = true /\ about e st c)
    /\ (forall st c, st ∈ stacks -> c ∈ managed_of st -> transition last c = true ->
          exists e, e ∈ t /\ about e st c).
Proof.
  intros Hb Hn last. destruct (noteStatuses_run stacks w Hb Hn) as (w' & Hr & Ht & _).
  rewrite Hr. exists (flat_map (stack_events last) stacks). split; [done|]. split.
  - intros e (st & Hst & He)%list_elem_of_In%in_flat_map.
    apply list_elem_of_In, stack_events_sound in He as (c & ? & ? & ?).
    exists st, c. by rewrite list_elem_of_In.
  - intros st c Hst Hc Htr. destruct (stack_events_complete _ _ _ Hc Htr) as (e & He & Ha).
    exists e. split; [|done]. apply list_elem_of_In, in_flat_map. exists st.
    by rewrite <- !list_elem_of_In.
Qed.

Lemma fold_seen_keep (l : list Container) (m : gmap string ContainerStatus) k v :
  m !! k = Some v -> k ∉ map c_ContainerName l ->
  fold_left (fun m c => <[c_ContainerName c := c_Status c]> m) l m !! k = Some v.
Proof.
  revert m. induction l as [|x l IH]; simpl; intros m Hm Hk; [done|].
  apply IH; [|set_solver]. rewrite lookup_insert_ne; [done|]. set_solver.
Qed.

Lemma fold_seen_lookup (l : list Container) (m : gmap string ContainerStatus) c :
  NoDup (map c_ContainerName l) -> c ∈ l ->
  fold_left (fun m c => <[c_ContainerName c := c_Status c]> m) l m !! c_ContainerName c
  = Some (c_Status c).
Proof.
  revert m. induction l as [|x l IH]; simpl; intros m Hnd Hc; [set_solver|].
  apply NoDup_cons in Hnd as [Hx Hnd]. apply elem_of_cons in Hc as [->|Hc]; [|by apply IH].
  apply fold_seen_keep; [|done]. by rewrite lookup_insert_eq.
Qed.

(** A second sweep over the same stacks announces nothing. *)
Theorem noteStatuses_repeat_quiet stacks (w : World E) :
  m_statusBaseline (w_mgr w) = true -> m_notif (w_mgr w) = true ->
  NoDup (map c_ContainerName (flat_map managed_of stacks)) ->
  w_trace (noteStatuses stacks (noteStatuses stacks w).1).1 = w_trace (noteStatuses stacks w).1.
Proof.
  intros Hb Hn Hnd. destruct (noteStatuses_run stacks w Hb Hn) as (w' & Hr & Ht & Hl & Hb' & Hn').
  rewrite Hr. simpl. destruct (noteStatuses_run stacks w' Hb' Hn') as (w2 & Hr2 & Ht2 & _).
  rewrite Hr2. simpl. rewrite Ht2, Hl.
  enough (flat_map (stack_events (seen_statuses stacks)) stacks = []) as -> by apply app_nil_r.
  assert (Hs : forall st, st ∈ stacks -> stack_events (seen_statuses stacks) st = []).
  { intros st Hst. destruct (no_transition_last (seen_statuses stacks) st) as [H1 H2].
    - intros c Hc. apply fold_seen_lookup; [done|]. apply list_elem_of_In, in_flat_map.
      exists st. by rewrite <- !list_elem_of_In.
    - unfold stack_events, removal_events. by rewrite H1, H2. }
  clear -Hs. revert Hs. generalize (seen_statuses stacks). intros m Hs.
  induction stacks as [|st l IH]; [done|]. simpl. rewrite Hs by set_solver. apply IH. set_solver.
Qed.
End NoteFacts.

(** ** Instances at concrete inputs *)
Definition demo_service (name : string) (st : ContainerStatus) : Container :=
  {| c_ID := name; c_Name := name; c_ContainerName := name; c_Image := "app";
     c_State := "running"; c_Status := st; c_Health := ""; c_Managed := true; c_AutoUpdate := false;
     c_UpdateAvailable := false; c_RestartCount := 0; c_CreatedAt := 0 |}.

Definition demo_stacks (a b : ContainerStatus) : list Stack :=
  [{| s_ID := "web"; s_Name := "web"; s_Managed := true; s_Status := Some StatusRunning;
      s_Containers := [demo_service "front" a; demo_service "back" b] |}].

Definition demo_sweep : World Sim :=
  let w := sim_world empty_db sim_empty in
  set_mgr w (set_status (w_mgr w)
    (<["front" := StatusRunning]> (<["back" := StatusRunning]> ∅)) true).

Lemma noteStatuses_announces_transitions_witness :
  let stacks := demo_stacks StatusMissing StatusRunning in
  exists t, w_trace (noteStatuses stacks demo_sweep).1 = t /\ length t = 1%nat /\ forall e, e ∈ t -> exists st c, st ∈ stacks /\ c ∈ managed_of st /\ about e st c.
Proof.
  destruct (noteStatuses_announces_transitions (demo_stacks StatusMissing StatusRunning) demo_sweep
              eq_refl eq_refl) as (t & Ht & Hs & _).
  exists t. split; [exact Ht|]. split.
  - apply (f_equal length) in Ht. rewrite length_app in Ht. vm_compute in Ht. exact (eq_sym Ht).
  - intros e He. destruct (Hs e He) as (st & c & H1 & H2 & _ & H3). exists st, c. auto.
Defined.

Lemma noteStatuses_repeat_quiet_witness :
  let stacks := demo_stacks StatusMissing StatusStopped in
  w_trace (noteStatuses stacks (noteStatuses stacks demo_sweep).1).1
  = w_trace (noteStatuses stacks demo_sweep).1.
Proof.
  apply (noteStatuses_repeat_quiet (demo_stacks StatusMissing StatusStopped) demo_sweep);
    [reflexivity|reflexivity|].
  apply (bool_decide_unpack _). vm_compute. exact I.
Defined.
