(* ===== verification/Listing.v ===== *)
(** * Listing services (src/internal/docker: lifecycle.go, reconcile.go, jobs.go)

    Which containers are the user's services, the listing that groups them into
    stacks and merges in the managed records, and its broadcast. *)
From S2P Require Import Prelude GoStrings Api Db StoreDocker Docker World Sim StoreSettings Status Snapshot Notices.
Open Scope Z_scope.

(** [updaterLabel], [updaterRole] (self.go), [oldSuffix] (update.go). *)
Definition updaterLabel : string := "veery.role".
Definition updaterRole : string := "updater".
Definition oldSuffix : string := "__veery_old".

(** The temporary "<12-char id>_<name>" of docker compose; [labels] may be a
    nil map, which reads as the empty one. *)
Definition isComposeTemp (name id : string) (labels : gmap string string) : bool :=
  match Cut name "_" with
  | None => false
  | Some (prefix, _) =>
      if negb (String.length prefix =? 12)%nat then false
      else HasPrefix id prefix || HasPrefix (label labels composeReplaceLabel) prefix
  end.

Definition isService (c : Summary) : bool :=
  let name := containerName (sum_Names c) in
  negb (String.eqb (label (sum_Labels c) updaterLabel) updaterRole)
  && negb (HasSuffix name oldSuffix)
  && negb (isComposeTemp name (sum_ID c) (sum_Labels c)).

(** The names of the containers with an update job in flight. *)
Definition updating_of (jobs : gmap string JobProgress) : gset string :=
  list_to_set (map jp_Target (List.filter (fun j => String.eqb (jp_Kind j) "update")
                                (map snd (map_to_list jobs)))).

(** ** Grouping *)
Definition new_stack (id : string) : Stack :=
  {| s_ID := id; s_Name := id; s_Managed := false; s_Status := None; s_Containers := [] |}.

(** [getStack(id)], then [st.Containers = append(st.Containers, c)]. *)
Definition add_to_stack (id : string) (c : Container) (stacks : gmap string Stack) : gmap string Stack :=
  let st := default (new_stack id) (stacks !! id) in
  <[id := {| s_ID := s_ID st; s_Name := s_Name st; s_Managed := s_Managed st; s_Status := s_Status st;
             s_Containers := s_Containers st ++ [c] |}]> stacks.

Definition with_status (s : ContainerStatus) (c : Container) : Container :=
  {| c_ID := c_ID c; c_Name := c_Name c; c_ContainerName := c_ContainerName c; c_Image := c_Image c;
     c_State := c_State c; c_Status := s; c_Health := c_Health c; c_Managed := c_Managed c;
     c_AutoUpdate := c_AutoUpdate c; c_UpdateAvailable := c_UpdateAvailable c;
     c_RestartCount := c_RestartCount c; c_CreatedAt := c_CreatedAt c |}.

Definition with_available (b : bool) (c : Container) : Container :=
  {| c_ID := c_ID c; c_Name := c_Name c; c_ContainerName := c_ContainerName c; c_Image := c_Image c;
     c_State := c_State c; c_Status := c_Status c; c_Health := c_Health c; c_Managed := c_Managed c;
     c_AutoUpdate := c_AutoUpdate c; c_UpdateAvailable := b;
     c_RestartCount := c_RestartCount c; c_CreatedAt := c_CreatedAt c |}.

Definition with_restarts (n : Z) (c : Container) : Container :=
  {| c_ID := c_ID c; c_Name := c_Name c; c_ContainerName := c_ContainerName c; c_Image := c_Image c;
     c_State := c_State c; c_Status := c_Status c; c_Health := c_Health c; c_Managed := c_Managed c;
     c_AutoUpdate := c_AutoUpdate c; c_UpdateAvailable := c_UpdateAvailable c;
     c_RestartCount := n; c_CreatedAt := c_CreatedAt c |}.

(** The stack a live container is listed in. *)
Definition stack_of (byName : gmap string ManagedContainer) (c : Summary) : string :=
  let name := containerName (sum_Names c) in
  let proj := label (sum_Labels c) projectLabel in
  if String.eqb proj "" then
    match byName !! name with Some mc => mc_StackID mc | None => name end
  else proj.

(** The entry of a managed container that is not on the daemon. *)
Definition absent_entry (updating : gset string) (mc : ManagedContainer) : Container :=
  let upd := bool_decide (mc_ContainerName mc ∈ updating) in
  {| c_ID := mc_ID mc; c_Name := mc_ContainerName mc; c_ContainerName := mc_ContainerName mc;
     c_Image := ""; c_State := if upd then "updating" else "missing";
     c_Status := if upd then StatusUpdating else StatusMissing;
     c_Health := ""; c_Managed := true; c_AutoUpdate := mc_AutoUpdate mc;
     c_UpdateAvailable := false; c_RestartCount := 0; c_CreatedAt := 0 |}.

(** [live], the names of the services the daemon listed. *)
Definition live_services (l : list Summary) : gset string :=
  list_to_set (map (fun c => containerName (sum_Names c)) (List.filter isService l)).

Definition absent (live : gset string) (l : list ManagedContainer) : list ManagedContainer :=
  List.filter (fun mc => negb (bool_decide (mc_ContainerName mc ∈ live))) l.

Section Listing.
Context {E : Type} `{!Env E} `{!DockerCodecs}.

Definition updatingContainers : M E (gset string) := gets (fun m => updating_of (m_activeJobs m)).

(** One iteration of the loop over the summaries. *)
Definition list_live (byName : gmap string ManagedContainer) (updating : gset string)
    (stacks : gmap string Stack) (c : Summary) : M E (gmap string Stack) :=
  if negb (isService c) then mret stacks
  else
    let name := containerName (sum_Names c) in
    let mc := byName !! name in
    let isManaged := bool_decide (is_Some mc) in
    let cont := buildContainer c name isManaged mc in
    avail ← updateAvailableFor name;
    let cont := if isManaged then with_available avail cont else cont in
    let cont := if isManaged && bool_decide (name ∈ updating) then with_status StatusUpdating cont else cont in
    cont ← (if is_status StatusNeedsAttention cont then
              r ← ContainerInspect (sum_ID c);
              mret (match r with Ok insp => with_restarts (in_RestartCount insp) cont | Fail _ => cont end)
            else mret cont);
    mret (add_to_stack (stack_of byName c) cont stacks).

Definition list_absent (updating : gset string) (stacks : gmap string Stack)
    (mc : ManagedContainer) : gmap string Stack :=
  add_to_stack (mc_StackID mc) (absent_entry updating mc) stacks.

Definition ListStacks : M E (result (list Stack)) :=
  let? summaries := ContainerList true in
  let? managedAll := sql AllManaged in
  let byName := index_by mc_ContainerName managedAll in
  updating ← updatingContainers;
  stacks ← for_fold summaries (list_live byName updating) ∅;
  let stacks := fold_left (list_absent updating) (absent (live_services summaries) managedAll) stacks in
  mret (Ok (sort_slice (fun a b => str_lt (s_Name a) (s_Name b))
              (map (fun p => finalizeStack p.2) (map_to_list stacks)))).

Definition BroadcastStacks : M E unit :=
  r ← ListStacks;
  match r with
  | Fail _ => mret tt
  | Ok stacks => noteStatuses stacks ≫= fun _ => broadcast (WSStacks stacks)
  end.
End Listing.

(** ** Lemmas *)

(** Where every container is listed. *)
Definition listed_in (st : Stack) : list (string * string) :=
  map (fun c => (s_ID st, c_ContainerName c)) (s_Containers st).

Definition listed (stacks : list Stack) : list (string * string) := flat_map listed_in stacks.

(** The managed records, the jobs in flight and the daemon agree with what an
    entry says about its container. *)
Definition entry_ok (managed : list ManagedContainer) (updating live : gset string) (c : Container) : Prop :=
  (c_Managed c = true <-> c_ContainerName c ∈ map mc_ContainerName managed)
  /\ (c_Managed c = true -> (c_Status c = StatusUpdating <-> c_ContainerName c ∈ updating))
  /\ (c_Status c = StatusMissing <->
        c_Managed c = true /\ (c_ContainerName c ∉ live) /\ c_ContainerName c ∉ updating).

(** The stacks under construction. *)
Record stacks_ok (P : Container -> Prop) (m : gmap string Stack) : Prop := {
  so_id : forall k st, m !! k = Some st -> s_ID st = k /\ s_Name st = k;
  so_entries : forall k st c, m !! k = Some st -> c ∈ s_Containers st -> P c
}.

Definition stacks_list (m : gmap string Stack) : list Stack := map snd (map_to_list m).

Lemma flat_map_perm {A B} (f : A -> list B) l l' : l ≡ₚ l' -> flat_map f l ≡ₚ flat_map f l'.
Proof.
  induction 1; simpl; [done|by apply Permutation_app_head| |by etrans].
  by rewrite !app_assoc, (Permutation_app_comm (f y)).
Qed.

Lemma listed_add id c m :
  (forall k st, m !! k = Some st -> s_ID st = k /\ s_Name st = k) ->
  listed (stacks_list (add_to_stack id c m)) ≡ₚ (id, c_ContainerName c) :: listed (stacks_list m).
Proof.
  intros Hok. unfold add_to_stack, stacks_list, listed. destruct (m !! id) as [st|] eqn:E; simpl.
  - destruct (Hok _ _ E) as [Hid _]. rewrite <- (insert_id m id st E) at 2.
    rewrite <- !(insert_delete_eq m).
    rewrite !(flat_map_perm _ _ _ (Permutation_map snd (map_to_list_insert _ id _ (lookup_delete_eq m id)))).
    simpl. unfold listed_in at 1 3. simpl. rewrite map_app, Hid. simpl.
    rewrite <- Permutation_middle. by rewrite app_nil_r.
  - rewrite (flat_map_perm _ _ _ (Permutation_map snd (map_to_list_insert _ _ _ E))). done.
Qed.

Lemma add_to_stack_ok (P : Container -> Prop) id c m :
  stacks_ok P m -> P c -> stacks_ok P (add_to_stack id c m).
Proof.
  intros [H1 H2] Hc. unfold add_to_stack. constructor.
  - intros k st [[<- <-]|[_ Hk]]%lookup_insert_Some; [|by apply H1].
    destruct (m !! id) eqn:E; simpl; [by apply H1|done].
  - intros k st c' [[<- <-]|[_ Hk]]%lookup_insert_Some; [|by eauto].
    simpl. intros [Hin|Hin%list_elem_of_singleton]%elem_of_app; [|by subst].
    destruct (m !! id) eqn:E; simpl in Hin; [by eauto|set_solver].
Qed.

Lemma mapStatus_cases state health code :
  mapStatus state health code <> StatusMissing /\ mapStatus state health code <> StatusUpdating.
Proof. unfold mapStatus. repeat case_match; done. Qed.

Lemma live_entry_ok managed updating live c mc n avail :
  containerName (sum_Names c) = n -> n ∈ live -> mc = index_by mc_ContainerName managed !! n ->
  let b := bool_decide (is_Some mc) in
  let cont := buildContainer c n b mc in
  let cont := if b then with_available avail cont else cont in
  let cont := if b && bool_decide (n ∈ updating) then with_status StatusUpdating cont else cont in
  c_ContainerName cont = n /\ entry_ok managed updating live cont.
Proof.
  intros Hn Hl -> b cont0 cont1 cont2.
  assert (Hb : b = true <-> n ∈ map mc_ContainerName managed).
  { subst b. rewrite bool_decide_eq_true. apply index_by_is_Some. }
  assert (H1 : c_ContainerName cont1 = n /\ c_Managed cont1 = b
               /\ c_Status cont1 <> StatusMissing /\ c_Status cont1 <> StatusUpdating).
  { subst cont1 cont0. destruct b; simpl; repeat split; apply mapStatus_cases. }
  destruct H1 as (Hn1 & Hm1 & Hs1 & Hs2). subst cont2. unfold entry_ok.
  destruct (b && bool_decide (n ∈ updating)) eqn:E; simpl; rewrite Hn1, Hm1.
  - apply andb_true_iff in E as [E1 E2%bool_decide_eq_true]. naive_solver.
  - split; [done|]. split; [done|]. split.
    + intros Hb1. rewrite Hb1 in E. simpl in E. apply bool_decide_eq_false in E. naive_solver.
    + naive_solver.
Qed.

Lemma with_restarts_ok managed updating live n c :
  entry_ok managed updating live c -> entry_ok managed updating live (with_restarts n c).
Proof. done. Qed.

Lemma absent_entry_ok managed updating live mc :
  mc ∈ absent live managed -> entry_ok managed updating live (absent_entry updating mc).
Proof.
  unfold absent. rewrite list_elem_of_In, filter_In, negb_true_iff, <- list_elem_of_In.
  intros [Hin Hl%bool_decide_eq_false]. unfold entry_ok, absent_entry. simpl.
  assert (Hm : mc_ContainerName mc ∈ map mc_ContainerName managed).
  { apply list_elem_of_In, in_map. by apply list_elem_of_In. }
  case_bool_decide; simpl; naive_solver.
Qed.

Lemma list_absent_fold (P : Container -> Prop) updating (l : list ManagedContainer) m :
  stacks_ok P m -> (forall mc, mc ∈ l -> P (absent_entry updating mc)) ->
  stacks_ok P (fold_left (list_absent updating) l m) /\
  listed (stacks_list (fold_left (list_absent updating) l m))
  ≡ₚ map (fun mc => (mc_StackID mc, mc_ContainerName mc)) l ++ listed (stacks_list m).
Proof.
  revert m. induction l as [|mc l IH]; intros m Hm Hl; simpl; [done|].
  destruct (IH (list_absent updating m mc)) as [H1 H2].
  - apply add_to_stack_ok; [done|]. apply Hl. set_solver.
  - set_solver.
  - split; [done|]. rewrite H2. unfold list_absent at 1. rewrite listed_add by apply Hm.
    simpl. by rewrite <- Permutation_middle.
Qed.

Lemma listed_finalize m :
  listed (sort_slice (fun a b => str_lt (s_Name a) (s_Name b))
            (map (fun p => finalizeStack p.2) (map_to_list m))) ≡ₚ listed (stacks_list m).
Proof.
  unfold listed. rewrite (flat_map_perm _ _ _ (sort_slice_perm _ _)). unfold stacks_list.
  induction (map_to_list m) as [|[k st] l IH]; simpl; [done|]. rewrite IH.
  apply Permutation_app_tail. unfold listed_in. simpl. apply Permutation_map, sort_slice_perm.
Qed.

Lemma elem_of_live c l :
  c ∈ l -> isService c = true -> containerName (sum_Names c) ∈ live_services l.
Proof.
  intros Hc Hs. unfold live_services. apply elem_of_list_to_set, list_elem_of_In.
  apply (in_map (fun c => containerName (sum_Names c))). apply filter_In. by rewrite <- list_elem_of_In.
Qed.

Section ListingFacts.
Context {E : Type} `{!Env E} `{!DockerCodecs}.

(** Where the services among [l] are listed. *)
Definition services_listed (byName : gmap string ManagedContainer) (l : list Summary) :
    list (string * string) :=
  map (fun c => (stack_of byName c, containerName (sum_Names c))) (List.filter isService l).

(** One iteration lists the container once, correctly, and touches only the
    environment and the trace. *)
Lemma list_live_wp managed updating all done c stacks (w : World E) :
  let byName := index_by mc_ContainerName managed in
  let P := entry_ok managed updating (live_services all) in
  c ∈ all -> stacks_ok P stacks ->
  listed (stacks_list stacks) ≡ₚ services_listed byName done ->
  wp (list_live byName updating stacks c)
    (fun o w' => w_db w' = w_db w /\ w_mgr w' = w_mgr w /\ exists s', o = Ret s' /\ stacks_ok P s' /\
       listed (stacks_list s') ≡ₚ services_listed byName (done ++ [c])) w.
Proof.
  intros byName P Hc Hok Hl. unfold list_live. unfold services_listed.
  rewrite List.filter_app, map_app. simpl. destruct (isService c) eqn:Es; simpl.
  2:{ rewrite app_nil_r. apply wp_ret. eauto 6. }
  set (n := containerName (sum_Names c)).
  apply wp_bind, wp_gets. simpl.
  set (avail := map_bool _ _). set (b := bool_decide (is_Some (byName !! n))).
  destruct (live_entry_ok managed updating (live_services all) c (byName !! n) n avail)
    as [Hn Hent]; [done|by apply elem_of_live|done|].
  cbv zeta in Hn, Hent. fold b in Hn, Hent.
  set (cont := if b && bool_decide (n ∈ updating) then _ else _) in *.
  assert (Hadd : forall cont', c_ContainerName cont' = n -> P cont' ->
     stacks_ok P (add_to_stack (stack_of byName c) cont' stacks) /\
     listed (stacks_list (add_to_stack (stack_of byName c) cont' stacks)) ≡ₚ
     map (fun c => (stack_of byName c, containerName (sum_Names c))) (List.filter isService done) ++
       [(stack_of byName c, n)]).
  { intros cont' Hn' HP. split; [by apply add_to_stack_ok|].
    rewrite listed_add by apply Hok. rewrite Hl, Hn'. by rewrite Permutation_app_comm. }
  apply wp_bind. destruct (is_status StatusNeedsAttention cont).
  - apply wp_bind, wp_call. intros e r _. apply wp_ret, wp_ret. simpl. do 2 (split; [done|]).
    eexists. split; [done|]. destruct r as [insp|]; apply Hadd; done.
  - apply wp_ret, wp_ret. do 2 (split; [done|]). eexists. split; [done|]. by apply Hadd.
Qed.

(** What [ListStacks] returns, in terms of what the daemon and the database
    answered. *)
Definition listing_of (w : World E) (stacks : list Stack) (summaries : list Summary) : Prop :=
  let managed := db_managed (w_db w) in
  let byName := index_by mc_ContainerName managed in
  let live := live_services summaries in
  listed stacks ≡ₚ services_listed byName summaries
                ++ map (fun mc => (mc_StackID mc, mc_ContainerName mc)) (absent live managed)
  /\ NoDup (map s_ID stacks)
  /\ StronglySorted (fun a b => str_lt (s_Name b) (s_Name a) = false) stacks
  /\ (forall st c, st ∈ stacks -> c ∈ s_Containers st ->
        entry_ok managed (updating_of (m_activeJobs (w_mgr w))) live c).

Lemma stacks_NoDup (P : Container -> Prop) m :
  stacks_ok P m ->
  NoDup (map s_ID (sort_slice (fun a b => str_lt (s_Name a) (s_Name b))
                     (map (fun p => finalizeStack p.2) (map_to_list m)))).
Proof.
  intros [Hid _]. rewrite (Permutation_map s_ID (sort_slice_perm _ _)). rewrite map_map.
  assert (map (fun p => s_ID (finalizeStack p.2)) (map_to_list m) = (map_to_list m).*1) as ->.
  { apply map_ext_in. intros [k st] Hin%list_elem_of_In%elem_of_map_to_list. simpl. by apply Hid. }
  apply NoDup_fst_map_to_list.
Qed.

Lemma ListStacks_wp (w : World E) :
  wp ListStacks (fun o w' => w_db w' = w_db w /\ w_mgr w' = w_mgr w /\
    match o with
    | Ret (Ok stacks) => exists summaries,
        (cli_ContainerList true (w_env w)).2 = Ok summaries /\ listing_of w stacks summaries
    | Ret (Fail e) => (cli_ContainerList true (w_env w)).2 = Fail e
                      \/ exists e', (sql_fault e').2 = Some e
    | Panic _ => False
    end) w.
Proof.
  unfold ListStacks. apply wp_bind, wp_call. intros e r Hr. rewrite Hr. simpl.
  destruct r as [summaries|err]; [|apply wp_ret; eauto].
  apply wp_bind. unfold wp at 1, sql. simpl. destruct (sql_fault e) as [e' [err|]] eqn:Ef; simpl.
  { apply wp_ret. do 2 (split; [done|]). right. exists e. by rewrite Ef. }
  set (managed := db_managed (w_db w)). set (byName := index_by _ _).
  apply wp_bind, wp_gets. simpl. set (updating := updating_of _).
  set (P := entry_ok managed updating (live_services summaries)).
  apply wp_bind.
  apply (wp_for_fold (fun done stacks w' => w_db w' = w_db w /\ w_mgr w' = w_mgr w /\
    stacks_ok P stacks /\ listed (stacks_list stacks) ≡ₚ services_listed byName done)).
  - split; [done|]. split; [done|]. split; [|done]. constructor; intros k st; by rewrite lookup_empty.
  - intros done x s w' (Hd & Hm & Hok & Hl) Hx.
    eapply wp_mono; [by apply (list_live_wp managed updating summaries done)|].
    intros o w2 (Hd2 & Hm2 & s' & -> & Hok' & Hl'). split; [congruence|]. split; [congruence|done].
  - intros stacks w' (Hd & Hm & Hok & Hl). apply wp_ret. split; [done|]. split; [done|].
    exists summaries. split; [done|]. unfold listing_of.
    destruct (list_absent_fold P updating (absent (live_services summaries) managed) stacks Hok)
      as [Hok2 Hl2]. { intros mc Hmc. by apply absent_entry_ok. }
    fold managed byName updating. split; [|split; [|split]].
    + rewrite listed_finalize, Hl2, Hl. apply Permutation_app_comm.
    + by eapply stacks_NoDup.
    + apply (sort_by_key_sorted s_Name).
    + intros st c Hst%sort_slice_elem_of Hc. apply list_elem_of_In, in_map_iff in Hst as ([k st0] & <- & Hin).
      apply list_elem_of_In, elem_of_map_to_list in Hin. simpl in Hc. apply sort_slice_elem_of in Hc.
      by eapply (so_entries _ _ Hok2).
Qed.

(** C37. The listing holds every service the daemon reported and every managed
    container it did not, each exactly once and in its stack, with unique stacks
    sorted by name. *)
Theorem ListStacks_lists_everything_once (w : World E) stacks :
  (ListStacks w).2 = Ret (Ok stacks) ->
  exists summaries, (cli_ContainerList true (w_env w)).2 = Ok summaries /\
    let managed := db_managed (w_db w) in
    let byName := index_by mc_ContainerName managed in
    listed stacks ≡ₚ services_listed byName summaries
      ++ map (fun mc => (mc_StackID mc, mc_ContainerName mc)) (absent (live_services summaries) managed)
    /\ NoDup (map s_ID stacks)
    /\ StronglySorted (fun a b => str_lt (s_Name b) (s_Name a) = false) stacks.
Proof.
  intros Hret. pose proof (ListStacks_wp w) as Hw. unfold wp in Hw. rewrite Hret in Hw.
  destruct Hw as (_ & _ & summaries & Hs & H1 & H2 & H3 & _). eauto.
Qed.

(** In the listing a container is managed exactly when it has a record, a
    managed one reads as updating exactly when an update of it is in flight, and
    as missing exactly when it is managed, not live and not updating. *)
Theorem ListStacks_statuses (w : World E) stacks :
  (ListStacks w).2 = Ret (Ok stacks) ->
  exists summaries, (cli_ContainerList true (w_env w)).2 = Ok summaries /\
    forall st c, st ∈ stacks -> c ∈ s_Containers st ->
      let n := c_ContainerName c in
      let updating := updating_of (m_activeJobs (w_mgr w)) in
      (c_Managed c = true <-> n ∈ map mc_ContainerName (db_managed (w_db w)))
      /\ (c_Managed c = true -> (c_Status c = StatusUpdating <-> n ∈ updating))
      /\ (c_Status c = StatusMissing <->
            c_Managed c = true /\ (n ∉ live_services summaries) /\ n ∉ updating).
Proof.
  intros Hret. pose proof (ListStacks_wp w) as Hw. unfold wp in Hw. rewrite Hret in Hw.
  destruct Hw as (_ & _ & summaries & Hs & _ & _ & _ & H4). exists summaries. split; [done|].
  intros st c Hst Hc. exact (H4 st c Hst Hc).
Qed.
End ListingFacts.

(** ** What a broadcast does *)

(** A call that changes nothing on the daemon and says nothing about a job. *)
Definition passive (e : Ev) : Prop :=
  match e with
  | EvInspect _ _ | EvBroadcast (WSStacks _) => True
  | EvNotify ev _ _ _ => ev = EventContainerStatus \/ ev = EventContainerMissing
  | _ => False
  end.

Section BroadcastFacts.
Context {E : Type} `{!Env E} `{!DockerCodecs}.

Lemma ListStacks_passive : emits_only (E:=E) ListStacks passive.
Proof.
  unfold ListStacks, list_live, updatingContainers. open_calls.
  repeat emits_step; repeat (apply Forall_cons; split); try apply Forall_nil; simpl; auto.
Qed.

Lemma noteStatuses_passive stacks : emits_only (E:=E) (noteStatuses stacks) passive.
Proof.
  unfold noteStatuses, ensure_status_baseline, note_stack, note_changed, LoadNotifiedStatuses,
    SaveNotifiedStatuses, getJSON, loadJSON, setJSON. open_calls.
  repeat emits_step; repeat (apply Forall_cons; split); try apply Forall_nil; simpl; auto.
Qed.

Lemma BroadcastStacks_passive : emits_only (E:=E) BroadcastStacks passive.
Proof.
  unfold BroadcastStacks. apply emits_only_bind; [apply ListStacks_passive|]. intros [stacks|e].
  - apply emits_only_bind; [apply noteStatuses_passive|]. intros _. unfold broadcast.
    repeat emits_step; repeat (apply Forall_cons; split); try apply Forall_nil; simpl; auto.
  - apply emits_only_ret.
Qed.

Lemma ListStacks_keeps {X} (p : Mgr -> X) : keeps (E:=E) p ListStacks.
Proof. unfold ListStacks, list_live, updatingContainers. open_calls. repeat keeps_step. Qed.

Lemma noteStatuses_keeps {X} (p : Mgr -> X) stacks :
  (forall m s b, p (set_status m s b) = p m) -> keeps (E:=E) p (noteStatuses stacks).
Proof.
  intros Hp. unfold noteStatuses, ensure_status_baseline, note_stack, note_changed,
    LoadNotifiedStatuses, SaveNotifiedStatuses, getJSON, loadJSON, setJSON. open_calls.
  repeat keeps_step; apply Hp.
Qed.

Lemma BroadcastStacks_keeps {X} (p : Mgr -> X) :
  (forall m s b, p (set_status m s b) = p m) -> keeps (E:=E) p BroadcastStacks.
Proof.
  intros Hp. unfold BroadcastStacks. apply keeps_bind; [apply ListStacks_keeps|]. intros [l|e].
  - apply keeps_bind; [by apply noteStatuses_keeps|]. intros _. unfold broadcast. repeat keeps_step.
  - apply keeps_ret.
Qed.

Lemma BroadcastStacks_no_panic : no_panic (E:=E) BroadcastStacks.
Proof.
  unfold BroadcastStacks, ListStacks, list_live, updatingContainers, noteStatuses,
    ensure_status_baseline, note_stack, note_changed, LoadNotifiedStatuses, SaveNotifiedStatuses,
    getJSON, loadJSON, setJSON. open_calls. repeat no_panic_step.
Qed.
End BroadcastFacts.

(** ** Instances at concrete inputs *)
Definition demo_row (id stack name cid : string) : ManagedContainer :=
  {| mc_ID := id; mc_StackID := stack; mc_ContainerName := name; mc_SnapshotJSON := "";
     mc_ContainerID := cid; mc_AutoUpdate := false; mc_CreatedAt := 1 |}.

Definition demo_listing_db : DB :=
  set_services empty_db [{| sr_ID := "web"; sr_Name := "web" |}]
    [demo_row "m1" "web" "nginx" "c1"; demo_row "m2" "web" "redis" "c2"] [].

Definition demo_live (id name : string) (st : ContainerState) : InspectResponse :=
  {| in_ID := id; in_Name := "/" +:+ name; in_Image := "img"; in_State := Some st;
     in_Config := Some (demo_config "img"); in_HostConfig := None; in_Networks := Some ∅; in_RestartCount := 3 |}.

Definition demo_listing : World Sim :=
  sim_world demo_listing_db
    (sim_with sim_empty [demo_live "c1" "nginx" up; demo_live "c9" "db__veery_old" (down 0)] 10).

Definition demo_listed : list Stack :=
  match (ListStacks demo_listing).2 with Ret (Ok l) => l | _ => [] end.

Lemma demo_listing_runs : (ListStacks demo_listing).2 = Ret (Ok demo_listed).
Proof. unfold demo_listed. vm_compute. reflexivity. Qed.

Lemma ListStacks_lists_everything_once_witness :
  length (listed demo_listed) = 2%nat /\ NoDup (map s_ID demo_listed).
Proof.
  split; [vm_compute; reflexivity|].
  destruct (ListStacks_lists_everything_once demo_listing demo_listed demo_listing_runs)
    as (summaries & _ & _ & H & _). exact H.
Defined.

Lemma ListStacks_statuses_witness :
  exists summaries, (cli_ContainerList true (w_env demo_listing)).2 = Ok summaries /\
    forall st c, st ∈ demo_listed -> c ∈ s_Containers st -> c_Status c = StatusMissing ->
      c_ContainerName c ∉ live_services summaries.
Proof.
  destruct (ListStacks_statuses demo_listing demo_listed demo_listing_runs) as (summaries & Hs & H).
  exists summaries. split; [exact Hs|]. intros st c Hst Hc Hm.
  destruct (H st c Hst Hc) as (_ & _ & Hmiss). by apply Hmiss in Hm as (_ & ? & _).
Defined.
