(* ===== verification/Jobs.v ===== *)
(** * Jobs (src/internal/docker: jobs.go, actions.go, lifecycle.go)

    A long-running action runs as a job: it is tracked while it is in flight,
    its progress is broadcast, and it ends in one terminal message, except when
    another process takes it over. *)
From S2P Require Import Prelude GoStrings Api Db StoreDocker StoreJobs Docker World Sim Status Snapshot Notices Listing.
Open Scope Z_scope.

Definition errHandedOff : error := mkErr "handed off to the updater" [ErrHandedOff].

Definition progress (id kind target phase msg : string) : JobProgress :=
  {| jp_ID := id; jp_Kind := kind; jp_Target := target; jp_Phase := phase; jp_Message := msg;
     jp_Done := false; jp_Error := "" |}.

Definition job_failed (id kind target : string) (e : error) : JobProgress :=
  {| jp_ID := id; jp_Kind := kind; jp_Target := target; jp_Phase := "failed"; jp_Message := "";
     jp_Done := true; jp_Error := Error e |}.

Definition job_done (id kind target msg : string) : JobProgress :=
  {| jp_ID := id; jp_Kind := kind; jp_Target := target; jp_Phase := "done"; jp_Message := msg;
     jp_Done := true; jp_Error := "" |}.

(** 5 minutes, in nanoseconds. *)
Definition recentWindow : Z := 5 * 60 * second.

Definition recent_progress (j : UpdateJob) : JobProgress :=
  {| jp_ID := uj_ID j; jp_Kind := "update"; jp_Target := uj_ContainerName j; jp_Phase := uj_Phase j;
     jp_Message := uj_Message j; jp_Done := true; jp_Error := uj_Error j |}.

Section Jobs.
Context {E : Type} `{!Env E} `{!DockerCodecs}.

Definition publish (j : JobProgress) : M E unit := broadcast (WSJob j).

Definition track (j : JobProgress) : M E unit :=
  modify (fun m => set_activeJobs m (<[jp_ID j := j]> (m_activeJobs m))) ≫= fun _ => publish j.

Definition forget (id : string) : M E unit :=
  modify (fun m => set_activeJobs m (delete id (m_activeJobs m))).

Definition ActiveJobs : M E (list JobProgress) :=
  gets (fun m => sort_slice (fun a b => str_lt (jp_ID a) (jp_ID b)) (map snd (map_to_list (m_activeJobs m)))).

Definition JobSnapshot : M E (list JobProgress) :=
  out ← ActiveJobs;
  t ← Now;
  r ← sql (RecentUpdateJobs ((t - recentWindow) / second));
  match r with
  | Fail _ => mret out
  | Ok recent =>
      mret (out ++ map recent_progress
              (List.filter (fun j => negb (existsb (fun a => String.eqb (jp_ID a) (uj_ID j)) out)) recent))
  end.

(** [emit] of [jobWithID]. *)
Definition emit_job (id kind target : string) (phase msg : string) : M E unit :=
  track (progress id kind target phase msg).

Definition jobWithID (id kind target : string)
    (fn : (string -> string -> M E unit) -> M E (option error)) : M E unit :=
  let emit := emit_job id kind target in
  emit "start" (kind +:+ " " +:+ target) ≫= fun _ =>
  (err ← fn emit;
   match err with
   | Some e =>
       if errors_Is e ErrHandedOff then mret tt
       else forget id ≫= fun _ => publish (job_failed id kind target e)
   | None =>
       forget id ≫= fun _ =>
       publish (job_done id kind target "Done") ≫= fun _ => BroadcastStacks
   end).

Definition job (kind target : string)
    (fn : (string -> string -> M E unit) -> M E (option error)) : M E unit :=
  id ← genID; jobWithID id kind target fn.

(** ** Lifecycle of containers and stacks (lifecycle.go, jobs.go) *)
Definition Start (id : string) : M E (option error) := ContainerStart id.

Definition awaitNotRunning (id : string) : M E (option error) :=
  o ← ContainerWait id;
  mret (match o with WaitErr e => Some e | WaitDone => None | WaitCtx e => Some e end).

Definition Stop (id : string) : M E (option error) :=
  unless_err (ContainerStop id) or (fun e => e) in awaitNotRunning id.

Definition Restart (id : string) : M E (option error) := ContainerRestart id.

(** The stack a container belongs to by its label alone. *)
Definition label_stack (c : Summary) : string :=
  let proj := label (sum_Labels c) projectLabel in
  if String.eqb proj "" then containerName (sum_Names c) else proj.

Definition containerIDsInStack (stackID : string) : M E (result (list string)) :=
  let? summaries := ContainerList true in
  mret (Ok (map sum_ID (List.filter (fun c => String.eqb (label_stack c) stackID) summaries))).

Definition StartStack (stackID : string) : M E (option error) :=
  let! ids := containerIDsInStack stackID in for_err ids ContainerStart.
Definition StopStack (stackID : string) : M E (option error) :=
  let! ids := containerIDsInStack stackID in for_err ids Stop.
Definition RestartStack (stackID : string) : M E (option error) :=
  let! ids := containerIDsInStack stackID in for_err ids ContainerRestart.

(** Recreates missing containers and starts stopped ones. *)
Definition bring_up (mc : ManagedContainer) : M E (option error) :=
  r ← ContainerInspect (mc_ContainerName mc);
  match r with
  | Fail _ =>
      match parseSnapshot (mc_SnapshotJSON mc) with
      | Fail perr => mret (Some perr)
      | Ok snap =>
          p ← recreate snap "";
          let (newID, rerr) := (p : string * option error) in
          match rerr with
          | Some e => mret (Some (wrapf ("recreate " +:+ mc_ContainerName mc +:+ ": ") e))
          | None => _ ← sql (UpdateSnapshot (mc_ID mc) (mc_SnapshotJSON mc) newID); mret None
          end
      end
  | Ok insp =>
      match in_State insp with
      | None => panic "nil State"
      | Some st =>
          if negb (st_Running st) then
            unless_err (ContainerStart (in_ID insp))
            or wrapf ("start " +:+ mc_ContainerName mc +:+ ": ") in mret None
          else mret None
      end
  end.

Definition BringUpStack (stackID : string) : M E (option error) :=
  let! managed := sql (ManagedByStack stackID) in
  if (length managed =? 0)%nat then mret (Some (errorf ("stack " +:+ quoted stackID +:+ " is not managed")))
  else
    unless_err (for_err managed bring_up) or (fun e => e) in
    (BroadcastStacks ≫= fun _ => mret None).

(** ** The job-wrapped actions (actions.go) *)
Definition StartJob (id : string) : M E unit :=
  job "start" id (fun _ => withContainerLock id (Start id)).
Definition StopJob (id : string) : M E unit :=
  job "stop" id (fun _ => withContainerLock id (Stop id)).
Definition RestartJob (id : string) : M E unit :=
  job "restart" id (fun _ => withContainerLock id (Restart id)).
Definition StartStackJob (stackID : string) : M E unit :=
  job "start" stackID (fun _ => StartStack stackID).
Definition StopStackJob (stackID : string) : M E unit :=
  job "stop" stackID (fun _ => StopStack stackID).
Definition RestartStackJob (stackID : string) : M E unit :=
  job "restart" stackID (fun _ => RestartStack stackID).
Definition BringUpStackJob (stackID : string) : M E unit :=
  job "bringup" stackID (fun _ => BringUpStack stackID).
End Jobs.

(** ** Theorems *)
Section JobFacts.
Context {E : Type} `{!Env E} `{!DockerCodecs}.

(** What publishing a job's progress leaves in the trace. *)
Definition published (w : World E) (j : JobProgress) : list Ev :=
  if m_pub (w_mgr w) then [EvBroadcast (WSJob j)] else [].

Lemma publish_run j (w : World E) : publish j w = (log w (published w j), Ret tt).
Proof.
  unfold publish, broadcast, published, mbind, M_bind, gets. destruct (m_pub (w_mgr w)); [done|].
  by rewrite log_nil.
Qed.

Lemma track_run j (w : World E) :
  track j w = (log (set_mgr w (set_activeJobs (w_mgr w) (<[jp_ID j := j]> (m_activeJobs (w_mgr w)))))
                 (published w j), Ret tt).
Proof. unfold track. unfold mbind, M_bind, modify. by rewrite publish_run. Qed.

Lemma forget_run id (w : World E) :
  forget id w = (set_mgr w (set_activeJobs (w_mgr w) (delete id (m_activeJobs (w_mgr w)))), Ret tt).
Proof. done. Qed.

(** A job is tracked and announced before its function runs; afterwards it is
    forgotten and one terminal message is broadcast with its error or "done",
    except when it was handed off, which leaves it in flight. *)
Theorem jobWithID_outcome id kind target fn (w : World E) :
  let w0 := log (set_mgr w (set_activeJobs (w_mgr w)
                   (<[id := progress id kind target "start" (kind +:+ " " +:+ target)]> (m_activeJobs (w_mgr w)))))
              (published w (progress id kind target "start" (kind +:+ " " +:+ target))) in
  let w1 := (fn (emit_job id kind target) w0).1 in
  let w2 := (jobWithID id kind target fn w).1 in
  match (fn (emit_job id kind target) w0).2 with
  | Panic s => (jobWithID id kind target fn w).2 = Panic s /\ w2 = w1
  | Ret (Some e) =>
      (jobWithID id kind target fn w).2 = Ret tt /\
      if errors_Is e ErrHandedOff then w2 = w1
      else m_activeJobs (w_mgr w2) = delete id (m_activeJobs (w_mgr w1))
           /\ w_trace w2 = w_trace w1 ++ published w1 (job_failed id kind target e)
  | Ret None =>
      (jobWithID id kind target fn w).2 = Ret tt
      /\ m_activeJobs (w_mgr w2) = delete id (m_activeJobs (w_mgr w1))
      /\ exists t, w_trace w2 = w_trace w1 ++ published w1 (job_done id kind target "Done") ++ t
                   /\ Forall passive t
  end.
Proof.
  intros w0 w1 w2. subst w1 w2. unfold jobWithID.
  rewrite (bind_run _ _ _ w0 tt) by (unfold emit_job; by rewrite track_run).
  destruct (fn (emit_job id kind target) w0) as [w1 o] eqn:Ef. destruct o as [err|s].
  2:{ by rewrite (bind_run_panic _ _ _ _ _ Ef). }
  rewrite (bind_run _ _ _ _ _ Ef). cbn [fst snd]. destruct err as [e|].
  - destruct (errors_Is e ErrHandedOff); [done|].
    rewrite (bind_run _ _ _ _ _ (forget_run id w1)), publish_run. done.
  - rewrite (bind_run _ _ _ _ _ (forget_run id w1)), (bind_run _ _ _ _ _ (publish_run _ _)).
    set (wd := set_mgr w1 _). set (wb := log wd _).
    destruct (BroadcastStacks_no_panic wb) as [[] Hb].
    pose proof (BroadcastStacks_keeps m_activeJobs (fun _ _ _ => eq_refl) wb) as Hk.
    destruct (BroadcastStacks_passive wb) as (t & Ht & Hp).
    split; [done|]. split; [done|]. exists t. split; [|done]. rewrite Ht. simpl. by rewrite <- app_assoc.
Qed.

(** ** Actions on a whole stack *)
Definition stack_ids (stackID : string) (l : list Summary) : list string :=
  map sum_ID (List.filter (fun c => String.eqb (label_stack c) stackID) l).

(** How a run of one call per container, stopping at the first error, ends. *)
Definition stops_at_error (ev : string -> option error -> Ev) (ids : list string)
    (o : outcome (option error)) (t : list Ev) : Prop :=
  (o = Ret None /\ t = map (fun i => ev i None) ids) \/
  (exists done x rest e, ids = done ++ x :: rest /\ o = Ret (Some e) /\
     t = map (fun i => ev i None) done ++ [ev x (Some e)]).

Lemma err_loop_stops ev (ids : list string) o t :
  err_loop (fun x o t => exists e, o = Ret e /\ t = [ev x e]) ids o t -> stops_at_error ev ids o t.
Proof.
  induction 1 as [|x l o t1 t2 (e & [= <-] & ->) _ IH|x l e t (e' & [= <-] & ->)|x l s t (e & ? & _)].
  - by left.
  - destruct IH as [[-> ->]|(done & y & rest & e & -> & -> & ->)]; [by left|].
    right. exists (x :: done), y, rest, e. done.
  - right. by exists [], x, l, e.
  - done.
Qed.

Lemma stack_action_spec (ev : string -> option error -> Ev) (act : string -> M E (option error)) stackID w :
  (forall x, emits (act x) (fun o t => exists e, o = Ret e /\ t = [ev x e])) ->
  let m := let! ids := containerIDsInStack stackID in for_err ids act in
  match (cli_ContainerList true (w_env w)).2 with
  | Fail e => (m w).2 = Ret (Some e) /\ w_trace (m w).1 = w_trace w
  | Ok l => exists t, w_trace (m w).1 = w_trace w ++ t
                      /\ stops_at_error ev (stack_ids stackID l) (m w).2 t
  end.
Proof.
  intros Ha m. subst m.
  assert (Hc : containerIDsInStack stackID w =
    (log (set_env w (cli_ContainerList true (w_env w)).1) [],
     Ret (match (cli_ContainerList true (w_env w)).2 with
          | Ok l => Ok (stack_ids stackID l) | Fail e => Fail e end))).
  { unfold containerIDsInStack, ContainerList, call, mbind, M_bind, mret, M_ret.
    destruct (cli_ContainerList true (w_env w)) as [e' [l|e]]; done. }
  rewrite (bind_run _ _ _ _ _ Hc). destruct (cli_ContainerList true (w_env w)) as [e' [l|e]]; simpl.
  - destruct (emits_for_err (stack_ids stackID l) act _ (fun x _ => Ha x) (log (set_env w e') []))
      as (t & Ht & Hl). simpl in Ht. rewrite app_nil_r in Ht. exists t.
    rewrite Ht. split; [done|]. by apply err_loop_stops.
  - by rewrite app_nil_r.
Qed.

(** Starting a stack starts its containers in the order the daemon lists them
    and stops at the first error, which it returns. *)
Theorem StartStack_spec stackID (w : World E) :
  match (cli_ContainerList true (w_env w)).2 with
  | Fail e => (StartStack stackID w).2 = Ret (Some e) /\ w_trace (StartStack stackID w).1 = w_trace w
  | Ok l => exists t, w_trace (StartStack stackID w).1 = w_trace w ++ t
      /\ stops_at_error EvStart (stack_ids stackID l) (StartStack stackID w).2 t
  end.
Proof. apply stack_action_spec. intros x. apply emits_call. eauto. Qed.

(** Restarting a stack, likewise. *)
Theorem RestartStack_spec stackID (w : World E) :
  match (cli_ContainerList true (w_env w)).2 with
  | Fail e => (RestartStack stackID w).2 = Ret (Some e) /\ w_trace (RestartStack stackID w).1 = w_trace w
  | Ok l => exists t, w_trace (RestartStack stackID w).1 = w_trace w ++ t
      /\ stops_at_error EvRestart (stack_ids stackID l) (RestartStack stackID w).2 t
  end.
Proof. apply stack_action_spec. intros x. apply emits_call. eauto. Qed.

(** A stack that is brought up: what the calls did for one managed container. *)
Definition brought_up (mc : ManagedContainer) (t : list Ev) : Prop :=
  (exists insp st, EvInspect (mc_ContainerName mc) (Ok insp) ∈ t /\ in_State insp = Some st /\
     (st_Running st = true \/ EvStart (in_ID insp) None ∈ t)) \/
  (exists e snap c id, EvInspect (mc_ContainerName mc) (Fail e) ∈ t
     /\ parseSnapshot (mc_SnapshotJSON mc) = Ok snap /\ sn_Config snap = Some c
     /\ (exists eps, EvCreate (sn_Name snap) c (sn_HostConfig snap) eps (Ok id) ∈ t)
     /\ EvStart id None ∈ t).

Lemma brought_up_mono mc t t' : brought_up mc t -> t ⊆ t' -> brought_up mc t'.
Proof.
  intros [(insp & st & H1 & H2 & H3)|(e & snap & c & id & H1 & H2 & H3 & (eps & H4) & H5)] Hs.
  - left. exists insp, st. split; [by apply Hs|]. split; [done|]. destruct H3; [by left|right; by apply Hs].
  - right. exists e, snap, c, id. repeat split; auto. exists eps. auto.
Qed.

Lemma bring_up_emits mc :
  emits (E:=E) (bring_up mc) (fun o t => o = Ret None -> brought_up mc t).
Proof.
  unfold bring_up.
  eapply (emits_bind _ _ (fun o t => exists r, o = Ret r /\ t = [EvInspect (mc_ContainerName mc) r])).
  { apply emits_call. eauto. }
  { intros s t (r & ? & _). done. }
  intros r t1 (r' & [= <-] & ->). destruct r as [insp|e].
  - destruct (in_State insp) as [st|] eqn:Est; [|by apply emits_panic].
    destruct (st_Running st) eqn:Er; simpl.
    + apply emits_ret. intros _. left. exists insp, st. set_solver.
    + eapply (emits_bind _ _ (fun o t => exists e, o = Ret e /\ t = [EvStart (in_ID insp) e])).
      { apply emits_call. eauto. }
      { intros s t (r & ? & _). done. }
      intros e t1 (e' & [= <-] & ->). destruct e; apply emits_ret; intros Hn; [done|].
      left. exists insp, st. set_solver.
  - destruct (parseSnapshot (mc_SnapshotJSON mc)) as [snap|perr] eqn:Ep; [|by apply emits_ret].
    eapply emits_bind; [apply recreate_emits|done|].
    intros [newID [rerr|]] t1 (c & eps & Hc & _ & Ht); [by apply emits_ret|].
    eapply emits_bind; [apply (emits_sql _ (fun o t => t = [])); done|by intros|].
    intros r t2 ->. apply emits_ret. intros _. right.
    destruct Ht as [(? & _ & _ & ?)|(errs & -> & _)]; [done|].
    exists e, snap, c, newID. unfold recreate_config in *. simpl in *. repeat split; try done.
    + set_solver.
    + exists (recreate_primary (sn_Project snap) eps). set_solver.
    + set_solver.
Qed.

(** When bringing a stack up succeeds, every managed container of it was found
    running, was started, or was recreated from its snapshot and started. *)
Theorem BringUpStack_brings_all_up stackID (w : World E) :
  (BringUpStack stackID w).2 = Ret None ->
  exists t, w_trace (BringUpStack stackID w).1 = w_trace w ++ t /\
    forall mc, mc ∈ db_managed (w_db w) -> mc_StackID mc = stackID -> brought_up mc t.
Proof.
  unfold BringUpStack.
  destruct (sql_run (ManagedByStack stackID) w) as (e' & [(err & _ & Hs)|Hs]);
    rewrite (bind_run _ _ _ _ _ Hs); [done|]. simpl.
  set (l := sort_slice _ _). set (w1 := set_db _ _). destruct (length l =? 0)%nat; [done|].
  destruct (emits_for_err l bring_up _ (fun x _ => bring_up_emits x) w1) as (t & Ht & Hl).
  destruct (for_err l bring_up w1) as [w2 [[e|]|s]] eqn:Ef;
    [by rewrite (bind_run _ _ _ _ _ Ef)| |by rewrite (bind_run_panic _ _ _ _ _ Ef)].
  rewrite (bind_run _ _ _ _ _ Ef). simpl in Ht, Hl. intros _.
  destruct (BroadcastStacks_no_panic w2) as [[] Hb].
  destruct (BroadcastStacks_passive w2) as (t2 & Ht2 & _).
  destruct (BroadcastStacks w2) as [w3 o] eqn:Ebr. simpl in Hb, Ht2. subst o.
  rewrite (bind_run _ _ _ _ _ Ebr). simpl. exists (t ++ t2). rewrite Ht2, Ht, <- app_assoc.
  split; [done|]. intros mc Hmc Hst.
  assert (Hin : mc ∈ l).
  { unfold l. apply sort_slice_elem_of, elem_of_select. split; [done|]. by apply String.eqb_eq. }
  destruct (err_loop_all _ _ _ Hl mc Hin) as (t' & Hp & Hsub).
  eapply brought_up_mono; [by apply Hp|]. set_solver.
Qed.
End JobFacts.

(** ** Instances at concrete inputs *)
Definition demo_down_db : DB :=
  set_services empty_db [{| sr_ID := "web"; sr_Name := "web" |}]
    [{| mc_ID := "m1"; mc_StackID := "web"; mc_ContainerName := "nginx";
        mc_SnapshotJSON := count_Marshal demo_snapshot; mc_ContainerID := "c1";
        mc_AutoUpdate := false; mc_CreatedAt := 1 |};
     demo_row "m2" "web" "redis" "c2"] [].

Definition demo_down : World Sim :=
  sim_world demo_down_db (sim_with sim_empty [demo_live "c2" "redis" (down 0)] 10).

Lemma demo_down_runs : (BringUpStack "web" demo_down).2 = Ret None.
Proof. vm_compute. reflexivity. Qed.

Lemma BringUpStack_brings_all_up_witness :
  exists t, w_trace (BringUpStack "web" demo_down).1 = t
            /\ brought_up (demo_row "m2" "web" "redis" "c2") t.
Proof.
  destruct (BringUpStack_brings_all_up "web" demo_down demo_down_runs) as (t & Ht & H).
  exists t. split; [exact Ht|]. apply H; [|reflexivity].
  apply list_elem_of_further, list_elem_of_here.
Defined.
