(* ===== verification/Identity.v ===== *)
(** * Veery's own container (src/internal/docker/self.go)

    Veery finds the container it runs in once per process, and only believes an
    id that the daemon confirms. *)
From S2P Require Import Prelude GoStrings Api Db Docker World Sim Status Snapshot Notices Listing.
Open Scope Z_scope.

Definition is_hex (c : ascii) : bool :=
  let n := N_of_ascii c in
  ((48 <=? n) && (n <=? 57) || (97 <=? n) && (n <=? 102))%N.

Definition is_word (c : ascii) : bool :=
  let n := N_of_ascii c in
  ((48 <=? n) && (n <=? 57) || (65 <=? n) && (n <=? 90) || (97 <=? n) && (n <=? 122) || (n =? 95))%N.

Fixpoint all_chars (f : ascii -> bool) (s : string) : bool :=
  match s with EmptyString => true | String c t => f c && all_chars f t end.

(** [containerIDPattern.FindAllString]: "\b[0-9a-f]{64}\b" matches the words
    of exactly 64 hexadecimal digits. *)
Definition containerIDs (line : string) : list string :=
  List.filter (fun s => (String.length s =? 64)%nat && all_chars is_hex s)
    (FieldsFunc (fun c => negb (is_word c)) line).

Section Identity.
Context {E : Type} `{!Env E}.

Definition readLines (path : string) : M E (option (list string)) := call (proc_lines path) (fun _ => []).

Definition procContainerIDs : M E (list string) :=
  for_fold ["/proc/self/mountinfo"; "/proc/self/cgroup"] (fun out path =>
    r ← readLines path;
    mret (match r with Some ls => out ++ flat_map containerIDs ls | None => out end)) [].

Definition Getenv (k : string) : M E string := call (os_Getenv k) (fun _ => []).
Definition Hostname : M E (result string) := call os_Hostname (fun _ => []).

(** The first candidate the daemon knows. *)
Fixpoint first_known (ids : list string) : M E (option string) :=
  match ids with
  | [] => mret None
  | id :: ids' =>
      r ← ContainerInspect id;
      match r with Ok insp => mret (Some (in_ID insp)) | Fail _ => first_known ids' end
  end.

Definition resolve_hostname : M E string :=
  h ← Hostname;
  match h with
  | Fail _ => mret ""
  | Ok host =>
      if String.eqb host "" then mret ""
      else
        r ← ContainerInspect host;
        match r with
        | Fail _ => mret ""
        | Ok insp => mret (if HasPrefix (in_ID insp) host then in_ID insp else "")
        end
  end.

Definition resolveSelf : M E string :=
  env ← Getenv "VEERY_CONTAINER";
  override ← first_known (if String.eqb env "" then [] else [env]);
  match override with
  | Some id => mret id
  | None =>
      ids ← procContainerIDs;
      known ← first_known ids;
      match known with Some id => mret id | None => resolve_hostname end
  end.

(** [m.selfOnce.Do]: resolved once per process, then remembered. *)
Definition SelfContainerID : M E string :=
  known ← gets m_selfID;
  match known with
  | Some id => mret id
  | None =>
      id ← resolveSelf;
      modify (fun m => set_selfID m (Some id)) ≫= fun _ => mret id
  end.

Definition IsSelf (id : string) : M E bool :=
  self ← SelfContainerID; mret (negb (String.eqb self "") && String.eqb self id).
End Identity.

(** ** Theorems *)
Section IdentityFacts.
Context {E : Type} `{!Env E}.

(** The daemon answered an inspection with the container [id]. *)
Definition confirmed (id : string) (t : list Ev) : Prop :=
  exists ref insp, EvInspect ref (Ok insp) ∈ t /\ in_ID insp = id.

(** Only inspections are made, and a non-empty answer was confirmed. *)
Definition found_self (o : outcome string) (t : list Ev) : Prop :=
  Forall (fun e => exists ref r, e = EvInspect ref r) t /\
  exists id, o = Ret id /\ (id = "" \/ confirmed id t).

Lemma first_known_emits ids :
  emits (E:=E) (first_known ids) (fun o t => Forall (fun e => exists ref r, e = EvInspect ref r) t /\
    exists r, o = Ret r /\ forall id, r = Some id -> confirmed id t).
Proof.
  induction ids as [|i ids IH]; simpl.
  - apply emits_ret. split; [constructor|]. by exists None.
  - eapply (emits_bind _ _ (fun o t => exists r, o = Ret r /\ t = [EvInspect i r])).
    + apply emits_call. eauto.
    + intros s t (r & ? & _). done.
    + intros r t1 (r' & [= <-] & ->). destruct r as [insp|e].
      * apply emits_ret. split; [repeat constructor; eauto|]. eexists. split; [done|].
        intros id [= <-]. exists i, insp. split; [simpl; set_solver|done].
      * eapply emits_mono; [exact IH|]. intros o t (Hf & r & -> & Hr). split.
        { constructor; [eauto|done]. }
        exists r. split; [done|]. intros id Hid. destruct (Hr id Hid) as (ref & insp & ? & ?).
        exists ref, insp. split; [simpl; set_solver|done].
Qed.

Lemma confirmed_app id t1 t2 : confirmed id t2 -> confirmed id (t1 ++ t2).
Proof. intros (ref & insp & ? & ?). exists ref, insp. set_solver. Qed.

Lemma found_self_app o t1 t2 :
  Forall (fun e => exists ref r, e = EvInspect ref r) t1 -> found_self o t2 -> found_self o (t1 ++ t2).
Proof.
  intros H1 [H2 (id & -> & [->|Hc])]; (split; [by apply Forall_app|]); eexists; (split; [done|]);
    [by left|right; by apply confirmed_app].
Qed.

Lemma quiet_emits {A} (op : E -> E * A) (P : outcome A -> list Ev -> Prop) :
  (forall r, P (Ret r) []) -> emits (call op (fun _ => [])) P.
Proof. intros H. apply emits_call. auto. Qed.

Lemma resolve_hostname_emits : emits (E:=E) resolve_hostname found_self.
Proof.
  unfold resolve_hostname, Hostname.
  eapply (emits_bind _ _ (fun o t => t = [] /\ exists h, o = Ret h)).
  { apply quiet_emits. eauto. }
  { intros s t (_ & h & ?). done. }
  assert (Hno : forall t, t = [] -> found_self (Ret "") t).
  { intros t ->. split; [constructor|]. exists "". auto. }
  intros h t1 (-> & _). destruct h as [host|e]; [|by apply emits_ret, Hno].
  destruct (String.eqb host ""); [by apply emits_ret, Hno|].
  eapply (emits_bind _ _ (fun o t => exists r, o = Ret r /\ t = [EvInspect host r])).
  { apply emits_call. eauto. }
  { intros s t (r & ? & _). done. }
  intros r t1 (r' & [= <-] & ->). destruct r as [insp|e]; apply emits_ret.
  - split; [repeat constructor; eauto|]. eexists. split; [done|].
    destruct (HasPrefix (in_ID insp) host); [right|by left]. exists host, insp. simpl. set_solver.
  - split; [repeat constructor; eauto|]. exists "". auto.
Qed.

Lemma procContainerIDs_emits : emits (E:=E) procContainerIDs (fun o t => t = [] /\ exists ids, o = Ret ids).
Proof.
  unfold procContainerIDs, readLines. intros w. exists []. simpl.
  unfold mbind, M_bind, call, mret, M_ret. cbv beta iota. simpl. rewrite !app_nil_r. eauto.
Qed.

Lemma resolveSelf_emits : emits (E:=E) resolveSelf found_self.
Proof.
  unfold resolveSelf, Getenv.
  eapply (emits_bind _ _ (fun o t => t = [] /\ exists h, o = Ret h)).
  { apply quiet_emits. eauto. }
  { intros s t (_ & h & ?). done. }
  intros env t1 (-> & _). simpl.
  eapply emits_bind; [apply first_known_emits|intros s t (_ & r & ? & _); done|].
  intros [id|] t1 (Hf & r & [= <-] & Hr).
  { apply emits_ret. rewrite app_nil_r. split; [done|]. exists id. split; [done|]. right. by apply Hr. }
  eapply emits_bind; [apply procContainerIDs_emits|intros s t (_ & r & ?); done|].
  intros ids t2 (-> & _).
  eapply emits_bind; [apply first_known_emits|intros s t (_ & r & ? & _); done|].
  intros [id|] t3 (Hf3 & r & [= <-] & Hr3).
  - apply emits_ret. rewrite app_nil_r. apply found_self_app; [done|]. split; [done|].
    exists id. split; [done|]. right. by apply Hr3.
  - eapply emits_mono; [apply resolve_hostname_emits|]. simpl. intros o t Ho.
    apply found_self_app; [done|]. by apply found_self_app.
Qed.

(** The own container id is resolved once per process, remembered, and is empty
    or the id the daemon gave for an inspection. *)
Theorem SelfContainerID_once (w : World E) :
  exists id, (SelfContainerID w).2 = Ret id
    /\ m_selfID (w_mgr (SelfContainerID w).1) = Some id
    /\ SelfContainerID (SelfContainerID w).1 = ((SelfContainerID w).1, Ret id)
    /\ (m_selfID (w_mgr w) = None -> exists t, w_trace (SelfContainerID w).1 = w_trace w ++ t
          /\ (id = "" \/ confirmed id t)).
Proof.
  assert (Hhit : forall (w1 : World E) id, m_selfID (w_mgr w1) = Some id -> SelfContainerID w1 = (w1, Ret id)).
  { intros w1 id Hid. unfold SelfContainerID. rewrite (bind_run _ _ w1 w1 (Some id)); [done|].
    unfold gets. by rewrite Hid. }
  destruct (m_selfID (w_mgr w)) as [id|] eqn:Eid.
  { rewrite (Hhit w id Eid). exists id. simpl. repeat split; auto. done. }
  destruct (resolveSelf_emits w) as (t & Ht & _ & id & Ho & Hc).
  destruct (resolveSelf w) as [w1 o] eqn:Er. simpl in Ht, Ho. subst o.
  assert (Hrun : SelfContainerID w = (set_mgr w1 (set_selfID (w_mgr w1) (Some id)), Ret id)).
  { unfold SelfContainerID. rewrite (bind_run _ _ w w None).
    - by rewrite (bind_run _ _ _ _ _ Er).
    - unfold gets. by rewrite Eid. }
  rewrite Hrun. simpl. exists id. repeat split; eauto.
Qed.

Lemma IsSelf_emits id :
  emits (E:=E) (IsSelf id) (fun o t => Forall (fun e => exists ref r, e = EvInspect ref r) t
                                       /\ exists b, o = Ret b).
Proof.
  unfold IsSelf. eapply (emits_bind _ _ (fun o t => Forall (fun e => exists ref r, e = EvInspect ref r) t
      /\ exists id, o = Ret id)).
  - unfold SelfContainerID. eapply (emits_bind _ _ (fun o t => t = [] /\ exists r, o = Ret r)).
    + apply emits_gets. eauto.
    + intros s t (_ & r & ?). done.
    + intros [i|] t1 (-> & _); [apply emits_ret; split; [constructor|eauto]|].
      eapply emits_bind; [apply resolveSelf_emits|intros s t (_ & r & ? & _); done|].
      intros i t1 (Hf & _). eapply (emits_bind _ _ (fun o t => t = [] /\ o = Ret tt)).
      * by apply emits_modify.
      * intros s t (_ & ?). done.
      * intros [] t2 (-> & _). apply emits_ret. rewrite !app_nil_r. simpl. eauto.
  - intros s t (_ & r & ?). done.
  - intros self t (Hf & _). apply emits_ret. rewrite app_nil_r. eauto.
Qed.
End IdentityFacts.
