(* ===== verification/UpdateCheck.v ===== *)
(** * Update checks (src/internal/docker/updatecheck.go, autoupdate.go)

    Whether the registry serves a newer image than a container runs, the flags
    that remember it, and the announcements of the flags that are newly set. *)
From S2P Require Import Prelude GoStrings Api Db StoreDocker Docker World Sim StoreSettings Status Snapshot Notices Listing.
Open Scope Z_scope.

(** The registry digest is none of those of the local image. *)
Definition new_digest (remote : string) (img : ImageInspect) : bool :=
  negb (length (img_RepoDigests img) =? 0)%nat &&
  forallb (fun rd => match Cut rd "@" with
                     | Some (_, digest) => negb (String.eqb digest remote)
                     | None => true
                     end) (img_RepoDigests img).

(** The announcement of an available update. *)
Definition available_note (mc : ManagedContainer) : Ev :=
  EvNotify EventUpdateAvailable ("Update available for " +:+ mc_ContainerName mc)
    ("A newer image has been published. Auto-update is off for this container, "
     +:+ "so it will keep running the current image until you update it.")
    {| em_ContainerName := mc_ContainerName mc; em_StackID := mc_StackID mc |}.

Section UpdateCheck.
Context {E : Type} `{!Env E} `{!DockerCodecs}.

(** [Store.ResolveManaged]: two statements. *)
Definition ResolveManaged (idOrName : string) : M E (result ManagedContainer) :=
  r ← sql (ManagedByID idOrName);
  match r with
  | Ok mc => mret (Ok mc)
  | Fail _ => sql (ManagedByName idOrName)
  end.

Definition remoteHasNewImage (mc : ManagedContainer) : M E bool :=
  match parseSnapshot (mc_SnapshotJSON mc) with
  | Fail _ => mret false
  | Ok snap =>
      if String.eqb (sn_Image snap) "" then mret false
      else
        dist ← DistributionInspect (sn_Image snap);
        match dist with
        | Fail _ => mret false
        | Ok remote =>
            if String.eqb remote "" then mret false
            else
              r ← ContainerInspect (mc_ContainerName mc);
              match r with
              | Fail _ => mret false
              | Ok insp =>
                  i ← ImageInspect_ (in_Image insp);
                  match i with
                  | Fail _ => mret false
                  | Ok img => mret (new_digest remote img)
                  end
              end
        end
  end.

Definition seedUpdateAvail : M E unit :=
  base ← gets m_availBaseline;
  if (base : bool) then mret tt
  else
    r ← LoadNotifiedUpdates;
    match r with
    | Fail _ => mret tt
    | Ok saved => modify (fun m => set_avail m saved true)
    end.

Definition persistUpdateAvail : M E unit :=
  snapshot ← gets m_updateAvail;
  (_ ← SaveNotifiedUpdates snapshot; mret tt).

(** The loop: [Some] of [changed], or [None] when the context was cancelled
    and the function returned from inside it; with the count so far. *)
Fixpoint check_loop (managed : list ManagedContainer) (changed : bool) (available : Z) :
    M E (option bool * Z) :=
  match managed with
  | [] => mret (Some changed, available)
  | mc :: rest =>
      cancelled ← ctxErr;
      match cancelled with
      | Some _ => mret (None, available)
      | None =>
          avail ← remoteHasNewImage mc;
          let available := if (avail : bool) then available + 1 else available in
          was ← updateAvailableFor (mc_ContainerName mc);
          (if negb (Bool.eqb was avail) && avail && negb (mc_AutoUpdate mc) then
             notify EventUpdateAvailable ("Update available for " +:+ mc_ContainerName mc)
               ("A newer image has been published. Auto-update is off for this container, "
                +:+ "so it will keep running the current image until you update it.")
               {| em_ContainerName := mc_ContainerName mc; em_StackID := mc_StackID mc |}
           else mret tt) ≫= fun _ =>
          setUpdateAvailable (mc_ContainerName mc) avail ≫= fun _ =>
          check_loop rest (changed || negb (Bool.eqb was avail)) available
      end
  end.

Definition checkUpdates (managed : list ManagedContainer) : M E Z :=
  seedUpdateAvail ≫= fun _ =>
  (r ← check_loop managed false 0;
   let (changed, available) := (r : option bool * Z) in
   match changed with
   | Some true => persistUpdateAvail ≫= fun _ => BroadcastStacks ≫= fun _ => mret available
   | _ => mret available
   end).

Definition CheckUpdates : M E unit :=
  r ← sql AllManaged;
  match r with
  | Fail _ => mret tt
  | Ok managed => checkUpdates managed ≫= fun _ => mret tt
  end.

Definition CheckContainerUpdates (idOrName : string) : M E (result Z) :=
  let? mc := ResolveManaged idOrName in
  (n ← checkUpdates [mc]; mret (Ok n)).

Definition CheckStackUpdates (stackID : string) : M E (result Z) :=
  let? managed := sql AllManaged in
  (n ← checkUpdates (List.filter (by_stack stackID) managed); mret (Ok n)).

Definition CheckAllUpdates : M E (result Z) :=
  let? managed := sql AllManaged in
  (n ← checkUpdates managed; mret (Ok n)).

(** Nanoseconds; the settings default to 60 minutes. *)
Definition autoUpdateInterval : M E Z :=
  r ← LoadSettings;
  let minutes := match r with
                 | Ok cfg => if 0 <? set_AutoUpdateIntervalMinutes cfg
                             then set_AutoUpdateIntervalMinutes cfg else 60
                 | Fail _ => 60
                 end in
  mret (minutes * (60 * second)).
End UpdateCheck.

(** ** Lemmas *)

(** The announcements of a sweep that got these answers, and the flags after it. *)
Fixpoint flips (flags : gmap string bool) (l : list (ManagedContainer * bool)) : list Ev :=
  match l with
  | [] => []
  | (mc, avail) :: l' =>
      (if negb (Bool.eqb (map_bool flags (mc_ContainerName mc)) avail) && avail && negb (mc_AutoUpdate mc)
       then [available_note mc] else [])
      ++ flips (<[mc_ContainerName mc := avail]> flags) l'
  end.

Definition flags_after (flags : gmap string bool) (l : list (ManagedContainer * bool)) : gmap string bool :=
  fold_left (fun f p => <[mc_ContainerName p.1 := p.2]> f) l flags.

Definition count_true (l : list bool) : Z := Z.of_nat (length (List.filter id l)).

(** The announcements in a trace. *)
Definition is_announcement (e : Ev) : bool :=
  match e with
  | EvNotify ev _ _ _ => String.eqb ev EventUpdateAvailable
  | _ => false
  end.

Definition announcements (t : list Ev) : list Ev := List.filter is_announcement t.

Lemma passive_no_announcement t : Forall passive t -> announcements t = [].
Proof.
  induction 1 as [|e t He _ IH]; [done|]. unfold announcements in *. simpl.
  destruct e as [| | | | | | | | | | |ev ? ? ?| | | | |]; simpl in *; try done.
  by destruct He as [-> | ->].
Qed.

Lemma announcements_app t1 t2 : announcements (t1 ++ t2) = announcements t1 ++ announcements t2.
Proof. apply List.filter_app. Qed.

(** After a sweep, one that gets the same answers announces nothing. *)
Lemma flags_after_lookup flags l n :
  n ∉ map (fun p => mc_ContainerName p.1) l -> flags_after flags l !! n = flags !! n.
Proof.
  revert flags. induction l as [|[mc a] l IH]; intros flags Hn; [done|]. simpl in *.
  unfold flags_after in *. simpl. rewrite IH by set_solver. apply lookup_insert_ne. set_solver.
Qed.

Lemma flags_after_elem flags l mc a :
  NoDup (map (fun p => mc_ContainerName p.1) l) -> (mc, a) ∈ l ->
  flags_after flags l !! mc_ContainerName mc = Some a.
Proof.
  revert flags. induction l as [|[mc' a'] l IH]; intros flags Hnd Hin; [set_solver|]. simpl in *.
  apply NoDup_cons in Hnd as [Hn Hnd]. unfold flags_after in *. simpl.
  apply elem_of_cons in Hin as [[= <- <-]|Hin]; [|by apply IH].
  change (flags_after (<[mc_ContainerName mc := a]> flags) l !! mc_ContainerName mc = Some a).
  rewrite flags_after_lookup by done. apply lookup_insert_eq.
Qed.

Lemma flips_agree flags l :
  (forall mc a, (mc, a) ∈ l -> flags !! mc_ContainerName mc = Some a) -> flips flags l = [].
Proof.
  revert flags. induction l as [|[mc a] l IH]; intros flags Hf; [done|]. simpl.
  unfold map_bool. rewrite (Hf mc a) by set_solver. simpl. rewrite eqb_reflx. simpl.
  rewrite insert_id by (apply Hf; set_solver). apply IH. intros mc' a' Hin. apply Hf. set_solver.
Qed.

Lemma flips_repeat flags l :
  NoDup (map (fun p => mc_ContainerName p.1) l) -> flips (flags_after flags l) l = [].
Proof. intros Hnd. apply flips_agree. intros mc a Hin. by apply flags_after_elem. Qed.

Section UpdateCheckFacts.
Context {E : Type} `{!Env E} `{!DockerCodecs}.

(** An update is reported available exactly when the snapshot names an image,
    the registry, the daemon and the local image could all be asked, and the
    registry digest is none of the local digests. *)
Theorem remoteHasNewImage_sound mc (w : World E) :
  (remoteHasNewImage mc w).2 = Ret true <->
  exists snap e1 remote e2 insp e3 img,
    parseSnapshot (mc_SnapshotJSON mc) = Ok snap /\ sn_Image snap <> ""
    /\ cli_DistributionInspect (sn_Image snap) (w_env w) = (e1, Ok remote) /\ remote <> ""
    /\ cli_ContainerInspect (mc_ContainerName mc) e1 = (e2, Ok insp)
    /\ cli_ImageInspect (in_Image insp) e2 = (e3, Ok img) /\ img_RepoDigests img <> []
    /\ (forall rd repo digest, rd ∈ img_RepoDigests img -> Cut rd "@" = Some (repo, digest) -> digest <> remote).
Proof.
  assert (Hnew : forall remote img, new_digest remote img = true <-> img_RepoDigests img <> [] /\
    (forall rd repo digest, rd ∈ img_RepoDigests img -> Cut rd "@" = Some (repo, digest) -> digest <> remote)).
  { intros remote img. unfold new_digest. rewrite andb_true_iff, negb_true_iff, Nat.eqb_neq, forallb_forall.
    split; intros [H1 H2]; (split; [by destruct (img_RepoDigests img)|]).
    - intros rd repo digest Hrd Hc. apply list_elem_of_In in Hrd. specialize (H2 rd Hrd).
      rewrite Hc in H2. by apply negb_true_iff, String.eqb_neq in H2.
    - intros rd Hrd. destruct (Cut rd "@") as [[repo digest]|] eqn:Ec; [|done].
      apply negb_true_iff, String.eqb_neq. eapply H2; [by apply list_elem_of_In|done]. }
  unfold remoteHasNewImage. destruct (parseSnapshot _) as [snap|e] eqn:Ep.
  2:{ split; [done|]. intros H'. unpack. congruence. }
  destruct (String.eqb_spec (sn_Image snap) "") as [Ei|Ei].
  { split; [done|]. intros H'. unpack. congruence. }
  unfold DistributionInspect, ContainerInspect, ImageInspect_, mbind, M_bind, call. simpl.
  destruct (cli_DistributionInspect (sn_Image snap) (w_env w)) as [e1 [remote|err]] eqn:Ed; simpl.
  2:{ split; [done|]. intros H'. unpack. congruence. }
  destruct (String.eqb_spec remote "") as [Er|Er]; simpl.
  { split; [done|]. intros H'. unpack. congruence. }
  destruct (cli_ContainerInspect (mc_ContainerName mc) e1) as [e2 [insp|err]] eqn:Ec; simpl.
  2:{ split; [done|]. intros H'. unpack. congruence. }
  destruct (cli_ImageInspect (in_Image insp) e2) as [e3 [img|err]] eqn:Em; simpl.
  2:{ split; [done|]. intros H'. unpack. congruence. }
  split.
  - intros [= Hn]. apply Hnew in Hn as [H1 H2]. eauto 20.
  - intros (snap' & e1' & remote' & e2' & insp' & e3' & img' & [= <-] & _ & H2 & _ & H4 & H5 & H6 & H7).
    rewrite Ed in H2. injection H2 as <- <-. rewrite Ec in H4. injection H4 as <- <-.
    rewrite Em in H5. injection H5 as <- <-. do 2 f_equal. apply Hnew. split; [done|]. exact H7.
Qed.

(** The loop over the containers: the answers it got, for all of them unless the
    context was cancelled, what it announced and what it recorded. *)
Record sweep_of (managed : list ManagedContainer) (flags : gmap string bool)
    (l : list (ManagedContainer * bool)) (flags' : gmap string bool) (t : list Ev) : Prop := {
  sw_prefix : exists rest, managed = map fst l ++ rest
                /\ (rest <> [] -> exists e : E, (ctx_Err e).2 <> None);
  sw_answers : Forall (fun p => exists w0 : World E, (remoteHasNewImage p.1 w0).2 = Ret p.2) l;
  sw_flags : flags' = flags_after flags l;
  sw_notes : announcements t = flips flags l
}.

Lemma remoteHasNewImage_quiet mc :
  emits_only (E:=E) (remoteHasNewImage mc) (fun e => is_announcement e = false).
Proof. unfold remoteHasNewImage. open_calls. repeat emits_step; repeat (apply Forall_cons; split); done || constructor. Qed.

Lemma quiet_announcements t : Forall (fun e => is_announcement e = false) t -> announcements t = [].
Proof. induction 1 as [|e t He _ IH]; [done|]. unfold announcements in *. simpl. by rewrite He. Qed.

Lemma remoteHasNewImage_run mc (w : World E) :
  exists w' b t, remoteHasNewImage mc w = (w', Ret b) /\ w_mgr w' = w_mgr w
                 /\ w_trace w' = w_trace w ++ t /\ announcements t = [].
Proof.
  assert (Hn : no_panic (E:=E) (remoteHasNewImage mc)).
  { unfold remoteHasNewImage. open_calls. repeat no_panic_step. }
  assert (Hk : keeps (E:=E) id (remoteHasNewImage mc)).
  { unfold remoteHasNewImage. open_calls. repeat keeps_step. }
  destruct (Hn w) as [b Hb]. destruct (remoteHasNewImage_quiet mc w) as (t & Ht & Hq).
  specialize (Hk w). destruct (remoteHasNewImage mc w) as [w' o]. simpl in *. subst o.
  exists w', b, t. split; [done|]. split; [done|]. split; [done|]. by apply quiet_announcements.
Qed.

Lemma check_loop_run managed : forall changed available (w : World E),
  m_notif (w_mgr w) = true ->
  exists w' l b t, check_loop managed changed available w
      = (w', Ret (b, available + count_true (map snd l)))
    /\ m_notif (w_mgr w') = true /\ m_availBaseline (w_mgr w') = m_availBaseline (w_mgr w)
    /\ w_trace w' = w_trace w ++ t
    /\ sweep_of managed (m_updateAvail (w_mgr w)) l (m_updateAvail (w_mgr w')) t.
Proof.
  induction managed as [|mc rest IH]; intros changed available w Hn; cbn [check_loop].
  { exists w, [], (Some changed), []. rewrite app_nil_r. unfold count_true. simpl. rewrite Z.add_0_r.
    repeat (split; [done|]). split; [by exists []|constructor|done|done]. }
  set (w0 := log (set_env w (ctx_Err (w_env w)).1) []).
  assert (Hc : ctxErr w = (w0, Ret (ctx_Err (w_env w)).2)) by done.
  rewrite (bind_run _ _ _ _ _ Hc). destruct (ctx_Err (w_env w)).2 as [e|] eqn:Ee.
  { exists w0, [], None, []. unfold count_true. simpl. rewrite Z.add_0_r.
    repeat (split; [done|]). split; [|constructor|done|done].
    exists (mc :: rest). split; [done|]. intros _. exists (w_env w). by rewrite Ee. }
  destruct (remoteHasNewImage_run mc w0) as (w1 & a & t1 & Hr & Hm & Ht & Hq).
  rewrite (bind_run _ _ _ _ _ Hr).
  set (was := map_bool (m_updateAvail (w_mgr w)) (mc_ContainerName mc)).
  rewrite (bind_run _ _ _ w1 was) by (unfold updateAvailableFor, gets; by rewrite Hm).
  set (ev := if negb (Bool.eqb was a) && a && negb (mc_AutoUpdate mc) then [available_note mc] else []).
  rewrite (bind_run _ _ _ (log w1 ev) tt).
  2:{ subst ev. destruct (_ && negb (mc_AutoUpdate mc)); [|by rewrite log_nil].
      unfold notify, gets, mbind, M_bind. rewrite Hm. simpl. by rewrite Hn. }
  set (w2 := set_mgr (log w1 ev) (set_avail (w_mgr w1)
               (<[mc_ContainerName mc := a]> (m_updateAvail (w_mgr w1))) (m_availBaseline (w_mgr w1)))).
  rewrite (bind_run _ _ _ w2 tt) by done.
  edestruct (IH (changed || negb (Bool.eqb was a)) (if a then available + 1 else available) w2)
    as (w' & l & b & t & Hrun & Hn' & Hb' & Ht' & [(rest' & Hpre & Hcan) Hans Hfl Hann]);
    [simpl; by rewrite Hm|].
  exists w', ((mc, a) :: l), b, (t1 ++ ev ++ t). split; [|split; [done|]; split; [|split]].
  - rewrite Hrun. do 3 f_equal. unfold count_true. simpl. destruct a; simpl; lia.
  - rewrite Hb'. simpl. by rewrite Hm.
  - rewrite Ht'. simpl. rewrite Ht. simpl. by rewrite app_nil_r, !app_assoc.
  - simpl in Hfl, Hann. rewrite Hm in Hfl, Hann. split; [|constructor; [|done]|done|].
    + exists rest'. simpl. by rewrite Hpre.
    + exists w0. cbn [fst snd]. by rewrite Hr.
    + rewrite !announcements_app, Hq, Hann. simpl. f_equal. subst ev. fold was.
      destruct (_ && negb (mc_AutoUpdate mc)); done.
Qed.

Lemma checkUpdates_run managed (w : World E) :
  m_availBaseline (w_mgr w) = true -> m_notif (w_mgr w) = true ->
  exists w' l t, checkUpdates managed w = (w', Ret (count_true (map snd l)))
    /\ m_notif (w_mgr w') = true /\ m_availBaseline (w_mgr w') = true
    /\ w_trace w' = w_trace w ++ t
    /\ sweep_of managed (m_updateAvail (w_mgr w)) l (m_updateAvail (w_mgr w')) t.
Proof.
  intros Hb Hn. unfold checkUpdates.
  rewrite (bind_run _ _ w w tt).
  2:{ unfold seedUpdateAvail. rewrite (bind_run _ _ w w true); [done|]. unfold gets. by rewrite Hb. }
  destruct (check_loop_run managed false 0 w Hn) as (w1 & l & b & t & Hr & Hn1 & Hb1 & Ht & Hsw).
  rewrite (bind_run _ _ _ _ _ Hr). rewrite Hb in Hb1.
  destruct b as [[]|]; [|exists w1, l, t; done..].
  set (w2 := (persistUpdateAvail w1).1).
  assert (Hp : persistUpdateAvail w1 = (w2, Ret tt) /\ w_mgr w2 = w_mgr w1 /\ w_trace w2 = w_trace w1).
  { subst w2. unfold persistUpdateAvail, gets, mbind, M_bind, SaveNotifiedUpdates, setJSON.
    destruct (sql_run (SetSetting keyNotifiedUpdates (json_Marshal (m_updateAvail (w_mgr w1)))) w1)
      as (e' & [(err & _ & Hs)|Hs]); rewrite Hs; done. }
  destruct Hp as (Hp & Hm2 & Ht2). rewrite (bind_run _ _ _ _ _ Hp).
  destruct (BroadcastStacks_no_panic w2) as [[] Hnb].
  pose proof (BroadcastStacks_keeps
    (fun m => (m_updateAvail m, m_notif m, m_availBaseline m)) (fun _ _ _ => eq_refl) w2) as Hk.
  destruct (BroadcastStacks_passive w2) as (t2 & Ht3 & Hpass).
  destruct (BroadcastStacks w2) as [w3 o] eqn:Eb. simpl in Hnb, Hk, Ht3. subst o.
  rewrite (bind_run _ _ _ _ _ Eb). rewrite Hm2 in Hk. injection Hk as Hk1 Hk2 Hk3.
  exists w3, l, (t ++ t2). split; [done|]. split; [congruence|]. split; [congruence|].
  split; [by rewrite Ht3, Ht2, Ht, app_assoc|]. rewrite Hk1. destruct Hsw as [? ? ? Ha].
  split; [done..|]. by rewrite announcements_app, (passive_no_announcement t2), app_nil_r.
Qed.

(** An update sweep records the answer for every container it reached, returns
    how many updates are available, and announces exactly those newly available
    for containers without auto-update. *)
Theorem checkUpdates_announces_new_flags managed (w : World E) :
  m_availBaseline (w_mgr w) = true -> m_notif (w_mgr w) = true ->
  let w' := (checkUpdates managed w).1 in
  exists l t, (checkUpdates managed w).2 = Ret (count_true (map snd l))
    /\ w_trace w' = w_trace w ++ t
    /\ (exists rest, managed = map fst l ++ rest /\ (rest <> [] -> exists e : E, (ctx_Err e).2 <> None))
    /\ Forall (fun p => exists w0 : World E, (remoteHasNewImage p.1 w0).2 = Ret p.2) l
    /\ announcements t = flips (m_updateAvail (w_mgr w)) l
    /\ m_updateAvail (w_mgr w') = flags_after (m_updateAvail (w_mgr w)) l.
Proof.
  intros Hb Hn w'. subst w'.
  destruct (checkUpdates_run managed w Hb Hn) as (w' & l & t & -> & _ & _ & Ht & [H1 H2 H3 H4]).
  exists l, t. eauto 10.
Qed.

(** While the registry and the daemon give the same answers, a second sweep
    announces nothing. *)
Theorem checkUpdates_stable_quiet managed (answer : ManagedContainer -> bool) (w : World E) :
  m_availBaseline (w_mgr w) = true -> m_notif (w_mgr w) = true ->
  NoDup (map mc_ContainerName managed) ->
  (forall e : E, (ctx_Err e).2 = None) ->
  (forall mc (w0 : World E), mc ∈ managed -> (remoteHasNewImage mc w0).2 = Ret (answer mc)) ->
  let w1 := (checkUpdates managed w).1 in
  exists t, w_trace (checkUpdates managed w1).1 = w_trace w1 ++ t /\ announcements t = [].
Proof.
  intros Hb Hn Hnd Hctx Hans w1. subst w1.
  assert (Hall : forall flags l flags' t, sweep_of managed flags l flags' t ->
    l = map (fun mc => (mc, answer mc)) managed).
  { intros flags l flags' t [(rest & Hpre & Hcan) Hl _ _].
    assert (rest = []) as ->.
    { destruct rest as [|x r]; [done|]. destruct Hcan as (e & He); [done|]. by rewrite Hctx in He. }
    rewrite app_nil_r in Hpre. rewrite Hpre, map_map.
    assert (Hf : forall p, p ∈ l -> p = (p.1, answer p.1)).
    { intros [mc a] Hp. rewrite Forall_forall in Hl. destruct (Hl _ Hp) as (w0 & Hw0). simpl in *.
      rewrite Hans in Hw0; [by injection Hw0 as ->|]. rewrite Hpre. apply list_elem_of_In.
      apply (in_map fst l (mc, a)). by apply list_elem_of_In. }
    clear -Hf. induction l as [|p l IH]; [done|]. simpl. rewrite <- Hf by set_solver. f_equal.
    apply IH. intros q Hq. apply Hf. set_solver. }
  destruct (checkUpdates_run managed w Hb Hn) as (w1 & l1 & t1 & -> & Hn1 & Hb1 & _ & Hsw1).
  destruct (checkUpdates_run managed w1 Hb1 Hn1) as (w2 & l2 & t2 & Hr2 & _ & _ & Ht2 & Hsw2).
  simpl. rewrite Hr2. simpl. exists t2. split; [done|]. rewrite (sw_notes _ _ _ _ _ Hsw2).
  rewrite (sw_flags _ _ _ _ _ Hsw1), (Hall _ _ _ _ Hsw1), (Hall _ _ _ _ Hsw2).
  apply flips_repeat. rewrite map_map. by simpl.
Qed.
End UpdateCheckFacts.

(** ** Instances at concrete inputs *)

(** A registry that serves the digest "new", and a container on the image "old". *)
Definition demo_registry : Sim :=
  {| sim_containers := [demo_live "c1" "nginx" up];
     sim_images := {["img" := {| img_ID := "img"; img_RepoDigests := ["nginx@old"] |}]};
     sim_remote := {["nginx:1" := "new"]}; sim_boot := ∅; sim_clock := 0; sim_next := 1; sim_fail := [] |}.

#[local] Instance demo_frozen : Env unit := frozen demo_registry.

Definition demo_checked : ManagedContainer :=
  {| mc_ID := "m1"; mc_StackID := "web"; mc_ContainerName := "nginx";
     mc_SnapshotJSON := count_Marshal demo_snapshot; mc_ContainerID := "c1";
     mc_AutoUpdate := false; mc_CreatedAt := 1 |}.

Definition demo_check_world : World unit :=
  mkWorld tt empty_db (set_avail (NewManager true true) ∅ true) [].

Lemma demo_new_image mc (w0 : World unit) :
  mc ∈ [demo_checked] -> (remoteHasNewImage mc w0).2 = Ret true.
Proof. intros ->%list_elem_of_singleton. destruct w0 as [[] d m t]. vm_compute. reflexivity. Qed.

Lemma checkUpdates_announces_new_flags_witness :
  exists l t, w_trace (checkUpdates [demo_checked] demo_check_world).1 = t
    /\ announcements t = flips ∅ l /\ Forall (fun p => exists w0 : World unit,
         (remoteHasNewImage p.1 w0).2 = Ret p.2) l.
Proof.
  destruct (checkUpdates_announces_new_flags [demo_checked] demo_check_world eq_refl eq_refl)
    as (l & t & _ & Ht & _ & H1 & H2 & _).
  exists l, t. split; [exact Ht|]. split; [exact H2|exact H1].
Defined.

Lemma checkUpdates_stable_quiet_witness :
  let w1 := (checkUpdates [demo_checked] demo_check_world).1 in
  length (announcements (w_trace w1)) = 1%nat /\
  exists t, w_trace (checkUpdates [demo_checked] w1).1 = w_trace w1 ++ t /\ announcements t = [].
Proof.
  split; [vm_compute; reflexivity|].
  apply (checkUpdates_stable_quiet [demo_checked] (fun _ => true) demo_check_world).
  - reflexivity.
  - reflexivity.
  - apply NoDup_singleton.
  - intros e. reflexivity.
  - exact demo_new_image.
Defined.
