(* ===== verification/Reconcile.v ===== *)
(** * Reconciliation (src/internal/docker/reconcile.go)

    Brings the managed records back in line with the containers the daemon has:
    re-records what was recreated outside Veery, takes over what was added to a
    managed stack, forgets the temporary containers of docker compose. *)
From S2P Require Import Prelude GoStrings Api Db StoreDocker Docker World Sim StoreSettings Status Snapshot Notices Listing UpdateCheck.
Open Scope Z_scope.

Definition settled (insp : InspectResponse) : bool :=
  match in_State insp with
  | None => false
  | Some st =>
      if st_Restarting st || st_Dead st then false
      else if st_Running st then
        match st_Health st with
        | None => true
        | Some h => String.eqb h Healthy || String.eqb h NoHealthcheck
        end
      else st_ExitCode st =? 0
  end.

Section Reconcile.
Context {E : Type} `{!Env E} `{!DockerCodecs}.

Definition recordSpec (mc : ManagedContainer) (insp : InspectResponse) : M E (result ManagedContainer) :=
  match snapshotFromInspect insp with
  | None => panic "nil Config"
  | Some snap =>
      match marshal snap with
      | Fail e => mret (Fail e)
      | Ok js =>
          let? _ := sql (UpdateSnapshot (mc_ID mc) js (in_ID insp)) in
          mret (Ok (with_snapshot js (in_ID insp) mc))
      end
  end.

Definition refreshIfRecreated (mc : ManagedContainer) (insp : InspectResponse) :
    M E (result (ManagedContainer * Snapshot)) :=
  let? mc := (if negb (String.eqb (in_ID insp) (mc_ContainerID mc)) then recordSpec mc insp
              else mret (Ok mc)) in
  mret (match parseSnapshot (mc_SnapshotJSON mc) with Ok snap => Ok (mc, snap) | Fail e => Fail e end).

Definition rerecord (mc0 : ManagedContainer) (liveID : string) : M E bool :=
  tryLocked (mc_ContainerName mc0) false (
    r ← sql (ManagedByName (mc_ContainerName mc0));
    match r with
    | Fail _ => mret false
    | Ok mc =>
        if String.eqb (mc_ContainerID mc) liveID then mret false
        else
          r ← ContainerInspect liveID;
          match r with
          | Fail _ => mret false
          | Ok insp =>
              if negb (settled insp) then mret false
              else
                u ← recordSpec mc insp;
                match u with
                | Fail _ => mret false
                | Ok updated =>
                    avail ← remoteHasNewImage updated;
                    setUpdateAvailable (mc_ContainerName mc) avail ≫= fun _ => mret true
                end
          end
    end).

Definition adopted_note (name stackID : string) : M E unit :=
  notify EventContainerAdopted ("Now managing " +:+ name)
    ("It showed up in " +:+ stackID +:+ ", which Veery manages, so Veery is watching it too. "
     +:+ "Auto-update is off for it until you turn it on.")
    {| em_ContainerName := name; em_StackID := stackID |}.

Definition adoptNew (c : Summary) (name : string) : M E bool :=
  let proj := label (sum_Labels c) projectLabel in
  let stackID := if String.eqb proj "" then name else proj in
  managed ← sql (StackExists stackID);
  match managed with
  | Ok true =>
      r ← ContainerInspect (sum_ID c);
      match r with
      | Fail _ => mret false
      | Ok insp =>
          match snapshotFromInspect insp with
          | None => panic "nil Config"
          | Some snap =>
              match marshal snap with
              | Fail _ => mret false
              | Ok js =>
                  id ← genID;
                  now ← unixNow;
                  r ← sql (AddManagedContainer now
                        {| mc_ID := id; mc_StackID := stackID; mc_ContainerName := name;
                           mc_SnapshotJSON := js; mc_ContainerID := in_ID insp;
                           mc_AutoUpdate := false; mc_CreatedAt := now |});
                  match r with
                  | Fail _ => mret false
                  | Ok _ => adopted_note name stackID ≫= fun _ => mret true
                  end
              end
          end
      end
  | _ => mret false
  end.

Definition forgetComposeTemp (mc : ManagedContainer) : M E bool :=
  match parseSnapshot (mc_SnapshotJSON mc) with
  | Fail _ => mret false
  | Ok snap =>
      let labels := match sn_Config snap with Some c => cfg_Labels c | None => ∅ end in
      if negb (isComposeTemp (mc_ContainerName mc) (mc_ContainerID mc) labels) then mret false
      else
        r ← sql (DeleteManagedContainer (mc_ID mc));
        mret (is_ok r)
  end.

(** One summary of the loop; returns the new [changed]. *)
Definition reconcile_live (byName : gmap string ManagedContainer) (changed : bool) (c : Summary) : M E bool :=
  if negb (isService c) then mret changed
  else
    let name := containerName (sum_Names c) in
    match byName !! name with
    | None => r ← adoptNew c name; mret (r || changed)
    | Some mc =>
        if String.eqb (mc_ContainerID mc) (sum_ID c) then mret changed
        else r ← rerecord mc (sum_ID c); mret (r || changed)
    end.

Definition reconcile_gone (live : gset string) (changed : bool) (mc : ManagedContainer) : M E bool :=
  if bool_decide (mc_ContainerName mc ∈ live) then mret changed
  else r ← forgetComposeTemp mc; mret (r || changed).

Definition Reconcile : M E unit :=
  r ← ContainerList true;
  match r with
  | Fail _ => mret tt
  | Ok summaries =>
      r ← sql AllManaged;
      match r with
      | Fail _ => mret tt
      | Ok managed =>
          let byName := index_by mc_ContainerName managed in
          let live : gset string := list_to_set (map (fun c => containerName (sum_Names c)) summaries) in
          changed ← for_fold summaries (reconcile_live byName) false;
          changed ← for_fold managed (reconcile_gone live) changed;
          if (changed : bool) then BroadcastStacks else mret tt
      end
  end.

(** [Adopt] (lifecycle.go): captures a snapshot of every container of a
    discovered stack; the loop carries [found]. *)
Fixpoint adopt_loop (stackID : string) (stack : StackRow) (l : list Summary) (found : nat) :
    M E (result nat) :=
  match l with
  | [] => mret (Ok found)
  | c :: rest =>
      let name := containerName (sum_Names c) in
      let proj := label (sum_Labels c) projectLabel in
      let proj := if String.eqb proj "" then name else proj in
      if negb (isService c) || negb (String.eqb proj stackID) then adopt_loop stackID stack rest found
      else
        let? insp := ContainerInspect (sum_ID c) in
        match snapshotFromInspect insp with
        | None => panic "nil Config"
        | Some snap =>
            match marshal snap with
            | Fail e => mret (Fail e)
            | Ok js =>
                fresh ← genID;
                existing ← sql (ManagedByName name);
                let id := match existing with Ok mc => mc_ID mc | Fail _ => fresh end in
                now ← unixNow;
                let? _ := sql (AddManagedContainer now
                        {| mc_ID := id; mc_StackID := sr_ID stack; mc_ContainerName := name;
                           mc_SnapshotJSON := js; mc_ContainerID := in_ID insp;
                           mc_AutoUpdate := false; mc_CreatedAt := now |}) in
                adopt_loop stackID stack rest (S found)
            end
        end
  end.

Definition Adopt (stackID : string) : M E (option error) :=
  let! summaries := ContainerList true in
  let! stack := sql (UpsertStack stackID) in
  let! found := adopt_loop stackID stack summaries 0 in
  if (found =? 0)%nat then mret (Some (errorf ("no containers found for stack " +:+ quoted stackID)))
  else BroadcastStacks ≫= fun _ => mret None.
End Reconcile.

(** ** Theorems *)
Section ReconcileFacts.
Context {E : Type} `{!Env E} `{!DockerCodecs}.

Lemma BroadcastStacks_readonly :
  emits_only (E:=E) BroadcastStacks (fun e => mutates e = false).
Proof.
  eapply emits_only_mono; [apply BroadcastStacks_passive|]. by intros [].
Qed.

Lemma rerecord_readonly mc id : emits_only (E:=E) (rerecord mc id) (fun e => mutates e = false).
Proof.
  unfold rerecord, recordSpec, remoteHasNewImage. open_calls.
  repeat emits_step; repeat (apply Forall_cons; split); done || constructor.
Qed.

Lemma adoptNew_readonly c n : emits_only (E:=E) (adoptNew c n) (fun e => mutates e = false).
Proof.
  unfold adoptNew, adopted_note. open_calls.
  repeat emits_step; repeat (apply Forall_cons; split); done || constructor.
Qed.

Lemma adopt_loop_readonly stackID stack l n :
  emits_only (E:=E) (adopt_loop stackID stack l n) (fun e => mutates e = false).
Proof.
  revert n. induction l as [|c l IH]; intros n; cbn [adopt_loop]; [apply emits_only_ret|].
  destruct (_ || _); [apply IH|]. open_calls.
  repeat (apply IH || emits_step); repeat (apply Forall_cons; split); done || constructor.
Qed.

(** Reconciliation changes no container on the daemon, whatever the daemon and
    the database answer. *)
Theorem Reconcile_readonly : emits_only (E:=E) Reconcile (fun e => mutates e = false).
Proof.
  unfold Reconcile, reconcile_live, reconcile_gone, forgetComposeTemp, ContainerList.
  repeat (apply rerecord_readonly || apply adoptNew_readonly || apply BroadcastStacks_readonly || emits_step);
    constructor.
Qed.

(** The manager's bookkeeping does not touch the services' tables. *)
Lemma BroadcastStacks_tables (P : DB -> Prop) :
  (forall d se ev sq, P d -> P (set_log d se ev sq)) -> preserves (E:=E) P BroadcastStacks.
Proof.
  intros HP. unfold BroadcastStacks, ListStacks, list_live, updatingContainers, noteStatuses,
    ensure_status_baseline, note_stack, note_changed, LoadNotifiedStatuses, SaveNotifiedStatuses,
    getJSON, loadJSON, setJSON. open_calls.
  repeat preserves_step; try (by apply HP); try done. unfold GetSetting. by case_match.
Qed.

Lemma services_wf_log d se ev sq : services_wf d -> services_wf (set_log d se ev sq).
Proof. by intros [H1 H2 H3]. Qed.

Lemma recordSpec_wf mc insp : preserves (E:=E) services_wf (recordSpec mc insp).
Proof. unfold recordSpec. repeat preserves_step. by apply UpdateSnapshot_wf. Qed.

Lemma rerecord_wf mc id : preserves (E:=E) services_wf (rerecord mc id).
Proof.
  unfold rerecord, remoteHasNewImage. open_calls.
  repeat (apply recordSpec_wf || preserves_step); done.
Qed.

Lemma adoptNew_wf c n : preserves (E:=E) services_wf (adoptNew c n).
Proof.
  unfold adoptNew, adopted_note. open_calls. repeat preserves_step; eauto with veery.
Qed.

(** Reconciliation keeps the stacks and managed_containers tables well-formed. *)
Theorem Reconcile_keeps_tables_wf (w : World E) :
  services_wf (w_db w) -> services_wf (w_db (Reconcile w).1).
Proof.
  assert (Hp : preserves services_wf (Reconcile (E:=E))); [|apply Hp].
  unfold Reconcile, reconcile_live, reconcile_gone, forgetComposeTemp, ContainerList.
  repeat (apply rerecord_wf || apply adoptNew_wf
          || (apply BroadcastStacks_tables; intros; by apply services_wf_log) || preserves_step);
    eauto with veery.
Qed.

Lemma locked_keeps_locks {A} name (m : M E A) (w : World E) :
  keeps m_locked m -> name ∉ m_locked (w_mgr w) ->
  m_locked (w_mgr (locked name m w).1) = m_locked (w_mgr w).
Proof.
  intros Hk Hn. rewrite locked_run. simpl. rewrite (Hk (holding name w)). simpl. set_solver.
Qed.

Lemma tryLocked_run {A} name (busy : A) (body : M E A) (w : World E) :
  tryLocked name busy body w =
  if decide (name ∈ m_locked (w_mgr w)) then (w, Ret busy) else locked name body w.
Proof. unfold tryLocked, gets, mbind, M_bind. by case_decide. Qed.

Lemma recordSpec_run mc insp (w : World E) :
  (recordSpec mc insp w = (w, Panic "nil Config") /\ in_Config insp = None) \/
  (exists w' err, recordSpec mc insp w = (w', Ret (Fail err)) /\ w_db w' = w_db w
      /\ w_mgr w' = w_mgr w /\ w_trace w' = w_trace w) \/
  exists w' snap js, recordSpec mc insp w = (w', Ret (Ok (with_snapshot js (in_ID insp) mc)))
    /\ snapshotFromInspect insp = Some snap /\ marshal snap = Ok js
    /\ w_db w' = (UpdateSnapshot (mc_ID mc) js (in_ID insp) (w_db w)).1
    /\ w_mgr w' = w_mgr w /\ w_trace w' = w_trace w.
Proof.
  unfold recordSpec. destruct (snapshotFromInspect insp) as [snap|] eqn:Es.
  2:{ left. split; [done|]. unfold snapshotFromInspect in Es. by destruct (in_Config insp). }
  right. destruct (marshal snap) as [js|err] eqn:Em; [|left; exists w, err; done].
  destruct (sql_run (UpdateSnapshot (mc_ID mc) js (in_ID insp)) w) as (e' & [(err & _ & Hs)|Hs]);
    rewrite (bind_run _ _ _ _ _ Hs); simpl.
  - left. eexists _, _. split; [reflexivity|]. done.
  - right. eexists _, snap, js. split; [reflexivity|]. done.
Qed.

(** C34. Re-recording a container does nothing while its lock is held and
    releases the lock otherwise; it changes the database only to store the
    current spec of the live container, and only when that container is settled. *)
Theorem rerecord_records_only_settled mc0 liveID (w : World E) b :
  (rerecord mc0 liveID w).2 = Ret b ->
  let w' := (rerecord mc0 liveID w).1 in
  m_locked (w_mgr w') = m_locked (w_mgr w) /\
  if decide (mc_ContainerName mc0 ∈ m_locked (w_mgr w)) then b = false /\ w' = w
  else exists t, w_trace w' = w_trace w ++ t /\
    if b then exists mc insp snap js,
        query_row (by_name (mc_ContainerName mc0)) (db_managed (w_db w)) = Ok mc
        /\ mc_ContainerID mc <> liveID
        /\ EvInspect liveID (Ok insp) ∈ t /\ settled insp = true
        /\ snapshotFromInspect insp = Some snap /\ marshal snap = Ok js
        /\ w_db w' = (UpdateSnapshot (mc_ID mc) js (in_ID insp) (w_db w)).1
    else w_db w' = w_db w.
Proof.
  unfold rerecord. rewrite tryLocked_run.
  destruct (decide (mc_ContainerName mc0 ∈ m_locked (w_mgr w))) as [Hin|Hin].
  { simpl. intros [= <-]. done. }
  set (body := sql _ ≫= _).
  assert (Hk : keeps m_locked body).
  { subst body. unfold recordSpec, remoteHasNewImage. open_calls. repeat keeps_step; done. }
  intros Hret. split; [by apply locked_keeps_locks|]. revert Hret.
  rewrite locked_run. cbn [fst snd]. set (wl := holding _ w).
  assert (Hwl : w_db wl = w_db w) by done.
  enough (Hb : match body wl with
    | (w2, Panic _) => True
    | (w2, Ret b) => exists t, w_trace w2 = w_trace wl ++ t /\
       if b then exists mc insp snap js,
        query_row (by_name (mc_ContainerName mc0)) (db_managed (w_db w)) = Ok mc
        /\ mc_ContainerID mc <> liveID
        /\ EvInspect liveID (Ok insp) ∈ t /\ settled insp = true
        /\ snapshotFromInspect insp = Some snap /\ marshal snap = Ok js
        /\ w_db w2 = (UpdateSnapshot (mc_ID mc) js (in_ID insp) (w_db w)).1
       else w_db w2 = w_db w end).
  { destruct (body wl) as [w2 [b'|s]]; simpl in *; [intros [= <-]|done]. destruct Hb as (t & Ht & Hb).
    exists (EvLock (mc_ContainerName mc0) :: t ++ [EvUnlock (mc_ContainerName mc0)]).
    split; [rewrite Ht; simpl; by rewrite <- !app_assoc|]. destruct b'; [|done].
    destruct Hb as (mc & insp & snap & js & ? & ? & ? & ?). exists mc, insp, snap, js. set_solver. }
  rewrite <- Hwl.
  subst body.
  destruct (sql_run (ManagedByName (mc_ContainerName mc0)) wl) as (e' & [(err & _ & Hs)|Hs]);
    rewrite (bind_run _ _ _ _ _ Hs); cbn [fst snd].
  { exists []. simpl. by rewrite app_nil_r. }
  unfold ManagedByName. cbn [fst snd].
  destruct (query_row _ _) as [mc|err] eqn:Eq; [|exists []; simpl; by rewrite app_nil_r].
  destruct (String.eqb_spec (mc_ContainerID mc) liveID) as [Hid|Hid].
  { exists []. simpl. by rewrite app_nil_r. }
  set (w1 := set_db _ _). simpl in Eq.
  assert (Hi : ContainerInspect liveID w1 = (log (set_env w1 (cli_ContainerInspect liveID (w_env w1)).1)
     [EvInspect liveID (cli_ContainerInspect liveID (w_env w1)).2],
     Ret (cli_ContainerInspect liveID (w_env w1)).2)) by done.
  rewrite (bind_run _ _ _ _ _ Hi). destruct (cli_ContainerInspect liveID (w_env w1)).2 as [insp|err] eqn:Ei.
  2:{ eexists. simpl. done. }
  destruct (settled insp) eqn:Est; simpl; [|eexists; done].
  set (w2 := log _ _).
  destruct (recordSpec_run mc insp w2) as [[Hr _]|[(w3 & err & Hr & Hd & _ & Ht)|(w3 & snap & js & Hr & Hsn & Hm & Hd & _ & Ht)]].
  { by rewrite (bind_run_panic _ _ _ _ _ Hr). }
  { rewrite (bind_run _ _ _ _ _ Hr). simpl. exists [EvInspect liveID (Ok insp)].
    rewrite Ht, Hd. done. }
  rewrite (bind_run _ _ _ _ _ Hr).
  destruct (remoteHasNewImage_run (with_snapshot js (in_ID insp) mc) w3) as (w4 & a & t4 & Hr4 & _ & Ht4 & _).
  assert (Hd4 : w_db w4 = w_db w3).
  { assert (Hp : preserves (fun d => d = w_db w3) (remoteHasNewImage (E:=E) (with_snapshot js (in_ID insp) mc))).
    { unfold remoteHasNewImage. open_calls. repeat preserves_step. }
    specialize (Hp w3 eq_refl). by rewrite Hr4 in Hp. }
  rewrite (bind_run _ _ _ _ _ Hr4). simpl. exists (EvInspect liveID (Ok insp) :: t4).
  split; [rewrite Ht4, Ht; simpl; by rewrite <- app_assoc|].
  exists mc, insp, snap, js. rewrite Hd4, Hd. repeat split; try done. set_solver.
Qed.

(** The spec an update is built from is that of the live container: the stored
    one when it was taken from it, else a fresh snapshot that is also stored. *)
Theorem refreshIfRecreated_current `{!SnapshotCodecOk} mc insp (w : World E) mc' snap :
  (refreshIfRecreated mc insp w).2 = Ret (Ok (mc', snap)) ->
  mc_ContainerID mc' = in_ID insp /\ mc_ID mc' = mc_ID mc /\ mc_ContainerName mc' = mc_ContainerName mc
  /\ parseSnapshot (mc_SnapshotJSON mc') = Ok snap
  /\ if decide (in_ID insp = mc_ContainerID mc)
     then mc' = mc /\ w_db (refreshIfRecreated mc insp w).1 = w_db w
     else snapshotFromInspect insp = Some snap
          /\ w_db (refreshIfRecreated mc insp w).1
             = (UpdateSnapshot (mc_ID mc) (mc_SnapshotJSON mc') (in_ID insp) (w_db w)).1.
Proof.
  unfold refreshIfRecreated. destruct (String.eqb_spec (in_ID insp) (mc_ContainerID mc)) as [He|He].
  - rewrite decide_True by done. simpl. destruct (parseSnapshot _) eqn:Ep; [|done].
    intros [= <- <-]. done.
  - rewrite decide_False by done. cbn [negb].
    destruct (recordSpec_run mc insp w) as [[Hr _]|[(w3 & err & Hr & _)|(w3 & s & js & Hr & Hs & Hm & Hd & _)]].
    + by rewrite (bind_run_panic _ _ _ _ _ Hr).
    + by rewrite (bind_run _ _ _ _ _ Hr).
    + rewrite (bind_run _ _ _ _ _ Hr). simpl. rewrite (parse_marshal _ _ Hm). intros [= <- <-]. simpl.
      rewrite (parse_marshal _ _ Hm). done.
Qed.
End ReconcileFacts.

(** ** Instances at concrete inputs *)

(** nginx was recreated outside Veery: the daemon runs c7, the record says c1. *)
Definition demo_drifted : World Sim :=
  sim_world
    (set_services empty_db [{| sr_ID := "web"; sr_Name := "web" |}] [demo_row "m1" "web" "nginx" "c1"] [])
    (sim_with sim_empty [demo_live "c7" "nginx" up] 10).

Definition demo_drifted_mc : ManagedContainer := demo_row "m1" "web" "nginx" "c1".

Lemma demo_drifted_runs : (rerecord demo_drifted_mc "c7" demo_drifted).2 = Ret true.
Proof. vm_compute. reflexivity. Qed.

Lemma rerecord_records_only_settled_witness :
  let w' := (rerecord demo_drifted_mc "c7" demo_drifted).1 in
  m_locked (w_mgr w') = ∅ /\ map mc_ContainerID (db_managed (w_db w')) = ["c7"].
Proof.
  destruct (rerecord_records_only_settled demo_drifted_mc "c7" demo_drifted true demo_drifted_runs)
    as (Hl & Hr).
  split; [exact Hl|]. clear Hl Hr. vm_compute. reflexivity.
Defined.

Lemma demo_drifted_wf : services_wf (w_db demo_drifted).
Proof.
  constructor; simpl.
  - apply NoDup_singleton.
  - apply NoDup_singleton.
  - intros mc Hmc. apply list_elem_of_singleton in Hmc as ->. reflexivity.
Qed.

Lemma Reconcile_keeps_tables_wf_witness :
  let d := w_db (Reconcile demo_drifted).1 in
  services_wf d /\ map mc_ContainerID (db_managed d) = ["c7"].
Proof.
  split; [exact (Reconcile_keeps_tables_wf demo_drifted demo_drifted_wf)|vm_compute; reflexivity].
Defined.

Definition demo_live_snapshot : Snapshot :=
  {| sn_Name := "nginx"; sn_Image := "img"; sn_Project := "web"; sn_Service := "";
     sn_Config := Some (demo_config "img"); sn_HostConfig := None; sn_NetworkingConfig := Some ∅ |}.

Definition demo_refreshed : ManagedContainer :=
  with_snapshot (count_Marshal demo_live_snapshot) "c7" demo_drifted_mc.

Lemma demo_live_marshal : marshal demo_live_snapshot = Ok (count_Marshal demo_live_snapshot).
Proof. reflexivity. Qed.

Lemma demo_refresh_runs :
  (refreshIfRecreated demo_drifted_mc (demo_live "c7" "nginx" up) demo_drifted).2
  = Ret (Ok (demo_refreshed, demo_live_snapshot)).
Proof.
  unfold refreshIfRecreated. change (negb _) with true. cbv iota.
  assert (Hr : exists w', recordSpec demo_drifted_mc (demo_live "c7" "nginx" up) demo_drifted
               = (w', Ret (Ok demo_refreshed))) by (eexists; reflexivity).
  destruct Hr as [w' Hr]. rewrite (bind_run _ _ _ _ _ Hr). cbn [fst snd mret M_ret].
  unfold demo_refreshed at 1. cbn [with_snapshot mc_SnapshotJSON].
  rewrite (parse_marshal _ _ demo_live_marshal). reflexivity.
Qed.

Lemma refreshIfRecreated_current_witness :
  mc_ContainerID demo_refreshed = "c7" /\ mc_ID demo_refreshed = "m1"
  /\ parseSnapshot (mc_SnapshotJSON demo_refreshed) = Ok demo_live_snapshot.
Proof.
  destruct (refreshIfRecreated_current demo_drifted_mc (demo_live "c7" "nginx" up) demo_drifted
    demo_refreshed demo_live_snapshot demo_refresh_runs) as (H1 & H2 & _ & H3 & _).
  split; [exact H1|]. split; [exact H2|exact H3].
Defined.

(** Adopting a stack that no container belongs to fails, but leaves its row:
    containers of that name that appear later are then taken over. *)
Theorem Adopt_failure_leaves_stack :
  let w := sim_world empty_db sim_empty in
  (Adopt "ghost" w).2 = Ret (Some (errorf ("no containers found for stack " +:+ quoted "ghost")))
  /\ stack_exists (w_db (Adopt "ghost" w).1) "ghost" = true
  /\ db_managed (w_db (Adopt "ghost" w).1) = [].
Proof. vm_compute. repeat split. Qed.
