(* ===== verification/Swap.v ===== *)
(** * Swapping a container onto a new image (src/internal/docker/update.go)

    Pulling the image, and the transactional half of an update: park the old
    container, create the new one, verify it, and either drop the old container
    or roll back to it. *)
From Stdlib Require Import SpecFloat.
From S2P Require Import Prelude GoStrings Api Db StoreDocker Docker World Sim StoreSettings Status Snapshot Notices Listing UpdateCheck Reconcile.
Open Scope Z_scope.

(** ** Numbers *)

(** Wrap-around of a 64-bit signed integer. *)
Definition int64 (z : Z) : Z := (z + 2 ^ 63) mod 2 ^ 64 - 2 ^ 63.

(** [float64(n)], correctly rounded. *)
Definition float64 (n : Z) : spec_float := binary_normalize 53 1024 n 0 false.

(** The nearest integer to [m * 10 / 2 ^ d], ties to even. *)
Definition tenths (m d : Z) : Z :=
  let p := 2 ^ d in
  let q := m * 10 / p in
  let r := (m * 10) mod p in
  if 2 * r <? p then q else if p <? 2 * r then q + 1 else if Z.even q then q else q + 1.

(** [fmt.Sprintf("%.1f", f)] of a finite non-negative float. *)
Definition format_f1 (f : spec_float) : string :=
  let t := match f with
           | S754_finite _ m e => if 0 <=? e then Z.pos m * 2 ^ e * 10 else tenths (Z.pos m) (- e)
           | _ => 0
           end in
  Itoa (t / 10) +:+ "." +:+ Itoa (t mod 10).

(** The loop of [formatBytes] runs at most three times: [exp < 3]. *)
Fixpoint scale_bytes (fuel : nat) (v div : Z) (exp : nat) : Z * nat :=
  match fuel with
  | O => (div, exp)
  | S fuel' =>
      if (1000 <=? v) && (exp <? 3)%nat then scale_bytes fuel' (v / 1000) (div * 1000) (S exp)
      else (div, exp)
  end.

Definition formatBytes (n : Z) : string :=
  if n <? 1000 then Itoa n +:+ " B"
  else
    let (div, exp) := scale_bytes 4 (n / 1000) 1000 0 in
    format_f1 (SFdiv 53 1024 (float64 n) (float64 div)) +:+ " "
      +:+ match exp with O => "k" | 1%nat => "M" | 2%nat => "G" | _ => "T" end +:+ "B".

Definition trimDigestPrefix (id : string) : string :=
  let p := "sha256:" in
  if (String.length p <? String.length id)%nat && String.eqb (str_take 7 id) p then str_drop 7 id else id.

Definition shortID (id : string) : string :=
  let id := trimDigestPrefix id in
  if (12 <? String.length id)%nat then str_take 12 id else id.

(** ** Pulling *)
Definition pullInterval : Z := 300 * 10 ^ 6.

Record layerProgress := { lp_status : string; lp_downloaded : Z; lp_size : Z }.

Definition layer_done (l : layerProgress) : bool :=
  String.eqb (lp_status l) "Pull complete" || String.eqb (lp_status l) "Already exists".

Definition pullMessage (layers : gmap string layerProgress) : string :=
  let ls := map snd (map_to_list layers) in
  let downloaded := int64 (fold_right (fun l n => lp_downloaded l + n) 0 ls) in
  let size := int64 (fold_right (fun l n => lp_size l + n) 0 ls) in
  let complete := length (List.filter layer_done ls) in
  if (0 <? size) && (downloaded <? size) then
    "Downloading " +:+ formatBytes downloaded +:+ " / " +:+ formatBytes size
  else if (complete <? length ls)%nat then
    "Extracting " +:+ Itoa (Z.of_nat complete) +:+ " / " +:+ Itoa (Z.of_nat (length ls)) +:+ " layers"
  else "".

(** The state of a layer after one event about it. *)
Definition layer_event (l : layerProgress) (ev : PullEvent) : layerProgress :=
  if String.eqb (pe_Status ev) "Downloading" then
    {| lp_status := pe_Status ev; lp_downloaded := pe_Current ev;
       lp_size := if 0 <? pe_Total ev then pe_Total ev else lp_size l |}
  else if String.eqb (pe_Status ev) "Download complete" || String.eqb (pe_Status ev) "Already exists"
          || String.eqb (pe_Status ev) "Pull complete" then
    {| lp_status := pe_Status ev; lp_downloaded := lp_size l; lp_size := lp_size l |}
  else {| lp_status := pe_Status ev; lp_downloaded := lp_downloaded l; lp_size := lp_size l |}.

Definition note_layer (layers : gmap string layerProgress) (ev : PullEvent) : gmap string layerProgress :=
  let l := default {| lp_status := ""; lp_downloaded := 0; lp_size := 0 |} (layers !! pe_ID ev) in
  <[pe_ID ev := layer_event l ev]> layers.

(** The local variables of [drainPull]; [None]: the zero [lastAt]. *)
Record drain := {
  dr_layers : gmap string layerProgress;
  dr_pending : string;
  dr_emitted : string;
  dr_lastAt : option Z
}.

Definition drain0 : drain := {| dr_layers := ∅; dr_pending := ""; dr_emitted := ""; dr_lastAt := None |}.

Definition verifyTimeout : Z := 15 * second.

(** What the switch of [verifyHealthy] decides at once: [None], wait on. *)
Definition exited_error (st : ContainerState) : error :=
  errorf ("new container exited (exit code " +:+ Itoa (st_ExitCode st) +:+ ")").

Definition verdict (st : ContainerState) : option (option error) :=
  if st_Restarting st then None
  else if negb (st_Running st) then Some (Some (exited_error st))
  else match st_Health st with
       | None => None
       | Some h =>
           if String.eqb h Healthy then Some None
           else if String.eqb h Unhealthy then Some (Some (errorf "new container became unhealthy"))
           else None
       end.

(** ... and after the deadline. *)
Definition late_verdict (st : ContainerState) : option error :=
  if match st_Health st with Some h => negb (String.eqb h Healthy) | None => false end then
    Some (errorf "new container did not become healthy within 15s")
  else if negb (st_Running st) then Some (exited_error st)
  else None.

Definition rolledBack (rbErr : option error) (name : string) (cause : error) : error :=
  match rbErr with
  | Some e => wrapf ("update failed and " +:+ name +:+ " is down: rollback could not restart it ("
                     +:+ Error e +:+ "); update error: ") cause
  | None => wrapf "update failed, rolled back: " cause
  end.

Section Swap.
Context {E : Type} `{!Env E} `{!DockerCodecs}.
Variable emit : string -> string -> M E unit.

Fixpoint drain_loop (evs : list PullEvent) (fin : option error) (s : drain) : M E (option error) :=
  match evs with
  | [] =>
      match fin with
      | Some err => mret (Some err)
      | None =>
          (if String.eqb (dr_pending s) "" then mret tt else emit "pulling" (dr_pending s)) ≫= fun _ =>
          mret None
      end
  | ev :: rest =>
      if negb (String.eqb (pe_Error ev) "") then mret (Some (errorf ("pull: " +:+ pe_Error ev)))
      else if String.eqb (pe_ID ev) "" then drain_loop rest fin s
      else
        let layers := note_layer (dr_layers s) ev in
        let msg := pullMessage layers in
        if String.eqb msg "" || String.eqb msg (dr_emitted s) then
          drain_loop rest fin {| dr_layers := layers; dr_pending := dr_pending s;
                                 dr_emitted := dr_emitted s; dr_lastAt := dr_lastAt s |}
        else
          now ← Now;
          if match dr_lastAt s with Some t => now - t <? pullInterval | None => false end then
            drain_loop rest fin {| dr_layers := layers; dr_pending := msg;
                                   dr_emitted := dr_emitted s; dr_lastAt := dr_lastAt s |}
          else
            emit "pulling" msg ≫= fun _ =>
            (at_ ← Now;
             drain_loop rest fin {| dr_layers := layers; dr_pending := "";
                                    dr_emitted := msg; dr_lastAt := Some at_ |})
  end.

Definition drainPull (rc : PullStream) : M E (option error) := drain_loop (ps_events rc) (ps_end rc) drain0.

Definition pullImage (ref : string) : M E (result ImageInspect) :=
  emit "pulling" ("Downloading " +:+ ref) ≫= fun _ =>
  (rc ← ImagePull ref;
   match rc with
   | Fail e => mret (Fail (wrapf ("pull " +:+ ref +:+ ": ") e))
   | Ok rc =>
       err ← drainPull rc;
       match err with
       | Some e => mret (Fail e)
       | None =>
           insp ← ImageInspect_ ref;
           mret (match insp with Ok i => Ok i
                 | Fail e => Fail (wrapf ("inspect image " +:+ ref +:+ ": ") e) end)
       end
   end).

(** One iteration of the polling loop, and the rest of it [again]. *)
Definition poll (deadline : Z) (id : string) (again : M E (option error)) : M E (option error) :=
  r ← ContainerInspect id;
  match r with
  | Fail e => mret (Some (wrapf "inspect new container: " e))
  | Ok insp =>
      match in_State insp with
      | None => mret (Some (errorf "new container has no state"))
      | Some st =>
          match verdict st with
          | Some res => mret res
          | None =>
              now ← Now;
              if deadline <? now then mret (late_verdict st)
              else
                c ← selectSecond;
                match c with
                | Some e => mret (Some e)
                | None => again
                end
          end
      end
  end.

(** It panics when it runs out of fuel, which the clock rules out
    ([verifyHealthy_terminates]). *)
Fixpoint verify_loop (fuel : nat) (deadline : Z) (id : string) : M E (option error) :=
  match fuel with
  | O => panic "out of fuel"
  | S fuel' => poll deadline id (verify_loop fuel' deadline id)
  end.

(** One poll per second over 15 seconds, and one after the deadline. *)
Definition verify_fuel : nat := 17.

Definition verifyHealthy (id : string) : M E (option error) :=
  t0 ← Now; verify_loop verify_fuel (t0 + verifyTimeout) id.

Definition rollback (newID oldID name : string) : M E (option error) :=
  emit "rollback" ("Update failed, rolling back " +:+ name) ≫= fun _ =>
  (if String.eqb newID "" then mret tt else (_ ← ContainerRemove newID; mret tt)) ≫= fun _ =>
  (r ← ContainerRename oldID name;
   match r with
   | Some err =>
       emit "rollback" ("restore rename failed: " +:+ Error err) ≫= fun _ =>
       mret (Some (wrapf "restore name: " err))
   | None =>
       s ← ContainerStart oldID;
       match s with
       | Some err =>
           emit "rollback" ("restart failed: " +:+ Error err) ≫= fun _ =>
           mret (Some (wrapf ("restart " +:+ name +:+ ": ") err))
       | None => mret None
       end
   end).

(** The old container is parked; the new one is up: retire the old one. *)
Definition swap_finish (mc : ManagedContainer) (oldInsp : InspectResponse) (newID newImageID : string) :
    M E (option error) :=
  _ ← ContainerRemove (in_ID oldInsp);
  r ← ContainerInspect newID;
  (match r with
   | Ok insp => _ ← recordSpec mc insp; mret tt
   | Fail _ => mret tt
   end) ≫= fun _ =>
  (_ ← ImageRemove (in_Image oldInsp);
   setUpdateAvailable (mc_ContainerName mc) false ≫= fun _ =>
   emit "updated" ("Updated to " +:+ shortID newImageID) ≫= fun _ => mret None).

Definition swap (mc : ManagedContainer) (snap : Snapshot) (ref : string) (oldInsp : InspectResponse)
    (newImageID : string) : M E (option error) :=
  let name := mc_ContainerName mc in
  let oldParkedName := name +:+ oldSuffix in
  _ ← ContainerRemove oldParkedName;
  unless_err (ContainerRename (in_ID oldInsp) oldParkedName) or wrapf "park old container: " in
  ((match in_State oldInsp with
    | Some st => if st_Running st then (_ ← ContainerStop (in_ID oldInsp); mret tt) else mret tt
    | None => mret tt
    end) ≫= fun _ =>
   emit "recreating" "Installing the new image" ≫= fun _ =>
   (p ← recreate snap ref;
    let (newID, err) := (p : string * option error) in
    match err with
    | Some e =>
        rb ← rollback newID (in_ID oldInsp) name;
        mret (Some (rolledBack rb name (wrapf "recreate on new image: " e)))
    | None =>
        emit "verifying" "Restarting and waiting for it to come up" ≫= fun _ =>
        (verr ← verifyHealthy newID;
         match verr with
         | Some e =>
             rb ← rollback newID (in_ID oldInsp) name;
             mret (Some (rolledBack rb name e))
         | None => swap_finish mc oldInsp newID newImageID
         end)
    end)).
End Swap.

(** ** The calls a swap makes on the daemon *)

Definition on_daemon (e : Ev) : bool :=
  match e with EvBroadcast _ | EvNotify _ _ _ _ | EvLock _ | EvUnlock _ => false | _ => true end.

Definition calls (t : list Ev) : list Ev := List.filter on_daemon t.

Lemma calls_app t1 t2 : calls (t1 ++ t2) = calls t1 ++ calls t2.
Proof. apply List.filter_app. Qed.

Lemma calls_all t : Forall (fun e => on_daemon e = true) t -> calls t = t.
Proof. induction 1 as [|e t He _ IH]; [done|]. unfold calls in *. simpl. by rewrite He, IH. Qed.

Lemma elem_of_calls e t : e ∈ calls t -> e ∈ t.
Proof. unfold calls. by rewrite !list_elem_of_In, filter_In, <- list_elem_of_In; intros []. Qed.

Section Does.
Context {E : Type} `{!Env E}.

(** However the outside world answers, [m] ends and calls the daemon as [P] says. *)
Definition does {A} (m : M E A) (P : outcome A -> list Ev -> Prop) : Prop :=
  emits m (fun o t => P o (calls t)).

Lemma does_mono {A} (m : M E A) (P Q : outcome A -> list Ev -> Prop) :
  does m P -> (forall o t, P o t -> Q o t) -> does m Q.
Proof. intros Hm HPQ. eapply emits_mono; [exact Hm|]. simpl. auto. Qed.

Lemma does_ret {A} (a : A) (P : outcome A -> list Ev -> Prop) : P (Ret a) [] -> does (mret a) P.
Proof. intros. by apply emits_ret. Qed.

Lemma does_panic {A} s (P : outcome A -> list Ev -> Prop) : P (Panic s) [] -> does (panic s) P.
Proof. intros. by apply emits_panic. Qed.

Lemma does_bind {A B} (m : M E A) (k : A -> M E B) P (R : outcome B -> list Ev -> Prop) :
  does m P ->
  (forall s t, P (Panic s) t -> R (Panic s) t) ->
  (forall a t1, P (Ret a) t1 -> does (k a) (fun o t2 => R o (t1 ++ t2))) ->
  does (m ≫= k) R.
Proof.
  intros Hm Hp Hk. eapply emits_bind; [exact Hm|intros s t; apply Hp|].
  intros a t1 H1. eapply emits_mono; [by apply (Hk a (calls t1))|]. simpl. intros. by rewrite calls_app.
Qed.

(** A single call: its event is the trace. *)
Definition one {A} (ev : A -> Ev) (o : outcome A) (t : list Ev) : Prop := exists r, o = Ret r /\ t = [ev r].

Lemma does_one {A} (op : E -> E * A) (ev : A -> Ev) :
  (forall r, on_daemon (ev r) = true) -> does (call op (fun r => [ev r])) (one ev).
Proof. intros Hev. apply emits_call. intros r. exists r. split; [done|]. unfold calls. simpl. by rewrite Hev. Qed.

(** A call, or a step, that leaves no trace on the daemon. *)
Definition silent {A} (o : outcome A) (t : list Ev) : Prop := (exists a, o = Ret a) /\ t = [].

Lemma does_silent {A} (op : E -> E * A) : does (call op (fun _ => [])) silent.
Proof. apply emits_call. intros r. split; [eauto|done]. Qed.

Lemma does_sql {A} (s : Sql A) : does (sql s) silent.
Proof. apply emits_sql. intros r. split; [eauto|done]. Qed.

Lemma does_modify f : does (modify f) silent.
Proof. apply emits_modify. split; [eauto|done]. Qed.

Lemma does_gets {A} (f : Mgr -> A) : does (gets f) silent.
Proof. apply emits_gets. intros a. split; [eauto|done]. Qed.

Lemma does_bind_one {A B} (m : M E A) (ev : A -> Ev) (k : A -> M E B) R :
  does m (one ev) -> (forall a, does (k a) (fun o t => R o (ev a :: t))) -> does (m ≫= k) R.
Proof.
  intros Hm Hk. eapply does_bind; [exact Hm|by intros s t (r & ? & _)|].
  intros a t (r & [= <-] & ->). apply Hk.
Qed.

Lemma does_bind_silent {A B} (m : M E A) (k : A -> M E B) R :
  does m silent -> (forall a, does (k a) R) -> does (m ≫= k) R.
Proof.
  intros Hm Hk. eapply does_bind; [exact Hm|by intros s t ([r ?] & _)|].
  intros a t (_ & ->). apply Hk.
Qed.

(** The same from the states whose part [p] is [x], which the program keeps. *)
Definition does_in {A X} (p : Mgr -> X) (x : X) (m : M E A) (P : outcome A -> list Ev -> Prop) : Prop :=
  forall w, p (w_mgr w) = x -> p (w_mgr (m w).1) = x /\
    exists t, w_trace (m w).1 = w_trace w ++ t /\ P (m w).2 (calls t).

Lemma does_in_of {A X} (p : Mgr -> X) x (m : M E A) P : does m P -> keeps p m -> does_in p x m P.
Proof. intros Hd Hk w Hw. rewrite Hk. split; [done|]. apply Hd. Qed.

Lemma does_in_mono {A X} (p : Mgr -> X) x (m : M E A) (P Q : outcome A -> list Ev -> Prop) :
  does_in p x m P -> (forall o t, P o t -> Q o t) -> does_in p x m Q.
Proof. intros Hm HPQ w Hw. destruct (Hm w Hw) as (? & t & ? & ?). eauto. Qed.

Lemma does_in_bind {A B X} (p : Mgr -> X) x (m : M E A) (k : A -> M E B) P (R : outcome B -> list Ev -> Prop) :
  does_in p x m P ->
  (forall s t, P (Panic s) t -> R (Panic s) t) ->
  (forall a t1, P (Ret a) t1 -> does_in p x (k a) (fun o t2 => R o (t1 ++ t2))) ->
  does_in p x (m ≫= k) R.
Proof.
  intros Hm Hp Hk w Hw. destruct (Hm w Hw) as (Hw1 & t & Ht & HP).
  unfold mbind, M_bind. destruct (m w) as [w' [a|s]]; simpl in *; [|eauto].
  destruct (Hk a (calls t) HP w' Hw1) as (Hw2 & t2 & Ht2 & HR). split; [done|]. exists (t ++ t2).
  rewrite Ht2, Ht, app_assoc, calls_app. done.
Qed.

Lemma does_locked {A} name (m : M E A) P : does m P -> does (locked name m) P.
Proof.
  intros Hm. apply emits_locked. eapply emits_mono; [exact Hm|]. intros o t. unfold calls. simpl.
  by rewrite List.filter_app, app_nil_r.
Qed.

Lemma does_in_locked {A X} (p : Mgr -> X) x name (m : M E A) P :
  (forall mg l, p (set_locked mg l) = p mg) -> does_in p x m P -> does_in p x (locked name m) P.
Proof.
  intros Hp Hm w Hw. rewrite locked_run. destruct (Hm (holding name w)) as (H1 & t & Ht & HP).
  { simpl. by rewrite Hp. }
  simpl. rewrite Hp. split; [done|]. exists (EvLock name :: t ++ [EvUnlock name]).
  split; [rewrite Ht; simpl; by rewrite <- !app_assoc|]. unfold calls in *. simpl.
  by rewrite List.filter_app, app_nil_r.
Qed.
End Does.

(** A container that was inspected and found up, and not failing a health check. *)
Definition proved_up (id : string) (e : Ev) : Prop :=
  exists insp st, e = EvInspect id (Ok insp) /\ in_State insp = Some st /\ st_Running st = true
    /\ match st_Health st with Some h => h = Healthy | None => True end.

(** The calls of a verification, and what they showed. *)
Definition verified (id : string) (o : outcome (option error)) (t : list Ev) : Prop :=
  Forall (fun e => exists r, e = EvInspect id r) t /\
  match o with
  | Ret None => exists t0 e, t = t0 ++ [e] /\ proved_up id e
  | _ => True
  end.

Definition rollback_calls (newID oldID name : string) (o : outcome (option error)) (t : list Ev) : Prop :=
  exists rm t', t = rm ++ t' /\ (rm = [] /\ newID = "" \/ newID <> "" /\ exists e, rm = [EvRemove newID e]) /\
    ((exists err, t' = [EvRename oldID name (Some err)] /\ o = Ret (Some (wrapf "restore name: " err))) \/
     (exists err, t' = [EvRename oldID name None; EvStart oldID (Some err)]
                  /\ o = Ret (Some (wrapf ("restart " +:+ name +:+ ": ") err))) \/
     (t' = [EvRename oldID name None; EvStart oldID None] /\ o = Ret None)).

(** After the old container [old] was parked. *)
Inductive after_park (name old : string) (snap : Snapshot) (ref : string) :
    outcome (option error) -> list Ev -> Prop :=
| ap_no_spec s : (sn_Config snap = None \/ sn_NetworkingConfig snap = None) ->
    after_park name old snap ref (Panic s) []
| ap_recreate_failed newID e t1 rb t2 :
    recreate_result snap ref (Ret (newID, Some e)) t1 ->
    rollback_calls newID old name (Ret rb) t2 ->
    after_park name old snap ref
      (Ret (Some (rolledBack rb name (wrapf "recreate on new image: " e)))) (t1 ++ t2)
| ap_verify_died newID s t1 t2 :
    recreate_result snap ref (Ret (newID, None)) t1 -> verified newID (Panic s) t2 ->
    after_park name old snap ref (Panic s) (t1 ++ t2)
| ap_verify_failed newID e t1 t2 rb t3 :
    recreate_result snap ref (Ret (newID, None)) t1 -> verified newID (Ret (Some e)) t2 ->
    rollback_calls newID old name (Ret rb) t3 ->
    after_park name old snap ref (Ret (Some (rolledBack rb name e))) (t1 ++ t2 ++ t3)
| ap_done newID t1 t2 e r t3 o :
    recreate_result snap ref (Ret (newID, None)) t1 -> verified newID (Ret None) t2 ->
    (o = Ret None \/ exists s insp, o = Panic s /\ r = Ok insp /\ in_Config insp = None) ->
    Forall (fun ev => exists i, ev = EvImageRemove i) t3 ->
    after_park name old snap ref o (t1 ++ t2 ++ EvRemove old e :: EvInspect newID r :: t3).

Inductive swap_run (name old : string) (snap : Snapshot) (ref : string) :
    outcome (option error) -> list Ev -> Prop :=
| sr_not_parked r e :
    swap_run name old snap ref (Ret (Some (wrapf "park old container: " e)))
      [EvRemove (name +:+ oldSuffix) r; EvRename old (name +:+ oldSuffix) (Some e)]
| sr_parked r stop o t :
    (stop = [] \/ exists e, stop = [EvStop old e]) ->
    after_park name old snap ref o t ->
    swap_run name old snap ref o
      (EvRemove (name +:+ oldSuffix) r :: EvRename old (name +:+ oldSuffix) None :: stop ++ t).

Section SwapFacts.
Context {E : Type} `{!Env E} `{!DockerCodecs}.
Context (emit : string -> string -> M E unit).
Hypothesis emit_silent : forall phase msg, does (emit phase msg) silent.

Lemma verify_loop_does fuel deadline id : does (E:=E) (verify_loop fuel deadline id) (verified id).
Proof.
  induction fuel as [|fuel IH]; cbn [verify_loop]; [apply does_panic; split; constructor|unfold poll].
  eapply does_bind_one; [by apply does_one|]. intros [insp|e].
  2:{ apply does_ret. split; [repeat constructor; eauto|done]. }
  assert (Hone : forall o, match o with Ret None => proved_up id (EvInspect id (Ok insp)) | _ => True end ->
    verified id o [EvInspect id (Ok insp)]).
  { intros o Ho. split; [repeat constructor; eauto|]. destruct o as [[e|]|s]; try done.
    exists [], (EvInspect id (Ok insp)). done. }
  destruct (in_State insp) as [st|] eqn:Es; [|by apply does_ret, Hone].
  destruct (verdict st) as [res|] eqn:Ev.
  { apply does_ret, Hone. destruct res as [e|]; [done|]. exists insp, st. split; [done|]. split; [done|].
    unfold verdict in Ev. destruct (st_Restarting st); [done|].
    destruct (st_Running st); simpl in Ev; [|done]. split; [done|].
    destruct (st_Health st) as [h|]; [|done].
    destruct (String.eqb_spec h Healthy); [done|]. by destruct (String.eqb h Unhealthy). }
  eapply does_bind_silent; [apply does_silent|]. intros now.
  destruct (deadline <? now).
  { apply does_ret, Hone. destruct (late_verdict st) as [e|] eqn:El; [done|].
    exists insp, st. split; [done|]. split; [done|]. unfold late_verdict in El.
    destruct (st_Health st) as [h|].
    - destruct (String.eqb_spec h Healthy); simpl in El; [|done]. by destruct (st_Running st).
    - by destruct (st_Running st). }
  eapply does_bind_silent; [apply does_silent|]. intros [e|]; [by apply does_ret, Hone|].
  eapply does_mono; [exact IH|]. intros o t [Hf Ho]. split; [constructor; eauto|].
  destruct o as [[e|]|s]; try done. destruct Ho as (t0 & e & -> & He).
  exists (EvInspect id (Ok insp) :: t0), e. done.
Qed.

Lemma verifyHealthy_does id : does (E:=E) (verifyHealthy id) (verified id).
Proof. unfold verifyHealthy. eapply does_bind_silent; [apply does_silent|]. intros t0. apply verify_loop_does. Qed.

Lemma rollback_does newID oldID name : does (rollback emit newID oldID name) (rollback_calls newID oldID name).
Proof.
  unfold rollback. eapply does_bind_silent; [apply emit_silent|]. intros _.
  eapply (does_bind _ _ (fun o t => o = Ret tt /\ (t = [] /\ newID = "" \/ newID <> "" /\ exists e, t = [EvRemove newID e]))).
  { destruct (String.eqb_spec newID ""); [apply does_ret; eauto|].
    eapply does_bind_one; [by apply does_one|]. intros e. apply does_ret. eauto. }
  { intros s t [? _]. done. }
  intros _ rm (_ & Hrm). eapply does_bind_one; [by apply does_one|]. intros [err|].
  - eapply does_bind_silent; [apply emit_silent|]. intros _. apply does_ret.
    exists rm. eexists. split; [done|]. split; [done|]. left. eauto.
  - eapply does_bind_one; [by apply does_one|]. intros [err|].
    + eapply does_bind_silent; [apply emit_silent|]. intros _. apply does_ret.
      exists rm. eexists. split; [done|]. split; [done|]. right. left. eauto.
    + apply does_ret. exists rm. eexists. split; [done|]. split; [done|]. right. right. done.
Qed.

Lemma recreate_does snap ref : does (E:=E) (recreate snap ref) (recreate_result snap ref).
Proof.
  eapply emits_mono; [apply recreate_emits|]. intros o t Hr. rewrite calls_all; [done|].
  destruct o as [[id err]|s]; simpl in Hr; [|destruct Hr as [-> _]; constructor].
  destruct Hr as (c & eps & _ & _ & [(e & -> & _)|(errs & -> & _)]); [repeat constructor|].
  constructor; [done|]. apply Forall_app. split; [|repeat constructor].
  generalize (recreate_extra (sn_Project snap) eps). intros l. revert errs.
  induction l as [|n l IH]; intros [|e errs]; simpl; constructor; done.
Qed.

Lemma recordSpec_does mc insp :
  does (E:=E) (recordSpec mc insp) (fun o t => t = [] /\
    ((exists r, o = Ret r) \/ exists s, o = Panic s /\ in_Config insp = None)).
Proof.
  unfold recordSpec. destruct (snapshotFromInspect insp) as [snap|] eqn:Es.
  - destruct (marshal snap) as [js|e]; [|apply does_ret; split; [done|]; eauto].
    eapply does_bind_silent; [apply does_sql|]. intros [u|e]; apply does_ret; split; eauto.
  - apply does_panic. split; [done|]. right. eexists. split; [done|].
    unfold snapshotFromInspect in Es. by destruct (in_Config insp).
Qed.

Lemma swap_finish_does mc oldInsp newID img :
  does (swap_finish emit mc oldInsp newID img) (fun o t => exists e r t3,
    t = EvRemove (in_ID oldInsp) e :: EvInspect newID r :: t3 /\
    (o = Ret None \/ exists s insp, o = Panic s /\ r = Ok insp /\ in_Config insp = None) /\
    Forall (fun ev => exists i, ev = EvImageRemove i) t3).
Proof.
  unfold swap_finish. eapply does_bind_one; [by apply does_one|]. intros e.
  eapply does_bind_one; [by apply does_one|]. intros r.
  eapply (does_bind _ _ (fun o t => t = [] /\ (o = Ret tt \/ exists s insp, o = Panic s /\ r = Ok insp /\ in_Config insp = None))).
  { destruct r as [insp|err]; [|apply does_ret; auto].
    eapply does_bind; [apply recordSpec_does| |].
    - intros s t (-> & [[r ?]|(s' & [= <-] & Hc)]); [done|]. split; [done|]. right. eauto.
    - intros r t (-> & _). apply does_ret. auto. }
  { intros s t (-> & [?|(s' & insp & [= <-] & Hp)]); [done|]. exists e, r, []. split; [done|].
    split; [right; by exists s, insp|constructor]. }
  intros _ t (-> & _). eapply does_bind_one; [by apply does_one|]. intros e2.
  eapply does_bind_silent; [apply does_modify|]. intros _.
  eapply does_bind_silent; [apply emit_silent|]. intros _. apply does_ret.
  exists e, r. eexists. split; [done|]. split; [by left|]. repeat constructor. eauto.
Qed.

Lemma swap_does mc snap ref oldInsp img :
  does (swap emit mc snap ref oldInsp img) (swap_run (mc_ContainerName mc) (in_ID oldInsp) snap ref).
Proof.
  unfold swap. eapply does_bind_one; [by apply does_one|]. intros r.
  eapply does_bind_one; [by apply does_one|]. intros [e|].
  { apply does_ret. apply sr_not_parked. }
  eapply (does_bind _ _ (fun o t => o = Ret tt /\ (t = [] \/ exists e, t = [EvStop (in_ID oldInsp) e]))).
  { destruct (in_State oldInsp) as [st|]; [|apply does_ret; auto].
    destruct (st_Running st); [|apply does_ret; auto].
    eapply does_bind_one; [by apply does_one|]. intros e. apply does_ret. eauto. }
  { intros s t [? _]. done. }
  intros _ stop (_ & Hstop). eapply does_bind_silent; [apply emit_silent|]. intros _.
  eapply does_mono; [|intros o t Ht; by apply sr_parked; [|exact Ht]].
  eapply does_bind; [apply recreate_does| |].
  { intros s t (-> & Hs). by apply ap_no_spec. }
  intros [newID [e|]] t1 H1.
  - eapply does_bind; [apply rollback_does| |].
    + intros s t (rm & t' & _ & _ & Hr). naive_solver.
    + intros rb t2 H2. apply does_ret. rewrite app_nil_r. by eapply ap_recreate_failed.
  - eapply does_bind_silent; [apply emit_silent|]. intros _.
    eapply does_bind; [apply verifyHealthy_does| |].
    + intros s t Hv. by eapply ap_verify_died.
    + intros [e|] t2 H2.
      * eapply does_bind; [apply rollback_does| |].
        -- intros s t (rm & t' & _ & _ & Hr). naive_solver.
        -- intros rb t3 H3. apply does_ret. rewrite app_nil_r. by eapply ap_verify_failed.
      * eapply does_mono; [apply swap_finish_does|].
        intros o t (e & r' & t3 & -> & Ho & Hf). by eapply ap_done.
Qed.

End SwapFacts.

(** *** The old container is removed only after the new one has proved itself *)
Definition no_remove (id : string) (t : list Ev) : Prop := forall e, EvRemove id e ∉ t.

Lemma no_remove_app id t1 t2 : no_remove id t1 -> no_remove id t2 -> no_remove id (t1 ++ t2).
Proof. unfold no_remove. set_solver. Qed.

Lemma recreate_no_remove id snap ref p t : recreate_result snap ref (Ret p) t -> no_remove id t.
Proof.
  destruct p as [n err]. intros (c & eps & _ & _ & [(e & -> & _)|(errs & -> & _)]) e' Hin; [set_solver|].
  apply elem_of_cons in Hin as [?|[Hin|Hin]%elem_of_app]; [done| |set_solver].
  revert errs Hin. generalize (recreate_extra (sn_Project snap) eps). intros l.
  induction l as [|x l IH]; intros [|y errs] Hin; simpl in Hin; [set_solver..|].
  apply elem_of_cons in Hin as [?|Hin]; [done|eauto].
Qed.

Lemma verified_no_remove id n o t : verified n o t -> no_remove id t.
Proof.
  intros [Hf _] e Hin. rewrite Forall_forall in Hf. destruct (Hf _ Hin) as (r & ?). done.
Qed.

Lemma rollback_no_remove id n old name o t :
  n <> id -> rollback_calls n old name o t -> no_remove id t.
Proof.
  intros Hn (rm & t' & -> & Hrm & Ht'). apply no_remove_app.
  - destruct Hrm as [[-> _]|(_ & e & ->)]; intros e'; set_solver.
  - destruct Ht' as [(e & -> & _)|[(e & -> & _)|[-> _]]]; intros e'; set_solver.
Qed.

Lemma app_cons_prefix {A} (a b t1 t2 : list A) x y :
  a ++ x :: b = t1 ++ y :: t2 -> y ∉ a -> a ⊆ t1.
Proof.
  intros Heq Hy. apply app_eq_inv in Heq as [(k & Ha & Hk)|(k & -> & _)]; [|set_solver].
  destruct k as [|z k]; [rewrite app_nil_r in Ha; by subst|].
  simpl in Hk. injection Hk as -> _. set_solver.
Qed.

(** The container that a recreation created. *)
Definition created (snap : Snapshot) (ref id : string) (t : list Ev) : Prop :=
  exists c eps, sn_Config snap = Some c /\
    EvCreate (sn_Name snap) (recreate_config c ref) (sn_HostConfig snap) eps (Ok id) ∈ t
    /\ EvStart id None ∈ t.

Lemma recreate_created snap ref id t : recreate_result snap ref (Ret (id, None)) t -> created snap ref id t.
Proof.
  intros (c & eps & Hc & _ & [(e & _ & _ & ?)|(errs & -> & _)]); [done|].
  exists c, (recreate_primary (sn_Project snap) eps). set_solver.
Qed.

Lemma recreate_id snap ref id err t :
  recreate_result snap ref (Ret (id, err)) t ->
  id = "" \/ exists n c hc net, EvCreate n c hc net (Ok id) ∈ t.
Proof.
  intros (c & eps & _ & _ & [(e & _ & -> & _)|(errs & -> & _)]); [by left|]. right. do 4 eexists. by left.
Qed.

(** No container that was created during the run has the id [old]. *)
Definition fresh_ids (old : string) (t : list Ev) : Prop :=
  old <> "" /\ forall n c hc net id, EvCreate n c hc net (Ok id) ∈ t -> id <> old.

Lemma after_park_keeps_old name old snap ref o t t1 e t2 :
  after_park name old snap ref o t -> fresh_ids old t -> t = t1 ++ EvRemove old e :: t2 ->
  exists id ev, created snap ref id t1 /\ ev ∈ t1 /\ proved_up id ev.
Proof.
  intros Hap [Hne Hfr] Ht.
  assert (Hid : forall id err u, recreate_result snap ref (Ret (id, err)) u -> u ⊆ t -> id <> old).
  { intros id err u Hu Hsub. destruct (recreate_id _ _ _ _ _ Hu) as [->|(n & c & hc & net & Hin)]; [congruence|].
    eapply Hfr, Hsub, Hin. }
  assert (Hno : ~ no_remove old t) by (intros Hn; apply (Hn e); set_solver).
  destruct Hap as [s _|id err u1 rb u2 Hu1 Hu2|id s u1 u2 Hu1 Hu2|id err u1 u2 rb u3 Hu1 Hu2 Hu3
                  |id u1 u2 e' r u3 o Hu1 Hu2 _ _].
  - exfalso. apply Hno. intros e'. set_solver.
  - exfalso. apply Hno. apply no_remove_app; [by eapply recreate_no_remove|].
    eapply rollback_no_remove; [|done]. eapply Hid; [done|set_solver].
  - exfalso. apply Hno. apply no_remove_app; [by eapply recreate_no_remove|by eapply verified_no_remove].
  - exfalso. apply Hno. repeat apply no_remove_app; [by eapply recreate_no_remove|by eapply verified_no_remove|].
    eapply rollback_no_remove; [|done]. eapply Hid; [done|set_solver].
  - assert (Hsub : u1 ++ u2 ⊆ t1).
    { rewrite app_assoc in Ht. eapply app_cons_prefix; [exact Ht|].
      apply no_remove_app; [by eapply recreate_no_remove|by eapply verified_no_remove]. }
    destruct (recreate_created _ _ _ _ Hu1) as (c & eps & Hc & H1 & H2).
    destruct Hu2 as [_ (u0 & ev & -> & Hev)]. exists id, ev.
    split; [exists c, eps; set_solver|]. set_solver.
Qed.

(** *** How a swap ends *)
Definition restored (old name : string) (t : list Ev) : Prop :=
  exists t0, t = t0 ++ [EvRename old name None; EvStart old None].

Lemma rollback_restored t0 n old name rb t :
  rollback_calls n old name (Ret rb) t -> rb = None <-> restored old name (t0 ++ t).
Proof.
  intros (rm & t' & -> & _ & Ht'). unfold restored. destruct Ht' as [(e & -> & [= ->])|[(e & -> & [= ->])|[-> [= ->]]]].
  - split; [done|]. intros (u & Hu). rewrite app_assoc in Hu.
    assert (Hl : last ((t0 ++ rm) ++ [EvRename old name (Some e)]) = last (u ++ [EvRename old name None; EvStart old None]))
      by congruence.
    rewrite !last_app in Hl. done.
  - split; [done|]. intros (u & Hu). rewrite app_assoc in Hu.
    assert (Hl : last ((t0 ++ rm) ++ [EvRename old name None; EvStart old (Some e)])
                 = last (u ++ [EvRename old name None; EvStart old None])) by congruence.
    rewrite !last_app in Hl. done.
  - split; [|done]. intros _. exists (t0 ++ rm). by rewrite app_assoc.
Qed.

Section SwapTheorems.
Context {E : Type} `{!Env E} `{!DockerCodecs}.
Context (emit : string -> string -> M E unit).
Hypothesis emit_silent : forall phase msg, does (emit phase msg) silent.

(** C7. During a swap the old container is removed only after the new one was
    created and started and an inspection showed it running and not failing a
    health check, whatever the daemon answers, provided the daemon never reuses
    the old id. *)
Theorem swap_removes_old_only_when_proved mc snap ref oldInsp img (w : World E) :
  in_ID oldInsp <> mc_ContainerName mc +:+ oldSuffix ->
  exists t, w_trace (swap emit mc snap ref oldInsp img w).1 = w_trace w ++ t /\
    forall t1 e t2, calls t = t1 ++ EvRemove (in_ID oldInsp) e :: t2 -> fresh_ids (in_ID oldInsp) (calls t) ->
      exists id ev, created snap ref id t1 /\ ev ∈ t1 /\ proved_up id ev.
Proof.
  intros Hpk. destruct (swap_does emit emit_silent mc snap ref oldInsp img w) as (t & Ht & Hr).
  exists t. split; [done|]. intros t1 e t2 Hc Hfr. inversion Hr as [r e' Ho Hcs|r stop o u Hs Hap Ho Hcs].
  - rewrite <- Hcs in Hc. destruct t1 as [|x [|y [|z t1]]]; simplify_eq/=.
  - rewrite <- Hcs in Hc, Hfr.
    assert (Hpre : exists k, t1 = EvRemove (mc_ContainerName mc +:+ oldSuffix) r
       :: EvRename (in_ID oldInsp) (mc_ContainerName mc +:+ oldSuffix) None :: stop ++ k
       /\ u = k ++ EvRemove (in_ID oldInsp) e :: t2).
    { destruct Hs as [->|(e' & ->)]; destruct t1 as [|x [|y t1]]; simplify_eq/=; [eauto|].
      destruct t1 as [|z t1]; simplify_eq/=. eauto. }
    destruct Hpre as (k & -> & Hu).
    destruct (after_park_keeps_old _ _ _ _ _ u k e t2 Hap) as (id & ev & (c & eps & H1 & H2 & H3) & H4 & H5).
    + destruct Hfr as [Hn Hf]. split; [done|]. intros n c hc net id Hin. apply (Hf n c hc net id). set_solver.
    + exact Hu.
    + exists id, ev. split; [exists c, eps; set_solver|]. set_solver.
Qed.

(** C8. A swap that reports success has a proved new container and retired the
    old one; one that fails either could not park the old container, or reports
    "rolled back" exactly when the old container was renamed back and started
    and "is down" otherwise. *)
Theorem swap_outcome mc snap ref oldInsp img (w : World E) :
  let old := in_ID oldInsp in
  let name := mc_ContainerName mc in
  exists t, w_trace (swap emit mc snap ref oldInsp img w).1 = w_trace w ++ t /\
    match (swap emit mc snap ref oldInsp img w).2 with
    | Ret None =>
        exists id ev e, created snap ref id (calls t) /\ ev ∈ calls t /\ proved_up id ev
                        /\ EvRemove old e ∈ calls t
    | Ret (Some err) =>
        (exists e r, err = wrapf "park old container: " e
           /\ calls t = [EvRemove (name +:+ oldSuffix) r; EvRename old (name +:+ oldSuffix) (Some e)])
        \/ exists rb cause, err = rolledBack rb name cause /\ (rb = None <-> restored old name (calls t))
    | Panic _ => True
    end.
Proof.
  intros old name. destruct (swap_does emit emit_silent mc snap ref oldInsp img w) as (t & Ht & Hr).
  exists t. split; [done|]. fold old name in Hr. revert Hr. generalize (calls t). clear Ht.
  generalize ((swap emit mc snap ref oldInsp img w).2). intros o0 c Hr.
  destruct Hr as [r e'|r stop o0 u Hs Hap]; [left; eauto|].
  set (pre := EvRemove (name +:+ oldSuffix) r :: EvRename old (name +:+ oldSuffix) None :: stop).
  change (EvRemove _ r :: _ :: stop ++ u) with (pre ++ u).
  destruct Hap as [s _|id err u1 rb u2 Hu1 Hu2|id s u1 u2 Hu1 Hu2
     |id err u1 u2 rb u3 Hu1 Hu2 Hu3|id u1 u2 e' r' u3 o Hu1 Hu2 Ho _]; [done| |done| |].
  - right. exists rb. eexists. split; [reflexivity|]. rewrite app_assoc. by eapply rollback_restored.
  - right. exists rb. eexists. split; [reflexivity|]. rewrite !app_assoc. by eapply rollback_restored.
  - destruct Ho as [->|(s & insp & -> & _)]; [|done].
    destruct (recreate_created _ _ _ _ Hu1) as (c & eps & Hc & H1 & H2).
    destruct Hu2 as [_ (u0 & ev & -> & Hev)]. exists id, ev, e'.
    split; [exists c, eps; set_solver|]. set_solver.
Qed.
End SwapTheorems.

(** ** The verification ends *)

(** What the code relies on of time: it does not run backwards, and a second of
    waiting takes a second. *)
Class ClockOk (E : Type) `{!Env E} := {
  clock : E -> Z;
  clock_now : forall e, clock e <= (time_Now e).2 /\ (time_Now e).2 <= clock (time_Now e).1;
  clock_inspect : forall ref e, clock e <= clock (cli_ContainerInspect ref e).1;
  clock_select : forall e, (select_1s e).2 = None -> clock e + second <= clock (select_1s e).1
}.

Section Termination.
Context {E : Type} `{!Env E} `{!ClockOk E}.

Lemma poll_returns deadline id again (w : World E) n :
  deadline - clock (w_env w) < n * second ->
  (0 < n -> forall w', deadline - clock (w_env w') < (n - 1) * second -> exists r, (again w').2 = Ret r) ->
  exists r, (poll deadline id again w).2 = Ret r.
Proof.
  intros Hd Hag. unfold poll, mbind, M_bind, ContainerInspect, Now, selectSecond, call. simpl.
  pose proof (clock_inspect id (w_env w)) as Hi.
  destruct (cli_ContainerInspect id (w_env w)) as [e1 [insp|err]]; simpl in *; [|eauto].
  destruct (in_State insp) as [st|]; simpl; [|eauto].
  destruct (verdict st) as [res|]; simpl; [eauto|].
  destruct (clock_now e1) as [Hn1 Hn2]; destruct (time_Now e1) as [e2 now]; simpl in *.
  destruct (deadline <? now) eqn:El; simpl; [eauto|]; apply Z.ltb_ge in El.
  pose proof (clock_select e2) as Hc. destruct (select_1s e2) as [e3 [err|]]; simpl in *; [eauto|].
  specialize (Hc eq_refl). unfold second in *. apply Hag; simpl; lia.
Qed.

Lemma verify_loop_returns fuel deadline id : forall w : World E,
  deadline - clock (w_env w) < Z.of_nat fuel * second ->
  exists r, (verify_loop (S fuel) deadline id w).2 = Ret r.
Proof.
  induction fuel as [|fuel IH]; intros w Hd; change (verify_loop (S ?n) deadline id)
    with (poll deadline id (verify_loop n deadline id)); eapply poll_returns; [exact Hd|lia|exact Hd|].
  intros _ w' Hw'. apply IH. unfold second in *. lia.
Qed.

Lemma verifyHealthy_returns id (w : World E) : exists r, (verifyHealthy id w).2 = Ret r.
Proof.
  unfold verifyHealthy, mbind, M_bind, Now, call. simpl.
  destruct (clock_now (w_env w)) as [H1 H2]. destruct (time_Now (w_env w)) as [e t0]. simpl in *.
  apply (verify_loop_returns 16 (t0 + verifyTimeout) id (log (set_env w e) [])).
  simpl. unfold verifyTimeout, second. lia.
Qed.

(** C28. The health verification always returns, within 17 polls, on any clock
    that does not run backwards and on which waiting a second takes a second. *)
Theorem verifyHealthy_terminates id (w : World E) : exists r, (verifyHealthy id w).2 = Ret r.
Proof. apply verifyHealthy_returns. Qed.
End Termination.

(** ** The progress of a pull *)

(** The layers known after some events. *)
Definition layers_of (layers : gmap string layerProgress) (evs : list PullEvent) : gmap string layerProgress :=
  fold_left (fun ls ev => if String.eqb (pe_ID ev) "" then ls else note_layer ls ev) evs layers.

(** No message repeats the one before it. *)
Fixpoint no_repeat (prev : string) (msgs : list string) : Prop :=
  match msgs with
  | [] => True
  | m :: rest => m <> prev /\ no_repeat m rest
  end.

Section DrainFacts.
Context {E : Type} `{!Env E} (note : string -> string -> Ev).

Definition emit_note (phase msg : string) : M E unit := tell [note phase msg].

(** [m] is the aggregate of the layers after some of the events. *)
Definition aggregate (layers : gmap string layerProgress) (evs : list PullEvent) (m : string) : Prop :=
  exists pre post, evs = pre ++ post /\ m = pullMessage (layers_of layers pre).

Definition drain_ok (layers : gmap string layerProgress) (evs : list PullEvent) (s : drain) (m : string) : Prop :=
  m <> "" /\ (m = dr_pending s \/ aggregate layers evs m).

Lemma aggregate_cons layers ev evs m :
  aggregate (layers_of layers [ev]) evs m -> aggregate layers (ev :: evs) m.
Proof. intros (pre & post & -> & ->). by exists (ev :: pre), post. Qed.

Lemma drain_loop_run evs fin : forall s (w : World E),
  (dr_pending s = "" \/ dr_pending s <> dr_emitted s) ->
  exists w' o msgs, drain_loop emit_note evs fin s w = (w', Ret o)
    /\ w_trace w' = w_trace w ++ map (note "pulling") msgs
    /\ no_repeat (dr_emitted s) msgs
    /\ Forall (drain_ok (dr_layers s) evs s) msgs
    /\ (o = None <-> fin = None /\ Forall (fun ev => pe_Error ev = "") evs).
Proof.
  induction evs as [|ev evs IH]; intros s w Hp; cbn [drain_loop].
  { destruct fin as [err|]; [exists w, (Some err), []; rewrite app_nil_r; naive_solver|].
    destruct (String.eqb_spec (dr_pending s) "") as [He|He].
    - exists w, None, []. rewrite app_nil_r. split; [done|]. naive_solver.
    - exists (log w [note "pulling" (dr_pending s)]), None, [dr_pending s]. split; [done|]. split; [done|].
      split; [destruct Hp; simpl; auto|]. split; [|naive_solver]. repeat constructor; auto. }
  destruct (String.eqb_spec (pe_Error ev) "") as [Hnoerr|Herr]; cbn [negb].
  2:{ exists w. eexists (Some _), []. rewrite app_nil_r. split; [done|]. split; [done|]. split; [done|].
      split; [constructor|]. split; [done|]. intros [_ Hf]. by apply Forall_inv in Hf. }
  assert (Hend : forall P Q : Prop, (P <-> Q /\ Forall (fun ev => pe_Error ev = "") evs) ->
     (P <-> Q /\ Forall (fun ev => pe_Error ev = "") (ev :: evs))).
  { intros P Q HPQ. rewrite HPQ, Forall_cons. naive_solver. }
  destruct (String.eqb_spec (pe_ID ev) "") as [Hid|Hid].
  { destruct (IH s w Hp) as (w' & o & msgs & H1 & H2 & H3 & H4 & H5). exists w', o, msgs.
    do 3 (split; [done|]). split; [|by apply Hend]. eapply Forall_impl; [exact H4|].
    intros m [Hm [Hm'|Ha]]; (split; [done|]); [by left|right]. apply aggregate_cons. unfold layers_of. simpl.
    by rewrite Hid. }
  set (layers := note_layer (dr_layers s) ev). set (msg := pullMessage layers).
  assert (Hl : layers_of (dr_layers s) [ev] = layers).
  { unfold layers_of. simpl. by destruct (String.eqb_spec (pe_ID ev) ""). }
  assert (Hmsg : msg <> "" -> forall s', drain_ok (dr_layers s) (ev :: evs) s' msg).
  { intros Hm s'. split; [done|]. right. exists [ev], evs. by rewrite Hl. }
  assert (Hstep : forall s', (dr_pending s' = "" \/ dr_pending s' = dr_pending s \/ dr_pending s' = msg) ->
    forall m, drain_ok layers evs s' m -> drain_ok (dr_layers s) (ev :: evs) s m).
  { intros s' Hs' m [Hm [Hm'|Ha]]; split; try done.
    - destruct Hs' as [Hs'|[Hs'|Hs']]; rewrite Hs' in Hm'; [done|by left|]. subst m.
      right. exists [ev], evs. by rewrite Hl.
    - right. apply aggregate_cons. by rewrite Hl. }
  destruct (String.eqb_spec msg "") as [Hm|Hm]; cbn [orb].
  { edestruct (IH {| dr_layers := layers; dr_pending := dr_pending s; dr_emitted := dr_emitted s;
      dr_lastAt := dr_lastAt s |} w Hp) as (w' & o & msgs & H1 & H2 & H3 & H4 & H5).
    exists w', o, msgs. do 3 (split; [done|]). split; [|by apply Hend].
    eapply Forall_impl; [exact H4|]. apply Hstep. auto. }
  destruct (String.eqb_spec msg (dr_emitted s)) as [Hm2|Hm2].
  { edestruct (IH {| dr_layers := layers; dr_pending := dr_pending s; dr_emitted := dr_emitted s;
      dr_lastAt := dr_lastAt s |} w Hp) as (w' & o & msgs & H1 & H2 & H3 & H4 & H5).
    exists w', o, msgs. do 3 (split; [done|]). split; [|by apply Hend].
    eapply Forall_impl; [exact H4|]. apply Hstep. auto. }
  set (w1 := log (set_env w (time_Now (w_env w)).1) []).
  rewrite (bind_run _ _ w w1 (time_Now (w_env w)).2) by done.
  assert (Ht1 : w_trace w1 = w_trace w) by (unfold w1; simpl; by rewrite app_nil_r).
  destruct (match dr_lastAt s with Some t => _ | None => false end).
  - edestruct (IH {| dr_layers := layers; dr_pending := msg; dr_emitted := dr_emitted s;
      dr_lastAt := dr_lastAt s |} w1) as (w' & o & msgs & H1 & H2 & H3 & H4 & H5); [by right|].
    exists w', o, msgs. split; [done|]. split; [by rewrite H2, Ht1|]. split; [done|]. split; [|by apply Hend].
    eapply Forall_impl; [exact H4|]. apply Hstep. auto.
  - set (w2 := log w1 [note "pulling" msg]). rewrite (bind_run _ _ w1 w2 tt) by done.
    set (w3 := log (set_env w2 (time_Now (w_env w2)).1) []).
    rewrite (bind_run _ _ w2 w3 (time_Now (w_env w2)).2) by done.
    edestruct (IH {| dr_layers := layers; dr_pending := ""; dr_emitted := msg;
      dr_lastAt := Some (time_Now (w_env w2)).2 |} w3) as (w' & o & msgs & H1 & H2 & H3 & H4 & H5); [by left|].
    exists w', o, (msg :: msgs). split; [done|]. split; [|split; [done|split; [|by apply Hend]]].
    + rewrite H2. change (w_trace w3) with ((w_trace w1 ++ [note "pulling" msg]) ++ []).
      rewrite Ht1, app_nil_r. by rewrite <- app_assoc.
    + constructor; [by apply Hmsg|]. eapply Forall_impl; [exact H4|]. apply Hstep. auto.
Qed.

(** Pulling reports only non-empty aggregates of the layers seen so far, never
    the same twice in a row, and succeeds exactly when the stream ended without
    an error event. *)
Theorem drainPull_reports_aggregates rc (w : World E) :
  exists o msgs, (drainPull emit_note rc w).2 = Ret o
    /\ w_trace (drainPull emit_note rc w).1 = w_trace w ++ map (note "pulling") msgs
    /\ no_repeat "" msgs
    /\ Forall (fun m => m <> "" /\ aggregate ∅ (ps_events rc) m) msgs
    /\ (o = None <-> ps_end rc = None /\ Forall (fun ev => pe_Error ev = "") (ps_events rc)).
Proof.
  unfold drainPull. destruct (drain_loop_run (ps_events rc) (ps_end rc) drain0 w) as
    (w' & o & msgs & -> & H2 & H3 & H4 & H5); [by left|].
  exists o, msgs. split; [done|]. split; [done|]. split; [done|]. split; [|done].
  eapply Forall_impl; [exact H4|]. intros m [Hm [Hm'|Ha]]; [done|]. done.
Qed.
End DrainFacts.

(** ** Instances at concrete inputs *)
Example formatBytes_units : map formatBytes [0; 999; 1000; 1050; 45200000; 2500000000; 7 * 10 ^ 15]
  = ["0 B"; "999 B"; "1.0 kB"; "1.1 kB"; "45.2 MB"; "2.5 GB"; "7000.0 TB"].
Proof. vm_compute. reflexivity. Qed.

#[export] Instance sim_clock_ok : ClockOk Sim.
Proof.
  refine {| clock := sim_clock |}.
  - intros e. simpl. lia.
  - intros ref e. simpl. unfold sim_on. case_bool_decide; [simpl; lia|].
    destruct (List.find _ _); simpl; lia.
  - intros e _. simpl. unfold second. lia.
Defined.

Lemma verifyHealthy_terminates_witness :
  exists r, (verifyHealthy "c1" (sim_world empty_db (sim_with sim_empty [demo_live "c1" "nginx" up] 10))).2 = Ret r.
Proof. exact (verifyHealthy_terminates "c1" _). Defined.

Definition demo_swap : World Sim :=
  sim_world empty_db (sim_with sim_empty [demo_live "c1" "nginx" up] 10).

Definition no_emit : string -> string -> M Sim unit := fun _ _ => mret tt.

Lemma no_emit_silent phase msg : does (no_emit phase msg) silent.
Proof. apply does_ret. split; [eauto|done]. Qed.

Lemma swap_removes_old_only_when_proved_witness :
  let old := demo_live "c1" "nginx" up in
  exists t, w_trace (swap no_emit demo_checked demo_snapshot "nginx:2" old "img2" demo_swap).1 = t /\
    forall t1 e t2, calls t = t1 ++ EvRemove "c1" e :: t2 -> fresh_ids "c1" (calls t) ->
      exists id ev, created demo_snapshot "nginx:2" id t1 /\ ev ∈ t1 /\ proved_up id ev.
Proof.
  destruct (swap_removes_old_only_when_proved no_emit no_emit_silent demo_checked demo_snapshot "nginx:2"
    (demo_live "c1" "nginx" up) "img2" demo_swap ltac:(discriminate)) as (t & Ht & H).
  exists t. split; [exact Ht|exact H].
Defined.

Lemma swap_outcome_witness :
  let old := demo_live "c1" "nginx" up in
  exists t, w_trace (swap no_emit demo_checked demo_snapshot "nginx:2" old "img2" demo_swap).1 = t /\
    match (swap no_emit demo_checked demo_snapshot "nginx:2" old "img2" demo_swap).2 with
    | Ret None => exists id ev, created demo_snapshot "nginx:2" id (calls t) /\ ev ∈ calls t /\ proved_up id ev
    | _ => True
    end.
Proof.
  destruct (swap_outcome no_emit no_emit_silent demo_checked demo_snapshot "nginx:2"
    (demo_live "c1" "nginx" up) "img2" demo_swap) as (t & Ht & H).
  exists t. split; [exact Ht|].
  destruct (swap _ _ _ _ _ _ _).2 as [[err|]|s]; [exact I| |exact I].
  destruct H as (id & ev & e & H1 & H2 & H3 & _). exists id, ev. split; [exact H1|]. split; [exact H2|exact H3].
Defined.

(** A container in a restart loop reports both [Running] and [Restarting]; at
    the deadline only [Running] is looked at, so it passes the verification. *)
Definition crash_looping : ContainerState :=
  {| st_Running := true; st_Restarting := true; st_Dead := false; st_ExitCode := 1; st_Health := None |}.

Theorem verifyHealthy_accepts_crash_loop :
  (verifyHealthy "c1"
     (sim_world empty_db (sim_with sim_empty [demo_live "c1" "nginx" crash_looping] 10))).2 = Ret None.
Proof. vm_compute. reflexivity. Qed.

(** A layer whose download restarts: the held-back message is reported although
    the last aggregate is another one. *)
Definition restarted_pull : PullStream :=
  let ev c := {| pe_ID := "a"; pe_Status := "Downloading"; pe_Error := ""; pe_Current := c; pe_Total := 100 |} in
  {| ps_events := [ev 10; ev 20; ev 10]; ps_end := None |}.

Theorem drainPull_reports_stale :
  let note p m := EvNotify "" p m {| em_ContainerName := ""; em_StackID := "" |} in
  w_trace (drainPull (emit_note note) restarted_pull (sim_world empty_db sim_empty)).1
    = [note "pulling" "Downloading 10 B / 100 B"; note "pulling" "Downloading 20 B / 100 B"]
  /\ pullMessage (layers_of ∅ (ps_events restarted_pull)) = "Downloading 10 B / 100 B".
Proof. vm_compute. split; reflexivity. Qed.
