(* ===== verification/SelfUpdate.v ===== *)
(** * Updating (src/internal/docker: selfupdate.go, update.go, autoupdate.go)

    The update of a managed container as a job, the hand-off of Veery's own
    update to a helper container, and what the helper does. *)
From S2P Require Import Prelude GoStrings Api Db StoreDocker StoreJobs Docker World Sim StoreSettings Status Snapshot Notices Listing Jobs Identity UpdateCheck Reconcile Swap.
Open Scope Z_scope.

Definition jobLabel : string := "veery.job".

Definition updaterName (jobID : string) : string := "veery-updater-" +:+ jobID.

(** [container.RestartPolicyDisabled] *)
Definition RestartPolicyDisabled : string := "no".

(** The configuration of the helper; unset fields are zero. *)
Definition helper_config (selfInsp : InspectResponse) (cfg : Config) (jobID : string) : Config :=
  let name := containerName [in_Name selfInsp] in
  {| cfg_Image := in_Image selfInsp;
     cfg_Entrypoint := cfg_Entrypoint cfg;
     cfg_Cmd := ["apply-update"; "--container"; name; "--job"; jobID];
     cfg_Env := cfg_Env cfg;
     cfg_User := cfg_User cfg;
     cfg_WorkingDir := cfg_WorkingDir cfg;
     cfg_Labels := <[updaterLabel := updaterRole]> {[jobLabel := jobID]};
     cfg_Healthcheck := Some ["NONE"];
     cfg_other := "" |}.

Definition helper_host (host : HostConfig) : HostConfig :=
  {| hc_Binds := hc_Binds host; hc_Mounts := hc_Mounts host; hc_VolumesFrom := hc_VolumesFrom host;
     hc_GroupAdd := hc_GroupAdd host; hc_Privileged := hc_Privileged host;
     hc_RestartPolicy := RestartPolicyDisabled; hc_other := "" |}.

(** A helper container performing a swap, and one that has finished. *)
Definition is_updater (c : Summary) : bool := String.eqb (label (sum_Labels c) updaterLabel) updaterRole.
Definition is_running (c : Summary) : bool := String.eqb (sum_State c) "running".

Section Update.
Context {E : Type} `{!Env E} `{!DockerCodecs}.

Definition finishJob (id phase msg err : string) : M E unit :=
  now ← unixNow; (_ ← sql (FinishUpdateJob now id phase msg err); mret tt).

Definition handOff (selfInsp : InspectResponse) (jobID : string)
    (emit : string -> string -> M E unit) : M E (option error) :=
  match in_Config selfInsp, in_HostConfig selfInsp with
  | Some cfg, Some host =>
      _ ← sql (MarkUpdateJobSelf jobID);
      let hname := updaterName jobID in
      _ ← ContainerRemove hname;
      created ← ContainerCreate (helper_config selfInsp cfg jobID) (Some (helper_host host)) ∅ hname;
      match created with
      | Fail e => mret (Some (wrapf "create updater: " e))
      | Ok id =>
          started ← ContainerStart id;
          match started with
          | Some e => _ ← ContainerRemove id; mret (Some (wrapf "start updater: " e))
          | None => emit "handoff" "Veery is restarting to finish its own update" ≫= fun _ => mret None
          end
      end
  | _, _ => mret (Some (errorf "cannot self-update: own container has no config"))
  end.

(** The body of [doUpdate], under the container's lock. *)
Definition update_locked (mc : ManagedContainer) (jobID : string)
    (emit : string -> string -> M E unit) : M E (result bool) :=
  let name := mc_ContainerName mc in
  r ← ContainerInspect name;
  match r with
  | Fail e => mret (Fail (wrapf ("inspect " +:+ name +:+ ": ") e))
  | Ok oldInsp =>
      let? (mc', snap) := refreshIfRecreated mc oldInsp in
      let ref := sn_Image snap in
      if String.eqb ref "" then mret (Fail (errorf "snapshot has no image reference"))
      else
        let? newImg := pullImage emit ref in
        if String.eqb (img_ID newImg) (in_Image oldInsp) then
          emit "up-to-date" "Already up to date" ≫= fun _ =>
          setUpdateAvailable name false ≫= fun _ => mret (Ok false)
        else
          self ← IsSelf (in_ID oldInsp);
          if (self : bool) then
            e ← handOff oldInsp jobID emit;
            mret (Fail (default errHandedOff e))
          else
            e ← swap emit mc' snap ref oldInsp (img_ID newImg);
            mret (match e with Some err => Fail err | None => Ok true end)
  end.

Definition doUpdate (mc : ManagedContainer) (jobID : string)
    (emit : string -> string -> M E unit) : M E (result bool) :=
  locked (mc_ContainerName mc) (update_locked mc jobID emit).

(** [record] in [Update]: every progress step also goes to the database. *)
Definition record_step (id : string) (emit : string -> string -> M E unit) (phase msg : string) : M E unit :=
  emit phase msg ≫= fun _ => (_ ← sql (SetUpdateJobPhase id phase msg); mret tt).

Definition updated_body : string := "The container is running a newer image and came up healthy.".

(** The function [Update] runs as its job. *)
Definition update_job (mc : ManagedContainer) (id : string) (emit : string -> string -> M E unit) :
    M E (option error) :=
  let meta := {| em_ContainerName := mc_ContainerName mc; em_StackID := mc_StackID mc |} in
  r ← doUpdate mc id (record_step id emit);
  match r with
  | Fail err =>
      if errors_Is err ErrHandedOff then mret (Some err)
      else
        finishJob id "failed" "" (Error err) ≫= fun _ =>
        notify EventUpdateApplied ("Update failed: " +:+ mc_ContainerName mc) (Error err) meta ≫= fun _ =>
        mret (Some err)
  | Ok true =>
      finishJob id "done" "Updated" "" ≫= fun _ =>
      notify EventUpdateApplied ("Updated " +:+ mc_ContainerName mc) updated_body meta ≫= fun _ => mret None
  | Ok false => finishJob id "done" "Already up to date" "" ≫= fun _ => mret None
  end.

Definition Update (managedID : string) : M E unit :=
  r ← ResolveManaged managedID;
  match r with
  | Fail _ => job "update" managedID (fun _ => mret (Some (errorf ("not a managed container: " +:+ managedID))))
  | Ok mc =>
      id ← genID;
      now ← unixNow;
      _ ← sql (StartUpdateJob now
            {| uj_ID := id; uj_ContainerName := mc_ContainerName mc; uj_Image := ""; uj_Phase := "start";
               uj_Message := ""; uj_Error := ""; uj_Self := false; uj_Done := false; uj_StartedAt := 0;
               uj_FinishedAt := 0 |});
      jobWithID id "update" (mc_ContainerName mc) (update_job mc id)
  end.

(** [runAutoUpdates] (autoupdate.go); it returns early when cancelled. *)
Fixpoint auto_loop (l : list ManagedContainer) : M E unit :=
  match l with
  | [] => mret tt
  | mc :: rest =>
      c ← ctxErr;
      match c with
      | Some _ => mret tt
      | None =>
          r ← ContainerInspect (mc_ContainerName mc);
          match r with
          | Fail _ => auto_loop rest
          | Ok _ => Update (mc_ID mc) ≫= fun _ => auto_loop rest
          end
      end
  end.

Definition runAutoUpdates : M E unit :=
  r ← sql AutoUpdateContainers;
  match r with Fail _ => mret tt | Ok l => auto_loop l end.

(** ** The helper's side *)
Definition finishApply (jobID name : string) (err : option error) : M E (option error) :=
  let meta := {| em_ContainerName := name; em_StackID := "" |} in
  match err with
  | Some e =>
      (if String.eqb jobID "" then mret tt else finishJob jobID "failed" "" (Error e)) ≫= fun _ =>
      notify EventUpdateApplied ("Update failed: " +:+ name) (Error e) meta ≫= fun _ => mret (Some e)
  | None =>
      (if String.eqb jobID "" then mret tt else finishJob jobID "done" "Updated" "") ≫= fun _ =>
      notify EventUpdateApplied ("Updated " +:+ name) updated_body meta ≫= fun _ => mret None
  end.

Definition apply_emit (jobID phase msg : string) : M E unit :=
  if String.eqb jobID "" then mret tt
  else (_ ← sql (SetUpdateJobPhase jobID phase msg); mret tt).

Definition ApplyUpdate (name jobID : string) : M E (option error) :=
  r ← sql (ManagedByName name);
  match r with
  | Fail _ => mret (Some (errorf ("not a managed container: " +:+ name)))
  | Ok mc =>
      r ← ContainerInspect name;
      match r with
      | Fail e => mret (Some (wrapf ("inspect " +:+ name +:+ ": ") e))
      | Ok oldInsp =>
          let! (mc', snap) := refreshIfRecreated mc oldInsp in
          let ref := sn_Image snap in
          if String.eqb ref "" then mret (Some (errorf "snapshot has no image reference"))
          else
            let emit := apply_emit jobID in
            i ← ImageInspect_ ref;
            img ← (match i with Ok img => mret (Ok img) | Fail _ => pullImage emit ref end);
            match img with
            | Fail e => finishApply jobID name (Some e)
            | Ok newImg =>
                if String.eqb (img_ID newImg) (in_Image oldInsp) then
                  emit "up-to-date" "Already up to date" ≫= fun _ => finishApply jobID name None
                else
                  e ← swap emit mc' snap ref oldInsp (img_ID newImg); finishApply jobID name e
            end
      end
  end.

(** ** Helpers on the daemon *)
Definition updaters_of (l : list Summary) : gmap string Summary :=
  index_by (fun c => label (sum_Labels c) jobLabel) (List.filter (fun c => is_updater c && is_running c) l).

Definition runningUpdaters : M E (result (gmap string Summary)) :=
  let? l := ContainerList true in mret (Ok (updaters_of l)).

Definition pruneUpdaters : M E unit :=
  r ← ContainerList true;
  match r with
  | Fail _ => mret tt
  | Ok l =>
      for_each l (fun c =>
        if is_updater c && negb (is_running c) then (_ ← ContainerRemove (sum_ID c); mret tt) else mret tt)
  end.
End Update.

(** ** The hand-off *)

(** The calls a hand-off makes, and how it ends. *)
Definition handoff_calls (selfInsp : InspectResponse) (jobID : string)
    (o : outcome (option error)) (t : list Ev) : Prop :=
  (t = [] /\ (in_Config selfInsp = None \/ in_HostConfig selfInsp = None) /\ exists e, o = Ret (Some e)) \/
  exists cfg host rm r rest, in_Config selfInsp = Some cfg /\ in_HostConfig selfInsp = Some host /\
    t = EvRemove (updaterName jobID) rm
        :: EvCreate (updaterName jobID) (helper_config selfInsp cfg jobID) (Some (helper_host host)) ∅ r :: rest /\
    ((exists e, r = Fail e /\ rest = [] /\ o = Ret (Some (wrapf "create updater: " e))) \/
     (exists id e rm', r = Ok id /\ rest = [EvStart id (Some e); EvRemove id rm']
                       /\ o = Ret (Some (wrapf "start updater: " e))) \/
     (exists id, r = Ok id /\ rest = [EvStart id None] /\ o = Ret None)).

Section HandOffFacts.
Context {E : Type} `{!Env E} `{!DockerCodecs}.
Context (emit : string -> string -> M E unit).
Hypothesis emit_silent : forall phase msg, does (emit phase msg) silent.

Lemma handOff_does selfInsp jobID :
  does (handOff selfInsp jobID emit) (handoff_calls selfInsp jobID).
Proof.
  unfold handOff. destruct (in_Config selfInsp) as [cfg|] eqn:Ec; [|apply does_ret; left; eauto].
  destruct (in_HostConfig selfInsp) as [host|] eqn:Eh; [|apply does_ret; left; eauto].
  eapply does_bind_silent; [apply does_sql|]. intros _.
  eapply does_bind_one; [by apply does_one|]. intros rm.
  eapply does_bind_one; [by apply does_one|]. intros [id|e].
  - eapply does_bind_one; [by apply does_one|]. intros [e|].
    + eapply does_bind_one; [by apply does_one|]. intros rm'. apply does_ret. right.
      exists cfg, host, rm. do 2 eexists. do 2 (split; [done|]). split; [done|]. right. left. eauto 10.
    + eapply does_bind_silent; [apply emit_silent|]. intros _. apply does_ret. right.
      exists cfg, host, rm. do 2 eexists. do 2 (split; [done|]). split; [done|]. right. right. eauto.
  - apply does_ret. right. exists cfg, host, rm. do 2 eexists. do 2 (split; [done|]). split; [done|]. left. eauto.
Qed.

(** A hand-off removes a leftover helper, creates one helper on the image Veery
    runs now, with no restart policy and labels that hide it from the listing
    and carry the job id, starts it, and removes it again when it does not
    start. *)
Theorem handOff_spec selfInsp jobID (w : World E) :
  exists t, w_trace (handOff selfInsp jobID emit w).1 = w_trace w ++ t
    /\ handoff_calls selfInsp jobID (handOff selfInsp jobID emit w).2 (calls t)
    /\ forall n cfg hc net id, EvCreate n cfg hc net (Ok id) ∈ calls t ->
         cfg_Image cfg = in_Image selfInsp
         /\ (exists host, hc = Some host /\ hc_RestartPolicy host = "no")
         /\ forall c, sum_Labels c = cfg_Labels cfg ->
              isService c = false /\ is_updater c = true /\ label (sum_Labels c) jobLabel = jobID.
Proof.
  destruct (handOff_does selfInsp jobID w) as (t & Ht & Hc). exists t. split; [done|]. split; [done|].
  intros n cfg hc net id Hin.
  assert (Hcr : exists c0 h0, cfg = helper_config selfInsp c0 jobID /\ hc = Some (helper_host h0)).
  { destruct Hc as [(Hnil & _)|(c0 & h0 & rm & r & rest & _ & _ & Heq & Hrest)].
    { rewrite Hnil in Hin. set_solver. }
    exists c0, h0. rewrite Heq in Hin.
    destruct Hrest as [(e & -> & -> & _)|[(i & e & rm' & -> & -> & _)|(i & -> & -> & _)]];
      repeat (apply elem_of_cons in Hin as [Hin|Hin]; [try discriminate|]); try set_solver;
      injection Hin as -> -> -> _ _; done. }
  destruct Hcr as (c0 & h0 & -> & ->). split; [done|]. split; [by eexists|].
  intros c Hl. unfold isService, is_updater. rewrite Hl. simpl. unfold label.
  rewrite lookup_insert_eq. simpl. split; [done|]. split; [done|].
  by rewrite lookup_insert_ne, lookup_singleton_eq.
Qed.
End HandOffFacts.

(** ** What an update does *)
Section UpdateFacts.
Context {E : Type} `{!Env E} `{!DockerCodecs}.
Context (emit : string -> string -> M E unit).
Hypothesis emit_silent : forall phase msg, does (emit phase msg) silent.

(** The calls of [update_locked] after its first inspection. *)
Inductive update_calls (mc : ManagedContainer) (oldInsp : InspectResponse) (jobID : string) :
    outcome (result bool) -> list Ev -> Prop :=
| uc_early o : (forall b, o <> Ret (Ok b)) -> update_calls mc oldInsp jobID o []
| uc_pull_failed ref ok e : update_calls mc oldInsp jobID (Ret (Fail e)) [EvPull ref ok]
| uc_current ref : update_calls mc oldInsp jobID (Ret (Ok false)) [EvPull ref true]
| uc_handed_off ref t1 oe t2 :
    Forall (fun e => exists r i, e = EvInspect r i) t1 ->
    handoff_calls oldInsp jobID (Ret oe) t2 ->
    update_calls mc oldInsp jobID (Ret (Fail (default errHandedOff oe))) (EvPull ref true :: t1 ++ t2)
| uc_swapped snap ref t1 t2 o :
    Forall (fun e => exists r i, e = EvInspect r i) t1 ->
    swap_run (mc_ContainerName mc) (in_ID oldInsp) snap ref o t2 ->
    update_calls mc oldInsp jobID
      (match o with Ret None => Ret (Ok true) | Ret (Some e) => Ret (Fail e) | Panic s => Panic s end)
      (EvPull ref true :: t1 ++ t2).

Lemma drain_loop_does evs fin : forall s,
  does (drain_loop emit evs fin s) silent.
Proof.
  induction evs as [|ev evs IH]; intros s; cbn [drain_loop].
  { destruct fin as [err|]; [apply does_ret; split; eauto|].
    eapply does_bind_silent; [|intros _; apply does_ret; split; eauto].
    destruct (String.eqb _ ""); [apply does_ret; split; eauto|apply emit_silent]. }
  destruct (negb _); [apply does_ret; split; eauto|]. destruct (String.eqb (pe_ID ev) ""); [apply IH|].
  destruct (_ || _); [apply IH|]. eapply does_bind_silent; [apply does_silent|]. intros now.
  destruct (match dr_lastAt s with Some t => _ | None => false end); [apply IH|].
  eapply does_bind_silent; [apply emit_silent|]. intros _.
  eapply does_bind_silent; [apply does_silent|]. intros at_. apply IH.
Qed.

Lemma pullImage_does ref :
  does (pullImage emit ref) (fun o t => (exists e, o = Ret (Fail e) /\ exists ok, t = [EvPull ref ok])
                                       \/ (exists i, o = Ret (Ok i) /\ t = [EvPull ref true])).
Proof.
  unfold pullImage. eapply does_bind_silent; [apply emit_silent|]. intros _.
  eapply (does_bind_one _ (fun r => EvPull ref (is_ok r))); [by apply does_one|]. intros [rc|e].
  2:{ apply does_ret. left. eauto. }
  eapply does_bind_silent; [apply drain_loop_does|]. intros [e|]; [apply does_ret; left; eauto|].
  eapply does_bind_silent; [apply does_silent|]. intros [i|e]; apply does_ret; [right|left]; eauto.
Qed.

Lemma IsSelf_does id :
  does (E:=E) (IsSelf id) (fun o t => (exists b, o = Ret b) /\ Forall (fun e => exists r i, e = EvInspect r i) t).
Proof.
  eapply emits_mono; [apply IsSelf_emits|]. intros o t (Hf & b & ->). split; [eauto|].
  rewrite calls_all; [done|]. eapply Forall_impl; [exact Hf|]. by intros e (r & i & ->).
Qed.

Lemma refresh_does mc insp :
  does (E:=E) (refreshIfRecreated mc insp) (fun o t => t = [] /\
    forall mc' snap, o = Ret (Ok (mc', snap)) -> mc_ContainerName mc' = mc_ContainerName mc).
Proof.
  unfold refreshIfRecreated. eapply (does_bind _ _ (fun o t => t = [] /\
    forall mc', o = Ret (Ok mc') -> mc_ContainerName mc' = mc_ContainerName mc)).
  - destruct (negb _); [|apply does_ret; split; [done|]; by intros mc' [= ->]].
    unfold recordSpec. destruct (snapshotFromInspect insp) as [s|]; [|by apply does_panic].
    destruct (marshal s) as [js|e]; [|by apply does_ret].
    eapply does_bind_silent; [apply does_sql|]. intros [u|e]; apply does_ret; [|done].
    split; [done|]. by intros mc' [= <-].
  - intros s t (-> & _). done.
  - intros [mc'|e] t (-> & Hn); apply does_ret; [|done]. split; [done|].
    destruct (parseSnapshot _); [|done]. intros mc2 snap [= <- _]. by apply Hn.
Qed.

Lemma update_locked_does mc jobID :
  does (update_locked mc jobID emit) (fun o t =>
    exists r t', t = EvInspect (mc_ContainerName mc) r :: t' /\
      match r with
      | Fail e => t' = [] /\ exists e', o = Ret (Fail e')
      | Ok oldInsp => update_calls mc oldInsp jobID o t'
      end).
Proof.
  unfold update_locked. eapply does_bind_one; [by apply does_one|]. intros [oldInsp|e].
  2:{ apply does_ret. exists (Fail e), []. split; [done|]. split; [done|]. eauto. }
  eapply does_mono; [|intros o t Ht; exists (Ok oldInsp), t; split; [done|exact Ht]].
  eapply does_bind; [apply refresh_does|intros s t (-> & _); by apply uc_early|].
  intros [[mc' snap]|e] t (-> & Hn); [|by apply does_ret, uc_early].
  specialize (Hn mc' snap eq_refl).
  destruct (String.eqb (sn_Image snap) ""); [by apply does_ret, uc_early|].
  eapply does_bind; [apply pullImage_does|by intros s t [(e & ? & _)|(i & ? & _)]|].
  intros [newImg|e] t [(e' & [= <-] & ok & ->)|(i & [= <-] & ->)];
    [|by apply does_ret, uc_pull_failed]. simpl.
  destruct (String.eqb (img_ID newImg) (in_Image oldInsp)).
  { eapply does_bind_silent; [apply emit_silent|]. intros _.
    eapply does_bind_silent; [apply does_modify|]. intros _. apply does_ret. apply uc_current. }
  eapply does_bind; [apply IsSelf_does|by intros s t ((b & ?) & _)|].
  intros [] t1 (_ & Hf).
  - eapply does_bind; [by apply handOff_does| |].
    + intros s t [(_ & _ & e & ?)|(cfg & host & rm & r & rest & _ & _ & _ & Hr)]; [done|].
      destruct Hr as [(e & _ & _ & ?)|[(id & e & rm' & _ & _ & ?)|(id & _ & _ & ?)]]; done.
    + intros oe t2 H2. apply does_ret. rewrite app_nil_r. by apply uc_handed_off.
  - eapply does_bind; [by apply swap_does| |].
    + intros s t Hs. rewrite Hn in Hs. exact (uc_swapped mc oldInsp jobID snap _ _ _ _ Hf Hs).
    + intros o t2 H2. apply does_ret. rewrite app_nil_r. rewrite Hn in H2.
      pose proof (uc_swapped mc oldInsp jobID snap _ _ _ _ Hf H2) as Hu. by destruct o.
Qed.

Lemma doUpdate_does mc jobID :
  does (doUpdate mc jobID emit) (fun o t =>
    exists r t', t = EvInspect (mc_ContainerName mc) r :: t' /\
      match r with
      | Fail e => t' = [] /\ exists e', o = Ret (Fail e')
      | Ok oldInsp => update_calls mc oldInsp jobID o t'
      end).
Proof. apply does_locked, update_locked_does. Qed.

(** An update that reports success inspected the old container, pulled the
    image, created and started a replacement that proved itself up, and removed
    the old container. *)
Theorem doUpdate_true_means_replaced mc jobID (w : World E) :
  (doUpdate mc jobID emit w).2 = Ret (Ok true) ->
  exists t oldInsp snap ref id ev e, w_trace (doUpdate mc jobID emit w).1 = w_trace w ++ t
    /\ EvInspect (mc_ContainerName mc) (Ok oldInsp) ∈ calls t
    /\ EvPull ref true ∈ calls t /\ created snap ref id (calls t)
    /\ ev ∈ calls t /\ proved_up id ev /\ EvRemove (in_ID oldInsp) e ∈ calls t.
Proof.
  intros Hret. destruct (doUpdate_does mc jobID w) as (t & Ht & r & t' & Hc & Hr). rewrite Hret in Hr.
  destruct r as [oldInsp|e]; [|destruct Hr as (_ & e' & ?); done].
  exists t, oldInsp. rewrite Hc. clear Hc.
  remember (Ret (Ok true)) as o eqn:Ho. destruct Hr as [o Hne|ref ok e|ref|ref t1 oe t2 _ _|snap ref t1 t2 o _ Hs];
    try done; [by destruct (Hne true)|].
  destruct o as [[e|]|s]; try done. clear Ho. remember (Ret None) as o eqn:Ho.
  destruct Hs as [|r stop o u _ Hap]; [done|].
  destruct Hap as [| | | |id u1 u2 e' r' u3 o Hu1 [_ (u0 & ev & -> & Hev)] _ _]; try done.
  apply recreate_created in Hu1 as (c & eps & Hcf & H1 & H2).
  exists snap, ref, id, ev, e'. split; [done|]. split; [set_solver|]. split; [set_solver|].
  split; [exists c, eps; set_solver|]. set_solver.
Qed.

(** A step of the update keeps what its pieces and [emit] keep. *)
Lemma refresh_keeps {X} (p : Mgr -> X) mc insp : keeps (E:=E) p (refreshIfRecreated mc insp).
Proof. unfold refreshIfRecreated, recordSpec. repeat keeps_step. Qed.

Lemma drain_loop_keeps {X} (p : Mgr -> X) evs fin s :
  (forall phase msg, keeps p (emit phase msg)) -> keeps p (drain_loop emit evs fin s).
Proof.
  intros Hemit. revert s. induction evs as [|ev evs IH]; intros s; cbn [drain_loop]; open_calls;
    repeat (apply IH || apply Hemit || keeps_step).
Qed.

Lemma pullImage_keeps {X} (p : Mgr -> X) ref :
  (forall phase msg, keeps p (emit phase msg)) -> keeps p (pullImage emit ref).
Proof.
  intros Hemit. unfold pullImage, drainPull. open_calls.
  repeat (apply drain_loop_keeps || apply Hemit || keeps_step); done.
Qed.

Lemma handOff_keeps {X} (p : Mgr -> X) insp jobID :
  (forall phase msg, keeps p (emit phase msg)) -> keeps p (handOff insp jobID emit).
Proof. intros Hemit. unfold handOff. open_calls. repeat (apply Hemit || keeps_step). Qed.

Lemma verify_loop_keeps {X} (p : Mgr -> X) fuel dl id : keeps (E:=E) p (verify_loop fuel dl id).
Proof.
  revert dl id. induction fuel as [|fuel IH]; intros dl id; cbn [verify_loop]; unfold poll; open_calls;
    repeat (apply IH || keeps_step).
Qed.

Lemma swap_keeps {X} (p : Mgr -> X) mc snap ref insp img :
  (forall m a b, p (set_avail m a b) = p m) ->
  (forall phase msg, keeps p (emit phase msg)) -> keeps p (swap emit mc snap ref insp img).
Proof.
  intros Hp Hemit. unfold swap, swap_finish, recordSpec, recreate, verifyHealthy, rollback. open_calls.
  repeat (apply verify_loop_keeps || apply Hemit || keeps_step); apply Hp.
Qed.

Lemma first_known_keeps {X} (p : Mgr -> X) ids : keeps (E:=E) p (first_known ids).
Proof. induction ids as [|i ids IH]; cbn [first_known]; open_calls; repeat (apply IH || keeps_step). Qed.

Lemma IsSelf_keeps {X} (p : Mgr -> X) id :
  (forall m i, p (set_selfID m i) = p m) -> keeps (E:=E) p (IsSelf id).
Proof.
  intros Hp. unfold IsSelf, SelfContainerID, resolveSelf, resolve_hostname, procContainerIDs, readLines,
    Getenv, Hostname. open_calls.
  repeat (apply first_known_keeps || keeps_step); apply Hp.
Qed.

(** The calls that act on the container [id]. *)
Definition touches (id : string) (e : Ev) : Prop :=
  match e with
  | EvStart r _ | EvStop r _ | EvRestart r _ | EvRename r _ _ | EvRemove r _ => r = id
  | EvConnect _ i _ _ => i = id
  | _ => False
  end.

Definition never_swapped (mc : ManagedContainer) (jobID self : string)
    (o : outcome (result bool)) (t : list Ev) : Prop :=
  forall oldInsp t', t = EvInspect (mc_ContainerName mc) (Ok oldInsp) :: t' -> in_ID oldInsp = self ->
    o <> Ret (Ok true) /\
    (t' = [] \/ (exists ref ok, t' = [EvPull ref ok]) \/
     exists ref oe t2, t' = EvPull ref true :: t2 /\ handoff_calls oldInsp jobID (Ret oe) t2).

Lemma IsSelf_known self id : self <> "" ->
  does_in (E:=E) m_selfID (Some self) (IsSelf id) (fun o t => o = Ret (String.eqb self id) /\ t = []).
Proof.
  intros Hne w Hw. unfold IsSelf, SelfContainerID, gets, mbind, M_bind. rewrite Hw. simpl.
  split; [done|]. exists []. rewrite app_nil_r. split; [done|].
  apply String.eqb_neq in Hne. by rewrite Hne.
Qed.

Lemma update_locked_self mc jobID self :
  self <> "" -> (forall phase msg, keeps m_selfID (emit phase msg)) ->
  does_in m_selfID (Some self) (update_locked mc jobID emit) (never_swapped mc jobID self).
Proof.
  intros Hne Hk. unfold update_locked.
  eapply does_in_bind.
  { apply (does_in_of _ _ _ (one (EvInspect (mc_ContainerName mc)))); [by apply does_one|apply keeps_call]. }
  { by intros s t (r & ? & _). }
  assert (Hret : forall (o : result bool) P, P (Ret o) [] -> does_in m_selfID (Some self) (mret o : M E (result bool)) P).
  { intros o P HP. apply does_in_of; [by apply does_ret|apply keeps_ret]. }
  intros r t (r' & [= <-] & ->). destruct r as [oldInsp|e]; [|by apply Hret].
  eapply does_in_bind.
  { apply (does_in_of _ _ _ (fun o t => t = [])); [|apply refresh_keeps].
    eapply does_mono; [apply refresh_does|]. by intros o t (-> & _). }
  { intros s t -> insp t' [= <- <-] _. auto. }
  intros [[mc' snap]|e] t ->; [|apply Hret; intros insp t' [= <- <-] _; auto].
  destruct (String.eqb (sn_Image snap) ""); [apply Hret; intros insp t' [= <- <-] _; auto|].
  eapply does_in_bind.
  { apply does_in_of; [apply pullImage_does|by apply pullImage_keeps]. }
  { by intros s t [(e & ? & _)|(i & ? & _)]. }
  intros [newImg|e] t [(e' & [= <-] & ok & ->)|(i & [= <-] & ->)];
    [|apply Hret; intros insp t' [= <- <-] _; split; [done|]; right; left; eauto].
  destruct (String.eqb (img_ID newImg) (in_Image oldInsp)).
  { apply does_in_of; [|repeat (apply Hk || keeps_step); done].
    eapply does_bind_silent; [apply emit_silent|]. intros _.
    eapply does_bind_silent; [apply does_modify|]. intros _. apply does_ret.
    intros insp t' [= <- <-] _. split; [done|]. right. left. eauto. }
  eapply does_in_bind; [by apply IsSelf_known|by intros s t (? & _)|].
  intros b t ([= ->] & ->). destruct (String.eqb_spec self (in_ID oldInsp)) as [He|He].
  - apply does_in_of.
    2:{ apply keeps_bind; [by apply handOff_keeps|intros ?; apply keeps_ret]. }
    eapply does_bind; [by apply handOff_does| |].
    + intros s t [(_ & _ & e & ?)|(cfg & host & rm & r & rest & _ & _ & _ & Hr)]; [done|].
      destruct Hr as [(e & _ & _ & ?)|[(id & e & rm' & _ & _ & ?)|(id & _ & _ & ?)]]; done.
    + intros oe t2 H2. apply does_ret. rewrite app_nil_r.
      intros insp t' [= <- <-] _. split; [done|]. right. right. eauto.
  - apply does_in_of.
    2:{ apply keeps_bind; [by apply swap_keeps|intros ?; apply keeps_ret]. }
    eapply does_bind; [by apply swap_does| |].
    + intros s t Hs insp t' [= <- <-] Hid. congruence.
    + intros o t2 H2. apply does_ret. intros insp t' [= <- <-] Hid. congruence.
Qed.

(** What an update does before it decides between the ways to go on: the live
    container is inspected, its spec read, its image pulled. *)
Definition prepare (mc : ManagedContainer) : M E (result (InspectResponse * ManagedContainer * Snapshot * ImageInspect)) :=
  r ← ContainerInspect (mc_ContainerName mc);
  match r with
  | Fail e => mret (Fail (wrapf ("inspect " +:+ mc_ContainerName mc +:+ ": ") e))
  | Ok oldInsp =>
      let? (mc', snap) := refreshIfRecreated mc oldInsp in
      if String.eqb (sn_Image snap) "" then mret (Fail (errorf "snapshot has no image reference"))
      else
        let? newImg := pullImage emit (sn_Image snap) in
        mret (Ok (oldInsp, mc', snap, newImg))
  end.

Lemma update_locked_prepared mc jobID (w : World E) :
  update_locked mc jobID emit w =
  (let? (oldInsp, mc', snap, newImg) := prepare mc in
   if String.eqb (img_ID newImg) (in_Image oldInsp) then
     emit "up-to-date" "Already up to date" ≫= fun _ =>
     setUpdateAvailable (mc_ContainerName mc) false ≫= fun _ => mret (Ok false)
   else
     self ← IsSelf (in_ID oldInsp);
     if (self : bool) then
       e ← handOff oldInsp jobID emit;
       mret (Fail (default errHandedOff e))
     else
       e ← swap emit mc' snap (sn_Image snap) oldInsp (img_ID newImg);
       mret (match e with Some err => Fail err | None => Ok true end)) w.
Proof.
  unfold update_locked, prepare. rewrite bind_assoc. apply bind_ext. intros [oldInsp|e] w1; [|done].
  rewrite bind_assoc. apply bind_ext. intros [[mc' snap]|e] w2; [|done].
  destruct (String.eqb (sn_Image snap) ""); [done|]. rewrite bind_assoc. apply bind_ext. by intros [newImg|e] w3.
Qed.

Lemma prepare_keeps {X} (p : Mgr -> X) mc : (forall phase msg, keeps p (emit phase msg)) -> keeps p (prepare mc).
Proof.
  intros Hk. unfold prepare. open_calls.
  repeat (apply refresh_keeps || (apply pullImage_keeps; assumption) || keeps_step).
Qed.

(** How an update of Veery's own container goes on, from what it has prepared. *)
Definition self_updated (jobID : string)
    (prepared : outcome (result (InspectResponse * ManagedContainer * Snapshot * ImageInspect)))
    (o : outcome (result bool)) (t : list Ev) : Prop :=
  match prepared with
  | Ret (Ok (oldInsp, _, _, newImg)) =>
      if String.eqb (img_ID newImg) (in_Image oldInsp) then o = Ret (Ok false) /\ t = []
      else exists oe, o = Ret (Fail (default errHandedOff oe)) /\ handoff_calls oldInsp jobID (Ret oe) t
  | Ret (Fail e) => o = Ret (Fail e) /\ t = []
  | Panic s => o = Panic s /\ t = []
  end.

Lemma update_locked_self_updated mc jobID self (w : World E) :
  m_selfID (w_mgr w) = Some self -> self <> "" -> (forall phase msg, keeps m_selfID (emit phase msg)) ->
  (forall oldInsp mc' snap newImg, (prepare mc w).2 = Ret (Ok (oldInsp, mc', snap, newImg)) -> in_ID oldInsp = self) ->
  exists t, w_trace (update_locked mc jobID emit w).1 = w_trace (prepare mc w).1 ++ t /\
    self_updated jobID (prepare mc w).2 (update_locked mc jobID emit w).2 (calls t).
Proof.
  intros Hs Hne Hk Hid. rewrite update_locked_prepared.
  pose proof (prepare_keeps m_selfID mc Hk w) as Hs1. rewrite Hs in Hs1.
  destruct (prepare mc w) as [w1 [[[[[oldInsp mc'] snap] newImg]|e]|s]] eqn:Hp; cbn [fst snd] in *;
    [rewrite (bind_run _ _ _ _ _ Hp)|rewrite (bind_run _ _ _ _ _ Hp)|rewrite (bind_run_panic _ _ _ _ _ Hp)];
    [|exists []; by rewrite app_nil_r..].
  unfold self_updated. rewrite <- (Hid _ _ _ _ eq_refl) in *. clear Hid.
  destruct (String.eqb (img_ID newImg) (in_Image oldInsp)).
  - match goal with |- context [w_trace (?m w1).1] => enough (Hm : does m (fun o t => o = Ret (Ok false) /\ t = [])) by apply Hm end.
    eapply does_bind_silent; [apply emit_silent|]. intros _.
    eapply does_bind_silent; [apply does_modify|]. intros _. by apply does_ret.
  - match goal with |- context [w_trace (?m w1).1] =>
      enough (Hm : does_in m_selfID (Some (in_ID oldInsp)) m (fun o t =>
        exists oe, o = Ret (Fail (default errHandedOff oe)) /\ handoff_calls oldInsp jobID (Ret oe) t)) by apply (Hm w1 Hs1) end.
    eapply does_in_bind; [by apply IsSelf_known|by intros s t (? & _)|].
    intros b t ([= ->] & ->). rewrite String.eqb_refl. apply does_in_of.
    2:{ apply keeps_bind; [by apply handOff_keeps|intros ?; apply keeps_ret]. }
    eapply does_bind; [by apply handOff_does| |].
    + intros s t [(_ & _ & e & ?)|(cfg & host & rm & r & rest & _ & _ & _ & Hr)]; [done|].
      destruct Hr as [(e & _ & _ & ?)|[(id & e & rm' & _ & _ & ?)|(id & _ & _ & ?)]]; done.
    + intros oe t2 H2. apply does_ret. rewrite app_nil_r. eauto.
Qed.

(** C11. An update of the container Veery runs in never stops, renames, removes
    or starts that container itself and never reports success, as long as the
    daemon gives new containers new ids and no helper has its id for a name. If
    its spec can be read and its image pulled, it reports that it is up to date
    when the image is the one in use, and otherwise replaces the helper of the
    job: it removes a helper of that name, creates one with the image and
    configuration of a helper and starts it, and reports the hand-off exactly
    when the helper was started; a helper that does not start is removed. Any
    failure before that is reported, and nothing is done after it. *)
Theorem doUpdate_never_touches_self mc jobID self (w : World E) :
  m_selfID (w_mgr w) = Some self -> self <> "" -> updaterName jobID <> self ->
  (forall phase msg, keeps m_selfID (emit phase msg)) ->
  (exists t, w_trace (doUpdate mc jobID emit w).1 = w_trace w ++ t /\
     forall oldInsp t', calls t = EvInspect (mc_ContainerName mc) (Ok oldInsp) :: t' -> in_ID oldInsp = self ->
       fresh_ids self (calls t) ->
       (doUpdate mc jobID emit w).2 <> Ret (Ok true) /\ Forall (fun e => ~ touches self e) (calls t)) /\
  let prepared := prepare mc (holding (mc_ContainerName mc) w) in
  (forall oldInsp mc' snap newImg, prepared.2 = Ret (Ok (oldInsp, mc', snap, newImg)) -> in_ID oldInsp = self) ->
  exists t, w_trace (doUpdate mc jobID emit w).1 = w_trace prepared.1 ++ t /\
    self_updated jobID prepared.2 (doUpdate mc jobID emit w).2 (calls t).
Proof.
  intros Hs Hne Hname Hk. split.
  2:{ intros prepared Hid. unfold doUpdate. rewrite locked_run.
      destruct (update_locked_self_updated mc jobID self (holding (mc_ContainerName mc) w)) as (t & Ht & Hu); [done..|].
      exists (t ++ [EvUnlock (mc_ContainerName mc)]). cbn [fst snd]. split; [unfold log; cbn; by rewrite Ht, app_assoc|].
      by rewrite calls_app, app_nil_r. }
  assert (Hd : does_in m_selfID (Some self) (doUpdate mc jobID emit) (never_swapped mc jobID self)).
  { apply does_in_locked; [done|]. by apply update_locked_self. }
  destruct (Hd w Hs) as (_ & t & Ht & Hc). exists t. split; [done|].
  intros oldInsp t' Hcalls Hid [_ Hfr]. destruct (Hc oldInsp t' Hcalls Hid) as [Ho Hcase]. split; [done|].
  rewrite Hcalls in Hfr |- *. constructor; [simpl; auto|].
  destruct Hcase as [->|[(ref & ok & ->)|(ref & oe & t2 & -> & Hh)]];
    [constructor|repeat constructor; simpl; auto|].
  constructor; [simpl; auto|].
  destruct Hh as [(-> & _)|(cfg & host & rm & r & rest & _ & _ & -> & Hr)]; [constructor|].
  constructor; [simpl; auto|]. constructor; [simpl; auto|].
  destruct Hr as [(e & _ & -> & _)|[(id & e & rm' & -> & -> & _)|(id & -> & -> & _)]]; [constructor| |].
  - assert (id <> self) by (eapply Hfr; do 3 right; left). repeat constructor; simpl; auto.
  - assert (id <> self) by (eapply Hfr; do 3 right; left). repeat constructor; simpl; auto.
Qed.

(** An update gives up the lock of its container however it ends. *)
Theorem doUpdate_releases_lock mc jobID (w : World E) :
  (forall phase msg, keeps m_locked (emit phase msg)) ->
  mc_ContainerName mc ∉ m_locked (w_mgr w) ->
  m_locked (w_mgr (doUpdate mc jobID emit w).1) = m_locked (w_mgr w).
Proof.
  intros Hemit Hn. apply locked_keeps_locks; [|done]. unfold update_locked. open_calls.
  repeat (apply refresh_keeps || (apply pullImage_keeps; assumption) || (apply handOff_keeps; assumption)
          || (apply swap_keeps; [done|assumption]) || (apply IsSelf_keeps; done) || apply Hemit || keeps_step); done.
Qed.

(** *** A finished update closes its job *)
Definition job_exists (id : string) (d : DB) : Prop := exists j, j ∈ db_jobs d /\ uj_ID j = id.

Lemma job_exists_update id p f d :
  (forall j, uj_ID (f j) = uj_ID j) -> job_exists id d -> job_exists id (set_jobs d (update_rows p f (db_jobs d))).
Proof.
  intros Hf (j & Hj & Hid). exists (if p j then f j else j). split.
  - simpl. apply elem_of_update. eauto.
  - destruct (p j); [by rewrite Hf|done].
Qed.

Lemma job_exists_managed id d m : job_exists id d -> job_exists id (set_managed d m).
Proof. done. Qed.

Lemma drain_loop_preserves (P : DB -> Prop) evs fin s :
  (forall phase msg, preserves P (emit phase msg)) -> preserves P (drain_loop emit evs fin s).
Proof.
  intros Hemit. revert s. induction evs as [|ev evs IH]; intros s; cbn [drain_loop]; open_calls;
    repeat (apply IH || apply Hemit || preserves_step).
Qed.

Lemma verify_loop_preserves (P : DB -> Prop) fuel dl id : preserves (E:=E) P (verify_loop fuel dl id).
Proof.
  revert dl id. induction fuel as [|fuel IH]; intros dl id; cbn [verify_loop]; unfold poll; open_calls;
    repeat (apply IH || preserves_step).
Qed.

Lemma swap_preserves (P : DB -> Prop) mc snap ref insp img :
  (forall d m, P d -> P (set_managed d m)) ->
  (forall phase msg, preserves P (emit phase msg)) -> preserves P (swap emit mc snap ref insp img).
Proof.
  intros Hp Hemit. unfold swap, swap_finish, recordSpec, recreate, verifyHealthy, rollback. open_calls.
  repeat (apply verify_loop_preserves || apply Hemit || preserves_step); by apply Hp.
Qed.

Lemma first_known_preserves (P : DB -> Prop) ids : preserves (E:=E) P (first_known ids).
Proof. induction ids as [|i ids IH]; cbn [first_known]; open_calls; repeat (apply IH || preserves_step). Qed.

Lemma IsSelf_preserves (P : DB -> Prop) id : preserves (E:=E) P (IsSelf id).
Proof.
  unfold IsSelf, SelfContainerID, resolveSelf, resolve_hostname, procContainerIDs, readLines,
    Getenv, Hostname. open_calls. repeat (apply first_known_preserves || preserves_step).
Qed.

Lemma doUpdate_preserves (P : DB -> Prop) mc jobID :
  (forall d m, P d -> P (set_managed d m)) ->
  (forall d p f, (forall j, uj_ID (f j) = uj_ID j) -> P d -> P (set_jobs d (update_rows p f (db_jobs d)))) ->
  (forall phase msg, preserves P (emit phase msg)) -> preserves P (doUpdate mc jobID emit).
Proof.
  intros Hm Hj Hemit. unfold doUpdate, update_locked, refreshIfRecreated, recordSpec, pullImage, drainPull,
    handOff. open_calls.
  repeat ((apply drain_loop_preserves; assumption) || (apply swap_preserves; assumption)
          || apply IsSelf_preserves || apply Hemit || preserves_step);
    [by apply Hm|by apply Hj].
Qed.
End UpdateFacts.

Section FinishFacts.
Context {E : Type} `{!Env E} `{!DockerCodecs}.
Context (emit : string -> string -> M E unit).

Definition job_done_ok (id : string) (d : DB) : Prop := forall j, j ∈ db_jobs d -> uj_ID j = id -> uj_Done j = true.

Lemma finishJob_run id phase msg err (w : World E) :
  no_faults (E:=E) -> job_exists id (w_db w) ->
  exists w', finishJob id phase msg err w = (w', Ret tt) /\ w_mgr w' = w_mgr w
    /\ exists j, (UpdateJobByID id (w_db w')).2 = Ok j /\ uj_Done j = true
                 /\ uj_Phase j = phase /\ uj_Message j = msg /\ uj_Error j = err.
Proof.
  intros Hnf (j0 & Hj0 & Hid). unfold finishJob, unixNow, Now.
  set (w1 := log (set_env w (time_Now (w_env w)).1) []). set (now := (time_Now (w_env w)).2 / second).
  rewrite (bind_run _ _ w w1 now) by done.
  destruct (sql_run_ok (FinishUpdateJob now id phase msg err) w1 Hnf) as (e' & Hs).
  rewrite (bind_run _ _ _ _ _ Hs). simpl. eexists. split; [reflexivity|]. split; [done|]. simpl.
  destruct (query_row (job_id id) (update_rows (job_id id) (with_finish phase msg err now) (db_jobs (w_db w))))
    as [j|e] eqn:Eq.
  - exists j. split; [done|]. apply query_row_Ok in Eq as [Hin Hjid].
    apply elem_of_update in Hin as (r & _ & ->). destruct (job_id id r) eqn:Er; [done|congruence].
  - apply query_row_Fail in Eq as [_ Hn]. exfalso.
    assert (Hin : with_finish phase msg err now j0 ∈
      update_rows (job_id id) (with_finish phase msg err now) (db_jobs (w_db w))).
    { apply elem_of_update. exists j0. split; [done|]. unfold job_id. by rewrite Hid, String.eqb_refl. }
    specialize (Hn _ Hin). unfold job_id in Hn. simpl in Hn. by rewrite Hid, String.eqb_refl in Hn.
Qed.

(** C15. When no statement faults, the job of an update is finished in the
    database when the update returns, with the outcome it had, except when it
    was handed off. *)
Theorem update_job_closes_its_job mc id (w : World E) :
  no_faults (E:=E) -> (forall phase msg, preserves (job_exists id) (emit phase msg)) ->
  job_exists id (w_db w) ->
  match (update_job mc id emit w).2 with
  | Panic _ => True
  | Ret (Some err) =>
      errors_Is err ErrHandedOff = true \/
      exists j, (UpdateJobByID id (w_db (update_job mc id emit w).1)).2 = Ok j
                /\ uj_Done j = true /\ uj_Phase j = "failed" /\ uj_Error j = Error err
  | Ret None =>
      exists j, (UpdateJobByID id (w_db (update_job mc id emit w).1)).2 = Ok j
                /\ uj_Done j = true /\ uj_Phase j = "done" /\ uj_Error j = ""
                /\ (uj_Message j = "Updated" \/ uj_Message j = "Already up to date")
  end.
Proof.
  intros Hnf Hemit Hex. unfold update_job.
  assert (Hrec : forall phase msg, preserves (job_exists id) (record_step id emit phase msg)).
  { intros phase msg. unfold record_step. repeat (apply Hemit || preserves_step). by apply job_exists_update. }
  assert (Hp : preserves (job_exists id) (doUpdate mc id (record_step id emit))).
  { apply doUpdate_preserves; [done| |done]. intros d p f Hf. by apply job_exists_update. }
  specialize (Hp w Hex). destruct (doUpdate mc id (record_step id emit) w) as [w1 [r|s]] eqn:Er.
  2:{ by rewrite (bind_run_panic _ _ _ _ _ Er). }
  rewrite (bind_run _ _ _ _ _ Er). simpl in Hp.
  assert (Hfin : forall phase msg err (k : M E (option error)),
    (forall w', w_db (k w').1 = w_db w') ->
    exists w' j, (finishJob id phase msg err ≫= (fun _ => k)) w1 = k w'
      /\ (UpdateJobByID id (w_db (k w').1)).2 = Ok j /\ uj_Done j = true
      /\ uj_Phase j = phase /\ uj_Message j = msg /\ uj_Error j = err).
  { intros phase msg err k Hk. destruct (finishJob_run id phase msg err w1 Hnf Hp) as (w' & Hf & _ & j & Hj).
    exists w', j. rewrite (bind_run _ _ _ _ _ Hf), Hk. done. }
  assert (Hnote : forall ev title body meta (x : option error) (w' : World E),
    (notify ev title body meta ≫= fun _ => mret x) w' = (log w' (if m_notif (w_mgr w') then [EvNotify ev title body meta] else []), Ret x)).
  { intros. unfold notify, gets, mbind, M_bind. destruct (m_notif (w_mgr w')); simpl; [done|by rewrite log_nil]. }
  destruct r as [[]|err].
  - edestruct (Hfin "done" "Updated" "") as (w' & j & -> & Hj).
    2:{ rewrite Hnote in Hj |- *. simpl in *. exists j. naive_solver. }
    intros w'. by rewrite Hnote.
  - edestruct (Hfin "done" "Already up to date" "") as (w' & j & -> & Hj); [done|]. simpl in *.
    exists j. naive_solver.
  - destruct (errors_Is err ErrHandedOff) eqn:Eh; [by left|].
    edestruct (Hfin "failed" "" (Error err)) as (w' & j & -> & Hj).
    2:{ rewrite Hnote in Hj |- *. simpl in *. right. exists j. naive_solver. }
    intros w'. by rewrite Hnote.
Qed.
End FinishFacts.

(** ** Instances at concrete inputs *)
Definition demo_update : World Sim :=
  mkWorld
    {| sim_containers := [demo_live "c1" "nginx" up];
       sim_images := {["nginx:1" := {| img_ID := "new"; img_RepoDigests := [] |}]};
       sim_remote := ∅; sim_boot := ∅; sim_clock := 10 ^ 12; sim_next := 7; sim_fail := [] |}
    (set_services empty_db [{| sr_ID := "web"; sr_Name := "web" |}] [demo_checked] [demo_job])
    (NewManager true true) [].

Lemma demo_update_runs : (doUpdate demo_checked "j1" no_emit demo_update).2 = Ret (Ok true).
Proof. vm_compute. reflexivity. Qed.

Lemma doUpdate_true_means_replaced_witness :
  exists t snap ref id ev, w_trace (doUpdate demo_checked "j1" no_emit demo_update).1 = t
    /\ created snap ref id (calls t) /\ ev ∈ calls t /\ proved_up id ev.
Proof.
  destruct (doUpdate_true_means_replaced no_emit no_emit_silent demo_checked "j1" demo_update demo_update_runs)
    as (t & insp & snap & ref & id & ev & e & H1 & _ & _ & H2 & H3 & H4 & _).
  exists t, snap, ref, id, ev. repeat split; assumption.
Defined.

Lemma no_emit_keeps {X} (p : Mgr -> X) phase msg : keeps p (no_emit phase msg).
Proof. apply keeps_ret. Qed.

Lemma doUpdate_releases_lock_witness :
  m_locked (w_mgr (doUpdate demo_checked "j1" no_emit demo_update).1) = ∅.
Proof.
  apply (doUpdate_releases_lock no_emit demo_checked "j1" demo_update).
  - exact (no_emit_keeps m_locked).
  - set_solver.
Defined.

(** Veery's own container, which mounts the Docker socket. *)
Definition demo_self_live : InspectResponse :=
  {| in_ID := "c1"; in_Name := "/nginx"; in_Image := "img"; in_State := Some up; in_Config := Some (demo_config "img");
     in_HostConfig := Some {| hc_Binds := ["/var/run/docker.sock:/var/run/docker.sock"]; hc_Mounts := []; hc_VolumesFrom := [];
                              hc_GroupAdd := []; hc_Privileged := false; hc_RestartPolicy := "always"; hc_other := "" |};
     in_Networks := Some ∅; in_RestartCount := 0 |}.

Definition demo_self_update : World Sim :=
  mkWorld (sim_with (w_env demo_update) [demo_self_live] 7) (w_db demo_update) (set_selfID (w_mgr demo_update) (Some "c1")) [].

(** A new image was pulled for Veery's own container. *)
Definition self_pulled (self : string) (o : outcome (result (InspectResponse * ManagedContainer * Snapshot * ImageInspect))) : bool :=
  match o with
  | Ret (Ok (insp, _, _, img)) =>
      String.eqb (in_ID insp) self && negb (String.eqb (img_ID img) (in_Image insp))
      && match in_Config insp, in_HostConfig insp with Some _, Some _ => true | _, _ => false end
  | _ => false
  end.

Lemma self_pulled_inv self o :
  self_pulled self o = true -> exists insp mc snap img, o = Ret (Ok (insp, mc, snap, img)) /\ in_ID insp = self
    /\ String.eqb (img_ID img) (in_Image insp) = false /\ in_Config insp <> None /\ in_HostConfig insp <> None.
Proof.
  destruct o as [[[[[insp mc] snap] img]|e]|s]; cbn; [|done..].
  intros [[He%String.eqb_eq Hi%negb_true_iff]%andb_true_iff Hc]%andb_true_iff. exists insp, mc, snap, img.
  by destruct (in_Config insp), (in_HostConfig insp).
Qed.

Lemma demo_self_pulled :
  self_pulled "c1" (prepare no_emit demo_checked (holding (mc_ContainerName demo_checked) demo_self_update)).2 = true.
Proof. vm_compute. reflexivity. Qed.

Lemma doUpdate_never_touches_self_witness :
  (exists t, w_trace (doUpdate demo_checked "j1" no_emit demo_self_update).1 = t /\
     forall oldInsp t', calls t = EvInspect "nginx" (Ok oldInsp) :: t' -> in_ID oldInsp = "c1" ->
       fresh_ids "c1" (calls t) -> Forall (fun e => ~ touches "c1" e) (calls t)) /\
  exists t insp cfg host rm r rest,
    w_trace (doUpdate demo_checked "j1" no_emit demo_self_update).1
      = w_trace (prepare no_emit demo_checked (holding "nginx" demo_self_update)).1 ++ t /\
    calls t = EvRemove (updaterName "j1") rm
      :: EvCreate (updaterName "j1") (helper_config insp cfg "j1") (Some (helper_host host)) ∅ r :: rest.
Proof.
  destruct (doUpdate_never_touches_self no_emit no_emit_silent demo_checked "j1" "c1" demo_self_update)
    as ((t & Ht & H) & Hrun).
  - reflexivity.
  - discriminate.
  - discriminate.
  - exact (no_emit_keeps m_selfID).
  - split; [exists t; split; [exact Ht|]; intros insp t' H1 H2 H3; exact (proj2 (H insp t' H1 H2 H3))|].
    destruct (self_pulled_inv _ _ demo_self_pulled) as (insp & mc' & snap & img & Hp & Hid & Hne & Hc & Hh). cbv zeta in Hrun.
    destruct Hrun as (t2 & Ht2 & Hu); [intros ? ? ? ? Hp'; rewrite Hp in Hp'; by injection Hp' as <- <- <- <-|].
    unfold self_updated in Hu. rewrite Hp, Hne in Hu.
    destruct Hu as (oe & _ & [(_ & Hno & _)|(cfg & host & rm & r & rest & _ & _ & Hcalls & _)]).
    { exfalso. destruct Hno as [Hno|Hno]; [exact (Hc Hno)|exact (Hh Hno)]. }
    exists t2, insp, cfg, host, rm, r, rest. split; [exact Ht2|exact Hcalls].
Defined.

Lemma no_emit_preserves (P : DB -> Prop) phase msg : preserves P (no_emit phase msg).
Proof. apply preserves_ret. Qed.

Lemma demo_job_exists : job_exists "j1" (w_db demo_update).
Proof. exists demo_job. split; [apply list_elem_of_here|reflexivity]. Qed.

Lemma demo_update_job_runs : (update_job demo_checked "j1" no_emit demo_update).2 = Ret None.
Proof. vm_compute. reflexivity. Qed.

Lemma update_job_closes_its_job_witness :
  exists j, (UpdateJobByID "j1" (w_db (update_job demo_checked "j1" no_emit demo_update).1)).2 = Ok j
            /\ uj_Done j = true /\ uj_Phase j = "done".
Proof.
  pose proof (update_job_closes_its_job no_emit demo_checked "j1" demo_update sim_no_faults
    (no_emit_preserves _) demo_job_exists) as H.
  rewrite demo_update_job_runs in H. destruct H as (j & H1 & H2 & H3 & _).
  exists j. repeat split; assumption.
Defined.

Lemma handOff_spec_witness :
  exists t, w_trace (handOff (demo_live "c1" "nginx" up) "j1" no_emit demo_update).1 = t
    /\ handoff_calls (demo_live "c1" "nginx" up) "j1"
         (handOff (demo_live "c1" "nginx" up) "j1" no_emit demo_update).2 (calls t).
Proof.
  destruct (handOff_spec no_emit no_emit_silent (demo_live "c1" "nginx" up) "j1" demo_update)
    as (t & H1 & H2 & _).
  exists t. split; [exact H1|exact H2].
Defined.

(** A helper that finds the container already on the image still records and
    announces an update. *)
Definition demo_applied : World Sim :=
  mkWorld
    {| sim_containers := [demo_live "c1" "nginx" up];
       sim_images := {["nginx:1" := {| img_ID := "img"; img_RepoDigests := [] |}]};
       sim_remote := ∅; sim_boot := ∅; sim_clock := 10 ^ 12; sim_next := 7; sim_fail := [] |}
    (set_services empty_db [{| sr_ID := "web"; sr_Name := "web" |}] [demo_checked] [demo_job])
    (NewManager true true) [].

Theorem ApplyUpdate_up_to_date_claims_update :
  List.filter (fun e => negb (on_daemon e)) (w_trace (ApplyUpdate "nginx" "j1" demo_applied).1)
    = [EvNotify EventUpdateApplied "Updated nginx" updated_body
         {| em_ContainerName := "nginx"; em_StackID := "" |}]
  /\ Forall (fun e => mutates e = false) (w_trace (ApplyUpdate "nginx" "j1" demo_applied).1)
  /\ map uj_Message (db_jobs (w_db (ApplyUpdate "nginx" "j1" demo_applied).1)) = ["Updated"].
Proof. vm_compute. split; [reflexivity|]. split; [repeat constructor|reflexivity]. Qed.
