(* ===== verification/Locking.v ===== *)
(** * The mutex of a container (src/internal/docker/client.go: containerLock,
    withContainerLock)

    Updates, automatic updates, the lifecycle actions of one container and the
    re-recording of its spec take the mutex of the container's name. A run of
    one of them is [disciplined]: it changes containers only while it holds one
    mutex, never waits for a mutex while it holds one, and gives it back. Runs
    that interleave under the mutexes ([ran]) then exclude each other and never
    block each other forever. *)
From S2P Require Import Prelude GoStrings Api Db StoreDocker StoreSettings Docker World Sim Status Snapshot Notices Listing Jobs Identity UpdateCheck Reconcile Swap SelfUpdate.
Open Scope Z_scope.

(** ** The discipline of one run *)
Definition is_lock (e : Ev) : bool :=
  match e with EvLock _ | EvUnlock _ => true | _ => false end.

(** Follow a trace from the mutex that is held; [None]: the discipline is broken. *)
Fixpoint lock_run (h : option string) (t : list Ev) : option (option string) :=
  match t with
  | [] => Some h
  | EvLock n :: t' => match h with None => lock_run (Some n) t' | Some _ => None end
  | EvUnlock n :: t' =>
      match h with
      | Some m => if String.eqb m n then lock_run None t' else None
      | None => None
      end
  | e :: t' => if mutates e && negb (bool_decide (is_Some h)) then None else lock_run h t'
  end.

Definition disciplined (t : list Ev) : Prop := lock_run None t = Some None.

Lemma lock_run_app h t1 t2 : lock_run h (t1 ++ t2) = lock_run h t1 ≫= fun h' => lock_run h' t2.
Proof.
  revert h. induction t1 as [|e t1 IH]; intros h; [done|].
  destruct e as [| | | | | | | | | | | | | | |n|n]; simpl; try apply IH;
    try (destruct (negb _); [done|apply IH]).
  - destruct h as [m|]; [done|apply IH].
  - destruct h as [m|]; [|done]. destruct (String.eqb m n); [apply IH|done].
Qed.

(** Calls that neither change a container nor touch a mutex. *)
Definition onlooking (e : Ev) : Prop := mutates e = false /\ is_lock e = false.

Lemma lock_run_onlooking h t : Forall onlooking t -> lock_run h t = Some h.
Proof. induction 1 as [|e t [Hm Hl] _ IH]; [done|]. destruct e; simpl in *; done. Qed.

Lemma lock_run_held n t : Forall (fun e => is_lock e = false) t -> lock_run (Some n) t = Some (Some n).
Proof. induction 1 as [|e t Hl _ IH]; [done|]. destruct e; simpl in *; done. Qed.

Lemma lock_run_section n t :
  Forall (fun e => is_lock e = false) t -> disciplined (EvLock n :: t ++ [EvUnlock n]).
Proof.
  intros Ht. unfold disciplined. simpl. rewrite lock_run_app, lock_run_held by done. simpl.
  by rewrite String.eqb_refl.
Qed.

(** The mutex that is held after the calls [t]. *)
Definition held_after (t : list Ev) : option string := default None (lock_run None t).

Section Discipline.
Context {E : Type} `{!Env E} `{!DockerCodecs}.

(** However the outside world answers, a run of [m] is disciplined. *)
Definition orderly {A} (m : M E A) : Prop := emits m (fun _ t => disciplined t).
Definition lockfree {A} (m : M E A) : Prop := emits_only m (fun e => is_lock e = false).

Lemma orderly_onlooking {A} (m : M E A) : emits_only m onlooking -> orderly m.
Proof. intros Hm. eapply emits_mono; [exact Hm|]. intros o t. apply lock_run_onlooking. Qed.

Lemma orderly_bind {A B} (m : M E A) (k : A -> M E B) :
  orderly m -> (forall a, orderly (k a)) -> orderly (m ≫= k).
Proof.
  intros Hm Hk. eapply emits_bind; [exact Hm|done|]. intros a t1 H1.
  eapply emits_mono; [apply Hk|]. intros o t2 H2. unfold disciplined in *. by rewrite lock_run_app, H1.
Qed.

Lemma orderly_locked {A} name (m : M E A) : lockfree m -> orderly (locked name m).
Proof.
  intros Hm. apply emits_locked. eapply emits_mono; [exact Hm|]. intros o t. apply lock_run_section.
Qed.

Lemma orderly_for_fold {A S} (l : list A) (body : S -> A -> M E S) s :
  (forall s x, x ∈ l -> orderly (body s x)) -> orderly (for_fold l body s).
Proof.
  revert s. induction l as [|x l IH]; simpl; intros s Hb; [apply orderly_onlooking, emits_only_ret|].
  apply orderly_bind; [apply Hb; set_solver|]. intros s'. apply IH. set_solver.
Qed.
End Discipline.

(** ** The operations of the manager keep the discipline *)

(** Split a program into its calls; each is checked by its event. *)
Ltac quiet_step :=
  emits_step || (repeat (apply Forall_cons; split); try apply Forall_nil; by repeat split).

Section Operations.
Context {E : Type} `{!Env E} `{!DockerCodecs}.

Lemma passive_onlooking e : passive e -> onlooking e.
Proof. by destruct e. Qed.

Lemma BroadcastStacks_onlooking : emits_only (E:=E) BroadcastStacks onlooking.
Proof. eapply emits_only_mono; [apply BroadcastStacks_passive|apply passive_onlooking]. Qed.

Lemma emit_job_onlooking id kind target phase msg :
  emits_only (E:=E) (emit_job id kind target phase msg) onlooking.
Proof. unfold emit_job, track, publish. open_calls. repeat quiet_step. Qed.

Lemma job_end_onlooking id kind target err :
  emits_only (E:=E)
    (match err with
     | Some e =>
         if errors_Is e ErrHandedOff then mret tt
         else forget id ≫= fun _ => publish (job_failed id kind target e)
     | None => forget id ≫= fun _ => publish (job_done id kind target "Done") ≫= fun _ => BroadcastStacks
     end) onlooking.
Proof. unfold forget, publish. open_calls. repeat (apply BroadcastStacks_onlooking || quiet_step). Qed.

(** A job is as orderly as its function. *)
Lemma jobWithID_orderly id kind target fn :
  orderly (E:=E) (fn (emit_job id kind target)) -> orderly (jobWithID id kind target fn).
Proof.
  intros Hfn. unfold jobWithID. apply orderly_bind; [apply orderly_onlooking, emit_job_onlooking|].
  intros _. apply orderly_bind; [done|]. intros err. apply orderly_onlooking, job_end_onlooking.
Qed.

Lemma job_orderly kind target fn :
  (forall emit, orderly (E:=E) (fn emit)) -> orderly (job kind target fn).
Proof.
  intros Hfn. unfold job. apply orderly_bind; [|intros id; by apply jobWithID_orderly].
  apply orderly_onlooking. unfold genID. repeat quiet_step.
Qed.

Lemma withContainerLock_orderly {A} ref (fn : M E A) : lockfree fn -> orderly (withContainerLock ref fn).
Proof.
  intros Hfn. unfold withContainerLock. apply orderly_bind; [|intros r; by apply orderly_locked].
  apply orderly_onlooking. unfold ContainerInspect. repeat quiet_step.
Qed.

Lemma StartJob_orderly id : orderly (E:=E) (StartJob id).
Proof.
  apply job_orderly. intros _. apply withContainerLock_orderly. unfold Start, lockfree. open_calls.
  repeat quiet_step.
Qed.

Lemma StopJob_orderly id : orderly (E:=E) (StopJob id).
Proof.
  apply job_orderly. intros _. apply withContainerLock_orderly. unfold Stop, awaitNotRunning, lockfree.
  open_calls. repeat quiet_step.
Qed.

Lemma RestartJob_orderly id : orderly (E:=E) (RestartJob id).
Proof.
  apply job_orderly. intros _. apply withContainerLock_orderly. unfold Restart, lockfree. open_calls.
  repeat quiet_step.
Qed.
End Operations.

(** ** Updates *)
Section UpdateOperations.
Context {E : Type} `{!Env E} `{!DockerCodecs}.
Context (emit : string -> string -> M E unit).
Hypothesis emit_onlooking : forall phase msg, emits_only (emit phase msg) onlooking.

Lemma emit_lockfree phase msg : lockfree (emit phase msg).
Proof. eapply emits_only_mono; [apply emit_onlooking|]. by intros e [_ ?]. Qed.

Lemma drain_loop_lockfree evs fin s : lockfree (drain_loop emit evs fin s).
Proof.
  unfold lockfree. revert s. induction evs as [|ev evs IH]; intros s; cbn [drain_loop]; open_calls;
    repeat (apply IH || apply emit_lockfree || quiet_step).
Qed.

Lemma pullImage_lockfree ref : lockfree (pullImage emit ref).
Proof.
  unfold lockfree, pullImage, drainPull. open_calls.
  repeat (apply drain_loop_lockfree || apply emit_lockfree || quiet_step).
Qed.

Lemma verify_loop_lockfree fuel dl id : lockfree (E:=E) (verify_loop fuel dl id).
Proof.
  unfold lockfree. revert dl id. induction fuel as [|fuel IH]; intros dl id; cbn [verify_loop]; unfold poll;
    open_calls; repeat (apply IH || quiet_step).
Qed.

Lemma refresh_lockfree mc insp : lockfree (E:=E) (refreshIfRecreated mc insp).
Proof. unfold lockfree, refreshIfRecreated, recordSpec. repeat quiet_step. Qed.

Lemma recreate_lockfree snap ref : lockfree (E:=E) (recreate snap ref).
Proof. unfold lockfree, recreate. open_calls. repeat quiet_step. Qed.

Lemma rollback_lockfree newID oldID name : lockfree (rollback emit newID oldID name).
Proof. unfold lockfree, rollback. open_calls. repeat (apply emit_lockfree || quiet_step). Qed.

Lemma swap_finish_lockfree mc insp newID img : lockfree (swap_finish emit mc insp newID img).
Proof. unfold lockfree, swap_finish, recordSpec. open_calls. repeat (apply emit_lockfree || quiet_step). Qed.

Lemma swap_lockfree mc snap ref insp img : lockfree (swap emit mc snap ref insp img).
Proof.
  unfold lockfree, swap, verifyHealthy. open_calls.
  repeat (emits_step || apply emit_lockfree || apply recreate_lockfree || apply rollback_lockfree
          || apply swap_finish_lockfree || apply verify_loop_lockfree || quiet_step).
Qed.

Lemma IsSelf_lockfree id : lockfree (E:=E) (IsSelf id).
Proof.
  eapply emits_mono; [apply IsSelf_emits|]. intros o t (Hf & _). eapply Forall_impl; [exact Hf|].
  by intros e (r & i & ->).
Qed.

Lemma handOff_lockfree insp jobID : lockfree (handOff insp jobID emit).
Proof. unfold lockfree, handOff. open_calls. repeat (apply emit_lockfree || quiet_step). Qed.

Lemma update_locked_lockfree mc jobID : lockfree (update_locked mc jobID emit).
Proof.
  unfold lockfree, update_locked. open_calls.
  repeat (apply refresh_lockfree || apply pullImage_lockfree || apply IsSelf_lockfree || apply handOff_lockfree
          || apply swap_lockfree || apply emit_lockfree || quiet_step).
Qed.

Lemma doUpdate_orderly mc jobID : orderly (doUpdate mc jobID emit).
Proof. apply orderly_locked, update_locked_lockfree. Qed.
End UpdateOperations.

(** ** Every operation that takes a mutex *)

(** What the server and the background loops run on goroutines of their own. *)
Inductive Operation :=
| OpUpdate (managedID : string)
| OpAutoUpdates
| OpStart (id : string)
| OpStop (id : string)
| OpRestart (id : string)
| OpReconcile
| OpCheckUpdates
| OpBroadcastStacks.

Definition perform {E} `{!Env E} `{!DockerCodecs} (op : Operation) : M E unit :=
  match op with
  | OpUpdate managedID => Update managedID
  | OpAutoUpdates => runAutoUpdates
  | OpStart id => StartJob id
  | OpStop id => StopJob id
  | OpRestart id => RestartJob id
  | OpReconcile => Reconcile
  | OpCheckUpdates => CheckUpdates
  | OpBroadcastStacks => BroadcastStacks
  end.

Section Perform.
Context {E : Type} `{!Env E} `{!DockerCodecs}.

Lemma finishJob_onlooking id phase msg err : emits_only (E:=E) (finishJob id phase msg err) onlooking.
Proof. unfold finishJob. open_calls. repeat quiet_step. Qed.

Lemma update_job_orderly mc id emit :
  (forall phase msg, emits_only (E:=E) (emit phase msg) onlooking) -> orderly (update_job mc id emit).
Proof.
  intros Hemit. unfold update_job. apply orderly_bind.
  - apply doUpdate_orderly. intros phase msg. unfold record_step. repeat (apply Hemit || quiet_step).
  - intros r. apply orderly_onlooking. open_calls. repeat (apply finishJob_onlooking || quiet_step).
Qed.

Lemma Update_orderly managedID : orderly (E:=E) (Update managedID).
Proof.
  unfold Update. apply orderly_bind.
  { apply orderly_onlooking. unfold ResolveManaged. repeat quiet_step. }
  intros [mc|e].
  - do 3 (apply orderly_bind; [apply orderly_onlooking; open_calls; repeat quiet_step|intros ?]).
    apply jobWithID_orderly, update_job_orderly. apply emit_job_onlooking.
  - apply job_orderly. intros emit. apply orderly_onlooking, emits_only_ret.
Qed.

Lemma auto_loop_orderly l : orderly (E:=E) (auto_loop l).
Proof.
  induction l as [|mc l IH]; cbn [auto_loop]; [apply orderly_onlooking, emits_only_ret|].
  apply orderly_bind; [apply orderly_onlooking; open_calls; repeat quiet_step|].
  intros [e|]; [apply orderly_onlooking, emits_only_ret|].
  apply orderly_bind; [apply orderly_onlooking; open_calls; repeat quiet_step|].
  intros [insp|e]; [|done]. apply orderly_bind; [apply Update_orderly|done].
Qed.

Lemma rerecord_orderly mc id : orderly (E:=E) (rerecord mc id).
Proof.
  unfold rerecord, tryLocked. apply orderly_bind; [apply orderly_onlooking; repeat quiet_step|].
  intros l. destruct (decide _); [apply orderly_onlooking, emits_only_ret|]. apply orderly_locked.
  unfold lockfree, recordSpec, remoteHasNewImage. open_calls. repeat quiet_step.
Qed.

Lemma Reconcile_orderly : orderly (E:=E) Reconcile.
Proof.
  unfold Reconcile. apply orderly_bind; [apply orderly_onlooking; open_calls; repeat quiet_step|].
  intros [summaries|e]; [|apply orderly_onlooking, emits_only_ret].
  apply orderly_bind; [apply orderly_onlooking; repeat quiet_step|].
  intros [managed|e]; [|apply orderly_onlooking, emits_only_ret]. cbv zeta.
  apply orderly_bind; [apply orderly_for_fold|intros changed; apply orderly_bind;
                                               [apply orderly_for_fold|intros []]].
  - intros changed' c _. unfold reconcile_live.
    destruct (negb _); [apply orderly_onlooking, emits_only_ret|].
    destruct (_ !! _) as [mc|].
    + destruct (String.eqb _ _); [apply orderly_onlooking, emits_only_ret|].
      apply orderly_bind; [apply rerecord_orderly|]. intros r. apply orderly_onlooking, emits_only_ret.
    + apply orderly_onlooking. unfold adoptNew, adopted_note. open_calls. repeat quiet_step.
  - intros changed' mc _. apply orderly_onlooking. unfold reconcile_gone, forgetComposeTemp. repeat quiet_step.
  - apply orderly_onlooking, BroadcastStacks_onlooking.
  - apply orderly_onlooking, emits_only_ret.
Qed.

Lemma check_loop_onlooking managed changed available :
  emits_only (E:=E) (check_loop managed changed available) onlooking.
Proof.
  revert changed available. induction managed as [|mc l IH]; intros changed available; cbn [check_loop];
    unfold remoteHasNewImage; open_calls; repeat (apply IH || quiet_step).
Qed.

Lemma CheckUpdates_onlooking : emits_only (E:=E) CheckUpdates onlooking.
Proof.
  unfold CheckUpdates, checkUpdates, seedUpdateAvail, persistUpdateAvail, LoadNotifiedUpdates,
    SaveNotifiedUpdates, getJSON, loadJSON, setJSON. open_calls.
  repeat (apply check_loop_onlooking || apply BroadcastStacks_onlooking || quiet_step).
Qed.

(** Whatever the daemon, the clock and the database answer, and however it
    ends, a run of one of the operations changes containers only while it holds
    one container's mutex, never waits for a mutex while it holds one, and
    gives it back. *)
Lemma operations_are_orderly op : orderly (E:=E) (perform op).
Proof.
  destruct op; simpl.
  - apply Update_orderly.
  - unfold runAutoUpdates. apply orderly_bind; [apply orderly_onlooking; repeat quiet_step|].
    intros [l|e]; [apply auto_loop_orderly|apply orderly_onlooking, emits_only_ret].
  - apply StartJob_orderly.
  - apply StopJob_orderly.
  - apply RestartJob_orderly.
  - apply Reconcile_orderly.
  - apply orderly_onlooking, CheckUpdates_onlooking.
  - apply orderly_onlooking, BroadcastStacks_onlooking.
Qed.
End Perform.

(** ** Runs that interleave under the mutexes *)

(** A schedule: the calls so far, each with the goroutine that made it. *)
Definition Schedule := list (nat * Ev).

(** The calls of one goroutine. *)
Definition own (i : nat) (s : Schedule) : list Ev :=
  map snd (List.filter (fun p => Nat.eqb p.1 i) s).

(** The goroutine that holds the mutex of [n]. *)
Definition holder_step (n : string) (h : option nat) (p : nat * Ev) : option nat :=
  match p.2 with
  | EvLock m => if String.eqb m n then Some p.1 else h
  | EvUnlock m => if String.eqb m n then None else h
  | _ => h
  end.

Definition holder (n : string) (s : Schedule) : option nat := fold_left (holder_step n) s None.

(** [Lock] waits until the mutex is free. *)
Definition enabled (e : Ev) (s : Schedule) : Prop :=
  match e with EvLock n => holder n s = None | _ => True end.

#[export] Instance enabled_dec e s : Decision (enabled e s).
Proof. destruct e; simpl; apply _. Defined.

(** [ran ts s rest]: the goroutines, with the calls [ts] to make, made those of
    the schedule [s] and have [rest] left. *)
Inductive ran (ts : list (list Ev)) : Schedule -> list (list Ev) -> Prop :=
| ran_none : ran ts [] ts
| ran_step s rest i e t :
    ran ts s rest -> rest !! i = Some (e :: t) -> enabled e s ->
    ran ts (s ++ [(i, e)]) (<[i := t]> rest).

(** The mutex goroutine [i] is in. *)
Definition acting (i : nat) (s : Schedule) : option string := held_after (own i s).

Lemma own_snoc i s j e : own i (s ++ [(j, e)]) = own i s ++ (if Nat.eqb j i then [e] else []).
Proof. unfold own. rewrite List.filter_app, map_app. simpl. by destruct (Nat.eqb j i). Qed.

Lemma holder_snoc n s p : holder n (s ++ [p]) = holder_step n (holder n s) p.
Proof. unfold holder. by rewrite fold_left_app. Qed.

(** What a schedule of disciplined runs keeps true. *)
Record scheduled (ts : list (list Ev)) (s : Schedule) (rest : list (list Ev)) : Prop := {
  sd_length : length rest = length ts;
  sd_bound : forall i n, acting i s = Some n -> (i < length rest)%nat;
  sd_split : forall i t, rest !! i = Some t -> ts !! i = Some (own i s ++ t);
  sd_held : forall i t, rest !! i = Some t ->
    lock_run None (own i s) = Some (acting i s) /\ lock_run (acting i s) t = Some None;
  sd_holder : forall i n, holder n s = Some i <-> acting i s = Some n
}.

Lemma lock_run_cons h e t : lock_run h (e :: t) = lock_run h [e] ≫= fun h' => lock_run h' t.
Proof. apply (lock_run_app h [e] t). Qed.

Lemma lock_run_one h e h' :
  lock_run h [e] = Some h' ->
  match e with
  | EvLock n => h = None /\ h' = Some n
  | EvUnlock n => h = Some n /\ h' = None
  | _ => h' = h /\ (mutates e = true -> is_Some h)
  end.
Proof.
  destruct e as [| | | | | | | | | | | | | | |n|n]; simpl; try (intros [= <-]; done).
  all: try (destruct h as [m|]; simpl; intros [= <-]; done).
  destruct h as [m|]; [|done]. destruct (String.eqb_spec m n) as [->|]; [|done]. by intros [= <-].
Qed.

Lemma scheduled_none ts : Forall disciplined ts -> scheduled ts [] ts.
Proof.
  intros Hts. split; [done|done|done| |done]. intros i t Ht. split; [done|].
  by apply (Forall_lookup_1 _ _ _ _ Hts Ht).
Qed.

Lemma acting_other i j s e : j <> i -> acting i (s ++ [(j, e)]) = acting i s.
Proof.
  intros Hne. unfold acting. rewrite own_snoc. apply Nat.eqb_neq in Hne. by rewrite Hne, app_nil_r.
Qed.

Lemma scheduled_step ts s rest i e t :
  scheduled ts s rest -> rest !! i = Some (e :: t) -> enabled e s ->
  scheduled ts (s ++ [(i, e)]) (<[i := t]> rest).
Proof.
  intros [Hlen Hbound Hsplit Hheld Hholder] Hi Hen.
  destruct (Hheld i _ Hi) as [Hown Hrest]. rewrite lock_run_cons in Hrest.
  destruct (lock_run (acting i s) [e]) as [h'|] eqn:Hone; [|done]. simpl in Hrest.
  assert (Hown' : lock_run None (own i (s ++ [(i, e)])) = Some h').
  { rewrite own_snoc, Nat.eqb_refl, lock_run_app, Hown. exact Hone. }
  assert (Hact : acting i (s ++ [(i, e)]) = h') by (unfold acting, held_after; by rewrite Hown').
  assert (Hlt : (i < length rest)%nat) by (eapply lookup_lt_Some; exact Hi).
  split.
  - by rewrite length_insert.
  - intros j n. rewrite length_insert. destruct (decide (j = i)) as [->|Hne]; [done|].
    rewrite acting_other by congruence. apply Hbound.
  - intros j u Hj. destruct (decide (j = i)) as [->|Hne].
    + rewrite list_lookup_insert_eq in Hj by done. injection Hj as <-.
      rewrite (Hsplit i _ Hi), own_snoc, Nat.eqb_refl, <- app_assoc. done.
    + rewrite list_lookup_insert_ne in Hj by done. rewrite own_snoc.
      assert (Hb : Nat.eqb i j = false) by (apply Nat.eqb_neq; congruence). rewrite Hb, app_nil_r. by apply Hsplit.
  - intros j u Hj. destruct (decide (j = i)) as [->|Hne].
    + rewrite list_lookup_insert_eq in Hj by done. injection Hj as <-. rewrite Hact. done.
    + rewrite list_lookup_insert_ne in Hj by done. rewrite acting_other by congruence.
      rewrite own_snoc. assert (Hb : Nat.eqb i j = false) by (apply Nat.eqb_neq; congruence).
      rewrite Hb, app_nil_r. by apply Hheld.
  - intros j n. rewrite holder_snoc. apply lock_run_one in Hone.
    destruct (decide (j = i)) as [->|Hne].
    + rewrite Hact. destruct e as [| | | | | | | | | | | | | | |m|m]; simpl in *;
        try (destruct Hone as [-> _]; apply Hholder); unfold holder_step; simpl.
      * destruct Hone as [Hn ->]. destruct (String.eqb_spec m n) as [->|Hmn]; [done|].
        rewrite Hholder, Hn. naive_solver.
      * destruct Hone as [Hn ->]. destruct (String.eqb_spec m n) as [->|Hmn]; [done|].
        rewrite Hholder, Hn. naive_solver.
    + rewrite acting_other by congruence. rewrite <- Hholder.
      destruct e as [| | | | | | | | | | | | | | |m|m]; unfold holder_step; simpl; try done.
      * destruct (String.eqb_spec m n) as [->|Hmn]; [|done]. simpl in Hen. rewrite Hen. naive_solver.
      * destruct (String.eqb_spec m n) as [->|Hmn]; [|done]. destruct Hone as [Hn _].
        apply Hholder in Hn. rewrite Hn. naive_solver.
Qed.

Lemma ran_scheduled ts s rest : Forall disciplined ts -> ran ts s rest -> scheduled ts s rest.
Proof.
  intros Hts. induction 1 as [|s rest i e t _ IH Hi Hen]; [by apply scheduled_none|by apply scheduled_step].
Qed.

(** A goroutine can go on, unless all are done. *)
Lemma scheduled_progress ts s rest i e t :
  scheduled ts s rest -> rest !! i = Some (e :: t) ->
  exists j e' t', rest !! j = Some (e' :: t') /\ enabled e' s.
Proof.
  intros Hs Hi. destruct (decide (enabled e s)) as [Hen|Hno]; [eauto|].
  destruct e as [| | | | | | | | | | | | | | |n|n]; simpl in Hno; try done.
  destruct (holder n s) as [j|] eqn:Hj; [|done]. apply (sd_holder _ _ _ Hs) in Hj.
  destruct (lookup_lt_is_Some_2 rest j) as [u Hu]; [by eapply (sd_bound _ _ _ Hs)|].
  destruct (sd_held _ _ _ Hs j u Hu) as [_ Hrun]. rewrite Hj in Hrun.
  destruct u as [|e' u]; [done|]. exists j, e', u. split; [done|].
  by destruct e'.
Qed.

Definition calls_left (rest : list (list Ev)) : nat := sum_list_with length rest.

Lemma calls_left_insert rest i e t :
  rest !! i = Some (e :: t) -> calls_left rest = S (calls_left (<[i := t]> rest)).
Proof.
  revert i. induction rest as [|u rest IH]; intros [|i]; simpl; try done.
  - by intros [= ->].
  - intros Hi. unfold calls_left in *. simpl. rewrite (IH i Hi). lia.
Qed.

Lemma calls_left_none rest : calls_left rest = 0%nat -> rest = replicate (length rest) [].
Proof.
  induction rest as [|u rest IH]; unfold calls_left in *; simpl; [done|]. intros Hz.
  destruct u; simpl in *; [|lia]. by rewrite <- IH.
Qed.

Lemma calls_left_some rest : calls_left rest <> 0%nat -> exists i e t, rest !! i = Some (e :: t).
Proof.
  induction rest as [|[|e u] rest IH]; unfold calls_left in *; simpl; intros Hz; [done| |by exists 0%nat, e, u].
  destruct (IH Hz) as (i & e & t & Hi). by exists (S i), e, t.
Qed.

Section Exclusion.
Context {E : Type} `{!Env E} `{!DockerCodecs}.

(** The calls of one run of one operation, from any state and in any environment. *)
Definition run_of (t : list Ev) : Prop :=
  exists op (w : World E), w_trace (perform op w).1 = w_trace w ++ t.

Lemma run_of_fresh op (w : World E) : w_trace w = [] -> run_of (w_trace (perform op w).1).
Proof. intros Hw. exists op, w. by rewrite Hw. Qed.

Lemma run_of_disciplined t : run_of t -> disciplined t.
Proof.
  intros (op & w & Ht). destruct (operations_are_orderly op w) as (t' & Ht' & Hd).
  rewrite Ht in Ht'. by apply app_inv_head in Ht' as ->.
Qed.

(** C3. However updates, automatic updates, lifecycle actions of a container and
    reconciliations interleave, no two of them hold the mutex of the same
    container, and each changes containers only while it holds one. *)
Theorem operations_exclude_each_other ts s rest :
  Forall run_of ts -> ran ts s rest ->
  (forall i j n, acting i s = Some n -> acting j s = Some n -> i = j) /\
  (forall i e t, rest !! i = Some (e :: t) -> mutates e = true -> is_Some (acting i s)).
Proof.
  intros Hts Hr. assert (Hs : scheduled ts s rest)
    by (apply ran_scheduled; [eapply Forall_impl; [exact Hts|apply run_of_disciplined]|done]).
  split.
  - intros i j n Hi Hj. apply (sd_holder _ _ _ Hs) in Hi, Hj. congruence.
  - intros i e t Hi Hm. destruct (sd_held _ _ _ Hs i _ Hi) as [_ Hrun]. rewrite lock_run_cons in Hrun.
    destruct (lock_run (acting i s) [e]) as [h|] eqn:Hone; [|done]. apply lock_run_one in Hone.
    destruct e; try done; by apply Hone.
Qed.

(** C4. The mutexes never block a set of operations for good: whatever ran so
    far, the rest can run to its end, and a state in which no goroutine can go
    on is one in which all are done. *)
Theorem operations_never_deadlock ts s rest :
  Forall run_of ts -> ran ts s rest ->
  (exists s', ran ts (s ++ s') (replicate (length ts) [])) /\
  ((forall i e t, rest !! i = Some (e :: t) -> ~ enabled e s) -> rest = replicate (length ts) []).
Proof.
  intros Hts Hr. assert (Hd : Forall disciplined ts) by (eapply Forall_impl; [exact Hts|apply run_of_disciplined]).
  split.
  - remember (calls_left rest) as k eqn:Hk. revert s rest Hr Hk. induction k as [|k IH]; intros s rest Hr Hk.
    + exists []. rewrite app_nil_r, <- (sd_length _ _ _ (ran_scheduled _ _ _ Hd Hr)), <- calls_left_none; done.
    + destruct (calls_left_some rest) as (i & e & t & Hi); [lia|].
      destruct (scheduled_progress _ _ _ _ _ _ (ran_scheduled _ _ _ Hd Hr) Hi) as (j & e' & t' & Hj & Hen).
      destruct (IH _ _ (ran_step _ _ _ _ _ _ Hr Hj Hen)) as (s' & Hs').
      { apply calls_left_insert in Hj. lia. }
      exists ((j, e') :: s'). by rewrite cons_middle, app_assoc.
  - intros Hstuck. pose proof (ran_scheduled _ _ _ Hd Hr) as Hs. rewrite <- (sd_length _ _ _ Hs).
    apply calls_left_none. destruct (decide (calls_left rest = 0%nat)) as [|Hz]; [done|].
    destruct (calls_left_some rest Hz) as (i & e & t & Hi).
    destruct (scheduled_progress _ _ _ _ _ _ Hs Hi) as (j & e' & t' & Hj & Hen). by destruct (Hstuck j e' t' Hj).
Qed.
End Exclusion.

(** ** Which mutex, and which container *)

(** A run that takes the mutex of [n] once, makes the calls [inside] under it,
    and before and after it changes no container and takes no mutex. *)
Definition bracketed (n : string) (inside : list Ev -> Prop) (t : list Ev) : Prop :=
  exists t1 t2 t3, t = t1 ++ EvLock n :: t2 ++ EvUnlock n :: t3 /\ Forall onlooking t1 /\ Forall onlooking t3
    /\ Forall (fun e => is_lock e = false) t2 /\ inside t2.

(** The name an inspection of [ref] resolves it to. *)
Definition resolved (ref : string) (r : result InspectResponse) : string :=
  match r with Ok insp => TrimPrefix (in_Name insp) "/" | Fail _ => ref end.

(** An action inspected [id] and made the one call [act] on it, under the mutex
    of the name it found. *)
Definition acted (id : string) (act : option error -> Ev) (t : list Ev) : Prop :=
  exists t1 r t2, t = t1 ++ EvInspect id r :: t2 /\ Forall onlooking t1
    /\ bracketed (resolved id r) (fun inside => exists e, inside = [act e]) t2.

Section Names.
Context {E : Type} `{!Env E} `{!DockerCodecs}.

(** A run that returns and only looks. *)
Definition looks_on {A} (m : M E A) : Prop := emits m (fun o t => (exists a, o = Ret a) /\ Forall onlooking t).

Lemma looks_on_call {A} (op : E -> E * A) ev : (forall r, Forall onlooking (ev r)) -> looks_on (call op ev).
Proof. intros Hev. apply emits_call. intros r. split; [eauto|apply Hev]. Qed.

Lemma looks_on_sql {A} (s : Sql A) : looks_on (sql (E:=E) s).
Proof. apply emits_sql. intros r. split; [eauto|constructor]. Qed.

Lemma looks_on_no_panic {A} (m : M E A) : emits_only m onlooking -> no_panic m -> looks_on m.
Proof. intros Hm Hn w. destruct (Hm w) as (t & ? & ?), (Hn w) as [a ?]. eauto 6. Qed.

Lemma bracketed_before {A B} n inside (m : M E A) (k : A -> M E B) :
  looks_on m -> (forall a, emits (k a) (fun _ => bracketed n inside)) -> emits (m ≫= k) (fun _ => bracketed n inside).
Proof.
  intros Hm Hk. eapply emits_bind; [exact Hm|by intros s t ([a ?] & _)|]. intros a t0 (_ & H0).
  eapply emits_mono; [apply Hk|]. intros o t (t1 & t2 & t3 & -> & H1 & Hrest). exists (t0 ++ t1), t2, t3.
  split; [by rewrite <- app_assoc|]. split; [by apply Forall_app|done].
Qed.

Lemma bracketed_after {A B} n inside (m : M E A) (k : A -> M E B) :
  emits m (fun _ => bracketed n inside) -> (forall a, emits_only (k a) onlooking) ->
  emits (m ≫= k) (fun _ => bracketed n inside).
Proof.
  intros Hm Hk. eapply emits_bind; [exact Hm|done|]. intros a t (t1 & t2 & t3 & -> & H1 & H3 & Hrest).
  eapply emits_mono; [apply Hk|]. intros o t4 H4. exists t1, t2, (t3 ++ t4).
  split; [by rewrite <- !app_assoc; simpl; rewrite <- !app_assoc|]. split; [done|]. split; [by apply Forall_app|done].
Qed.

Lemma bracketed_locked {A} n inside (m : M E A) :
  lockfree m -> emits m (fun _ => inside) -> emits (locked n m) (fun _ => bracketed n inside).
Proof.
  intros Hl Hm. apply emits_locked. eapply emits_mono; [exact (emits_and _ _ _ Hl Hm)|]. intros o t [H1 H2].
  exists [], t, []. repeat split; [constructor..|exact H1|exact H2].
Qed.

Lemma bracketed_job n inside id kind target fn :
  emits (fn (emit_job id kind target)) (fun _ => bracketed n inside) ->
  emits (jobWithID (E:=E) id kind target fn) (fun _ => bracketed n inside).
Proof.
  intros Hfn. unfold jobWithID. apply bracketed_before.
  - apply looks_on_no_panic; [apply emit_job_onlooking|]. unfold emit_job, track, publish. open_calls. repeat no_panic_step.
  - intros _. apply bracketed_after; [exact Hfn|]. intros err. apply job_end_onlooking.
Qed.

Lemma acted_before {A B} id act (m : M E A) (k : A -> M E B) :
  looks_on m -> (forall a, emits (k a) (fun _ => acted id act)) -> emits (m ≫= k) (fun _ => acted id act).
Proof.
  intros Hm Hk. eapply emits_bind; [exact Hm|by intros s t ([a ?] & _)|]. intros a t0 (_ & H0).
  eapply emits_mono; [apply Hk|]. intros o t (t1 & r & t2 & -> & H1 & H2). exists (t0 ++ t1), r, t2.
  split; [by rewrite <- app_assoc|]. split; [by apply Forall_app|done].
Qed.

Lemma acted_after {A B} id act (m : M E A) (k : A -> M E B) :
  emits m (fun _ => acted id act) -> (forall a, emits_only (k a) onlooking) -> emits (m ≫= k) (fun _ => acted id act).
Proof.
  intros Hm Hk. eapply emits_bind; [exact Hm|done|].
  intros a t (t0 & r & ? & -> & H0 & t1 & t2 & t3 & -> & H1 & H3 & Hrest).
  eapply emits_mono; [apply Hk|]. intros o t4 H4. exists t0, r, (t1 ++ EvLock (resolved id r) :: t2 ++ EvUnlock (resolved id r) :: t3 ++ t4).
  split; [repeat (rewrite <- app_assoc; simpl); done|]. split; [done|].
  exists t1, t2, (t3 ++ t4). split; [done|]. split; [done|]. split; [by apply Forall_app|done].
Qed.

Lemma action_job_acts kind id act (m : M E (option error)) :
  lockfree m -> emits m (fun _ t => exists e, t = [act e]) ->
  emits (job kind id (fun _ => withContainerLock id m)) (fun _ => acted id act).
Proof.
  intros Hl Hm. unfold job. apply acted_before; [by apply looks_on_call; intros; constructor|]. intros jid.
  unfold jobWithID. apply acted_before.
  { apply looks_on_no_panic; [apply emit_job_onlooking|]. unfold emit_job, track, publish. open_calls. repeat no_panic_step. }
  intros _. apply acted_after; [|intros err; apply job_end_onlooking].
  unfold withContainerLock, ContainerInspect.
  eapply (emits_bind _ _ (fun o t => exists r, o = Ret r /\ t = [EvInspect id r])).
  { apply emits_call. eauto. }
  { by intros s t (r & ? & _). }
  intros r t (r' & [= <-] & ->). fold (resolved id r).
  eapply emits_mono; [apply (bracketed_locked (resolved id r)); [exact Hl|exact Hm]|].
  intros o t Ht. exists [], r, t. split; [done|]. split; [constructor|exact Ht].
Qed.

Lemma update_job_bracketed mc id emit :
  (forall phase msg, emits_only (E:=E) (emit phase msg) onlooking) ->
  emits (update_job mc id emit) (fun _ => bracketed (mc_ContainerName mc) (fun _ => True)).
Proof.
  intros Hemit. unfold update_job. apply bracketed_after.
  - unfold doUpdate. apply bracketed_locked; [|].
    + apply update_locked_lockfree. intros phase msg. unfold record_step. repeat (apply Hemit || quiet_step).
    + eapply emits_mono; [apply (update_locked_lockfree (record_step id emit))|done].
      intros phase msg. unfold record_step. repeat (apply Hemit || quiet_step).
  - intros r. open_calls. repeat (apply finishJob_onlooking || quiet_step).
Qed.

(** C33. Starting, stopping or restarting a container inspects it, takes the
    mutex of the name the daemon gives it, makes its one call on that container
    under it and gives the mutex back; an update takes the mutex of the managed
    container's name, once, and gives it back. Outside the mutex neither changes
    a container, and neither takes another mutex. *)
Theorem operations_lock_by_name :
  (forall id, emits (StartJob (E:=E) id) (fun _ => acted id (EvStart id))) /\
  (forall id, emits (StopJob (E:=E) id) (fun _ => acted id (EvStop id))) /\
  (forall id, emits (RestartJob (E:=E) id) (fun _ => acted id (EvRestart id))) /\
  (forall managedID (w : World E) mc, (ResolveManaged managedID w).2 = Ret (Ok mc) ->
     exists t, w_trace (Update managedID w).1 = w_trace w ++ t
               /\ bracketed (mc_ContainerName mc) (fun _ => True) t).
Proof.
  repeat split.
  - intros id. apply action_job_acts; unfold Start, lockfree; open_calls; [repeat quiet_step|]. apply emits_call. eauto.
  - intros id. apply action_job_acts; unfold Stop, awaitNotRunning, lockfree; open_calls; [repeat quiet_step|].
    eapply (emits_bind _ _ (fun o t => (exists r, o = Ret r) /\ exists e, t = [EvStop id e])); [apply emits_call; eauto|
      by intros s t ([r ?] & _)|].
    intros [e|] t (_ & e' & ->); [apply emits_ret; eauto|].
    eapply (emits_bind _ _ (fun o t => t = [])); [by apply emits_call|by intros s t ->; eauto|].
    intros o t ->. apply emits_ret. eauto.
  - intros id. apply action_job_acts; unfold Restart, lockfree; open_calls; [repeat quiet_step|]. apply emits_call. eauto.
  - intros managedID w mc Hr.
    assert (Hq : emits_only (E:=E) (ResolveManaged managedID) (fun _ => False))
      by (unfold ResolveManaged; repeat emits_step).
    destruct (Hq w) as (t1 & Ht1 & H1).
    assert (t1 = []) as -> by (destruct t1 as [|e t1]; [done|by inversion H1]). rewrite app_nil_r in Ht1.
    unfold Update. destruct (ResolveManaged managedID w) as [w1 o] eqn:Ew. simpl in Hr, Ht1. subst o.
    rewrite (bind_run _ _ _ _ _ Ew), <- Ht1. cbv beta iota.
    match goal with |- exists t, w_trace (?m w1).1 = _ /\ _ =>
      enough (Hm : emits m (fun _ => bracketed (mc_ContainerName mc) (fun _ => True))) by apply Hm end.
    apply bracketed_before; [by apply looks_on_call; intros; constructor|]. intros id.
    apply bracketed_before.
    { apply looks_on_no_panic; unfold unixNow, Now; [repeat quiet_step|repeat no_panic_step]. }
    intros now. apply bracketed_before; [apply looks_on_sql|]. intros _.
    apply bracketed_job, update_job_bracketed. apply emit_job_onlooking.
Qed.
End Names.

(** ** What takes no mutex, or another one *)
Section Unguarded.
Context {E : Type} `{!Env E} `{!DockerCodecs}.

Lemma job_lockfree kind target fn :
  (forall emit, lockfree (E:=E) (fn emit)) -> lockfree (job kind target fn).
Proof.
  intros Hfn. unfold lockfree, job, genID.
  apply emits_only_bind; [repeat quiet_step|]. intros id. unfold jobWithID.
  apply emits_only_bind; [eapply emits_only_mono; [apply emit_job_onlooking|by intros e [_ ?]]|].
  intros _. apply emits_only_bind; [apply Hfn|]. intros err.
  eapply emits_only_mono; [apply job_end_onlooking|by intros e [_ ?]].
Qed.

(** The actions on a whole stack take no mutex at all. *)
Theorem stack_actions_take_no_mutex stackID :
  lockfree (E:=E) (StartStackJob stackID) /\ lockfree (E:=E) (StopStackJob stackID)
  /\ lockfree (E:=E) (RestartStackJob stackID) /\ lockfree (E:=E) (BringUpStackJob stackID).
Proof.
  repeat split; apply job_lockfree; intros _; unfold lockfree.
  - unfold StartStack, containerIDsInStack. open_calls. repeat quiet_step.
  - unfold StopStack, containerIDsInStack, Stop, awaitNotRunning. open_calls. repeat quiet_step.
  - unfold RestartStack, containerIDsInStack. open_calls. repeat quiet_step.
  - unfold BringUpStack, bring_up. open_calls.
    repeat (apply recreate_lockfree || quiet_step
            || (eapply emits_only_mono; [apply BroadcastStacks_onlooking|by intros e [_ ?]])).
Qed.
End Unguarded.

(** ** Instances at concrete inputs *)

(** Let the goroutines of [picks] make their next calls, in that order. *)
Fixpoint play (picks : list nat) (s : Schedule) (rest : list (list Ev)) : option (Schedule * list (list Ev)) :=
  match picks with
  | [] => Some (s, rest)
  | i :: picks' =>
      match rest !! i with
      | Some (e :: t) =>
          if bool_decide (enabled e s) then play picks' (s ++ [(i, e)]) (<[i := t]> rest) else None
      | _ => None
      end
  end.

Lemma play_ran ts picks s rest s' rest' :
  ran ts s rest -> play picks s rest = Some (s', rest') -> ran ts s' rest'.
Proof.
  revert s rest. induction picks as [|i picks IH]; intros s rest Hr; simpl; [by intros [= <- <-]|].
  destruct (rest !! i) as [[|e t]|] eqn:Hi; [done| |done]. case_bool_decide as He; [|done].
  apply IH. by apply ran_step.
Qed.

(** An update of nginx and an action on it, from the same state. *)
Definition demo_runs : list (list Ev) :=
  [w_trace (perform (E:=Sim) (OpUpdate (mc_ID demo_checked)) demo_update).1;
   w_trace (perform (E:=Sim) (OpStop "nginx") demo_update).1].

Definition demo_played (picks : list nat) : Schedule * list (list Ev) := default ([], []) (play picks [] demo_runs).

Lemma demo_runs_of : Forall (run_of (E:=Sim)) demo_runs.
Proof. apply Forall_cons; split; [by apply run_of_fresh|]. apply Forall_cons; split; [by apply run_of_fresh|]. apply Forall_nil, I. Qed.

(** The update parked the container; the action waits for the mutex. *)
Definition demo_picks : list nat := [0; 1; 1; 0; 0; 0; 0; 0; 0]%nat.

Definition demo_schedule : Schedule := (demo_played demo_picks).1.
Definition demo_rest : list (list Ev) := (demo_played demo_picks).2.

Lemma demo_ran : ran demo_runs demo_schedule demo_rest.
Proof.
  apply (play_ran demo_runs demo_picks [] demo_runs); [constructor|].
  unfold demo_schedule, demo_rest, demo_played. vm_compute. reflexivity.
Qed.

Lemma demo_acting : acting 0 demo_schedule = Some "nginx".
Proof. vm_compute. reflexivity. Qed.

(** The calls of a run are shown by what they do. *)
Definition next_call (i : nat) (rest : list (list Ev)) : option Ev := rest !! i ≫= head.

Lemma demo_waits : next_call 1 demo_rest = Some (EvLock "nginx") /\ holder "nginx" demo_schedule = Some 0%nat.
Proof. split; vm_compute; reflexivity. Qed.

Lemma operations_exclude_each_other_witness :
  next_call 1 demo_rest = Some (EvLock "nginx") /\ holder "nginx" demo_schedule = Some 0%nat
  /\ forall j, acting j demo_schedule = Some "nginx" -> j = 0%nat.
Proof.
  destruct (operations_exclude_each_other demo_runs demo_schedule demo_rest demo_runs_of demo_ran) as [Hx _].
  destruct demo_waits as [Hw Hh]. split; [exact Hw|]. split; [exact Hh|].
  intros j Hj. exact (Hx j 0%nat "nginx" Hj demo_acting).
Defined.

Lemma operations_never_deadlock_witness :
  exists s', ran demo_runs (demo_schedule ++ s') [[]; []].
Proof.
  destruct (operations_never_deadlock demo_runs demo_schedule demo_rest demo_runs_of demo_ran) as [Hx _].
  exact Hx.
Defined.

Lemma demo_resolves : (ResolveManaged (E:=Sim) (mc_ID demo_checked) demo_update).2 = Ret (Ok demo_checked).
Proof. vm_cast_no_check (@eq_refl (outcome (result ManagedContainer)) (Ret (Ok demo_checked))). Qed.

Lemma operations_lock_by_name_witness :
  exists t, w_trace (Update (E:=Sim) (mc_ID demo_checked) demo_update).1 = w_trace demo_update ++ t
            /\ bracketed "nginx" (fun _ => True) t.
Proof.
  exact (proj2 (proj2 (proj2 operations_lock_by_name)) (mc_ID demo_checked) demo_update demo_checked demo_resolves).
Defined.

(** The daemon in the middle of that update: c1 is parked and stopped. *)
Definition demo_parked : World Sim :=
  set_env demo_update
    (sim_with (w_env demo_update) [with_name ("/" +:+ "nginx" +:+ oldSuffix) (with_state (down 0) (demo_live "c1" "nginx" up))] 7).

(** An update that has parked and stopped c1, and [others] before their first call. *)
Definition demo_swap_with (others : list (list Ev)) (picks : list nat) : option (Schedule * list (list Ev)) :=
  play (replicate 9 0%nat ++ picks) []
    (w_trace (perform (E:=Sim) (OpUpdate (mc_ID demo_checked)) demo_update).1 :: others).

Definition shows {A} (r : option (Schedule * list (list Ev))) (f : Schedule -> list (list Ev) -> A) : option A :=
  match r with Some (s, rest) => Some (f s rest) | None => None end.

(** [withContainerLock] names the mutex after the container's name of the
    moment. An action on the id of a container that an update has parked takes
    the mutex of "nginx__veery_old", which is free, and starts the old container
    again while the update, under the mutex of "nginx", creates its successor. *)
Theorem parked_container_escapes_its_mutex :
  shows (demo_swap_with [w_trace (StartJob (E:=Sim) "c1" demo_parked).1] [1; 1; 1]%nat)
    (fun s rest => (acting 0 s, acting 1 s, next_call 1 rest))
  = Some (Some "nginx", Some "nginx__veery_old", Some (EvStart "c1" None)).
Proof. vm_compute. reflexivity. Qed.

(** Bringing the stack up in the same moment takes no mutex: it does not find
    nginx, creates it from its snapshot on the old image, and so takes the name
    the update is about to create. *)
Theorem bring_up_interferes_with_an_update :
  shows (demo_swap_with [w_trace (BringUpStackJob (E:=Sim) "web" demo_parked).1] [1; 1]%nat)
    (fun s rest => (acting 0 s, acting 1 s,
       match next_call 1 rest with Some (EvCreate n _ _ _ (Ok _)) => Some n | _ => None end))
  = Some (Some "nginx", None, Some "nginx").
Proof. vm_compute. reflexivity. Qed.
