(* ===== verification/Pollers.v ===== *)
(** * The background loops (src/cmd/veery/main.go, and the pollers of
    src/internal/docker and src/internal/raidwatch)

    A loop waits on a timer until its context is cancelled: [every] is such a
    loop, run for at most a number of rounds. The metrics loop puts the parts
    together that read the host, the arrays, the containers and the settings. *)
From S2P Require Import Prelude GoStrings Float64 Api Db Docker World Sim StoreDocker StoreSettings StoreMdadm Stateful.
From S2P Require Import Regex Disks Stats Mdstat RaidWatch Status Snapshot Notices Listing Jobs Identity UpdateCheck.
From S2P Require Import Reconcile Swap SelfUpdate.
Open Scope Z_scope.

(** [select] on a timer of this many nanoseconds and on [ctx.Done()]: whether
    the timer fired. *)
Class Timers (E : Type) := { tm_Fires : Z -> E -> E * bool }.

(** raidwatch's [New]: the watcher reads the host's arrays and starts its scrubs
    through mdadm.go. Reading never panics (Mdstat.ScanMdadm_returns). *)
#[export] Instance mdadm_raid {E} `{!FilesEnv E} : RaidEnv E | 10 := {
  md_scan e := let r := ScanMdadm e in (r.1, default [] r.2);
  md_start name e := let r := StartMdadmCheck name e in (r.1, default None r.2)
}.

Section Loops.
Context {E : Type} `{!Env E} `{!Timers E}.

(** At most [n] rounds of the loop; [true]: it returned. *)
Fixpoint every {S} (n : nat) (interval : M E Z) (body : SM S E unit) : SM S E bool :=
  match n with
  | O => mret false
  | S n' =>
      d ← lift interval;
      fired ← lift (call (tm_Fires d) (fun _ => []));
      if (fired : bool) then _ ← body; every n' interval body
      else mret true
  end.

(** What holds before a round holds after any number of them. *)
Lemma wp_every {S} (I : S -> World E -> Prop) n interval (body : SM S E unit) s w :
  observes interval -> (forall s w e, I s w -> I s (set_env w e)) ->
  (forall s w, I s w -> wp (body s) (fun o w' => exists s', o = Ret (s', tt) /\ I s' w') w) ->
  I s w -> wp (every n interval body s) (fun o w' => exists s' b, o = Ret (s', b) /\ I s' w') w.
Proof.
  intros Hint Henv Hbody. revert s w. induction n as [|n IH]; intros s w HI; cbn [every].
  - apply wp_sret. eauto.
  - apply wp_sbind, wp_lift, wp_observes; [done|]. intros e d _. cbn [fst snd].
    apply wp_sbind, wp_lift, wp_call. intros e' fired _. rewrite log_nil. cbn [fst snd].
    destruct fired; [|apply wp_sret; eauto 6].
    apply wp_sbind. eapply wp_mono; [by apply Hbody, Henv, Henv|]. intros o w' (s' & -> & HI'). by apply IH.
Qed.

Lemma spreserves_every {S} (I : S -> Prop) P n interval (body : SM S E unit) :
  preserves P interval -> spreserves I P body -> spreserves I P (every n interval body).
Proof. intros Hi Hb. induction n as [|n IH]; cbn [every]; repeat spreserves_step; done. Qed.
End Loops.

(** ** The loops over services and arrays *)
Section Pollers.
Context {E : Type} `{!Env E} `{!Timers E} `{!DockerCodecs} `{!RaidCodecs} `{!RRuleEnv} `{!RaidEnv E}.

(** A loop without a state of its own. *)
Definition forever (n : nat) (interval : M E Z) (body : M E unit) : M E bool :=
  p ← every n interval (lift (S:=unit) body) tt; mret p.2.

(** [pollInterval] *)
Definition pollInterval : M E Z :=
  r ← LoadSettings;
  let secs := match r with
              | Ok cfg => if 0 <? set_PollIntervalSeconds cfg then set_PollIntervalSeconds cfg
                          else DefaultPollIntervalSeconds
              | Fail _ => DefaultPollIntervalSeconds
              end in
  mret (secs * second).

(** [pollStacks] *)
Definition pollStacks (n : nat) : M E bool :=
  _ ← BroadcastStacks;
  forever n pollInterval (_ ← Reconcile; BroadcastStacks).

(** [AutoUpdatePoller] (autoupdate.go) *)
Definition AutoUpdatePoller (n : nat) : M E bool := forever n autoUpdateInterval runAutoUpdates.

(** [UpdateCheckPoller] (updatecheck.go) *)
Definition UpdateCheckPoller (n : nat) : M E bool :=
  _ ← CheckUpdates;
  forever n autoUpdateInterval CheckUpdates.

(** [Poller] (raidwatch.go) *)
Definition sweep_now : M E unit := now ← Now; sweep now.
Definition Poller (n : nat) : M E bool :=
  _ ← sweep_now;
  forever n interval sweep_now.
End Pollers.

(** ** The metrics loop *)
Record MetricsState := { mt_col : Collector; mt_peaks : gmap string DevicePeak }.
Definition set_col (s : MetricsState) (c : Collector) : MetricsState := {| mt_col := c; mt_peaks := mt_peaks s |}.

Definition set_mdadm (h : HostMetrics) (l : list MdArray) : HostMetrics :=
  {| hm_CPUPercent := hm_CPUPercent h; hm_MemUsed := hm_MemUsed h; hm_MemTotal := hm_MemTotal h;
     hm_Disks := hm_Disks h; hm_DiskActivity := hm_DiskActivity h; hm_Mdadm := l |}.

Definition set_scan_info (a : MdArray) (last : Z) (failure : option MdScanFailure) : MdArray :=
  {| md_Name := md_Name a; md_Level := md_Level a; md_State := md_State a; md_DevicesTotal := md_DevicesTotal a;
     md_DevicesUp := md_DevicesUp a; md_Members := md_Members a; md_SyncAction := md_SyncAction a;
     md_SyncPercent := md_SyncPercent a; md_SyncSpeedKBs := md_SyncSpeedKBs a; md_SyncFinish := md_SyncFinish a;
     md_MismatchCnt := md_MismatchCnt a; md_LastScanAt := last; md_ScanFailure := failure |}.

Section Metrics.
Context {E : Type} `{!Env E} `{!Timers E} `{!Gopsutil E} `{!FilesEnv E} `{!DockerStats E} `{!Arch}
  `{!DockerCodecs} `{!RaidCodecs} `{!JsonCodec (gmap string DevicePeak)}.

(** The peaks are raised, and stored when that changed one. *)
Definition raise_peaks (devices : list DeviceIO) : SM MetricsState E unit :=
  s ← state;
  let '(peaks, changed) := UpdatePeaks (mt_peaks s) devices in
  _ ← put_state {| mt_col := mt_col s; mt_peaks := peaks |};
  if (changed : bool) then _ ← lift (SaveDiskPeaks peaks); mret tt else mret tt.

(** The arrays, with what the store knows of their scrubs. *)
Definition raid_metrics : M E (list MdArray) :=
  r ← call ScanMdadm (fun _ => []);
  match r with
  | None => panic "index out of range"
  | Some [] => mret []
  | Some arrays =>
      r ← LoadMdadmLastScan;
      let arrays := match r with
                    | Ok lastScan => map (fun a => set_scan_info a (default 0 (lastScan !! md_Name a)) (md_ScanFailure a)) arrays
                    | Fail _ => arrays
                    end in
      r ← LoadMdadmScanFailures;
      mret match r with
           | Ok failures => map (fun a => match failures !! md_Name a with
                                          | Some f => set_scan_info a (md_LastScanAt a) (Some f)
                                          | None => a
                                          end) arrays
           | Fail _ => arrays
           end
  end.

(** One round of [pollMetrics]. *)
Definition metrics_tick : SM MetricsState E unit :=
  sample ← zoom mt_col set_col Collector_Sample;
  _ ← raise_peaks (sa_Devices sample);
  r ← lift LoadDiskVisibility;
  let vis := match r with Ok v => v | Fail _ => ∅ end in
  s ← state;
  let host := BuildHostMetrics sample vis (mt_peaks s) in
  arrays ← lift raid_metrics;
  r ← lift ContainerStats;
  let containers := match r with Ok l => l | Fail _ => [] end in
  now ← lift unixNow;
  lift (tell [EvBroadcast (WSMetrics {| mss_Host := set_mdadm host arrays; mss_Containers := containers; mss_At := now |})]).

(** [pollMetrics]: the peaks it has when it stops, or after [n] rounds. *)
Definition pollMetrics (n : nat) : M E (MetricsState * bool) :=
  r ← LoadDiskPeaks;
  let peaks := match r with Ok p => p | Fail _ => ∅ end in
  every n pollInterval metrics_tick {| mt_col := NewCollector; mt_peaks := peaks |}.
End Metrics.

(** ** What the metrics loop tells the clients *)
Section Facts.
Context {E : Type} `{!Env E} `{!Timers E} `{!Gopsutil E} `{!FilesEnv E} `{!DockerStats E} `{!Arch}
  `{!DockerCodecs} `{!RaidCodecs} `{!JsonCodec (gmap string DevicePeak)}.

Lemma sobserves_Sample : sobserves (E:=E) Collector_Sample.
Proof.
  unfold Collector_Sample, Disks.cpuPercent, deviceIO, enumerateMounts, mount_step, listDeviceNames, Now.
  repeat (sobserves_step || case_match).
Qed.

Lemma observes_ContainerStats : observes (E:=E) ContainerStats.
Proof. unfold ContainerStats, stat_step, containerStat, ContainerList. repeat observes_step. Qed.

Lemma observes_LoadDiskVisibility : observes (E:=E) LoadDiskVisibility.
Proof. unfold LoadDiskVisibility. apply observes_loadJSON. Qed.

Lemma observes_pollInterval : observes (E:=E) pollInterval.
Proof. unfold pollInterval. apply observes_bind; [apply observes_LoadSettings|]. intros r. apply observes_ret. Qed.

(** The arrays of a snapshot are those mdadm.go reads. *)
Definition read_arrays (arrays : list MdArray) : Prop :=
  exists (e : E) l, (ScanMdadm e).2 = Some l /\ map md_Name arrays = map md_Name l.

Lemma observes_read_arrays (w : World E) :
  wp raid_metrics (fun o w' => exists e l, o = Ret l /\ w' = set_env w e /\ read_arrays l) w.
Proof.
  unfold raid_metrics. apply wp_bind, wp_call. intros e r Hr. rewrite log_nil.
  pose proof (ScanMdadm_returns (w_env w)) as [l Hl]. rewrite Hr in Hl. cbn [snd] in Hl. subst r.
  assert (Hl : (ScanMdadm (w_env w)).2 = Some l) by by rewrite Hr. clear Hr.
  destruct l as [|a l]; [apply wp_ret; exists e, []; do 2 (split; [done|]); by exists (w_env w), []|].
  apply wp_bind, wp_observes; [apply observes_getJSON|]. intros e1 last _.
  apply wp_bind, wp_observes; [apply observes_getJSON|]. intros e2 failures _. apply wp_ret.
  eexists e2, _. split; [done|]. split; [done|]. exists (w_env w), (a :: l). split; [done|].
  destruct last, failures; rewrite ?map_map; try done; apply map_ext; intros x; by case_match.
Qed.

(** Every peak is at least what it was, and what was stored, if anything, is
    the new peaks. *)
Lemma raise_peaks_spec devices s (Q : outcome (MetricsState * unit) -> World E -> Prop) w :
  (forall peaks e d, peaks_le (mt_peaks s) peaks -> (forall x, x ∈ devices -> covers peaks x) ->
     (d = w_db w \/ d = (SetSetting keyDiskPeaks (json_Marshal peaks) (w_db w)).1) ->
     Q (Ret ({| mt_col := mt_col s; mt_peaks := peaks |}, tt)) (set_db (set_env w e) d)) ->
  wp (raise_peaks devices s) Q w.
Proof.
  intros HQ. unfold raise_peaks. apply wp_sbind, wp_state. cbn [fst snd].
  pose proof (UpdatePeaks_spec (mt_peaks s) devices) as Hp. destruct (UpdatePeaks _ _) as [peaks changed].
  destruct Hp as (Hle & Hcov & _). apply wp_sbind, wp_put. cbn [fst snd]. destruct changed.
  - apply wp_sbind, wp_lift, wp_sql; intros e; [intros err|]; apply wp_sret; cbn [fst snd].
    + apply (HQ peaks e (w_db w)); auto.
    + apply (HQ peaks e); auto.
  - apply wp_sret. pose proof (HQ peaks (w_env w) (w_db w) Hle Hcov) as HQ'. destruct w. apply HQ'. auto.
Qed.

(** A round after its peaks are known, whatever they are. *)
Definition shown_within (h : HostMetrics) : Prop :=
  Forall (fun a => da_ReadBytesPerSec a <= da_ReadPeakBytesPerSec a /\ da_WriteBytesPerSec a <= da_WritePeakBytesPerSec a)
    (hm_DiskActivity h).

Lemma shown_within_covers sample vis peaks :
  (forall x, x ∈ sa_Devices sample -> covers peaks x) -> shown_within (BuildHostMetrics sample vis peaks).
Proof.
  intros Hc. unfold shown_within, BuildHostMetrics. cbn [hm_DiskActivity]. apply Forall_forall.
  intros a (d & Hd & <-)%elem_of_map. cbn [da_ReadBytesPerSec da_WriteBytesPerSec da_ReadPeakBytesPerSec da_WritePeakBytesPerSec].
  apply list_elem_of_In, filter_In in Hd as [Hd%list_elem_of_In _].
  destruct (Hc d Hd) as (q & -> & ? & ?). done.
Qed.

(** The rule for a round: its peaks, then what it tells. *)
Lemma wp_metrics_tick s (Q : outcome (MetricsState * unit) -> World E -> Prop) w :
  (forall c sample e, wp (raise_peaks (sa_Devices sample) (set_col s c)) (fun o w' => exists s', o = Ret (s', tt) /\
     forall vis arrays containers now e', read_arrays arrays ->
       Q (Ret (s', tt)) (log (set_env w' e') [EvBroadcast (WSMetrics
         {| mss_Host := set_mdadm (BuildHostMetrics sample vis (mt_peaks s')) arrays;
            mss_Containers := containers; mss_At := now |})])) (set_env w e)) ->
  wp (metrics_tick s) Q w.
Proof.
  intros HQ. unfold metrics_tick.
  apply wp_sbind, wp_zoom, wp_observes; [apply sobserves_Sample|]. intros e0 [c sample] _. cbn [fst snd].
  apply wp_sbind. eapply wp_mono; [apply HQ|]. intros o w1 (s' & -> & HT). cbn [fst snd].
  apply wp_sbind, wp_lift, wp_observes; [apply observes_LoadDiskVisibility|]. intros e2 rv _. cbn [fst snd].
  apply wp_sbind, wp_state. cbn [fst snd].
  apply wp_sbind, wp_lift. eapply wp_mono; [apply observes_read_arrays|]. intros o w2 (e3 & arrays & -> & -> & Hr). cbn [fst snd].
  apply wp_sbind, wp_lift, wp_observes; [apply observes_ContainerStats|]. intros e4 rc _. cbn [fst snd].
  apply wp_sbind, wp_lift, wp_observes; [unfold unixNow, Now; repeat observes_step|]. intros e5 now _. cbn [fst snd].
  by apply wp_lift, wp_tell, HT.
Qed.

(** One round of the metrics loop never fails and broadcasts exactly one
    snapshot, last, whatever could not be read. In it no device's throughput
    exceeds the peak shown beside it, and the arrays are those the host has. The
    peaks only rise, and nothing is stored but the new peaks. *)
Theorem metrics_tick_spec (s : MetricsState) (w : World E) :
  wp (metrics_tick s) (fun o w' => exists s' sample vis arrays containers now,
    let host := set_mdadm (BuildHostMetrics sample vis (mt_peaks s')) arrays in
    o = Ret (s', tt) /\
    w_trace w' = w_trace w ++ [EvBroadcast (WSMetrics {| mss_Host := host; mss_Containers := containers; mss_At := now |})] /\
    shown_within host /\ (length (hm_Disks host) <= maxDisks)%nat /\ read_arrays (hm_Mdadm host) /\
    peaks_le (mt_peaks s) (mt_peaks s') /\ w_mgr w' = w_mgr w /\
    (w_db w' = w_db w \/ w_db w' = (SetSetting keyDiskPeaks (json_Marshal (mt_peaks s')) (w_db w)).1)) w.
Proof.
  apply wp_metrics_tick. intros c sample e. apply raise_peaks_spec. intros peaks e1 d Hle Hcov Hd.
  cbn [mt_col mt_peaks set_col] in *. eexists. split; [done|]. intros vis arrays containers now e' Hr.
  eexists _, sample, vis, arrays, containers, now. cbv zeta. split; [done|]. split; [done|].
  split; [by apply shown_within_covers|]. split; [apply gauges_length|]. by repeat split.
Qed.
End Facts.

(** ** The peaks across a restart *)
(** Two tables of peaks agree where neither has a device at rest: what the
    dashboard shows cannot tell an unknown device from one that never moved. *)
Definition same_peaks (p q : gmap string DevicePeak) : Prop :=
  forall k, default no_peak (p !! k) = default no_peak (q !! k).

#[export] Instance same_peaks_equivalence : Equivalence same_peaks.
Proof.
  split; [by intros p k|by intros p q H k|]. intros p q r H1 H2 k. by rewrite (H1 k).
Qed.

#[export] Instance BuildHostMetrics_proper : Proper (eq ==> eq ==> same_peaks ==> eq) BuildHostMetrics.
Proof.
  intros s _ <- vis _ <- p q H. unfold BuildHostMetrics. f_equal. apply map_ext. intros d. by rewrite (H (io_Device d)).
Qed.

Lemma UpdatePeaks_unchanged peaks devices :
  (UpdatePeaks peaks devices).2 = false -> same_peaks (UpdatePeaks peaks devices).1 peaks.
Proof.
  intros Hc k. pose proof (UpdatePeaks_spec peaks devices) as Hp. destruct (UpdatePeaks _ _) as [peaks' changed].
  destruct Hp as (_ & _ & ->); [|done]. destruct (peaks !! k); [done|]. by destruct (bool_decide _).
Qed.

Section Restart.
Context {E : Type} `{!Env E} `{!Timers E} `{!Gopsutil E} `{!FilesEnv E} `{!DockerStats E} `{!Arch}
  `{!DockerCodecs} `{!RaidCodecs} `{!JsonCodec (gmap string DevicePeak)} `{!JsonCodecOk (gmap string DevicePeak)}.

Definition stored_peaks (d : DB) : gmap string DevicePeak := loaded_whole keyDiskPeaks ∅ d.

(** What is stored is what the loop has, up to devices at rest. *)
Definition in_step (s : MetricsState) (w : World E) : Prop := same_peaks (mt_peaks s) (stored_peaks (w_db w)).

Lemma raise_peaks_in_step devices s w :
  no_faults (E:=E) -> in_step s w ->
  wp (raise_peaks devices s) (fun o w' => exists s', o = Ret (s', tt) /\ in_step s' w') w.
Proof.
  intros Hn HI. unfold raise_peaks. apply wp_sbind, wp_state. cbn [fst snd].
  pose proof (UpdatePeaks_unchanged (mt_peaks s) devices) as Hp. destruct (UpdatePeaks _ _) as [peaks changed].
  cbn [fst snd] in Hp. apply wp_sbind, wp_put. cbn [fst snd]. destruct changed.
  - apply wp_sbind, wp_lift, wp_setJSON; [done|]. intros e. apply wp_sret. eexists. split; [done|].
    unfold in_step, stored_peaks. cbn [mt_peaks w_db set_db]. by rewrite loaded_whole_set.
  - apply wp_sret. eexists. split; [done|]. unfold in_step in *. cbn [mt_peaks]. etrans; [by apply Hp|exact HI].
Qed.

Lemma metrics_tick_in_step s w :
  no_faults (E:=E) -> in_step s w ->
  wp (metrics_tick s) (fun o w' => exists s', o = Ret (s', tt) /\ in_step s' w') w.
Proof.
  intros Hn HI. apply wp_metrics_tick. intros c sample e.
  eapply wp_mono; [by apply raise_peaks_in_step|]. intros o w1 (s1 & -> & HI1). exists s1. split; [done|]. intros. by exists s1.
Qed.

(** C23. The peaks survive a restart. On a store that never fails, after any
    number of rounds of the metrics loop, starting from whatever was stored,
    what is stored is what the loop has in memory as far as the dashboard can
    tell: the loop of the next process, which starts from the stored peaks,
    builds the same dashboard from the same sample. *)
Theorem peaks_survive_restart n (w : World E) (Hn : no_faults (E:=E)) :
  wp (pollMetrics n) (fun o w' => exists s stopped, o = Ret (s, stopped) /\
    forall sample vis, BuildHostMetrics sample vis (mt_peaks s) = BuildHostMetrics sample vis (stored_peaks (w_db w'))) w.
Proof.
  unfold pollMetrics. apply wp_bind, wp_loadJSON; [done|]. intros e.
  eapply wp_mono; [apply (wp_every in_step)|].
  - apply observes_pollInterval.
  - done.
  - intros s w1. by apply metrics_tick_in_step.
  - unfold in_step. cbn [mt_peaks]. done.
  - intros o w' (s & b & -> & HI). exists s, b. split; [done|]. intros sample vis. by apply BuildHostMetrics_proper.
Qed.
End Restart.

(** ** A host whose disk reads a megabyte a second *)
#[local] Instance DevicePeak_countable : Countable DevicePeak.
Proof.
  refine (inj_countable' (fun p => (pk_Read p, pk_Write p)) (fun p => {| pk_Read := p.1; pk_Write := p.2 |}) _).
  by intros [].
Defined.

#[local] Instance demo_host : Gopsutil Sim := {
  ps_Partitions e := (e, Ok []);
  ps_Usage m e := (e, Fail (errorf "no such file"));
  ps_IOCounters e := (e, Ok {["sda" := (sim_clock e / 1000, 0)]});
  ps_Times e := (e, Ok []);
  ps_VirtualMemory e := (e, Ok (0, 0))
}.

#[local] Instance demo_no_arrays : FilesEnv Sim := {
  fs_Getenv v e := "";
  fs_ReadFile p e := (e, Fail (errorf "no such file"));
  fs_WriteFile p s e := (e, Some (errorf "no such file"))
}.

#[local] Instance demo_no_stats : DockerStats Sim := {
  cli_ContainerStats id e := (e, Fail (errorf "no such container"));
  dec_Stats body := Fail (errorf "unexpected end of JSON input")
}.

#[local] Instance demo_timers : Timers Sim := { tm_Fires d e := (sim_tick e d, true) }.

#[local] Instance demo_arch : Arch := { arch_uint64 x := 0 }.

Definition two_rounds : World Sim * outcome (MetricsState * bool) :=
  pollMetrics 2 (sim_world empty_db sim_empty).

Lemma peaks_survive_restart_witness :
  (stored_peaks (w_db two_rounds.1) !! "sda" = Some {| pk_Read := 1000000; pk_Write := 0 |}) /\
  exists s stopped, two_rounds.2 = Ret (s, stopped) /\
    forall sample vis, BuildHostMetrics sample vis (mt_peaks s) = BuildHostMetrics sample vis (stored_peaks (w_db two_rounds.1)).
Proof.
  split; [vm_compute; reflexivity|]. exact (peaks_survive_restart 2 (sim_world empty_db sim_empty) sim_no_faults).
Defined.
