(* ===== verification/AuthHandlers.v ===== *)
(** * Signing in and accounts over HTTP (src/internal/server: auth_handlers.go, oidc_handlers.go)

    Every handler of the accounts side as a function of the request, on the
    server's state and the response it builds; then what holds of them together
    with the ceremonies, the OIDC flow and the store. *)
From S2P Require Import Prelude GoStrings Api Db Docker World Sim StoreAuth StoreEvents StoreSettings Notify Stateful Auth Oidc.
From S2P Require Import Http Server.
Open Scope Z_scope.

Section Handlers.
Context {E : Type} `{!Env E} `{!WebAuthn E} `{!RandEnv E} `{!OidcLib E} `{!Shoutrrr E} `{!UrlLib} `{!Calendar}
  `{!JsonCodec (gmap string bool)} `{!JsonCodec (list NotificationTarget)} `{!JsonCodec (list string)}
  `{!RequestCodecs}.
Context (srv : Server).
Abbreviation cfg := (srv_cfg srv).
Abbreviation HM := (HM E).
Abbreviation Handler := (Handler E).

Definition bad_request (err : error) : HM unit := fail StatusBadRequest (Error err).
Definition db_error (_ : error) : HM unit := fail StatusInternalServerError "db error".

(** [notifyAuth] *)
Definition notifyAuth (title userID detail : string) : HM unit :=
  u ← store (sql (GetUser userID));
  let who := match u with Ok u => u_Name u | Fail _ => userID end in
  store (server_notify srv EventAuth (title +:+ ": " +:+ who) detail).

(** [issueSession] *)
Definition issueSession (userID : string) : HM unit :=
  r ← store (NewSession userID);
  match r with
  | Fail _ => fail StatusInternalServerError "session error"
  | Ok (token, exp) => setSessionCookie cfg token exp
  end.

(** ** Passkeys *)
Definition handleRegisterBegin : Handler := fun r =>
  match dec_Enroll (rq_Body r) with
  | Fail _ => fail StatusBadRequest "bad request"
  | Ok req =>
      let_or begun := ceremonies (BeginRegistration (er_Token req) (er_Name req)) orelse bad_request in
      let '(opts, cid, _) := begun in
      _ ← setCeremonyCookie cfg cid;
      _ ← setCookie cfg inviteCookieName (er_Token req) 300;
      respond StatusOK (BCreation opts)
  end.

Definition handleRegisterFinish : Handler := fun r =>
  match ceremonyID cfg r with
  | Fail err => bad_request err
  | Ok cid =>
      match cookie cfg r inviteCookieName with
      | None => fail StatusBadRequest "no invite in progress"
      | Some invite =>
          let_or userID := ceremonies (FinishRegistration cid invite (rq_Body r)) orelse bad_request in
          _ ← notifyAuth "Passkey enrolled" userID "An invite link was redeemed and a passkey was enrolled.";
          _ ← issueSession userID;
          ok
      end
  end.

Definition handleAddDeviceBegin (u : User) : Handler := fun r =>
  let_or creds := store (sql (CredentialsByUser (u_ID u))) orelse db_error in
  let_or begun := ceremonies (BeginAddDevice (u_ID u) (u_Name u) creds) orelse bad_request in
  _ ← setCeremonyCookie cfg begun.2;
  respond StatusOK (BCreation begun.1).

Definition handleAddDeviceFinish (u : User) : Handler := fun r =>
  match ceremonyID cfg r with
  | Fail err => bad_request err
  | Ok cid =>
      let_or _tt := ceremonies (FinishAddDevice cid (u_ID u) (rq_Body r)) orelse bad_request in
      _ ← notifyAuth "Passkey added" (u_ID u) "An additional passkey was enrolled on this account.";
      ok
  end.

Definition handleLoginBegin : Handler := fun r =>
  let_or begun := ceremonies BeginLogin orelse (fun err => fail StatusInternalServerError (Error err)) in
  _ ← setCeremonyCookie cfg begun.2;
  respond StatusOK (BAssertion begun.1).

Definition handleLoginFinish : Handler := fun r =>
  match ceremonyID cfg r with
  | Fail err => bad_request err
  | Ok cid =>
      let_or userID := ceremonies (FinishLogin cid (rq_Body r))
        orelse (fun err => fail StatusUnauthorized (Error err)) in
      _ ← notifyAuth "Signed in" userID "A passkey was used to sign in.";
      _ ← issueSession userID;
      ok
  end.

(** ** The session *)
Definition handleLogout : Handler := fun r =>
  _ ← match cookie cfg r SessionCookieName with
      | Some token => _ ← store (sql (DeleteSession token)); mret tt
      | None => mret tt
      end;
  _ ← clearSessionCookie cfg;
  ok.

Definition handleMe (u : User) : Handler := fun r =>
  let_or creds := store (sql (CredentialsByUser (u_ID u))) orelse db_error in
  respond StatusOK (BSession {| si_User := u;
    si_Credentials := map (fun c => {| ac_ID := cr_ID c; ac_Name := cr_Name c; ac_CreatedAt := cr_CreatedAt c |}) creds |}).

(** ** Invites and users *)
Definition handleCreateInvite (u : User) : Handler := fun r =>
  let req := dec_CreateInvite (rq_Body r) in
  let_or made := store (NewInvite (u_ID u) "" (ci_IsAdmin req)) orelse db_error in
  let '(token, exp) := made in
  respond StatusOK (BInvite {| in_Token := token; in_IsAdmin := ci_IsAdmin req; in_ExpiresAt := exp / second;
    in_UsedAt := 0; in_URL := InviteURL (sc_Origin cfg) token; in_ForUserName := "" |}).

Definition handleListInvites : Handler := fun r =>
  now ← store unixNow;
  let_or rows := store (sql (ListPendingInvites now)) orelse db_error in
  users ← store (sql ListUsers);
  let names := fold_left (fun m u => <[u_ID u := u_Name u]> m)
                 (match users with Ok l => l | Fail _ => [] end) (∅ : gmap string string) in
  respond StatusOK (BInvites (map (fun iv =>
    {| in_Token := iv_Token iv; in_IsAdmin := iv_IsAdmin iv; in_ExpiresAt := iv_ExpiresAt iv;
       in_UsedAt := iv_UsedAt iv; in_URL := InviteURL (sc_Origin cfg) (iv_Token iv);
       in_ForUserName := default "" (names !! iv_ForUser iv) |}) rows)).

(** The user a path names, or the answer that there is none. *)
Definition with_user (id : string) (k : User -> HM unit) : HM unit :=
  let_or u := store (sql (GetUser id)) orelse (fun err =>
    if isNotFound err then fail StatusNotFound "user not found" else db_error err) in
  k u.

Definition handleResetUser (id : string) : Handler := fun r =>
  with_user id (fun u =>
    let_or made := store (NewInvite "" (u_ID u) (u_IsAdmin u)) orelse db_error in
    let '(token, exp) := made in
    respond StatusOK (BInvite {| in_Token := token; in_IsAdmin := u_IsAdmin u; in_ExpiresAt := exp / second;
      in_UsedAt := 0; in_URL := InviteURL (sc_Origin cfg) token; in_ForUserName := u_Name u |})).

Definition handleRevokeInvite (token : string) : Handler := fun r =>
  let_or _tt := store (sql (DeleteInvite token)) orelse (fun err =>
    if isNotFound err then fail StatusNotFound "invite not found" else db_error err) in
  ok.

Definition delete_user_row (id : string) : HM unit :=
  let_or _tt := store (sql (DeleteUser id)) orelse db_error in
  ok.

Definition handleDeleteUser (id : string) : Handler := fun r =>
  with_user id (fun target =>
    if u_IsAdmin target then
      let_or admins := store (sql CountAdmins) orelse db_error in
      if admins <=? 1 then fail StatusBadRequest "cannot remove the last admin"
      else delete_user_row id
    else delete_user_row id).

Definition handleListUsers : Handler := fun r =>
  let_or users := store (sql ListUsers) orelse db_error in
  respond StatusOK (BUsers users).

(** ** OIDC *)
Definition handleAuthProviders : Handler := fun r =>
  respond StatusOK (BProviders
    match srv_oidc srv with
    | Some m => if Enabled (Some m) then {| ap_OIDC := true; ap_OIDCName := Name m |}
                else {| ap_OIDC := false; ap_OIDCName := "" |}
    | None => {| ap_OIDC := false; ap_OIDCName := "" |}
    end).

(** The guard on [s.oidc.Enabled()]. *)
Definition oidcEnabled (next : Oidc.Manager -> HM unit) : HM unit :=
  match srv_oidc srv with
  | Some m => if Enabled (Some m) then next m else fail StatusNotFound "OIDC is not configured"
  | None => fail StatusNotFound "OIDC is not configured"
  end.

Definition handleOIDCStart : Handler := fun r =>
  oidcEnabled (fun m =>
    let_or started := oidc (Oidc.Start m)
      orelse (fun _ => fail StatusBadGateway "could not reach the identity provider") in
    _ ← setCookie cfg oidcStateCookieName started.2 600;
    redirect started.1).

Definition redirectOIDCError (code : string) : HM unit := redirect ("/login?error=" +:+ code).

Definition validOIDCState (r : Request) (st : string) : bool :=
  if String.eqb st "" then false
  else match cookie cfg r oidcStateCookieName with
       | None => false
       | Some want => String.eqb want st
       end.

Definition newUserID : M E string := randToken 16.

(** [syncOIDCAdmin] *)
Definition syncOIDCAdmin (m : Oidc.Manager) (u : User) (ident : Identity) : M E unit :=
  if negb (HasAdminGroups m) then mret tt
  else
    let want := IsAdmin m (id_Groups ident) in
    if Bool.eqb (u_IsAdmin u) want then mret tt
    else
      last ← (if want then mret false
              else n ← sql CountAdmins; mret (match n with Ok n => n <=? 1 | Fail _ => false end));
      if (last : bool) then mret tt
      else _ ← sql (SetUserAdmin (u_ID u) want); mret tt.

(** [resolveOIDCUser] *)
Definition provision (m : Oidc.Manager) (ident : Identity) : M E (result string) :=
  n ← sql CountUsers;
  let isAdmin := IsAdmin m (id_Groups ident) || match n with Ok n => n =? 0 | Fail _ => false end in
  let name := if String.eqb (id_Name ident) "" then id_Email ident else id_Name ident in
  uid ← newUserID;
  at_ ← unixNow;
  let? u := sql (CreateUser at_ uid name isAdmin) in
  (rid ← randToken 16;
   at_ ← unixNow;
   let? _ := sql (LinkOIDCIdentity at_ rid (u_ID u) (id_Issuer ident) (id_Subject ident) (id_Email ident)) in
   (_ ← server_notify srv EventAuth ("Account created: " +:+ u_Name u) ("First sign-in via " +:+ Name m +:+ ".");
    mret (Ok (u_ID u)))).

Definition resolveOIDCUser (m : Oidc.Manager) (ident : Identity) : M E (result string) :=
  link ← sql (OIDCIdentityBySubject (id_Issuer ident) (id_Subject ident));
  match link with
  | Ok link =>
      let? u := sql (GetUser (oi_UserID link)) in
      (_ ← syncOIDCAdmin m u ident; mret (Ok (u_ID u)))
  | Fail err => if errors_Is err ErrNotFound then provision m ident else mret (Fail err)
  end.

Definition handleOIDCCallback : Handler := fun r =>
  oidcEnabled (fun m =>
    if negb (String.eqb (rq_Query r "error") "") then redirectOIDCError "oidc_denied"
    else
      let st := rq_Query r "state" in
      if negb (validOIDCState r st) then redirectOIDCError "oidc_state"
      else
        _ ← clearCookie cfg oidcStateCookieName;
        let_or ident := oidc (Finish m st (rq_Query r "code")) orelse (fun _ => redirectOIDCError "oidc_failed") in
        let_or userID := store (resolveOIDCUser m ident) orelse (fun _ => redirectOIDCError "oidc_failed") in
        _ ← notifyAuth "Signed in" userID ("Signed in via " +:+ Name m +:+ ".");
        _ ← issueSession userID;
        redirect "/").
End Handlers.

(** ** What the handlers leave as it is *)
(** A statement of everyday use. *)
Ltac routine_op :=
  match goal with
  | |- _ (CreateUser ?a ?b ?c false ?d).1 => apply (routine_op (OpCreateUser a b c false) d)
  | |- _ (AddCredential ?a ?d).1 => apply (routine_op (OpAddCredential a) d)
  | |- _ (UpdateSignCount ?a ?b ?d).1 => apply (routine_op (OpUpdateSignCount a b) d)
  | |- _ (CreateInvite ?a ?b ?c ?e false ?g ?d).1 => apply (routine_op (OpCreateInvite a b c e false g) d)
  | |- _ (ConsumeInvite ?a ?b ?d).1 => apply (routine_op (OpConsumeInvite a b) d)
  | |- _ (DeleteInvite ?a ?d).1 => apply (routine_op (OpDeleteInvite a) d)
  | |- _ (CreateSession ?a ?b ?c ?e ?d).1 => apply (routine_op (OpCreateSession a b c e) d)
  | |- _ (DeleteSession ?a ?d).1 => apply (routine_op (OpDeleteSession a) d)
  | |- _ (LinkOIDCIdentity ?a ?b ?c ?e ?f ?g ?d).1 => apply (routine_op (OpLinkOIDCIdentity a b c e f g) d)
  end; [reflexivity|assumption].

(** Opens the wrappers and steps through a handler. *)
Ltac keep_step := first [routine_op | assumption | exact Logic.I | spreserves_step].

(** What enrollment needs of a property [P] of the accounts, and of what it asks
    of a pending ceremony's flags, [ce_isAdmin] and [ce_existingUser]: an open
    invite leads to such a ceremony, and such a ceremony to a user that [P]
    admits. *)
Class Enrollment (P : DB -> Prop) (ok : bool -> bool -> bool) : Prop := {
  enroll_fresh : ok false false = true;
  enroll_existing : forall a, ok a true = true;
  enroll_invite : forall d i, P d -> i ∈ db_invites d -> iv_UsedAt i = 0 -> iv_ForUser i = "" ->
    ok (iv_IsAdmin i) false = true;
  enroll_user : forall d now id name a, ok a false = true -> P d -> P (CreateUser now id name a d).1
}.

(** Nothing is asked of a ceremony. *)
Definition any_ceremony (_ _ : bool) : bool := true.

#[export] Instance in_charge_enrollment : Enrollment in_charge any_ceremony.
Proof. split; try done. intros d now id name a _. by apply (in_charge_op (OpCreateUser now id name a)). Qed.

Section Keep.
Context {E : Type} `{!Env E} `{!WebAuthn E} `{!RandEnv E} `{!OidcLib E} `{!Shoutrrr E} `{!UrlLib} `{!Calendar}
  `{!JsonCodec (gmap string bool)} `{!JsonCodec (list NotificationTarget)} `{!JsonCodec (list string)}
  `{!RequestCodecs}.
Context (P : DB -> Prop) `{!Routine P} (ok : bool -> bool -> bool) `{!Enrollment P ok}.
Context (srv : Server).

Lemma keep_server_notify ev title body : preserves (E:=E) P (server_notify srv ev title body).
Proof.
  unfold server_notify. destruct (srv_notif srv); [|apply preserves_ret]. apply preserves_Notify, routine_log.
Qed.

Lemma keep_NewSession uid : preserves (E:=E) P (NewSession uid).
Proof. unfold NewSession, randToken, Now, unixNow, Now. repeat keep_step. Qed.

Lemma keep_NewInvite by_ for_ : preserves (E:=E) P (NewInvite by_ for_ false).
Proof. unfold NewInvite, randToken, Now, unixNow, Now. repeat keep_step. Qed.

(** *** Ceremonies *)
Definition ok_ceremony (c : ceremony (E:=E)) : Prop := ok (ce_isAdmin c) (ce_existingUser c) = true.
Definition ok_ceremonies (cs : Ceremonies (E:=E)) : Prop := map_Forall (fun _ c => ok_ceremony c) cs.
Abbreviation kept := (spreserves (E:=E) ok_ceremonies P).

Lemma keep_gc {V} (expires : V -> Z) (I : V -> Prop) :
  spreserves (E:=E) (map_Forall (fun _ => I)) P (gc_pending expires).
Proof.
  unfold gc_pending, Now. repeat keep_step. intros k x [Hx _]%map_lookup_filter_Some. eauto.
Qed.

(** What is taken was in the map. *)
Lemma keep_take {V A} (expires : V -> Z) (I : V -> Prop) id (k : option V -> SM (gmap string V) E A) :
  (forall c, I c -> spreserves (map_Forall (fun _ => I)) P (k (Some c))) ->
  spreserves (map_Forall (fun _ => I)) P (k None) ->
  spreserves (E:=E) (map_Forall (fun _ => I)) P (take_pending expires id ≫= k).
Proof.
  intros Hs Hn s w HI HP. apply wp_sbind, wp_take_pending; [intros e _|intros c e now Hc _ _]; cbn [fst snd].
  - apply Hn; [|done]. by apply map_Forall_delete.
  - apply Hs; [exact (HI id c Hc)| |done]. by apply map_Forall_delete.
Qed.

Lemma keep_put data uid name a x : ok a x = true -> kept (put (new_ceremony data uid name a x)).
Proof.
  intros Hok. unfold put, randToken, Now. repeat first [apply keep_gc | keep_step].
  unfold ok_ceremonies, Ceremonies in *. by apply map_Forall_insert_2.
Qed.

(** A row that was read, when the property says something of it. *)
Lemma keep_read {S A B} (I : S -> Prop) (q : Sql A) (k : result A -> SM S E B) :
  (forall d, (q d).1 = d) -> (forall d, P d -> spreserves I P (k (q d).2)) -> (forall err, spreserves I P (k (Fail err))) ->
  spreserves I P (lift (sql q) ≫= k).
Proof.
  intros Hq Hk Hf s w HI HP. apply wp_sbind, wp_lift, wp_sql; intros e *; cbn [fst snd].
  - by apply Hf.
  - apply Hk; [done|done|]. cbn [w_db set_db]. by rewrite Hq.
Qed.

Lemma keep_begin user x : kept (begin_registration user x).
Proof. unfold begin_registration. repeat keep_step. Qed.

Lemma keep_BeginRegistration tok name : kept (BeginRegistration tok name).
Proof.
  unfold BeginRegistration, beginRecoveryRegistration, randToken, unixNow, Now. apply keep_read; [done| |intros; repeat keep_step].
  intros d HP. cbn [GetInvite snd]. destruct (query_row _ _) as [inv|err] eqn:Hi; [|repeat keep_step].
  apply query_row_Ok in Hi as [Hi _].
  repeat first [apply keep_begin | apply keep_put; [apply enroll_existing] | keep_step].
  apply keep_put. eapply enroll_invite; [exact HP|exact Hi| |].
  - apply orb_false_iff in Heqb as [Hu _]. lia.
  - apply negb_false_iff in Heqb0. by apply String.eqb_eq.
Qed.

Lemma keep_BeginAddDevice uid n creds : kept (BeginAddDevice uid n creds).
Proof. unfold BeginAddDevice. repeat first [apply keep_begin | apply keep_put, enroll_fresh | keep_step]. Qed.

Lemma keep_BeginLogin : kept BeginLogin.
Proof. unfold BeginLogin. repeat first [apply keep_put, enroll_fresh | keep_step]. Qed.

Lemma keep_store_credential uid cred : kept (store_credential uid cred).
Proof. unfold store_credential, randToken, unixNow, Now. repeat keep_step. Qed.

Lemma keep_FinishRegistration cid tok body : kept (FinishRegistration cid tok body).
Proof.
  unfold FinishRegistration, unixNow, Now. apply keep_take; [|apply spreserves_ret]. intros c Hc. unfold ok_ceremony in Hc.
  repeat first [apply keep_store_credential | keep_step]. apply enroll_user; [congruence|done].
Qed.

Lemma keep_FinishAddDevice cid uid body : kept (FinishAddDevice cid uid body).
Proof.
  unfold FinishAddDevice. apply keep_take; [intros c _|]; repeat first [apply keep_store_credential | keep_step].
Qed.

Lemma keep_FinishLogin cid body : kept (FinishLogin cid body).
Proof. unfold FinishLogin, login_handler, loadAuthUser. apply keep_take; [intros c _|]; repeat keep_step. Qed.

(** *** Sign-in flows *)
Definition any_state {S} (_ : S) : Prop := True.

Lemma keep_flows {A} (m : SM (gmap string loginFlow) E A) :
  spreserves (map_Forall (fun _ _ => True)) P m -> spreserves (E:=E) any_state P (zoom os_flows set_flows m).
Proof. apply spreserves_zoom; [by intros t _ k x|done]. Qed.

Lemma keep_discover m : spreserves (E:=E) any_state P (discover m).
Proof. unfold discover. repeat keep_step. Qed.

Lemma keep_Start m : spreserves (E:=E) any_state P (Oidc.Start m).
Proof.
  unfold Oidc.Start, randToken, Now.
  repeat first [apply keep_discover | apply keep_flows | apply (keep_gc lf_expires (fun _ => True)) | keep_step]. by intros k x.
Qed.

Lemma keep_Finish m st code : spreserves (E:=E) any_state P (Finish m st code).
Proof.
  unfold Finish, takeFlow, userinfo_claims. apply spreserves_bind.
  - apply keep_flows, spreserves_bind_ret, keep_take; intros; apply spreserves_ret.
  - intros [flow|]; repeat first [apply keep_discover | keep_step].
Qed.

(** *** Responses *)
(** What is asked of the server's state. *)
Definition conn_ok (s : Conn E) : Prop := ok_ceremonies (cp_ceremonies s.1).
Abbreviation keeps_all := (spreserves (E:=E) conn_ok P).

Lemma keep_on_response f : keeps_all (on_response f : HM E unit).
Proof. intros s w HI HP. split; [exact HP|]. by intros s' a [= <- _]. Qed.

Lemma keep_ceremonies {A} (m : SM (Ceremonies (E:=E)) E A) : kept m -> keeps_all (ceremonies m : HM E A).
Proof.
  intros Hm. unfold ceremonies, component. apply (spreserves_zoom (fun c => ok_ceremonies (cp_ceremonies c))); [done|done|].
  by apply (spreserves_zoom ok_ceremonies).
Qed.

Lemma keep_oidc {A} (m : SM (OidcState (E:=E)) E A) : spreserves any_state P m -> keeps_all (oidc m : HM E A).
Proof.
  intros Hm. unfold oidc, component. apply (spreserves_zoom (fun c => ok_ceremonies (cp_ceremonies c))); [done|done|].
  by apply (spreserves_zoom any_state).
Qed.

Lemma keep_store {A} (m : M E A) : preserves P m -> keeps_all (store m : HM E A).
Proof. apply spreserves_lift. Qed.

Lemma keep_respond status b : keeps_all (respond status b).
Proof. apply keep_on_response. Qed.

Lemma keep_setCookie base value age : keeps_all (setCookie (srv_cfg srv) base value age).
Proof. apply keep_on_response. Qed.

Lemma keep_redirect url : keeps_all (redirect url).
Proof. apply keep_on_response. Qed.

Lemma keep_notifyAuth title uid detail : keeps_all (notifyAuth srv title uid detail).
Proof. unfold notifyAuth, store. repeat spreserves_step; [done|apply keep_server_notify]. Qed.

Lemma keep_issueSession uid : keeps_all (issueSession srv uid).
Proof.
  unfold issueSession, setSessionCookie, Now.
  repeat first [apply keep_store; apply keep_NewSession | apply keep_respond | apply keep_setCookie | keep_step].
Qed.
End Keep.

Create HintDb keep.
#[export] Hint Resolve keep_respond keep_setCookie keep_redirect keep_notifyAuth keep_issueSession keep_NewSession
  keep_NewInvite keep_server_notify keep_BeginRegistration keep_BeginAddDevice keep_BeginLogin keep_FinishRegistration
  keep_FinishAddDevice keep_FinishLogin keep_Start keep_Finish : keep.

(** A handler is stepped through to the lemmas above. *)
Ltac keep := repeat first
  [ solve [eauto 3 with keep nocore typeclass_instances]
  | keep_step
  | match goal with
    | |- spreserves _ _ (ceremonies _) => apply keep_ceremonies
    | |- spreserves _ _ (oidc _) => apply keep_oidc
    | |- spreserves _ _ (store _) => apply keep_store
    | |- spreserves _ _ (mbind (M:=HM _) _ _) => apply spreserves_bind; [|intros ?]
    end
  | progress unfold clearCookie, clearSessionCookie, setCeremonyCookie, fail, writeErr, bad_request, db_error, Server.ok,
      unixNow, Now ].

Section Handled.
Context {E : Type} `{!Env E} `{!WebAuthn E} `{!RandEnv E} `{!OidcLib E} `{!Shoutrrr E} `{!UrlLib} `{!Calendar}
  `{!JsonCodec (gmap string bool)} `{!JsonCodec (list NotificationTarget)} `{!JsonCodec (list string)}
  `{!RequestCodecs}.
Context (P : DB -> Prop) `{!Routine P} (ok : bool -> bool -> bool) `{!Enrollment P ok}.
Context (srv : Server).
Abbreviation keeps_all := (spreserves (E:=E) (conn_ok ok) P).

Lemma keep_RegisterBegin r : keeps_all (handleRegisterBegin srv r).
Proof. unfold handleRegisterBegin. keep. Qed.

Lemma keep_RegisterFinish r : keeps_all (handleRegisterFinish srv r).
Proof. unfold handleRegisterFinish. keep. Qed.

Lemma keep_AddDeviceBegin u r : keeps_all (handleAddDeviceBegin srv u r).
Proof. unfold handleAddDeviceBegin. keep. Qed.

Lemma keep_AddDeviceFinish u r : keeps_all (handleAddDeviceFinish srv u r).
Proof. unfold handleAddDeviceFinish. keep. Qed.

Lemma keep_LoginBegin r : keeps_all (handleLoginBegin srv r).
Proof. unfold handleLoginBegin. keep. Qed.

Lemma keep_LoginFinish r : keeps_all (handleLoginFinish srv r).
Proof. unfold handleLoginFinish. keep. Qed.

Lemma keep_Logout r : keeps_all (handleLogout srv r).
Proof. unfold handleLogout. keep. Qed.

Lemma keep_Me u r : keeps_all (handleMe u r).
Proof. unfold handleMe. keep. Qed.

Lemma keep_ListInvites r : keeps_all (handleListInvites srv r).
Proof. unfold handleListInvites. keep. Qed.

Lemma keep_RevokeInvite tok r : keeps_all (handleRevokeInvite tok r).
Proof. unfold handleRevokeInvite. keep. Qed.

Lemma keep_ListUsers r : keeps_all (handleListUsers r).
Proof. unfold handleListUsers. keep. Qed.

Lemma keep_AuthProviders r : keeps_all (handleAuthProviders srv r).
Proof. unfold handleAuthProviders. keep. Qed.

Lemma keep_OIDCStart r : keeps_all (handleOIDCStart srv r).
Proof. unfold handleOIDCStart, oidcEnabled. keep. Qed.

(** The callback keeps what finding or making its user keeps. *)
Lemma keep_OIDCCallback r :
  (forall m ident, srv_oidc srv = Some m -> preserves (E:=E) P (resolveOIDCUser srv m ident)) ->
  keeps_all (handleOIDCCallback srv r).
Proof.
  intros Hr. unfold handleOIDCCallback, oidcEnabled, redirectOIDCError. destruct (srv_oidc srv) as [m|]; [|keep].
  keep. by apply Hr.
Qed.

(** An invite for anybody, an administrator included. *)
Lemma keep_any_invite by_ for_ a :
  (forall now t e d, P d -> P (CreateInvite now t by_ for_ a e d).1) -> preserves (E:=E) P (NewInvite by_ for_ a).
Proof. intros Hc. unfold NewInvite, randToken, Now, unixNow, Now. repeat first [apply Hc; assumption | keep_step]. Qed.

Lemma keep_CreateInvite u r :
  (forall now t a e d, P d -> P (CreateInvite now t (u_ID u) "" a e d).1) -> keeps_all (handleCreateInvite srv u r).
Proof. intros Hc. unfold handleCreateInvite. keep. apply keep_any_invite. intros. by apply Hc. Qed.

Lemma keep_ResetUser id r :
  (forall now t f a e d, P d -> P (CreateInvite now t "" f a e d).1) -> keeps_all (handleResetUser srv id r).
Proof. intros Hc. unfold handleResetUser, with_user. keep. apply keep_any_invite. intros. by apply Hc. Qed.
End Handled.

#[export] Hint Resolve keep_RegisterBegin keep_RegisterFinish keep_AddDeviceBegin keep_AddDeviceFinish keep_LoginBegin
  keep_LoginFinish keep_Logout keep_Me keep_ListInvites keep_RevokeInvite keep_ListUsers keep_AuthProviders
  keep_OIDCStart : keep.

(** ** The instance keeps an administrator *)
Section Charge.
Context {E : Type} `{!Env E} `{!WebAuthn E} `{!RandEnv E} `{!OidcLib E} `{!Shoutrrr E} `{!UrlLib} `{!Calendar}
  `{!JsonCodec (gmap string bool)} `{!JsonCodec (list NotificationTarget)} `{!JsonCodec (list string)}
  `{!RequestCodecs}.
Context (srv : Server).

Lemma charge_invite now t by_ for_ a e d : in_charge d -> in_charge (CreateInvite now t by_ for_ a e d).1.
Proof. by apply (in_charge_op (OpCreateInvite now t by_ for_ a e)). Qed.

(** A user row that was read is a row of the database. *)
Lemma wp_with_user id (k : User -> HM E unit) s w :
  in_charge (w_db w) ->
  (forall u w', u ∈ db_users (w_db w') -> u_ID u = id -> in_charge (w_db w') ->
     wp (k u s) (fun _ w'' => in_charge (w_db w'')) w') ->
  wp (with_user id k s) (fun _ w' => in_charge (w_db w')) w.
Proof.
  intros Hi Hk. unfold with_user, store. apply wp_sbind, wp_lift, wp_sql.
  - intros e err. cbn [fst snd]. by destruct (isNotFound err).
  - intros e. cbn [GetUser fst snd]. destruct (query_row (user_id id) (db_users (w_db w))) as [u|err] eqn:Hu; cbn [fst snd].
    + apply query_row_Ok in Hu as [Hu Hid%String.eqb_eq]. by apply Hk.
    + by destruct (isNotFound err).
Qed.

Lemma wp_delete_user_row id s w :
  in_charge (w_db w) -> (exists u, u ∈ db_users (w_db w) /\ u_IsAdmin u = true /\ u_ID u <> id) ->
  wp (delete_user_row (E:=E) id s) (fun _ w' => in_charge (w_db w')) w.
Proof.
  intros Hi Hu. unfold delete_user_row, store. apply wp_sbind, wp_lift, wp_sql; [intros e err; exact Hi|].
  intros e. assert (in_charge (DeleteUser id (w_db w)).1) as Hd by (apply (in_charge_demote (OpDeleteUser id) id); auto).
  by destruct (DeleteUser id (w_db w)) as [d [[]|err]].
Qed.

Lemma charge_DeleteUser id r : spreserves (E:=E) (conn_ok any_ceremony) in_charge (handleDeleteUser id r).
Proof.
  intros s w _ Hi. eapply wp_mono; [|intros o w' Hw; split; [exact Hw|intros; by intros k c]].
  apply (wp_with_user id); [done|]. clear w Hi. intros u w Hu Hid Hi.
  destruct (u_IsAdmin u) eqn:Ha.
  - unfold store. apply wp_sbind, wp_lift, wp_sql; [by intros e err|]. intros e. cbn [CountAdmins fst snd].
    destruct (Z.leb_spec (Z.of_nat (length (select_rows u_IsAdmin (db_users (w_db w))))) 1); [done|].
    apply wp_delete_user_row; [done|]. destruct Hi as [Hwf _].
    apply (admin_besides id); [apply Hwf|]. simpl in *. lia.
  - apply wp_delete_user_row; [done|]. destruct Hi as [Hwf Had].
    apply (plain_besides id _ u); [apply Hwf|done..].
Qed.

(** The admin flag follows the provider's groups, but a demotion counts the
    administrators first; if the count fails the user is demoted uncounted. *)
Lemma charge_syncOIDCAdmin m u ident :
  no_faults (E:=E) \/ HasAdminGroups m = false -> preserves (E:=E) in_charge (syncOIDCAdmin m u ident).
Proof.
  intros Hf w Hi. unfold syncOIDCAdmin. destruct (HasAdminGroups m); [|done]. destruct Hf as [Hf|]; [cbn [negb]|done].
  destruct (Bool.eqb (u_IsAdmin u) _) eqn:Hw; [done|]. cbv zeta. destruct (IsAdmin m (id_Groups ident)).
  - revert w Hi. apply preserves_bind; [apply preserves_ret|]. intros [|]; repeat keep_step.
    by apply (in_charge_op (OpSetUserAdmin (u_ID u) true)).
  - apply (wp_bind _ _ (fun _ w' => in_charge (w_db w'))), wp_bind. destruct (sql_run_ok CountAdmins w Hf) as [e He].
    unfold wp at 1. rewrite He. cbn [CountAdmins fst snd].
    apply wp_ret. destruct (Z.leb_spec (Z.of_nat (length (select_rows u_IsAdmin (db_users (w_db w))))) 1); [done|].
    apply wp_bind, wp_sql; [done|]. intros e'. cbn [w_db set_db set_env]. apply wp_ret.
    apply (in_charge_demote (OpSetUserAdmin (u_ID u) false) (u_ID u)); [by left|done|].
    apply admin_besides; [apply Hi|]. simpl in *. lia.
Qed.

Lemma charge_resolveOIDCUser m ident :
  no_faults (E:=E) \/ HasAdminGroups m = false -> preserves (E:=E) in_charge (resolveOIDCUser srv m ident).
Proof.
  intros Hf. pose proof (charge_syncOIDCAdmin m) as Hsync. unfold resolveOIDCUser, provision, newUserID, randToken, unixNow, Now.
  repeat first [apply Hsync; exact Hf | apply (keep_server_notify in_charge)
    | match goal with |- in_charge (CreateUser ?a ?b ?c ?e ?d).1 => by apply (in_charge_op (OpCreateUser a b c e)) end | keep_step].
Qed.
End Charge.
