(* ===== verification/Handlers.v ===== *)
(** * Services, settings, RAID, notifications and the event log over HTTP
    (src/internal/server: docker_handlers.go, notification_handlers.go, events_handlers.go)

    Every handler as a function of the request, like those of AuthHandlers. The
    work a handler starts with [go] is a [Task] of the response, and [run_task]
    what it runs. *)
From S2P Require Import Prelude GoStrings Regex Api Db Docker World StoreDocker StoreJobs StoreAuth StoreEvents StoreSettings StoreMdadm Notify.
From S2P Require Import Stateful Auth Oidc Disks Http Server Mdstat RaidWatch Status Snapshot Notices Listing Jobs Identity.
From S2P Require Import UpdateCheck Reconcile Swap SelfUpdate.
Open Scope Z_scope.

(** ** The time zone (src/internal/raidwatch/schedule.go) *)
(** The clock's UTC offset, the name Go gives [time.Local], and symbolic links. *)
Class ZoneEnv (E : Type) := {
  zn_Offset : E -> E * Z;
  zn_Local : E -> string;
  zn_Readlink : string -> E -> E * result string
}.

Section Zone.
Context {E : Type} `{!FilesEnv E} `{!ZoneEnv E}.

Definition zone_from_files : IO E string :=
  b ← fs_ReadFile "/etc/timezone";
  mret (match b with Ok s => TrimSpace s | Fail _ => "" end).

(** [zoneName] *)
Definition zoneName : IO E string := fun e =>
  let tz := TrimPrefix (TrimSpace (fs_Getenv "TZ" e)) ":" in
  if negb (String.eqb tz "") then (e, tz)
  else
    let name := zn_Local e in
    if negb (String.eqb name "") && negb (String.eqb name "Local") then (e, name)
    else
      let m :=
        target ← zn_Readlink "/etc/localtime";
        match target with
        | Ok target =>
            match Cut target "zoneinfo/" with
            | Some (_, after) => mret after
            | None => zone_from_files
            end
        | Fail _ => zone_from_files
        end in
      m e.

(** [LocalZone] *)
Definition LocalZone : IO E (string * Z) :=
  offset ← zn_Offset;
  name ← zoneName;
  mret (name, offset).
End Zone.

(** [strconv.Atoi] with its error ignored. *)
Definition Atoi_ignored (s : string) : Z :=
  match s with
  | String "-" rest => match digits_value rest with Some z => Z.max (- z) int64_min | None => 0 end
  | String "+" rest => Atoi_or_max rest
  | _ => Atoi_or_max s
  end.

Section Handlers.
Context {E : Type} `{!Env E} `{!WebAuthn E} `{!OidcLib E} `{!Shoutrrr E} `{!UrlLib} `{!Calendar}
  `{!JsonCodec (gmap string bool)} `{!JsonCodec (list NotificationTarget)} `{!JsonCodec (list string)}
  `{!RequestCodecs} `{!DockerCodecs} `{!RaidCodecs} `{!RaidEnv E} `{!RRuleEnv} `{!Gopsutil E} `{!FilesEnv E} `{!ZoneEnv E}.
Context (srv : Server).
Abbreviation HM := (HM E).
Abbreviation Handler := (Handler E).

Definition bad (err : error) : HM unit := fail StatusBadRequest (Error err).
Definition internal (err : error) : HM unit := fail StatusInternalServerError (Error err).
Definition not_managed (_ : error) : HM unit := fail StatusNotFound "container not managed".

(** ** Services *)
Definition handleListStacks : Handler := fun r =>
  dockerReady srv (
    let_or stacks := store ListStacks orelse internal in
    respond StatusOK (BStacks stacks)).

Definition handleAdoptStack (id : string) : Handler := fun r =>
  dockerReady srv (
    err ← store (Adopt id);
    match err with
    | Some err => bad err
    | None => ok
    end).

Definition handleForgetContainer (id : string) : Handler := fun r =>
  dockerReady srv (
    let_or mc := store (ResolveManaged id) orelse not_managed in
    let_or _tt := store (sql (DeleteManagedContainer (mc_ID mc))) orelse internal in
    _ ← store BroadcastStacks;
    ok).

Definition handleForgetStack (id : string) : Handler := fun r =>
  dockerReady srv (
    let_or _tt := store (sql (Unadopt id)) orelse internal in
    _ ← store BroadcastStacks;
    ok).

(** [handleStackAction], [handleContainerAction]: the job is detached. *)
Definition stack_task (action id : string) : option Task :=
  if String.eqb action "start" then Some (TStartStack id)
  else if String.eqb action "stop" then Some (TStopStack id)
  else if String.eqb action "restart" then Some (TRestartStack id)
  else if String.eqb action "bringup" then Some (TBringUpStack id)
  else None.

Definition container_task (action id : string) : option Task :=
  if String.eqb action "start" then Some (TStart id)
  else if String.eqb action "stop" then Some (TStop id)
  else if String.eqb action "restart" then Some (TRestart id)
  else None.

Definition start_task (t : option Task) : HM unit :=
  match t with Some t => go t | None => mret tt end.

Definition handleStackAction (action id : string) : Handler := fun r =>
  dockerReady srv (_ ← start_task (stack_task action id); ok).

Definition handleContainerAction (action id : string) : Handler := fun r =>
  dockerReady srv (_ ← start_task (container_task action id); ok).

Definition handleContainerUpdate (id : string) : Handler := fun r =>
  dockerReady srv (_ ← go (TUpdate id); ok).

Definition run_task (t : Task) : M E unit :=
  match t with
  | TStartStack id => StartStackJob id
  | TStopStack id => StopStackJob id
  | TRestartStack id => RestartStackJob id
  | TBringUpStack id => BringUpStackJob id
  | TStart id => StartJob id
  | TStop id => StopJob id
  | TRestart id => RestartJob id
  | TUpdate id => Update id
  end.

Definition handleCheckContainerUpdate (id : string) : Handler := fun r =>
  dockerReady srv (
    let_or n := store (CheckContainerUpdates id) orelse not_managed in
    respond StatusOK (BUpdateCheck n)).

Definition handleCheckStackUpdate (id : string) : Handler := fun r =>
  dockerReady srv (
    let_or n := store (CheckStackUpdates id) orelse internal in
    respond StatusOK (BUpdateCheck n)).

Definition handleCheckAllUpdates : Handler := fun r =>
  dockerReady srv (
    let_or n := store CheckAllUpdates orelse internal in
    respond StatusOK (BUpdateCheck n)).

Definition handleSetAutoUpdate : Handler := fun r =>
  match dec_SetAutoUpdate (rq_Body r) with
  | Fail _ => fail StatusBadRequest "bad request"
  | Ok req =>
      let_or mc := store (ResolveManaged (sa_ContainerID req)) orelse not_managed in
      let_or _tt := store (sql (SetAutoUpdate (mc_ID mc) (sa_AutoUpdate req))) orelse internal in
      ok
  end.

(** ** Settings *)
Definition handleGetSettings : Handler := fun r =>
  let_or cfg := store LoadSettings orelse internal in
  respond StatusOK (BSettings cfg).

Definition handlePutSettings : Handler := fun r =>
  match dec_Settings (rq_Body r) with
  | Fail _ => fail StatusBadRequest "bad request"
  | Ok cfg =>
      let_or _tt := store (SaveSettings cfg) orelse internal in
      respond StatusOK (BSettings cfg)
  end.

Definition handleListDisks : Handler := fun r =>
  let_or overrides := store LoadDiskVisibility orelse internal in
  disks ← store Enumerate;
  respond StatusOK (BDisks (BuildDiskItems disks.1 disks.2 overrides)).

Definition handleSetDiskVisibility : Handler := fun r =>
  match dec_DiskVisibility (rq_Body r) with
  | Fail _ => fail StatusBadRequest "bad request"
  | Ok req =>
      let_or _tt := store (SaveDiskVisibility (dv_Visibility req)) orelse internal in
      handleListDisks r
  end.

(** ** RAID *)
Definition handleStartMdadmScan (name : string) : Handler := fun r =>
  err ← store (if srv_raid srv then now ← Now; RaidWatch.Start name now else RaidWatch.start name);
  match err with
  | Some err => bad err
  | None => ok
  end.

Definition schedules_out (schedules : gmap string MdadmSchedule) : HM unit :=
  zone ← store (call LocalZone (fun _ => []));
  respond StatusOK (BSchedules {| mc_Schedules := schedules; mc_TimeZone := zone.1; mc_TimeZoneOffsetSeconds := zone.2 |}).

Definition handleGetMdadmSchedules : Handler := fun r =>
  let_or schedules := store LoadMdadmSchedules orelse internal in
  schedules_out schedules.

(** The loop over the schedules, in the order the map is ranged over. *)
Fixpoint clean_schedules (l : list (string * MdadmSchedule)) (clean : gmap string MdadmSchedule) :
    string + gmap string MdadmSchedule :=
  match l with
  | [] => inr clean
  | (name, sc) :: l' =>
      if String.eqb (ms_RRule sc) "" then clean_schedules l' clean
      else match ValidateRRule (ms_RRule sc) with
           | Some err => inl (name +:+ ": invalid schedule: " +:+ Error err)
           | None => clean_schedules l' (<[name := sc]> clean)
           end
  end.

Definition handleSetMdadmSchedules : Handler := fun r =>
  match dec_Schedules (rq_Body r) with
  | Fail _ => fail StatusBadRequest "bad request"
  | Ok cfg =>
      match clean_schedules (map_to_list (mc_Schedules cfg)) ∅ with
      | inl msg => fail StatusBadRequest msg
      | inr clean =>
          let_or _tt := store (SaveMdadmSchedules clean) orelse internal in
          schedules_out clean
      end
  end.

(** ** Notifications and the event log *)
Definition handleGetNotifications : Handler := fun r =>
  notifyReady srv (fun n =>
    let_or cfg := store (Notify.Config n) orelse internal in
    respond StatusOK (BNotifications cfg)).

Definition handlePutNotifications : Handler := fun r =>
  notifyReady srv (fun n =>
    match dec_Notifications (rq_Body r) with
    | Fail _ => fail StatusBadRequest "bad request"
    | Ok cfg =>
        err ← store (Notify.Save n cfg);
        match err with
        | Some err => if errors_Is err ErrEnvManaged then fail StatusConflict (Error err) else bad err
        | None =>
            let_or out := store (Notify.Config n) orelse internal in
            respond StatusOK (BNotifications out)
        end
    end).

Definition handleTestNotification : Handler := fun r =>
  notifyReady srv (fun n =>
    let '(req, err) := dec_Test (rq_Body r) in
    match err with
    | Some false => fail StatusBadRequest "bad request"
    | _ =>
        err ← store (SendTest n (tn_URLs req));
        match err with
        | Some err => fail StatusBadGateway (Error err)
        | None => ok
        end
    end).

Definition handleListEvents : Handler := fun r =>
  let q := rq_Query r in
  let_or page := store (sql (ListEvents
    {| eq_Cursor := q "cursor"; eq_Limit := Atoi_ignored (q "limit"); eq_Event := q "event";
       eq_Container := q "container"; eq_Stack := q "stack"; eq_Search := q "q" |})) orelse bad in
  respond StatusOK (BEvents page).
End Handlers.
