(* ===== verification/SimHttp.v ===== *)
(** * The reference environment of the HTTP side

    What Sim.v is to the Docker side: concrete libraries and codecs to run the
    handlers against, none of them part of Veery. A request body is the text of
    the one field that matters. *)
From S2P Require Import Prelude GoStrings Regex Api Db Docker World Sim StoreDocker StoreAuth StoreEvents StoreSettings StoreMdadm Notify.
From S2P Require Import Stateful Auth Oidc Disks Http Server Mdstat RaidWatch Handlers.
Open Scope Z_scope.

#[export] Existing Instances demo_webauthn demo_rand demo_provider demo_shoutrrr demo_url demo_calendar.

#[export] Instance sim_requests : RequestCodecs := {
  dec_Enroll b := Ok {| er_Token := b; er_Name := "eve" |};
  dec_CreateInvite b := {| ci_IsAdmin := String.eqb b "admin" |};
  dec_SetAutoUpdate b := Ok {| sa_ContainerID := b; sa_AutoUpdate := true |};
  dec_Settings b := Fail (errorf "unexpected end of JSON input");
  dec_Schedules b := Fail (errorf "unexpected end of JSON input");
  dec_DiskVisibility b := Fail (errorf "unexpected end of JSON input");
  dec_Notifications b := Fail (errorf "unexpected end of JSON input");
  dec_Test b := ({| tn_URLs := [] |}, Some true)
}.

#[export] Instance sim_files : FilesEnv Sim := {
  fs_Getenv v e := "";
  fs_ReadFile p e := (e, Fail (errorf "no such file"));
  fs_WriteFile p s e := (e, Some (errorf "no such file"))
}.

#[export] Instance sim_zone : ZoneEnv Sim := {
  zn_Offset e := (e, 0);
  zn_Local e := "UTC";
  zn_Readlink p e := (e, Fail (errorf "no such file"))
}.

#[export] Instance sim_host : Gopsutil Sim := {
  ps_Partitions e := (e, Ok []);
  ps_Usage m e := (e, Fail (errorf "no such file"));
  ps_IOCounters e := (e, Ok ∅);
  ps_Times e := (e, Ok []);
  ps_VirtualMemory e := (e, Ok (0, 0))
}.

#[export] Instance sim_raid : RaidEnv Sim := {
  md_scan e := (e, []);
  md_start n e := (e, Some (errorf "no such array"))
}.

#[export] Instance sim_rrule : RRuleEnv := {
  ROption := unit;
  RRule := unit;
  rr_StrToROption _ := Fail (errorf "invalid rule");
  ro_Dtstart _ := None;
  ro_set_Dtstart _ o := o;
  rr_NewRRule o := Ok o;
  rr_After _ _ := None;
  rr_zone := 0
}.

#[export] Instance sim_websocket : WebSocket := { ws_Accept origins r := None }.
#[export] Instance sim_spa : Spa := { spa_Open p := String.eqb p "index.html" }.

(** A server without TLS and with sign-in through an OIDC provider. *)
Definition sim_server : Server :=
  {| srv_cfg := {| sc_RPID := "veery.test"; sc_Origin := "http://veery.test"; sc_Secure := false |};
     srv_dkr := true; srv_notif := Some demo_notifier; srv_raid := true; srv_oidc := Some demo_manager |}.

Definition sim_components : Components Sim := {| cp_ceremonies := ∅; cp_oidc := no_flows |}.
Definition sim_conn : Conn Sim := (sim_components, fresh_response).

Definition sim_request (method : string) (path : list string) (cookies : list (string * string)) (body : string) : Request :=
  {| rq_Method := method; rq_Path := path; rq_Cookies := cookies; rq_Query := fun _ => ""; rq_Body := body;
     rq_SecFetchSite := "same-origin"; rq_Origin := ""; rq_Host := "veery.test" |}.

(** What a browser sees of a response. *)
Definition seen (o : outcome (Conn Sim * unit)) : option (option Z * list (string * string) * list (Body (E:=Sim))) :=
  match o with
  | Ret (s, _) => Some (rs_Status s.2, map (fun c => (ck_Name c, ck_Value c)) (rs_Cookies s.2), rs_Body s.2)
  | Panic _ => None
  end.
