(* ===== verification/Sessions.v ===== *)
(** * Sessions and sign-in across the layers

    What the accounts' handlers promise together with the store, the ceremonies
    and the identity provider: a session that was issued lets its user in, a
    sign-out ends it, and a sign-in with the provider happens only for a flow
    this browser started and always finds the same user again. *)
From S2P Require Import Prelude GoStrings Api Db Docker World Sim StoreAuth StoreEvents StoreSettings Notify Stateful Auth Oidc.
From S2P Require Import Http Server AuthHandlers Handlers SimHttp.
Open Scope Z_scope.

Section Sessions.
Context {E : Type} `{!Env E} `{!WebAuthn E} `{!RandEnv E} `{!OidcLib E} `{!Shoutrrr E} `{!UrlLib} `{!Calendar}
  `{!JsonCodec (gmap string bool)} `{!JsonCodec (list NotificationTarget)} `{!JsonCodec (list string)}
  `{!RequestCodecs}.
Context (srv : Server).
Implicit Types (s : Conn E) (w : World E).

(** One statement after another, when none fails. *)
Lemma wp_sql_now {A} (q : Sql A) w (Q : outcome (result A) -> World E -> Prop) :
  no_faults (E:=E) -> Q (Ret (q (w_db w)).2) (set_db (set_env w (sql_fault (w_env w)).1) (q (w_db w)).1) -> wp (sql q) Q w.
Proof. intros Hnf HQ. unfold wp. by rewrite sql_no_fault. Qed.

Lemma wp_clock w (Q : outcome Z -> World E -> Prop) :
  Q (Ret ((time_Now (w_env w)).2 / second)) (set_env w (time_Now (w_env w)).1) -> wp unixNow Q w.
Proof. intros HQ. apply wp_unixNow. intros e t Ht. rewrite Ht in HQ. exact HQ. Qed.

(** Resolving the token of a session that is there. *)
Lemma wp_SessionUser_known token x u w e :
  no_faults (E:=E) -> accounts_wf (w_db w) -> x ∈ db_sessions (w_db w) -> ss_Token x = token ->
  u ∈ db_users (w_db w) -> u_ID u = ss_UserID x ->
  wp (SessionUser token) (fun o w' =>
    if request_time e <=? ss_ExpiresAt x then o = Ret (Ok u) /\ w_db w' = w_db w
    else o = Ret (Fail errNotFound) /\
      w_db w' = set_sessions (w_db w) (delete_rows (session_token token) (db_sessions (w_db w)))) (set_env w e).
Proof.
  intros Hnf Hwf Hx Ht Hu Hid. unfold SessionUser.
  assert (query_row (session_token token) (db_sessions (w_db w)) = Ok x) as Hq.
  { apply (query_row_key ss_Token _ token); [|apply Hwf|done|done]. intros y. apply String.eqb_eq. }
  assert (query_row (user_id (ss_UserID x)) (db_users (w_db w)) = Ok u) as Hqu.
  { apply (query_row_key u_ID _ (ss_UserID x)); [|apply Hwf|done|done]. intros y. apply String.eqb_eq. }
  apply wp_bind, wp_sql_now; [done|]. cbn [SessionRowByToken fst snd w_db set_env]. rewrite Hq.
  apply wp_bind, wp_clock. cbn [w_env set_db set_env]. fold (request_time e).
  rewrite (Z.ltb_antisym (request_time e)). destruct (request_time e <=? ss_ExpiresAt x); cbn [negb].
  - apply wp_sql_now; [done|]. cbn [GetUser fst snd w_db set_env set_db]. by rewrite Hqu.
  - apply wp_bind, wp_sql_now; [done|]. by apply wp_ret.
Qed.

(** ** A session lets its user in *)
(** What issuing a session leaves behind: an error and no cookie, or the cookie
    of a token that lets the user in for thirty days and nobody after that. *)
Definition session_issued (u : User) s w (o : outcome (Conn E * unit)) w' : Prop :=
  exists s', o = Ret (s', tt) /\
    ((rs_Cookies s'.2 = rs_Cookies s.2 /\ rs_Status s'.2 = Some StatusInternalServerError /\ w_db w' = w_db w) \/
     exists token t0 e0 age,
       t0 = (time_Now e0).2 /\
       rs_Cookies s'.2 = rs_Cookies s.2 ++ [{| ck_Name := cookieName (srv_cfg srv) SessionCookieName; ck_Value := token;
         ck_MaxAge := age; ck_Secure := sc_Secure (srv_cfg srv) |}] /\
       forall r e, request_cookie r (cookieName (srv_cfg srv) SessionCookieName) = Some token ->
         wp (currentUser (srv_cfg srv) r) (fun o2 w2 =>
           if request_time e <=? (t0 + SessionTTL) / second then o2 = Ret (Some (u, token)) /\ w_db w2 = w_db w'
           else o2 = Ret None /\ forall x, x ∈ db_sessions (w_db w2) -> ss_Token x <> token) (set_env w' e)).

(** C19. Signing in works: when a session is issued, a later request that brings
    its cookie back is taken for that user as long as the clock has not passed
    thirty days, and after that for nobody, and the session is removed. A
    session that could not be stored sets no cookie and answers an error. *)
Theorem session_roundtrip u s w (Hnf : no_faults (E:=E)) (Hwf : accounts_wf (w_db w)) (Hu : u ∈ db_users (w_db w))
    (Hfresh : rs_Status s.2 = None) (Hrand : forall n e, (rand_Token n e).2 <> "") :
  wp (issueSession srv (u_ID u) s) (session_issued u s w) w.
Proof.
  unfold issueSession, store, NewSession. apply wp_sbind, wp_lift.
  apply wp_bind, wp_randToken. intros e1 token Htok.
  apply wp_bind, wp_call. intros e2 t0 Ht0. rewrite log_nil. apply wp_bind, wp_unixNow. intros e3 t1 _.
  assert (token <> "") as Hne by (specialize (Hrand 32%nat (w_env w)); rewrite Htok in Hrand; exact Hrand).
  apply wp_bind, wp_sql.
  { intros e err. apply wp_ret. cbn [fst snd]. eexists. split; [done|]. left. cbn. unfold write_status. by rewrite Hfresh. }
  intros e4. cbn [w_db set_env]. unfold CreateSession.
  destruct (existsb (session_token token) (db_sessions (w_db w)) || negb (user_exists (w_db w) (u_ID u))) eqn:Hc.
  { apply wp_ret. cbn [fst snd]. eexists. split; [done|]. left. cbn. unfold write_status. by rewrite Hfresh. }
  cbn [fst snd]. apply wp_ret. cbn [fst snd]. unfold setSessionCookie. apply wp_sbind, wp_lift_Now.
  intros e5 t5 _. cbn [fst snd]. unfold setCookie. apply wp_on_response. eexists. split; [done|]. right.
  exists token, t0, (w_env (set_env w e1)), (Z.quot (t0 + SessionTTL - t5) second). split; [by rewrite Ht0|].
  split; [cbn [snd]; unfold add_cookie; by rewrite Hfresh|]. intros r e Hr.
  unfold currentUser, cookie. rewrite Hr. destruct token as [|c0 tok0]; [done|]. set (token := String c0 tok0) in *.
  set (x := {| ss_Token := token; ss_UserID := u_ID u; ss_ExpiresAt := (t0 + SessionTTL) / second; ss_CreatedAt := t1 / second |}).
  apply wp_bind. eapply wp_mono.
  - apply (wp_SessionUser_known token x u); [done| |cbn; set_solver|done|done|done]. cbn [w_db set_db set_env].
    pose proof (account_op_wf (OpCreateSession (t1 / second) token (u_ID u) ((t0 + SessionTTL) / second)) _ Hwf) as Hwf'.
    unfold account_op, CreateSession in Hwf'. by rewrite Hc in Hwf'.
  - cbn [ss_ExpiresAt x]. intros o w2. destruct (request_time e <=? (t0 + SessionTTL) / second).
    + intros [-> Hdb]. apply wp_ret. by split.
    + intros [-> Hdb]. apply wp_ret. split; [done|]. rewrite Hdb.
      intros y [_ Hy]%elem_of_delete. by apply String.eqb_neq.
Qed.

(** ** Signing out *)
Lemma no_such_session token w e :
  (forall x, x ∈ db_sessions (w_db w) -> ss_Token x <> token) ->
  wp (SessionUser token) (fun o w' => (exists err, o = Ret (Fail err)) /\ w_db w' = w_db w) (set_env w e).
Proof.
  intros Hx. unfold SessionUser. apply wp_bind, wp_sql; [intros e' err; apply wp_ret; eauto|]. intros e'.
  cbn [SessionRowByToken fst snd w_db set_env].
  destruct (query_row (session_token token) (db_sessions (w_db w))) as [x|err] eqn:Hq; [|apply wp_ret; eauto].
  apply query_row_Ok in Hq as [Hin Ht%String.eqb_eq]. by destruct (Hx x).
Qed.

(** Signing out ends the session on the server, not only in the browser: the
    cookie is cleared, the session row is gone with no other row, and no later
    request with that token, from whichever browser and at whatever time, is
    taken for a user, until the token is issued again. *)
Theorem logout_ends_session r token s w (Hnf : no_faults (E:=E)) (Hfresh : rs_Status s.2 = None)
    (Hc : cookie (srv_cfg srv) r SessionCookieName = Some token) :
  wp (handleLogout srv r s) (fun o w' => exists s', o = Ret (s', tt) /\ rs_Status s'.2 = Some StatusOK /\
    rs_Cookies s'.2 = rs_Cookies s.2 ++ [{| ck_Name := cookieName (srv_cfg srv) SessionCookieName; ck_Value := "";
      ck_MaxAge := -1; ck_Secure := sc_Secure (srv_cfg srv) |}] /\
    w_db w' = set_sessions (w_db w) (delete_rows (session_token token) (db_sessions (w_db w))) /\
    forall r' e, cookie (srv_cfg srv) r' SessionCookieName = Some token ->
      wp (currentUser (srv_cfg srv) r') (fun o2 w2 => o2 = Ret None /\ w_db w2 = w_db w') (set_env w' e)) w.
Proof.
  unfold handleLogout, store. rewrite Hc. apply wp_sbind, wp_sbind, wp_lift, wp_sql_now; [done|].
  cbn [DeleteSession fst snd]. apply wp_sret. cbn [fst snd]. apply wp_sbind, wp_on_response, wp_on_response.
  eexists. split; [done|]. unfold add_cookie. rewrite Hfresh. cbn [rs_Status snd write_status write_body rs_Cookies].
  split; [done|]. split; [done|]. split; [done|]. intros r' e Hr'. unfold currentUser. rewrite Hr'. apply wp_bind.
  eapply wp_mono; [apply no_such_session; intros x [_ Hx]%elem_of_delete; by apply String.eqb_neq|].
  intros o w2 [[err ->] Hdb]. apply wp_ret. by split.
Qed.

(** ** Signing in with the provider *)
(** The request is the return of a flow that this process started and this
    browser holds the cookie of. *)
Definition own_flow (r : Request) (s : Conn E) (w : World E) : Prop :=
  exists m ident, srv_oidc srv = Some m /\ rq_Query r "error" = "" /\ rq_Query r "state" <> "" /\
    cookie (srv_cfg srv) r oidcStateCookieName = Some (rq_Query r "state") /\
    signed_in m (rq_Query r "state") (rq_Query r "code") (cp_oidc s.1) (w_env w) ident.

(** C12. The callback signs nobody in unless the browser started the flow: as
    long as the state parameter is not the one in the browser's cookie, or it
    names no live flow of this process, or the code, the ID token or the nonce
    do not belong to that flow, no user, session or link is created or changed. *)
Theorem callback_needs_own_flow r s w :
  wp (handleOIDCCallback srv r s) (fun _ w' => w_db w' = w_db w \/ own_flow r s w) w.
Proof.
  unfold own_flow, handleOIDCCallback, oidcEnabled. destruct (srv_oidc srv) as [m|]; [|by left].
  destruct (Enabled (Some m)); [|by left].
  destruct (String.eqb_spec (rq_Query r "error") "") as [He|]; cbn [negb]; [|by left].
  destruct (validOIDCState srv r (rq_Query r "state")) eqn:Hv; cbn [negb]; [|by left].
  unfold validOIDCState in Hv. destruct (String.eqb_spec (rq_Query r "state") "") as [|Hne]; [done|].
  destruct (cookie (srv_cfg srv) r oidcStateCookieName) as [want|] eqn:Hc; [|done]. apply String.eqb_eq in Hv as ->.
  apply wp_sbind, wp_on_response. cbn [fst snd]. apply wp_sbind, wp_component, wp_zoom, wp_Finish.
  intros os' [ident|err] w' Hdb _ Hs; cbn [fst snd]; [|by left].
  specialize (Hs ident eq_refl). eapply wp_mono; [instantiate (1 := fun _ _ => True); done|].
  intros _ w'' _. right. exists m, ident. by repeat split.
Qed.

(** The identity is linked to this user. *)
Definition linked (ident : Identity) (uid : string) (d : DB) : Prop :=
  accounts_wf d /\ exists o, o ∈ db_oidc d /\ oi_Issuer o = id_Issuer ident /\ oi_Subject o = id_Subject ident /\
    oi_UserID o = uid.

Lemma linked_log ident uid d a b c : linked ident uid d -> linked ident uid (set_log d a b c).
Proof. intros [[] Ho]. split; [by constructor|exact Ho]. Qed.

Lemma linked_admin ident uid id a d : linked ident uid d -> linked ident uid (SetUserAdmin id a d).1.
Proof.
  intros [Hwf Ho]. split; [by apply (account_op_wf (OpSetUserAdmin id a))|]. unfold SetUserAdmin. by destruct (rows_affected _ _).
Qed.

(** The admin flag of a linked user may change, nothing else does. *)
Lemma syncOIDCAdmin_frame m u ident w :
  wp (syncOIDCAdmin m u ident) (fun o w' => o = Ret tt /\
    (w_db w' = w_db w \/ w_db w' = (SetUserAdmin (u_ID u) (IsAdmin m (id_Groups ident)) (w_db w)).1)) w.
Proof.
  unfold syncOIDCAdmin. destruct (negb (HasAdminGroups m)); [by split; [|left]|]. cbv zeta.
  destruct (Bool.eqb _ _); [by split; [|left]|].
  assert (Hset : forall e, wp (_ ← sql (SetUserAdmin (u_ID u) (IsAdmin m (id_Groups ident))); mret tt)
    (fun o w' => o = Ret tt /\
      (w_db w' = w_db w \/ w_db w' = (SetUserAdmin (u_ID u) (IsAdmin m (id_Groups ident)) (w_db w)).1)) (set_env w e)).
  { intros e. apply wp_bind, wp_sql; intros; apply wp_ret; (split; [done|]); [by left|by right]. }
  apply wp_bind. destruct (IsAdmin m (id_Groups ident)).
  - pose proof (Hset (w_env w)) as H'. rewrite set_env_same in H'. by apply wp_ret.
  - apply wp_bind, wp_sql; intros; apply wp_ret; [apply Hset|]. cbn [CountAdmins fst snd].
    change (set_db (set_env w e) (w_db w)) with (set_env w e). destruct (_ <=? 1); [|apply Hset].
    apply wp_ret. by split; [|left].
Qed.

Lemma SetUserAdmin_ids id a d : map u_ID (db_users (SetUserAdmin id a d).1) = map u_ID (db_users d).
Proof.
  unfold SetUserAdmin. destruct (rows_affected _ _); [done|]. by apply update_rows_key.
Qed.

(** A linked identity resolves to its user, and makes no new one. *)
Lemma wp_resolve_linked m ident uid w :
  no_faults (E:=E) -> linked ident uid (w_db w) ->
  wp (resolveOIDCUser srv m ident) (fun o w' => o = Ret (Ok uid) /\ linked ident uid (w_db w') /\
    map u_ID (db_users (w_db w')) = map u_ID (db_users (w_db w))) w.
Proof.
  intros Hnf Hl. pose proof Hl as (Hwf & o & Ho & Hi & Hs & Hu). unfold resolveOIDCUser.
  apply wp_bind, wp_sql_now; [done|]. cbn [OIDCIdentityBySubject fst snd].
  rewrite (query_row_key (fun o => (oi_Issuer o, oi_Subject o)) _ (id_Issuer ident, id_Subject ident) _ o);
    [|intros x; unfold identity_key; rewrite andb_true_iff, !String.eqb_eq; split; [by intros [-> ->]|by intros [= -> ->]]|apply Hwf|done|congruence].
  pose proof (aw_oidc_fk _ Hwf o Ho) as (u & Huin & Hid)%user_exists_iff.
  apply wp_bind, wp_sql_now; [done|]. cbn [GetUser fst snd w_db set_env set_db].
  rewrite (query_row_key u_ID _ (oi_UserID o) _ u); [|intros x; apply String.eqb_eq|apply Hwf|done|done].
  apply wp_bind. eapply wp_mono; [apply syncOIDCAdmin_frame|]. intros ? w' [-> Hw]. apply wp_ret.
  split; [by rewrite Hid, Hu|]. cbn [w_db set_env set_db] in Hw.
  destruct Hw as [-> | ->]; [by split|]. split; [by apply linked_admin|apply SetUserAdmin_ids].
Qed.

Lemma wp_preserves {A} (P : DB -> Prop) (m : M E A) w :
  preserves P m -> P (w_db w) -> wp m (fun _ w' => P (w_db w')) w.
Proof. intros Hm. apply Hm. Qed.

(** What [notify] can do to the database is to write the log. *)
Lemma linked_notify ident uid ev title body : preserves (E:=E) (linked ident uid) (server_notify srv ev title body).
Proof.
  unfold server_notify. destruct (srv_notif srv); [|apply preserves_ret]. apply preserves_Notify, linked_log.
Qed.

Lemma LinkOIDCIdentity_linked now rid uid ident d :
  accounts_wf d -> (LinkOIDCIdentity now rid uid (id_Issuer ident) (id_Subject ident) (id_Email ident) d).2 = Ok tt ->
  linked ident uid (LinkOIDCIdentity now rid uid (id_Issuer ident) (id_Subject ident) (id_Email ident) d).1.
Proof.
  intros Hwf Hok. split; [by apply (account_op_wf (OpLinkOIDCIdentity _ _ _ _ _ _))|].
  unfold LinkOIDCIdentity in *. destruct (_ || _); [done|]. cbn [fst]. eexists. split; [apply elem_of_app; right; left|done].
Qed.

Lemma wp_provision_learns m ident w :
  accounts_wf (w_db w) ->
  wp (provision srv m ident) (fun o w' => forall uid, o = Ret (Ok uid) -> linked ident uid (w_db w')) w.
Proof.
  intros Hwf. unfold provision. apply wp_bind.
  assert (Hrest : forall n w', accounts_wf (w_db w') -> wp (uid ← newUserID;
    at_ ← unixNow;
    let? u := sql (CreateUser at_ uid (if String.eqb (id_Name ident) "" then id_Email ident else id_Name ident)
                 (IsAdmin m (id_Groups ident) || match n with Ok n => n =? 0 | Fail _ => false end)) in
    (rid ← randToken 16;
     at_ ← unixNow;
     let? _ := sql (LinkOIDCIdentity at_ rid (u_ID u) (id_Issuer ident) (id_Subject ident) (id_Email ident)) in
     (_ ← server_notify srv EventAuth ("Account created: " +:+ u_Name u) ("First sign-in via " +:+ Name m +:+ ".");
      mret (Ok (u_ID u)))))
    (fun o w'' => forall uid, o = Ret (Ok uid) -> linked ident uid (w_db w'')) w').
  { clear w Hwf. intros n w Hwf. apply wp_bind, wp_randToken. intros e1 uid _. apply wp_bind, wp_unixNow. intros e2 t _.
    apply wp_bind, wp_sql; [by intros; apply wp_ret|]. intros e3. cbn [w_db set_env].
    pose proof (account_op_wf (OpCreateUser (t / second) uid (if String.eqb (id_Name ident) "" then id_Email ident else id_Name ident)
      (IsAdmin m (id_Groups ident) || match n with Ok n => n =? 0 | Fail _ => false end)) _ Hwf) as Hwf'.
    unfold account_op in Hwf'. destruct (CreateUser _ _ _ _ (w_db w)) as [d [u|err]]; cbn [fst snd] in *; [|by apply wp_ret].
    apply wp_bind, wp_randToken. intros e4 rid _. apply wp_bind, wp_unixNow. intros e5 t' _.
    apply wp_bind, wp_sql; [by intros; apply wp_ret|]. intros e6. cbn [w_db set_env set_db].
    pose proof (LinkOIDCIdentity_linked (t' / second) rid (u_ID u) ident d Hwf') as Hl.
    destruct (LinkOIDCIdentity _ _ _ _ _ _ d) as [d' [[]|err]]; cbn [fst snd] in *; [|by apply wp_ret].
    apply wp_bind. eapply wp_mono; [apply (wp_preserves (linked ident (u_ID u))); [apply linked_notify|by apply Hl]|].
    intros [[]|msg] w'' Hw; [|done]. apply wp_ret. by intros ? [= <-]. }
  apply wp_sql; [intros e err; by apply (Hrest (Fail err))|intros e; by apply (Hrest (Ok _))].
Qed.

Lemma wp_resolve_learns m ident w :
  accounts_wf (w_db w) ->
  wp (resolveOIDCUser srv m ident) (fun o w' => forall uid, o = Ret (Ok uid) -> linked ident uid (w_db w')) w.
Proof.
  intros Hwf. unfold resolveOIDCUser. apply wp_bind, wp_sql; [intros e err|intros e].
  { destruct (errors_Is err ErrNotFound); [|by apply wp_ret]. by apply wp_provision_learns. }
  cbn [OIDCIdentityBySubject fst snd]. destruct (query_row _ _) as [o|err] eqn:Hq.
  2: { destruct (errors_Is err ErrNotFound); [|by apply wp_ret]. by apply wp_provision_learns. }
  apply query_row_Ok in Hq as [Ho [Hi%String.eqb_eq Hs%String.eqb_eq]%andb_true_iff].
  apply wp_bind, wp_sql; [by intros; apply wp_ret|]. intros e2. cbn [GetUser fst snd w_db set_env set_db].
  destruct (query_row (user_id (oi_UserID o)) _) as [u|err] eqn:Hu; [|by apply wp_ret].
  apply query_row_Ok in Hu as [_ Hid%String.eqb_eq].
  apply wp_bind. eapply wp_mono; [apply syncOIDCAdmin_frame|]. intros ? w' [-> Hw]. apply wp_ret. intros uid [= <-].
  assert (linked ident (u_ID u) (w_db w)) as Hl by (split; [done|]; exists o; by rewrite Hid).
  cbn [w_db set_env set_db] in Hw. destruct Hw as [-> | ->]; [done|]. by apply linked_admin.
Qed.

(** From [w] on the identity is that of the user [uid], who exists: a sign-in
    resolves to them and creates no other. *)
Definition resolves_to (m : Oidc.Manager) (ident : Identity) (uid : string) (w : World E) : Prop :=
  uid ∈ map u_ID (db_users (w_db w)) /\
  forall e, wp (resolveOIDCUser srv m ident) (fun o w' => o = Ret (Ok uid) /\
    map u_ID (db_users (w_db w')) = map u_ID (db_users (w_db w))) (set_env w e).

(** C31. An external identity is the same user every time: once a sign-in
    resolved it, every later one with the same issuer and subject, whatever the
    name, the mail and the groups are by then and as long as nothing but the
    outside has changed, resolves to that user and creates no other. *)
Theorem resolveOIDCUser_stable m ident ident' w (Hnf : no_faults (E:=E)) (Hwf : accounts_wf (w_db w))
    (Hsame : id_Issuer ident' = id_Issuer ident /\ id_Subject ident' = id_Subject ident) :
  wp (resolveOIDCUser srv m ident) (fun o w' => forall uid, o = Ret (Ok uid) -> resolves_to m ident' uid w') w.
Proof.
  eapply wp_mono; [by apply wp_resolve_learns|]. intros o w' Hl uid Ho. destruct (Hl uid Ho) as (Hwf' & x & Hx & Hi & Hs & Hu).
  split.
  - pose proof (aw_oidc_fk _ Hwf' x Hx) as (u & Huin & Hid)%user_exists_iff.
    apply list_elem_of_In, in_map_iff. exists u. split; [congruence|]. by apply list_elem_of_In.
  - intros e. eapply wp_mono; [apply (wp_resolve_linked m ident' uid)|].
    + done.
    + split; [done|]. exists x. destruct Hsame as [-> ->]. by repeat split.
    + intros o2 w2 (-> & _ & Hids). by split.
Qed.
End Sessions.

(** ** Instances at concrete inputs *)
Definition demo_signing : World Sim := sim_world demo_accounts sim_empty.
Definition ann : User := {| u_ID := "u1"; u_Name := "ann"; u_IsAdmin := true; u_CreatedAt := 100 |}.

Lemma session_roundtrip_witness :
  wp (issueSession sim_server "u1" sim_conn) (session_issued sim_server ann sim_conn demo_signing) demo_signing.
Proof.
  apply (session_roundtrip sim_server ann sim_conn demo_signing sim_no_faults demo_accounts_wf); [left|done|done].
Defined.

(** The session of a minute ago, and the same cookie after thirty days. *)
Example session_used :
  let w' := (issueSession sim_server "u1" sim_conn demo_signing).1 in
  let me := sim_request "GET" ["auth"; "me"] [(SessionCookieName, "tok1")] "" in
  let answer dt := (currentUser (srv_cfg sim_server) me (set_env w' (sim_tick sim_empty dt))).2 in
  answer (60 * second) = Ret (Some (ann, "tok1")) /\ answer (SessionTTL + second) = Ret None.
Proof. split; vm_compute; reflexivity. Qed.

Definition signed_in_ann : World Sim :=
  sim_world (account_ops [OpCreateSession 120 "ann-token" "u1" 5000] demo_accounts) sim_empty.

Lemma logout_ends_session_witness :
  wp (handleLogout sim_server (sim_request "POST" ["auth"; "logout"] [(SessionCookieName, "ann-token")] "") sim_conn)
    (fun o w' => exists s', o = Ret (s', tt) /\ w_db w' = demo_accounts) signed_in_ann.
Proof.
  destruct (logout_ends_session sim_server (sim_request "POST" ["auth"; "logout"] [(SessionCookieName, "ann-token")] "")
    "ann-token" sim_conn signed_in_ann sim_no_faults eq_refl eq_refl) as (s' & Ho & _ & _ & Hdb & _).
  exists s'. split; [exact Ho|]. rewrite Hdb. reflexivity.
Defined.

Definition bob_ident (name : string) (groups : list string) : Identity :=
  {| id_Issuer := "https://id"; id_Subject := "bob"; id_Email := "bob@x"; id_Name := name; id_Groups := groups |}.

Lemma resolveOIDCUser_stable_witness :
  wp (resolveOIDCUser sim_server demo_manager (bob_ident "Bob" [])) (fun o w' => forall uid, o = Ret (Ok uid) ->
    resolves_to sim_server demo_manager (bob_ident "Robert" ["ops"]) uid w') demo_signing.
Proof.
  apply (resolveOIDCUser_stable sim_server demo_manager (bob_ident "Bob" []) (bob_ident "Robert" ["ops"]) demo_signing
    sim_no_faults demo_accounts_wf). done.
Defined.

(** ** What the code does not guard *)
Definition admins (d : DB) : list string := map u_ID (select_rows u_IsAdmin (db_users d)).
Definition two_admins : DB := account_ops
  [OpCreateUser 100 "u1" "ann" true; OpCreateUser 101 "u2" "bob" true] empty_db.

(** Two admins who delete each other at the same time: each request counts two
    administrators before either deletes, and none is left. *)
Example concurrent_deletes :
  (CountAdmins two_admins).2 = Ok 2 /\
  admins (DeleteUser "u2" (DeleteUser "u1" two_admins).1).1 = [].
Proof. split; reflexivity. Qed.

(** A store in which the [n]th statement from now fails. *)
Definition faulty : Env nat := {|
  cli_ContainerList all n := (n, (cli_ContainerList all sim_empty).2);
  cli_ContainerInspect ref n := (n, (cli_ContainerInspect ref sim_empty).2);
  cli_ContainerCreate cfg hc net name n := (n, (cli_ContainerCreate cfg hc net name sim_empty).2);
  cli_ContainerStart ref n := (n, (cli_ContainerStart ref sim_empty).2);
  cli_ContainerStop ref n := (n, (cli_ContainerStop ref sim_empty).2);
  cli_ContainerRestart ref n := (n, (cli_ContainerRestart ref sim_empty).2);
  cli_ContainerWait ref n := (n, (cli_ContainerWait ref sim_empty).2);
  cli_ContainerRename ref name n := (n, (cli_ContainerRename ref name sim_empty).2);
  cli_ContainerRemove ref n := (n, (cli_ContainerRemove ref sim_empty).2);
  cli_NetworkConnect net id ep n := (n, (cli_NetworkConnect net id ep sim_empty).2);
  cli_ImagePull ref n := (n, (cli_ImagePull ref sim_empty).2);
  cli_ImageInspect ref n := (n, (cli_ImageInspect ref sim_empty).2);
  cli_ImageRemove ref n := (n, (cli_ImageRemove ref sim_empty).2);
  cli_DistributionInspect ref n := (n, (cli_DistributionInspect ref sim_empty).2);
  time_Now n := (n, (time_Now sim_empty).2);
  select_1s n := (n, (select_1s sim_empty).2);
  ctx_Err n := (n, (ctx_Err sim_empty).2);
  rand_ID n := (n, (rand_ID sim_empty).2);
  os_Getenv k n := (n, (os_Getenv k sim_empty).2);
  proc_lines p n := (n, (proc_lines p sim_empty).2);
  os_Hostname n := (n, (os_Hostname sim_empty).2);
  sql_fault n := (pred n, if (n =? 1)%nat then Some errSim else None)
|}.

(** When the administrators cannot be counted, the provider's groups demote the
    last one. *)
Example uncounted_demotion :
  let run n := (@syncOIDCAdmin nat faulty demo_manager ann (bob_ident "Ann" [])
                  (mkWorld n demo_accounts (NewManager true true) [])).1 in
  admins (w_db (run 0%nat)) = ["u1"] /\ admins (w_db (run 1%nat)) = [].
Proof. split; vm_compute; reflexivity. Qed.

(** A session that cannot be stored: [issueSession] answers, and so does its
    caller. *)
Example failed_session_answers_twice :
  seen ((issueSession sim_server "nobody" ≫= fun _ => ok) sim_conn demo_signing).2 =
    Some (Some StatusInternalServerError, [], [BError "session error"; BFlag]).
Proof. vm_compute. reflexivity. Qed.
