(* ===== verification/Routes.v ===== *)
(** * The routes (src/internal/server: server.go, and the opening of ws.go)

    [routes] is the table [Server.routes] registers, in its order and with its
    patterns; [dispatch] is the mux behind [Server.Handler], after net/http has
    cleaned the path. Then what holds of every request: what it takes to get past
    the guards, and that no request takes the last administrator away. *)
From S2P Require Import Prelude GoStrings Regex Api Db Docker World Sim StoreDocker StoreJobs StoreAuth StoreEvents StoreSettings StoreMdadm.
From S2P Require Import Notify Stateful Auth Oidc Disks Http Server Mdstat RaidWatch Status Snapshot Notices Listing Jobs.
From S2P Require Import Identity UpdateCheck Reconcile Swap SelfUpdate AuthHandlers Handlers SimHttp.
Open Scope Z_scope.

(** ** Patterns *)
Inductive Seg := Lit (s : string) | Wild (name : string).

Record Pattern := { pat_Method : string; pat_Segs : list Seg }.

Definition parse_seg (s : string) : Seg :=
  match s with
  | String "{" rest => Wild (trim_right (Ascii.eqb "}") rest)
  | _ => Lit s
  end.

(** A pattern of the mux: a method, a space and the path. *)
Definition parse_pattern (s : string) : Pattern :=
  match Cut s " " with
  | Some (m, p) => {| pat_Method := m; pat_Segs := map parse_seg (tl (Split p "/")) |}
  | None => {| pat_Method := ""; pat_Segs := map parse_seg (tl (Split s "/")) |}
  end.

(** A wildcard takes one segment that is not empty. *)
Fixpoint match_segs (segs : list Seg) (path : list string) : option (list (string * string)) :=
  match segs, path with
  | [], [] => Some []
  | Lit s :: segs', p :: path' => if String.eqb s p then match_segs segs' path' else None
  | Wild n :: segs', p :: path' =>
      if String.eqb p "" then None
      else match match_segs segs' path' with
           | Some vs => Some ((n, p) :: vs)
           | None => None
           end
  | _, _ => None
  end.

(** A GET pattern takes HEAD requests, too. *)
Definition match_method (m : string) (r : Request) : bool :=
  String.eqb m (rq_Method r) || String.eqb m "GET" && String.eqb (rq_Method r) "HEAD".

Definition match_pattern (p : Pattern) (r : Request) : option (list (string * string)) :=
  if match_method (pat_Method p) r then match_segs (pat_Segs p) (rq_Path r) else None.

Definition PathValue (vs : list (string * string)) (name : string) : string :=
  match List.find (fun v => String.eqb v.1 name) vs with Some v => v.2 | None => "" end.

(** ** The table *)
Inductive Access := Public | SignedIn | AdminOnly.

Section Routes.
Context {E : Type} `{!Env E} `{!WebAuthn E} `{!RandEnv E} `{!OidcLib E} `{!Shoutrrr E} `{!UrlLib} `{!Calendar}
  `{!JsonCodec (gmap string bool)} `{!JsonCodec (list NotificationTarget)} `{!JsonCodec (list string)}
  `{!RequestCodecs} `{!DockerCodecs} `{!RaidCodecs} `{!RaidEnv E} `{!RRuleEnv} `{!Gopsutil E} `{!FilesEnv E} `{!ZoneEnv E}
  `{!WebSocket} `{!Spa}.
Context (srv : Server).
Abbreviation cfg := (srv_cfg srv).
Abbreviation HM := (HM E).
Abbreviation Handler := (Handler E).

(** A handler gets the path values, and behind a guard the user. *)
Definition PathHandler : Type := (string -> string) -> User -> Handler.

Record Entry := { rt_Pattern : Pattern; rt_Access : Access; rt_Handler : PathHandler }.

Definition public (pat : string) (h : Handler) : Entry :=
  {| rt_Pattern := parse_pattern pat; rt_Access := Public; rt_Handler := fun _ _ => h |}.
Definition authed (pat : string) (h : PathHandler) : Entry :=
  {| rt_Pattern := parse_pattern pat; rt_Access := SignedIn; rt_Handler := h |}.
Definition admin (pat : string) (h : PathHandler) : Entry :=
  {| rt_Pattern := parse_pattern pat; rt_Access := AdminOnly; rt_Handler := h |}.

Definition handleHealthz : Handler := fun r => respond StatusOK (BMap "status" "ok").

(** [handleWS] up to the upgrade; what the connection then does is in Hub. *)
Definition handleWS : Handler := fun r =>
  u ← store (currentUser cfg r);
  match u with
  | None => fail StatusUnauthorized "not authenticated"
  | Some (user, _) =>
      match ws_Accept [trim_right (Ascii.eqb "/") (sc_Origin cfg)] r with
      | Some (code, msg) => respond code (BText msg)
      | None => respond 101 (BUpgrade (u_IsAdmin user))
      end
  end.

(** [serveSPA]: a file the client has, and the start page for every other path. *)
Definition serveSPA : Handler := fun r =>
  let p := Join (rq_Path r) "/" in
  let p := if String.eqb p "" then "index.html" else p in
  if spa_Open p then respond StatusOK (BFile p)
  else if spa_Open "index.html" then respond StatusOK (BFile "index.html")
  else respond StatusInternalServerError (BText "SPA not built").

(** [Server.routes] *)
Definition routes : list Entry := [
  public "GET /healthz" handleHealthz;
  public "POST /auth/register/begin" (handleRegisterBegin srv);
  public "POST /auth/register/finish" (handleRegisterFinish srv);
  authed "POST /auth/register/device/begin" (fun v u => handleAddDeviceBegin srv u);
  authed "POST /auth/register/device/finish" (fun v u => handleAddDeviceFinish srv u);
  public "POST /auth/login/begin" (handleLoginBegin srv);
  public "POST /auth/login/finish" (handleLoginFinish srv);
  public "POST /auth/logout" (handleLogout srv);
  authed "GET /auth/me" (fun v u => handleMe u);
  public "GET /auth/providers" (handleAuthProviders srv);
  public "GET /auth/oidc/start" (handleOIDCStart srv);
  public "GET /auth/oidc/callback" (handleOIDCCallback srv);
  admin "GET /api/invites" (fun v u => handleListInvites srv);
  admin "POST /api/invites" (fun v u => handleCreateInvite srv u);
  admin "DELETE /api/invites/{token}" (fun v u => handleRevokeInvite (v "token"));
  admin "GET /api/users" (fun v u => handleListUsers);
  admin "DELETE /api/users/{id}" (fun v u => handleDeleteUser (v "id"));
  admin "POST /api/users/{id}/reset" (fun v u => handleResetUser srv (v "id"));
  authed "GET /api/stacks" (fun v u => handleListStacks srv);
  authed "POST /api/stacks/{id}/adopt" (fun v u => handleAdoptStack srv (v "id"));
  authed "POST /api/stacks/{id}/start" (fun v u => handleStackAction srv "start" (v "id"));
  authed "POST /api/stacks/{id}/stop" (fun v u => handleStackAction srv "stop" (v "id"));
  authed "POST /api/stacks/{id}/restart" (fun v u => handleStackAction srv "restart" (v "id"));
  authed "POST /api/stacks/{id}/bringup" (fun v u => handleStackAction srv "bringup" (v "id"));
  authed "POST /api/containers/{id}/start" (fun v u => handleContainerAction srv "start" (v "id"));
  authed "POST /api/containers/{id}/stop" (fun v u => handleContainerAction srv "stop" (v "id"));
  authed "POST /api/containers/{id}/restart" (fun v u => handleContainerAction srv "restart" (v "id"));
  authed "POST /api/containers/{id}/update" (fun v u => handleContainerUpdate srv (v "id"));
  authed "POST /api/containers/{id}/check-update" (fun v u => handleCheckContainerUpdate srv (v "id"));
  authed "POST /api/stacks/{id}/check-update" (fun v u => handleCheckStackUpdate srv (v "id"));
  authed "POST /api/updates/check" (fun v u => handleCheckAllUpdates srv);
  authed "DELETE /api/containers/{id}/managed" (fun v u => handleForgetContainer srv (v "id"));
  authed "DELETE /api/stacks/{id}/managed" (fun v u => handleForgetStack srv (v "id"));
  authed "POST /api/containers/autoupdate" (fun v u => handleSetAutoUpdate);
  authed "GET /api/settings" (fun v u => handleGetSettings);
  authed "PUT /api/settings" (fun v u => handlePutSettings);
  authed "GET /api/disks" (fun v u => handleListDisks);
  authed "PUT /api/disks" (fun v u => handleSetDiskVisibility);
  admin "POST /api/mdadm/{name}/scan" (fun v u => handleStartMdadmScan srv (v "name"));
  admin "GET /api/mdadm/schedules" (fun v u => handleGetMdadmSchedules);
  admin "PUT /api/mdadm/schedules" (fun v u => handleSetMdadmSchedules);
  admin "GET /api/events" (fun v u => handleListEvents);
  admin "GET /api/notifications" (fun v u => handleGetNotifications srv);
  admin "PUT /api/notifications" (fun v u => handlePutNotifications srv);
  admin "POST /api/notifications/test" (fun v u => handleTestNotification srv);
  public "GET /ws" handleWS].

Definition no_user : User := {| u_ID := ""; u_Name := ""; u_IsAdmin := false; u_CreatedAt := 0 |}.

Definition guarded (t : Entry) (vs : list (string * string)) : Handler :=
  match rt_Access t with
  | Public => rt_Handler t (PathValue vs) no_user
  | SignedIn => requireAuth cfg BError (rt_Handler t (PathValue vs))
  | AdminOnly => requireAdmin cfg BError (rt_Handler t (PathValue vs))
  end.

Fixpoint find_route (l : list Entry) (r : Request) : option (Entry * list (string * string)) :=
  match l with
  | [] => None
  | t :: l' =>
      match match_pattern (rt_Pattern t) r with
      | Some vs => Some (t, vs)
      | None => find_route l' r
      end
  end.

Definition dispatch : Handler := fun r =>
  match find_route routes r with
  | Some (t, vs) => guarded t vs r
  | None => serveSPA r
  end.

(** [Server.Handler]: the cross-origin check comes before the mux. *)
Definition trusted_origins (origin_host : string -> option string) : list string :=
  let origin := trim_right (Ascii.eqb "/") (sc_Origin cfg) in
  match origin_host origin with Some _ => [origin] | None => [] end.

Definition serve (origin_host : string -> option string) : Handler := fun r =>
  if csrf_allows origin_host (trusted_origins origin_host) r then dispatch r
  else respond StatusForbidden (BText "cross-origin request detected").
End Routes.

(** ** Getting past the guards *)
Section Guards.
Context {E : Type} `{!Env E} `{!WebAuthn E} `{!RandEnv E} `{!OidcLib E} `{!Shoutrrr E} `{!UrlLib} `{!Calendar}
  `{!JsonCodec (gmap string bool)} `{!JsonCodec (list NotificationTarget)} `{!JsonCodec (list string)}
  `{!RequestCodecs} `{!DockerCodecs} `{!RaidCodecs} `{!RaidEnv E} `{!RRuleEnv} `{!Gopsutil E} `{!FilesEnv E} `{!ZoneEnv E}
  `{!WebSocket} `{!Spa}.
Context (srv : Server).

(** The request carries the cookie of a session of this user that has not
    expired when the request reads the clock. *)
Definition session_of (r : Request) (w : World E) (user : User) : Prop :=
  exists token, cookie (srv_cfg srv) r SessionCookieName = Some token /\ user ∈ db_users (w_db w) /\
    live_session token user w.

(** An answer that says nothing: an error, or a file of the web client. *)
Definition harmless (b : Body (E:=E)) : Prop :=
  match b with BError _ | BFile _ | BText _ => True | _ => False end.

(** Nothing was done but to drop an expired session, nothing was started, no
    cookie was set, and the answer is harmless. *)
Definition turned_away (s : Conn E) (w : World E) (o : outcome (Conn E * unit)) (w' : World E) : Prop :=
  only_session w w' /\ exists s' b, o = Ret (s', tt) /\ s'.1 = s.1 /\ rs_Tasks s'.2 = rs_Tasks s.2 /\
    rs_Cookies s'.2 = rs_Cookies s.2 /\ rs_Body s'.2 = rs_Body s.2 ++ [b] /\ harmless b.

Lemma refused_turned_away code s w o w' :
  refused_with (E:=E) (T:=Task) BError code s w o w' -> turned_away s w o w'.
Proof.
  intros (msg & Hw & ->). split; [done|]. eexists _, (BError msg). split; [done|]. unfold write_status.
  by destruct (rs_Status s.2).
Qed.

Lemma only_session_refl (w : World E) : only_session w w.
Proof. split; [done|]. split; [done|by left]. Qed.

Lemma respond_turned_away code b s w :
  harmless b -> wp (respond code b s) (turned_away s w) w.
Proof.
  intros Hb. split; [apply only_session_refl|]. eexists _, b. split; [done|]. unfold write_status.
  by destruct (rs_Status s.2).
Qed.

Lemma serveSPA_turned_away r s w : wp (serveSPA r s) (turned_away s w) w.
Proof. unfold serveSPA. repeat case_match; by apply respond_turned_away. Qed.

Lemma find_route_spec (l : list (Entry (E:=E))) r t vs :
  find_route l r = Some (t, vs) -> t ∈ l /\ match_segs (pat_Segs (rt_Pattern t)) (rq_Path r) = Some vs.
Proof.
  induction l as [|x l IH]; cbn [find_route]; [done|]. unfold match_pattern.
  destruct (match_method _ r); [destruct (match_segs (pat_Segs (rt_Pattern x)) (rq_Path r)) eqn:Hm|].
  - intros [= -> ->]. split; [left|done].
  - intros [? ?]%IH. split; [by right|done].
  - intros [? ?]%IH. split; [by right|done].
Qed.

(** The first segments of a path that need at least the access [a]. *)
Definition rank (a : Access) : nat := match a with Public => 0 | SignedIn => 1 | AdminOnly => 2 end.
Definition demand (path : list string) : Access :=
  match path with
  | "api" :: p :: _ =>
      if existsb (String.eqb p) ["invites"; "users"; "mdadm"; "events"; "notifications"] then AdminOnly else SignedIn
  | "api" :: _ => SignedIn
  | _ => Public
  end.

(** Every path a pattern takes begins like the pattern. *)
Definition entry_ok (t : Pattern * Access) : bool :=
  match pat_Segs t.1 with
  | Lit "api" :: Lit p :: _ => (rank (demand ["api"; p]) <=? rank t.2)%nat
  | Lit "api" :: _ => false
  | Wild _ :: _ => false
  | _ => true
  end.

Lemma routes_ok : forallb (fun t => entry_ok (rt_Pattern t, rt_Access t)) (routes srv) = true.
Proof. reflexivity. Qed.

Lemma entry_demand t path vs :
  entry_ok t = true -> match_segs (pat_Segs t.1) path = Some vs -> (rank (demand path) <= rank t.2)%nat.
Proof.
  unfold entry_ok. destruct t as [[m segs] a]. cbn [fst snd pat_Segs]. intros Hok Hm.
  destruct segs as [|[x|n] segs]; [|destruct path as [|p path]; [done|]|done].
  - destruct path; [|done]. simpl. lia.
  - cbn [match_segs] in Hm. destruct (String.eqb_spec x p) as [<-|]; [|done].
    destruct (decide (x = "api")) as [->|Hx].
    + destruct segs as [|[y|?] segs]; [done| |done]. destruct path as [|q path]; [done|]. cbn [match_segs] in Hm.
      destruct (String.eqb_spec y q) as [<-|]; [|done]. by apply Nat.leb_le in Hok.
    + assert (demand (x :: path) = Public) as ->; [|simpl; lia]. unfold demand. repeat case_match; congruence.
Qed.
Lemma guarded_turned_away t vs r s w :
  wp (guarded srv t vs r s) (fun o w' => turned_away s w o w' \/ rt_Access t = Public \/
    exists user, session_of r w user /\ (rt_Access t = AdminOnly -> u_IsAdmin user = true)) w.
Proof.
  unfold guarded. destruct (rt_Access t) eqn:Ha.
  - eapply wp_mono; [|intros o w' _; right; by left]. by instantiate (1 := fun _ _ => True).
  - eapply wp_mono; [apply (requireAuth_guards (srv_cfg srv) BError _ r s w (fun _ _ => exists user, session_of r w user))|].
    + intros user token e Hc Hu Hs. exists user, token. done.
    + intros o w' [H'|(user & Hu)]; [left; by eapply refused_turned_away|]. right. right. by exists user.
  - eapply wp_mono; [apply (requireAdmin_guards (srv_cfg srv) BError _ r s w
      (fun _ _ => exists user, session_of r w user /\ u_IsAdmin user = true))|].
    + intros user token e Had Hc Hu Hs. exists user. split; [by exists token|done].
    + intros o w' [H'|[H'|(user & Hu & Had)]]; [left; by eapply refused_turned_away..|]. right. right. by exists user.
Qed.

(** C9. Nothing under /api answers a stranger: whatever the method and the path,
    a request without the live session of a user is turned away with an error or
    a file of the web client, and changes nothing but to drop the expired
    session it presented; and under the invites, users, mdadm, events and
    notifications trees the same holds of a user who is no administrator. *)
Theorem api_needs_session origin_host r s w :
  wp (serve srv origin_host r s) (fun o w' =>
    turned_away s w o w' \/ demand (rq_Path r) = Public \/
    exists user, session_of r w user /\ (demand (rq_Path r) = AdminOnly -> u_IsAdmin user = true)) w.
Proof.
  unfold serve. destruct (csrf_allows _ _ r).
  2: { eapply wp_mono; [by apply respond_turned_away|]. auto. }
  unfold dispatch. destruct (find_route (routes srv) r) as [[t vs]|] eqn:Hf.
  2: { eapply wp_mono; [apply serveSPA_turned_away|]. auto. }
  apply find_route_spec in Hf as [Ht Hm]. pose proof routes_ok as Hok. rewrite forallb_forall in Hok.
  specialize (Hok t ltac:(by apply list_elem_of_In)). apply (entry_demand _ (rq_Path r) vs) in Hok; [|done]. cbn [snd] in Hok.
  eapply wp_mono; [apply guarded_turned_away|]. intros o w' [?|[Ha|(user & Hu & Ha)]]; [by left|right..].
  - left. rewrite Ha in Hok. destruct (demand (rq_Path r)); simpl in Hok; [done|lia..].
  - right. exists user. split; [done|]. intros Hd. apply Ha. rewrite Hd in Hok. destruct (rt_Access t); simpl in Hok; [lia..|done].
Qed.
End Guards.

(** ** The rest of the program leaves the accounts alone *)
(** A statement on the services' tables, the settings or the log. *)
Ltac outside_op :=
  match goal with
  | |- _ (_ _).1 =>
      unfold SetSetting, AppendEvent, PruneEventsOlderThan, ListEvents, GetSetting, UpsertStack, AddManagedContainer,
        SetAutoUpdate, UpdateSnapshot, DeleteManagedContainer, Unadopt, delete_stack, set_managed, set_stacks, set_jobs,
        StartUpdateJob, SetUpdateJobPhase, MarkUpdateJobSelf, FinishUpdateJob;
      repeat case_match; cbn [fst]; repeat (apply routine_services || apply routine_log); assumption
  end.

Section Outside.
Context {E : Type} `{!Env E} `{!WebAuthn E} `{!OidcLib E} `{!Shoutrrr E} `{!UrlLib} `{!Calendar}
  `{!JsonCodec (gmap string bool)} `{!JsonCodec (list NotificationTarget)} `{!JsonCodec (list string)}
  `{!RequestCodecs} `{!DockerCodecs} `{!RaidCodecs} `{!RaidEnv E} `{!RRuleEnv} `{!Gopsutil E} `{!FilesEnv E} `{!ZoneEnv E}.
Context (P : DB -> Prop) `{!Routine P}.

Lemma keep_BroadcastStacks : preserves (E:=E) P BroadcastStacks.
Proof. apply BroadcastStacks_tables, routine_log. Qed.

Lemma keep_ListStacks : preserves (E:=E) P ListStacks.
Proof. unfold ListStacks, list_live, updatingContainers. open_calls. by repeat preserves_step. Qed.

Lemma keep_Adopt id : preserves (E:=E) P (Adopt id).
Proof.
  assert (forall stack l found, preserves (E:=E) P (adopt_loop id stack l found)) as Hloop.
  { intros stack l. induction l as [|c l IH]; intros found; cbn [adopt_loop]; open_calls;
      repeat first [apply IH | outside_op | preserves_step]. }
  unfold Adopt. open_calls. repeat first [apply Hloop | apply keep_BroadcastStacks | outside_op | preserves_step].
Qed.

Lemma keep_ResolveManaged id : preserves (E:=E) P (ResolveManaged id).
Proof. unfold ResolveManaged. by repeat preserves_step. Qed.

Lemma keep_checkUpdates managed : preserves (E:=E) P (checkUpdates managed).
Proof.
  assert (forall l changed n, preserves (E:=E) P (check_loop l changed n)) as Hloop.
  { induction l as [|mc l IH]; intros changed n; cbn [check_loop]; unfold remoteHasNewImage; open_calls;
      repeat first [apply IH | outside_op | preserves_step]. }
  unfold checkUpdates, seedUpdateAvail, persistUpdateAvail, LoadNotifiedUpdates, SaveNotifiedUpdates, getJSON, loadJSON, setJSON.
  open_calls. repeat first [apply Hloop | apply keep_BroadcastStacks | outside_op | preserves_step].
Qed.

Lemma keep_raid_start name now : preserves (E:=E) P (RaidWatch.Start name now).
Proof.
  unfold RaidWatch.Start, recordFailure, raid_notify, scan, start, LoadMdadmScanFailures, SaveMdadmScanFailures, getJSON, loadJSON, setJSON.
  open_calls. repeat first [outside_op | preserves_step].
Qed.

Lemma keep_SaveSettings cfg : preserves (E:=E) P (SaveSettings cfg).
Proof. unfold SaveSettings, SaveDiskVisibility, setJSON. repeat first [outside_op | preserves_step]. Qed.

Lemma keep_Config n : preserves (E:=E) P (Notify.Config n).
Proof.
  unfold Notify.Config. repeat first [apply observes_preserves, observes_LoadNotificationConfig | preserves_step].
Qed.

Lemma keep_Save n cfg : preserves (E:=E) P (Notify.Save n cfg).
Proof. unfold Notify.Save, SaveNotificationConfig, setJSON. repeat first [outside_op | preserves_step]. Qed.

Lemma keep_SendTest n urls : preserves (E:=E) P (SendTest n urls).
Proof. unfold SendTest, Send, send_one. repeat first [apply keep_Config | preserves_step]. Qed.

Lemma keep_Enumerate : preserves (E:=E) P Enumerate.
Proof. unfold Enumerate, enumerateMounts, listDeviceNames, mount_step. repeat preserves_step. Qed.

(** *** The jobs a request leaves running *)
Lemma keep_jobWithID id kind target fn :
  (forall emit, (forall p m, preserves P (emit p m)) -> preserves P (fn emit)) ->
  preserves (E:=E) P (jobWithID id kind target fn).
Proof.
  intros Hf. assert (forall p m, preserves (E:=E) P (emit_job id kind target p m)) as He.
  { intros p m. unfold emit_job, track, publish. open_calls. repeat preserves_step. }
  unfold jobWithID, forget, publish. cbv zeta. open_calls.
  repeat first [apply He | apply Hf, He | apply keep_BroadcastStacks | preserves_step].
Qed.

Lemma keep_job kind target fn :
  (forall emit, (forall p m, preserves P (emit p m)) -> preserves P (fn emit)) ->
  preserves (E:=E) P (job kind target fn).
Proof. intros Hf. unfold job, genID. apply preserves_bind; [apply preserves_call|]. intros id. by apply keep_jobWithID. Qed.

Lemma keep_update_job mc id emit :
  (forall p m, preserves (E:=E) P (emit p m)) -> preserves P (update_job mc id emit).
Proof.
  intros He. assert (forall p m, preserves P (record_step id emit p m)) as Hr.
  { intros p m. unfold record_step. repeat first [apply He | outside_op | preserves_step]. }
  assert (preserves P (doUpdate mc id (record_step id emit))) as Hd.
  { apply doUpdate_preserves; [| |done]; intros; by apply routine_services. }
  unfold update_job, finishJob. open_calls. repeat first [apply Hd | outside_op | preserves_step].
Qed.

Lemma keep_Update id : preserves (E:=E) P (Update id).
Proof.
  unfold Update. apply preserves_bind; [apply keep_ResolveManaged|]. intros [mc|err].
  - open_calls. repeat first [outside_op | preserves_step]. apply keep_jobWithID. intros emit. apply keep_update_job.
  - apply keep_job. intros emit He. apply preserves_ret.
Qed.

Lemma keep_run_task t : preserves (E:=E) P (run_task t).
Proof.
  destruct t; cbn [run_task]; try apply keep_Update;
    unfold StartStackJob, StopStackJob, RestartStackJob, BringUpStackJob, StartJob, StopJob, RestartJob;
    apply keep_job; intros emit _;
    unfold StartStack, StopStack, RestartStack, BringUpStack, Start, Stop, Restart, containerIDsInStack, awaitNotRunning,
      bring_up, recreate, withContainerLock;
    open_calls; repeat first [apply keep_BroadcastStacks | outside_op | preserves_step].
Qed.
End Outside.

#[export] Hint Resolve keep_ListStacks keep_Adopt keep_ResolveManaged keep_BroadcastStacks keep_raid_start
  keep_SaveSettings keep_Config keep_Save keep_SendTest keep_Enumerate keep_checkUpdates : keep.

Section Serve.
Context {E : Type} `{!Env E} `{!WebAuthn E} `{!RandEnv E} `{!OidcLib E} `{!Shoutrrr E} `{!UrlLib} `{!Calendar}
  `{!JsonCodec (gmap string bool)} `{!JsonCodec (list NotificationTarget)} `{!JsonCodec (list string)}
  `{!RequestCodecs} `{!DockerCodecs} `{!RaidCodecs} `{!RaidEnv E} `{!RRuleEnv} `{!Gopsutil E} `{!FilesEnv E} `{!ZoneEnv E}
  `{!WebSocket} `{!Spa}.
Context (P : DB -> Prop) `{!Routine P} (ok : bool -> bool -> bool) `{!Enrollment P ok}.
Context (srv : Server).
Abbreviation keeps_all := (spreserves (E:=E) (conn_ok ok) P).

(** Every handler of the services, settings, RAID, notifications and events. *)
Ltac keep_more := repeat first
  [ outside_op
  | match goal with
    | |- preserves _ LoadSettings => apply observes_preserves, observes_LoadSettings
    | |- spreserves _ _ (go _) => apply keep_on_response
    end
  | progress keep
  | progress unfold dockerReady, notifyReady, bad, internal, not_managed, start_task, schedules_out, Now,
      LoadDiskVisibility, SaveDiskVisibility, LoadMdadmSchedules, SaveMdadmSchedules, getJSON, loadJSON, setJSON, RaidWatch.start,
      CheckContainerUpdates, CheckStackUpdates, CheckAllUpdates ].

Lemma keep_hListStacks r : keeps_all (handleListStacks srv r).
Proof. unfold handleListStacks. keep_more.
Qed.

Lemma keep_hAdoptStack id r : keeps_all (handleAdoptStack srv id r).
Proof. unfold handleAdoptStack. keep_more. Qed.

Lemma keep_hForgetContainer id r : keeps_all (handleForgetContainer srv id r).
Proof. unfold handleForgetContainer. keep_more. Qed.

Lemma keep_hForgetStack id r : keeps_all (handleForgetStack srv id r).
Proof. unfold handleForgetStack. keep_more. Qed.

Lemma keep_hStackAction action id r : keeps_all (handleStackAction srv action id r).
Proof. unfold handleStackAction. keep_more. Qed.

Lemma keep_hContainerAction action id r : keeps_all (handleContainerAction srv action id r).
Proof. unfold handleContainerAction. keep_more. Qed.

Lemma keep_hContainerUpdate id r : keeps_all (handleContainerUpdate srv id r).
Proof. unfold handleContainerUpdate. keep_more. Qed.

Lemma keep_hCheckContainerUpdate id r : keeps_all (handleCheckContainerUpdate srv id r).
Proof. unfold handleCheckContainerUpdate. keep_more. Qed.

Lemma keep_hCheckStackUpdate id r : keeps_all (handleCheckStackUpdate srv id r).
Proof. unfold handleCheckStackUpdate. keep_more. Qed.

Lemma keep_hCheckAllUpdates r : keeps_all (handleCheckAllUpdates srv r).
Proof. unfold handleCheckAllUpdates. keep_more. Qed.

Lemma keep_hSetAutoUpdate r : keeps_all (handleSetAutoUpdate r).
Proof. unfold handleSetAutoUpdate. keep_more. Qed.

Lemma keep_hGetSettings r : keeps_all (handleGetSettings r).
Proof. unfold handleGetSettings. keep_more. Qed.

Lemma keep_hPutSettings r : keeps_all (handlePutSettings r).
Proof. unfold handlePutSettings. keep_more. Qed.

Lemma keep_hListDisks r : keeps_all (handleListDisks r).
Proof. unfold handleListDisks. keep_more. Qed.

Lemma keep_hSetDiskVisibility r : keeps_all (handleSetDiskVisibility r).
Proof. unfold handleSetDiskVisibility, handleListDisks. keep_more. Qed.

Lemma keep_hStartMdadmScan name r : keeps_all (handleStartMdadmScan srv name r).
Proof. unfold handleStartMdadmScan. keep_more. Qed.

Lemma keep_hGetMdadmSchedules r : keeps_all (handleGetMdadmSchedules r).
Proof. unfold handleGetMdadmSchedules. keep_more. Qed.

Lemma keep_hSetMdadmSchedules r : keeps_all (handleSetMdadmSchedules r).
Proof. unfold handleSetMdadmSchedules. keep_more. Qed.

Lemma keep_hGetNotifications r : keeps_all (handleGetNotifications srv r).
Proof. unfold handleGetNotifications. keep_more. Qed.

Lemma keep_hPutNotifications r : keeps_all (handlePutNotifications srv r).
Proof. unfold handlePutNotifications. keep_more. Qed.

Lemma keep_hTestNotification r : keeps_all (handleTestNotification srv r).
Proof. unfold handleTestNotification. keep_more. Qed.

Lemma keep_hListEvents r : keeps_all (handleListEvents r).
Proof. unfold handleListEvents. keep_more. Qed.

Lemma keep_hWS r : keeps_all (handleWS srv r).
Proof. unfold handleWS, currentUser, SessionUser. keep_more. Qed.

End Serve.

#[export] Hint Resolve keep_hListStacks keep_hAdoptStack keep_hForgetContainer keep_hForgetStack keep_hStackAction keep_hContainerAction
  keep_hContainerUpdate keep_hCheckContainerUpdate keep_hCheckStackUpdate keep_hCheckAllUpdates keep_hSetAutoUpdate keep_hGetSettings keep_hPutSettings keep_hListDisks keep_hSetDiskVisibility
  keep_hStartMdadmScan keep_hGetMdadmSchedules keep_hSetMdadmSchedules keep_hGetNotifications keep_hPutNotifications keep_hTestNotification keep_hListEvents keep_hWS : keep.

(** ** No request takes the last administrator away *)
Section Requests.
Context {E : Type} `{!Env E} `{!WebAuthn E} `{!RandEnv E} `{!OidcLib E} `{!Shoutrrr E} `{!UrlLib} `{!Calendar}
  `{!JsonCodec (gmap string bool)} `{!JsonCodec (list NotificationTarget)} `{!JsonCodec (list string)}
  `{!RequestCodecs} `{!DockerCodecs} `{!RaidCodecs} `{!RaidEnv E} `{!RRuleEnv} `{!Gopsutil E} `{!FilesEnv E} `{!ZoneEnv E}
  `{!WebSocket} `{!Spa}.
Context (srv : Server) (origin_host : string -> option string).

Section Keep.
Context (P : DB -> Prop) `{!Routine P} (ok : bool -> bool -> bool) `{!Enrollment P ok}.
Abbreviation keeps_all := (spreserves (E:=E) (conn_ok ok) P).

(** What is for administrators only can do more. *)
Lemma keep_entry t vs u r :
  (forall m ident, srv_oidc srv = Some m -> preserves (E:=E) P (resolveOIDCUser srv m ident)) ->
  (rt_Access t = AdminOnly -> keeps_all (rt_Handler t vs u r)) ->
  t ∈ routes srv -> keeps_all (rt_Handler t vs u r).
Proof.
  intros Ho Hadm Ht. unfold routes in Ht. repeat (apply elem_of_cons in Ht as [->|Ht]); [..|by apply not_elem_of_nil in Ht];
    first [by apply Hadm | cbn [rt_Handler public authed]; first
      [ by apply keep_OIDCCallback | apply keep_respond | solve [eauto 3 with keep nocore typeclass_instances]]].
Qed.

Lemma keep_currentUser r : preserves (E:=E) P (currentUser (srv_cfg srv) r).
Proof. unfold currentUser, SessionUser, unixNow, Now. repeat keep_step. Qed.

Lemma keep_serveSPA r : keeps_all (serveSPA r).
Proof. unfold serveSPA. repeat case_match; apply keep_respond. Qed.

Lemma keep_serve r :
  (forall t vs u, t ∈ routes srv -> keeps_all (rt_Handler t vs u r)) -> keeps_all (serve srv origin_host r).
Proof.
  intros Hall. unfold serve, dispatch. destruct (csrf_allows _ _ r); [|apply keep_respond].
  destruct (find_route (routes srv) r) as [[t vs]|] eqn:Ht; [|apply keep_serveSPA].
  apply find_route_spec in Ht as [Ht _]. unfold guarded, requireAuth, requireAdmin.
  destruct (rt_Access t); [by apply Hall| |]; (apply spreserves_bind; [apply keep_store, keep_currentUser|]);
    intros [[user token]|]; try apply keep_on_response; repeat case_match; try apply keep_on_response; by apply Hall.
Qed.
End Keep.

Lemma charge_entry t vs u r :
  no_faults (E:=E) \/ (forall m, srv_oidc srv = Some m -> HasAdminGroups m = false) ->
  t ∈ routes srv -> spreserves (E:=E) (conn_ok any_ceremony) in_charge (rt_Handler t vs u r).
Proof.
  intros Hf Ht. apply keep_entry; try apply _; [|intros Ha; clear Hf|done].
  - intros m ident Hm. apply charge_resolveOIDCUser. destruct Hf as [|Hf]; auto.
  - unfold routes in Ht. repeat (apply elem_of_cons in Ht as [->|Ht]); [..|by apply not_elem_of_nil in Ht];
      (discriminate Ha || cbn [rt_Handler admin]); first
      [ apply charge_DeleteUser | apply keep_CreateInvite; [apply _..|intros; by apply charge_invite]
      | apply keep_ResetUser; [apply _..|intros; by apply charge_invite] | solve [eauto 3 with keep nocore typeclass_instances]].
Qed.

Lemma charge_serve r :
  no_faults (E:=E) \/ (forall m, srv_oidc srv = Some m -> HasAdminGroups m = false) ->
  spreserves (E:=E) (conn_ok any_ceremony) in_charge (serve srv origin_host r).
Proof. intros Hf. apply keep_serve; [apply _..|]. intros t vs u. by apply charge_entry. Qed.
End Requests.

(** ** Instances at concrete inputs *)
(** Ann is the administrator, Bob is not; both are signed in. *)
Definition demo_http : World Sim := sim_world (account_ops
  [OpCreateSession 120 "ann-token" "u1" 5000; OpCreateSession 121 "bob-token" "u2" 5000] demo_accounts) sim_empty.

Definition delete_user (token id : string) : Request :=
  sim_request "DELETE" ["api"; "users"; id] [(SessionCookieName, token)] "".

(** Ann cannot delete herself, Bob cannot delete anyone, and Ann can delete Bob. *)
Example last_admin_stays :
  let answer r := seen (serve sim_server (fun _ => None) r sim_conn demo_http).2 in
  answer (delete_user "ann-token" "u1") = Some (Some 400, [], [BError "cannot remove the last admin"]) /\
  answer (delete_user "bob-token" "u1") = Some (Some 403, [], [BError "admin only"]) /\
  answer (delete_user "ann-token" "u2") = Some (Some 200, [], [BFlag]).
Proof. repeat split; vm_compute; reflexivity. Qed.
