(* ===== verification/Hub.v ===== *)
(** * Live push (src/internal/server/ws.go)

    The hub that fans messages out to the connected clients. [Broadcast] and
    [add] change the hub under its mutex and send afterwards, without it, so
    sends of different calls interleave: a call in progress is the list of the
    sends it has left. A message stands for its JSON text. *)
From S2P Require Import Prelude GoStrings Float64 Api.
Open Scope nat_scope.

Definition WSTypeMetrics : string := "metrics".
Definition WSTypeStacks : string := "stacks".
Definition WSTypeEvent : string := "event".

(** [msg.Type] *)
Definition ws_type (m : WSMessage) : string :=
  match m with
  | WSStacks _ => WSTypeStacks
  | WSJob _ => "job"
  | WSJobs _ => "jobs"
  | WSEvent _ => WSTypeEvent
  | WSMetrics _ => WSTypeMetrics
  end.

Definition is_event (m : WSMessage) : bool := String.eqb (ws_type m) WSTypeEvent.
(** The messages that are state, of which the last is replayed. *)
Definition is_state (m : WSMessage) : bool :=
  String.eqb (ws_type m) WSTypeStacks || String.eqb (ws_type m) WSTypeMetrics.

(** [json.Marshal] succeeds: no float of the message is infinite or not a
    number. *)
Definition marshals (m : WSMessage) : bool :=
  match m with
  | WSMetrics s => is_finite (hm_CPUPercent (mss_Host s)) && forallb (fun c => is_finite (cm_CPUPercent c)) (mss_Containers s)
  | _ => true
  end.

(** [wsClient]: the channel's buffer. *)
Record wsClient := { wc_send : list WSMessage; wc_admin : bool }.
Definition sendBuffer : nat := 32.

(** A [*wsClient] is a number. [chans] are the clients that exist, connected
    or not; [flights] the sends left in the calls in progress. *)
Record Hub := {
  chans : gmap nat wsClient;
  clients : gset nat;
  last : gmap string WSMessage;
  flights : list (list (nat * WSMessage))
}.

(** [newHub] *)
Definition newHub : Hub := {| chans := ∅; clients := ∅; last := ∅; flights := [] |}.

Definition set_chans (h : Hub) c : Hub := {| chans := c; clients := clients h; last := last h; flights := flights h |}.
Definition set_flights (h : Hub) f : Hub := {| chans := chans h; clients := clients h; last := last h; flights := f |}.

(** [select { case c.send <- data: default: }] *)
Definition offer (m : WSMessage) (c : wsClient) : wsClient :=
  if length (wc_send c) <? sendBuffer then {| wc_send := wc_send c ++ [m]; wc_admin := wc_admin c |} else c.

Definition try_send (c : nat) (m : WSMessage) (h : Hub) : Hub := set_chans h (alter (offer m) c (chans h)).

(** [c.admin] *)
Definition is_admin (h : Hub) (c : nat) : bool :=
  match chans h !! c with Some cl => wc_admin cl | None => false end.

(** The sends of a broadcast: an event goes to admins only. *)
Definition addressed (h : Hub) (m : WSMessage) (l : list nat) : list (nat * WSMessage) :=
  map (fun c => (c, m)) (List.filter (fun c => negb (is_event m && negb (is_admin h c))) l).

(** The part of [Broadcast] under the mutex; [order] is how the map is ranged
    over. *)
Definition broadcast_locked (m : WSMessage) (order : list nat) (h : Hub) : Hub :=
  {| chans := chans h; clients := clients h;
     last := if is_state m then <[ws_type m := m]> (last h) else last h;
     flights := flights h ++ [addressed h m order] |}.

(** [handleWS] makes the client. *)
Definition connect (c : nat) (admin : bool) (h : Hub) : Hub :=
  set_chans h (<[c := {| wc_send := []; wc_admin := admin |}]> (chans h)).

(** The part of [add] under the mutex. *)
Definition add_locked (c : nat) (replay : list WSMessage) (h : Hub) : Hub :=
  {| chans := chans h; clients := {[c]} ∪ clients h; last := last h;
     flights := flights h ++ [map (fun m => (c, m)) replay] |}.

(** [remove] *)
Definition remove (c : nat) (h : Hub) : Hub :=
  {| chans := chans h; clients := clients h ∖ {[c]}; last := last h; flights := flights h |}.

(** [replayJobs] *)
Definition replayJobs (c : nat) (jobs : list JobProgress) (h : Hub) : Hub := try_send c (WSJobs jobs) h.

(** The next send of a call. *)
Definition fly (i : nat) (h : Hub) : Hub :=
  match flights h !! i with
  | Some ((c, m) :: rest) => set_flights (try_send c m h) (<[i := rest]> (flights h))
  | _ => h
  end.

(** The writer of a connection takes the next message from its channel. *)
Definition receive (c : nat) (h : Hub) : option (WSMessage * Hub) :=
  match chans h !! c with
  | Some {| wc_send := m :: rest; wc_admin := a |} =>
      Some (m, set_chans h (<[c := {| wc_send := rest; wc_admin := a |}]> (chans h)))
  | _ => None
  end.

(** ** Whole calls *)
Fixpoint run_flight (l : list (nat * WSMessage)) (h : Hub) : Hub :=
  match l with
  | [] => h
  | (c, m) :: l' => run_flight l' (try_send c m h)
  end.

(** [Broadcast], [add] without another call in between. *)
Definition Broadcast (m : WSMessage) (h : Hub) : Hub :=
  if marshals m then
    run_flight (addressed h m (elements (clients h)))
      {| chans := chans h; clients := clients h;
         last := if is_state m then <[ws_type m := m]> (last h) else last h; flights := flights h |}
  else h.

Definition add (c : nat) (h : Hub) : Hub :=
  run_flight (map (fun m => (c, m)) (map snd (map_to_list (last h))))
    {| chans := chans h; clients := {[c]} ∪ clients h; last := last h; flights := flights h |}.

(** ** Every interleaving *)
(** What was written to the connections, by client. *)
Definition Sent : Type := list (nat * WSMessage).

Inductive step : Hub * Sent -> Hub * Sent -> Prop :=
| s_connect c a h s : chans h !! c = None -> step (h, s) (connect c a h, s)
| s_add c replay h s : is_Some (chans h !! c) -> replay ≡ₚ map snd (map_to_list (last h)) ->
    step (h, s) (add_locked c replay h, s)
| s_jobs c jobs h s : step (h, s) (replayJobs c jobs h, s)
| s_broadcast m order h s : marshals m = true -> order ≡ₚ elements (clients h) -> step (h, s) (broadcast_locked m order h, s)
| s_fly i h s : step (h, s) (fly i h, s)
| s_receive c m h h' s : receive c h = Some (m, h') -> step (h, s) (h', s ++ [(c, m)])
| s_remove c h s : step (h, s) (remove c h, s).

Inductive reachable : Hub * Sent -> Prop :=
| r_new : reachable (newHub, [])
| r_step x y : reachable x -> step x y -> reachable y.

(** An event is on its way only to an administrator. *)
Definition cleared (h : Hub) (c : nat) (m : WSMessage) : Prop := is_event m = true -> is_admin h c = true.

Record hub_ok (x : Hub * Sent) : Prop := {
  ho_buffer : forall c cl, chans x.1 !! c = Some cl -> length (wc_send cl) <= sendBuffer;
  ho_queued : forall c cl m, chans x.1 !! c = Some cl -> m ∈ wc_send cl -> cleared x.1 c m;
  ho_flying : forall f c m, f ∈ flights x.1 -> (c, m) ∈ f -> cleared x.1 c m;
  ho_sent : forall c m, (c, m) ∈ x.2 -> cleared x.1 c m;
  ho_last : forall k m, last x.1 !! k = Some m -> is_state m = true /\ ws_type m = k
}.

(** The clients keep their rank, and new ones appear. *)
Definition same_ranks (h h' : Hub) : Prop :=
  forall c cl, chans h !! c = Some cl -> exists cl', chans h' !! c = Some cl' /\ wc_admin cl' = wc_admin cl.

#[export] Instance same_ranks_preorder : PreOrder same_ranks.
Proof.
  split; [by intros h c cl Hc; exists cl|]. intros h1 h2 h3 H12 H23 c cl Hc.
  destruct (H12 c cl Hc) as (cl2 & Hc2 & <-). by apply H23.
Qed.

Lemma cleared_mono h h' c m : same_ranks h h' -> cleared h c m -> cleared h' c m.
Proof.
  intros Hr Hc He. specialize (Hc He). unfold is_admin in Hc. destruct (chans h !! c) as [cl|] eqn:Hcl; [|done].
  destruct (Hr c cl Hcl) as (cl' & Hc' & Ha). unfold is_admin. rewrite Hc'. congruence.
Qed.

Lemma same_ranks_chans h h' : chans h' = chans h -> same_ranks h h'.
Proof. intros Hc c cl Hcl. exists cl. by rewrite Hc. Qed.

Lemma offer_admin m cl : wc_admin (offer m cl) = wc_admin cl.
Proof. unfold offer. by destruct (_ <? _). Qed.

Lemma same_ranks_try_send c m h : same_ranks h (try_send c m h).
Proof.
  intros d cl Hd. unfold try_send. cbn [chans set_chans]. destruct (decide (c = d)) as [<-|Hne].
  - rewrite lookup_alter_eq, Hd. eexists. split; [done|]. apply offer_admin.
  - exists cl. by rewrite lookup_alter_ne.
Qed.

Lemma offer_length m cl : length (wc_send cl) <= sendBuffer -> length (wc_send (offer m cl)) <= sendBuffer.
Proof.
  unfold offer. destruct (Nat.ltb_spec (length (wc_send cl)) sendBuffer); cbn [wc_send]; [|done].
  rewrite length_app. simpl. lia.
Qed.

Lemma offer_in m m' cl : m' ∈ wc_send (offer m cl) -> m' ∈ wc_send cl \/ m' = m.
Proof.
  unfold offer. destruct (_ <? _); cbn [wc_send]; [|by left]. intros [?| ->%list_elem_of_singleton]%elem_of_app; auto.
Qed.

Lemma try_send_lookup c m h d cl :
  chans (try_send c m h) !! d = Some cl ->
  exists cl0, chans h !! d = Some cl0 /\ (d = c /\ cl = offer m cl0 \/ cl = cl0).
Proof.
  unfold try_send. cbn [chans set_chans]. destruct (decide (c = d)) as [<-|Hne].
  - rewrite lookup_alter_eq. intros (cl0 & -> & ->)%fmap_Some. eauto.
  - rewrite lookup_alter_ne by done. eauto.
Qed.

(** A send the client is cleared for keeps the hub in order. *)
Lemma try_send_ok c m h s : hub_ok (h, s) -> cleared h c m -> hub_ok (try_send c m h, s).
Proof.
  intros [H1 H2 H3 H4 H5] Hc. cbn [fst snd] in *. pose proof (same_ranks_try_send c m h) as Hr.
  split; cbn [fst snd]; [| |intros; eapply cleared_mono; eauto|intros; eapply cleared_mono; eauto|done].
  - intros d cl (cl0 & Hd & [[-> ->]| ->])%try_send_lookup; [eapply offer_length|]; by eapply H1.
  - intros d cl m' (cl0 & Hd & [[-> ->]| ->])%try_send_lookup Hm; [|eapply cleared_mono; eauto].
    apply offer_in in Hm as [Hm| ->]; eapply cleared_mono; eauto.
Qed.

(** Changing what does not concern the channels. *)
Lemma hub_ok_frame h h' s :
  chans h' = chans h -> last h' = last h -> (forall f, f ∈ flights h' -> f ∈ flights h \/ forall c m, (c, m) ∈ f -> cleared h c m) ->
  hub_ok (h, s) -> hub_ok (h', s).
Proof.
  intros Hc Hl Hf [H1 H2 H3 H4 H5]. cbn [fst snd] in *. pose proof (same_ranks_chans h h' Hc) as Hr.
  split; cbn [fst snd]; rewrite ?Hc, ?Hl; try done.
  - intros; eapply cleared_mono; eauto.
  - intros f c m Hin Hm. eapply cleared_mono; [exact Hr|]. destruct (Hf f Hin) as [Hin'|Hin']; eauto.
  - intros; eapply cleared_mono; eauto.
Qed.

Lemma state_no_event m : is_state m = true -> is_event m = false.
Proof. by destruct m. Qed.

(** The rank a client connected with is the one it keeps. *)
Lemma step_ranks x y : step x y -> same_ranks x.1 y.1.
Proof.
  intros Hs. destruct Hs; cbn [fst]; try by apply same_ranks_chans.
  - intros d cl Hd. exists cl. cbn [connect chans set_chans]. by rewrite lookup_insert_ne by congruence.
  - apply same_ranks_try_send.
  - unfold fly. destruct (flights h !! i) as [[|[c m] rest]|]; [by apply same_ranks_chans| |by apply same_ranks_chans].
    intros d cl Hd. exact (same_ranks_try_send c m h d cl Hd).
  - unfold receive in H. destruct (chans h !! c) as [[[|m0 rest] a]|] eqn:Hc; [done| |done]. injection H as <- <-.
    intros d cl Hd. cbn [chans set_chans]. destruct (decide (c = d)) as [<-|].
    + rewrite lookup_insert_eq. rewrite Hc in Hd. injection Hd as <-. by eexists.
    + exists cl. by rewrite lookup_insert_ne.
Qed.

Lemma step_ok x y : hub_ok x -> step x y -> hub_ok y.
Proof.
  intros Hok Hs. pose proof (step_ranks x y Hs) as Hr. destruct Hs; cbn [fst] in Hr.
  - destruct Hok as [H1 H2 H3 H4 H5]. cbn [fst snd] in *.
    split; cbn [fst snd connect chans set_chans]; [| |intros; eapply cleared_mono; eauto|intros; eapply cleared_mono; eauto|done].
    + intros d cl [[<- <-]|[_ Hd]]%lookup_insert_Some; [cbn; unfold sendBuffer; lia|by eapply H1].
    + intros d cl m [[<- <-]|[_ Hd]]%lookup_insert_Some Hm; [by apply not_elem_of_nil in Hm|].
      eapply cleared_mono; eauto.
  - apply (hub_ok_frame h); [done|done| |exact Hok]. intros f [Hf| ->%list_elem_of_singleton]%elem_of_app; [by left|right].
    intros d m Hm He. apply list_elem_of_In, in_map_iff in Hm as (m0 & [= <- <-] & Hm%list_elem_of_In).
    rewrite H0 in Hm. apply list_elem_of_In, in_map_iff in Hm as ([k m1] & <- & Hk%list_elem_of_In).
    apply elem_of_map_to_list in Hk. apply (ho_last _ Hok) in Hk as [Hst _]. cbn [snd] in He. by rewrite state_no_event in He.
  - apply try_send_ok; [done|]. by intros [=].
  - destruct Hok as [H1 H2 H3 H4 H5]. cbn [fst snd] in *.
    split; cbn [fst snd broadcast_locked chans last flights]; [done| | |intros; eapply cleared_mono; eauto|].
    + intros; eapply cleared_mono; eauto.
    + intros f c m' [Hf| ->%list_elem_of_singleton]%elem_of_app Hm; [eapply cleared_mono; eauto|].
      eapply cleared_mono; [exact Hr|]. intros He. unfold addressed in Hm.
      apply list_elem_of_In, in_map_iff in Hm as (c0 & [= <- <-] & [_ Hc]%filter_In). rewrite He in Hc.
      by destruct (is_admin h c0).
    + intros k m'. destruct (is_state m) eqn:Hst; [|apply H5]. intros [[<- <-]|[_ ?]]%lookup_insert_Some; [done|by apply H5].
  - unfold fly. destruct (flights h !! i) as [[|[c m] rest]|] eqn:Hf; [done| |done].
    pose proof (list_elem_of_lookup_2 _ _ _ Hf) as Hin.
    assert (cleared h c m) as Hc by (eapply (ho_flying _ Hok); [exact Hin|left]).
    clear Hr. pose proof (same_ranks_try_send c m h) as Hr.
    apply (hub_ok_frame (try_send c m h)); [done|done| |by apply (try_send_ok c m)].
    cbn [set_flights flights]. intros f Hf'. apply list_elem_of_lookup in Hf' as [j Hj].
    destruct (decide (i = j)) as [<-|Hne].
    + rewrite list_lookup_insert_eq in Hj by (eapply lookup_lt_Some; eauto). injection Hj as <-. right.
      intros d m' Hm. eapply cleared_mono; [exact Hr|]. eapply (ho_flying _ Hok); [exact Hin|by right].
    + rewrite list_lookup_insert_ne in Hj by done. left. apply list_elem_of_lookup. eauto.
  - unfold receive in H. destruct (chans h !! c) as [[[|m0 rest] a]|] eqn:Hc; [done| |done]. injection H as <- <-.
    destruct Hok as [H1 H2 H3 H4 H5]. cbn [fst snd] in *.
    split; cbn [fst snd chans set_chans]; [| |intros; eapply cleared_mono; eauto| |done].
    + intros d cl [[<- <-]|[_ Hd]]%lookup_insert_Some; [|by eapply H1]. apply H1 in Hc. cbn in *. lia.
    + intros d cl m [[<- <-]|[_ Hd]]%lookup_insert_Some Hm; [|eapply cleared_mono; eauto].
      eapply cleared_mono; [exact Hr|]. eapply H2; [exact Hc|]. by right.
    + intros d m [Hd|[= -> ->]%list_elem_of_singleton]%elem_of_app; [eapply cleared_mono; eauto|].
      eapply cleared_mono; [exact Hr|]. eapply H2; [exact Hc|left].
  - apply (hub_ok_frame h); [done|done| |exact Hok]. auto.
Qed.

(** C10. Whatever calls overlap and however their sends interleave, no channel
    ever holds more than its 32 messages, so that no broadcast blocks on a slow
    client, and an event, which may name users, is queued for, on its way to and
    written to connections of administrators only. *)
Theorem hub_invariant x (Hr : reachable x) :
  (forall c cl, chans x.1 !! c = Some cl -> length (wc_send cl) <= 32) /\
  (forall c cl ev, chans x.1 !! c = Some cl -> WSEvent ev ∈ wc_send cl -> wc_admin cl = true) /\
  (forall f c ev, f ∈ flights x.1 -> (c, WSEvent ev) ∈ f -> is_admin x.1 c = true) /\
  (forall c ev, (c, WSEvent ev) ∈ x.2 -> is_admin x.1 c = true).
Proof.
  assert (hub_ok x) as [H1 H2 H3 H4 _].
  { induction Hr as [|x y _ IH Hs]; [|by eapply step_ok]. split; cbn; try (intros; set_solver); by intros *; rewrite lookup_empty. }
  split; [exact H1|]. split; [|split].
  - intros c cl ev Hc Hm. specialize (H2 c cl _ Hc Hm eq_refl). unfold is_admin in H2. by rewrite Hc in H2.
  - intros f c ev Hf Hm. by apply (H3 f c _ Hf Hm).
  - intros c ev Hm. by apply (H4 c _ Hm).
Qed.

(** ** Calls that do not overlap *)
Lemma run_flight_frame l h :
  clients (run_flight l h) = clients h /\ last (run_flight l h) = last h /\ flights (run_flight l h) = flights h.
Proof.
  revert h. induction l as [|[c m] l IH]; intros h; cbn [run_flight]; [done|]. by destruct (IH (try_send c m h)) as (-> & -> & ->).
Qed.

(** The messages a flight has for one client, in order. *)
Definition for_client (c : nat) (l : list (nat * WSMessage)) : list WSMessage :=
  map snd (List.filter (fun p => p.1 =? c) l).

Lemma run_flight_chans l h c :
  chans (run_flight l h) !! c = (fun cl => fold_left (fun cl m => offer m cl) (for_client c l) cl) <$> chans h !! c.
Proof.
  revert h. induction l as [|[d m] l IH]; intros h; cbn [run_flight].
  - by destruct (chans h !! c).
  - rewrite IH. unfold for_client. cbn [List.filter fst]. unfold try_send. cbn [chans set_chans].
    destruct (Nat.eqb_spec d c) as [->|Hne].
    + rewrite lookup_alter_eq. by destruct (chans h !! c).
    + by rewrite lookup_alter_ne.
Qed.

Lemma for_client_addressed h m l c :
  NoDup l -> for_client c (addressed h m l) =
    if bool_decide (c ∈ l) && negb (is_event m && negb (is_admin h c)) then [m] else [].
Proof.
  unfold for_client, addressed. induction l as [|d l IH]; intros Hn; [done|]. apply NoDup_cons in Hn as [Hd Hn].
  cbn [List.filter]. assert (c = d -> for_client c (addressed h m l) = []) as Hdup.
  { intros ->. unfold for_client, addressed. rewrite IH by done. by rewrite bool_decide_eq_false_2. }
  unfold for_client, addressed in Hdup. destruct (decide (c = d)) as [<-|Hne].
  - rewrite (bool_decide_eq_true_2 (c ∈ c :: l)) by left. cbn [andb].
    destruct (negb (is_event m && negb (is_admin h c))); cbn [map List.filter fst]; [|by apply Hdup].
    rewrite Nat.eqb_refl. cbn [map snd]. by rewrite Hdup.
  - assert (bool_decide (c ∈ d :: l) = bool_decide (c ∈ l)) as ->.
    { apply bool_decide_ext. rewrite elem_of_cons. naive_solver. }
    rewrite <- IH by done. destruct (negb (is_event m && negb (is_admin h d))); [|done]. cbn [map List.filter fst].
    by rewrite (proj2 (Nat.eqb_neq d c)) by done.
Qed.

(** A broadcast that no other call overlaps reaches every connected client once,
    events only the administrators among them, behind what is queued for it; a
    client whose channel is full misses it, the others do not notice; and the
    hub keeps it for later clients if it is a state. One that cannot be encoded
    changes nothing. *)
Theorem Broadcast_spec m h :
  let h' := Broadcast m h in
  if marshals m then
    (forall c, chans h' !! c = (fun cl =>
       if bool_decide (c ∈ clients h) && negb (is_event m && negb (wc_admin cl)) && (length (wc_send cl) <? 32)
       then {| wc_send := wc_send cl ++ [m]; wc_admin := wc_admin cl |} else cl) <$> chans h !! c) /\
    clients h' = clients h /\ flights h' = flights h /\
    (forall k, last h' !! k = if is_state m && String.eqb k (ws_type m) then Some m else last h !! k)
  else h' = h.
Proof.
  intros h'. unfold h', Broadcast. destruct (marshals m); [|done]. set (h1 := {| chans := _; clients := _; last := _; flights := _ |}).
  destruct (run_flight_frame (addressed h m (elements (clients h))) h1) as (-> & -> & ->).
  split; [|split; [done|split; [done|]]].
  - intros c. rewrite run_flight_chans, for_client_addressed by apply NoDup_elements. cbn [chans h1].
    destruct (chans h !! c) as [cl|] eqn:Hc; [|done]. cbn [fmap option_fmap option_map]. f_equal.
    unfold is_admin. rewrite Hc, (bool_decide_ext _ _ (elem_of_elements (clients h) c)).
    destruct (bool_decide (c ∈ clients h) && negb (is_event m && negb (wc_admin cl))); [|done]. cbn [fold_left andb].
    unfold offer. by destruct (_ <? _).
  - intros k. cbn [last h1]. destruct (is_state m); cbn [andb]; [|done]. destruct (String.eqb_spec k (ws_type m)) as [->|Hne].
    + by rewrite lookup_insert_eq.
    + by rewrite lookup_insert_ne by done.
Qed.

(** The last message of a type. *)
Fixpoint latest (k : string) (msgs : list WSMessage) : option WSMessage :=
  match msgs with
  | [] => None
  | m :: rest => match latest k rest with
                 | Some m' => Some m'
                 | None => if String.eqb (ws_type m) k then Some m else None
                 end
  end.

Definition broadcasts (msgs : list WSMessage) (h : Hub) : Hub := fold_left (fun h m => Broadcast m h) msgs h.

Lemma broadcasts_last msgs h k :
  last (broadcasts msgs h) !! k =
    if String.eqb k WSTypeStacks || String.eqb k WSTypeMetrics
    then match latest k (List.filter marshals msgs) with Some m => Some m | None => last h !! k end else last h !! k.
Proof.
  revert h. unfold broadcasts. induction msgs as [|m msgs IH]; intros h; cbn [fold_left List.filter].
  - cbn [latest]. by destruct (_ || _).
  - rewrite IH. unfold Broadcast. destruct (marshals m); [|done]. cbn [latest]. destruct (run_flight_frame (addressed h m (elements (clients h)))
      {| chans := chans h; clients := clients h; last := if is_state m then <[ws_type m := m]> (last h) else last h;
         flights := flights h |}) as (_ & Hl & _).
    rewrite Hl. cbn [last]. clear IH Hl.
    assert (Hm : (if is_state m then <[ws_type m := m]> (last h) else last h) !! k =
      if is_state m && String.eqb (ws_type m) k then Some m else last h !! k).
    { destruct (is_state m); cbn [andb]; [|done]. destruct (String.eqb_spec (ws_type m) k) as [<-|Hne].
      - by rewrite lookup_insert_eq.
      - by rewrite lookup_insert_ne by done. }
    rewrite Hm. clear Hm.
    assert (is_state m = String.eqb (ws_type m) WSTypeStacks || String.eqb (ws_type m) WSTypeMetrics) as -> by done.
    destruct (latest k _), (String.eqb_spec (ws_type m) k) as [<-|Hne]; rewrite ?andb_false_r, ?andb_true_r; try done;
      by destruct (_ || _).
Qed.

Lemma map_two (m : gmap string WSMessage) a b :
  a <> b -> (forall k, is_Some (m !! k) -> k = a \/ k = b) ->
  map snd (map_to_list m) ≡ₚ omap (fun k => m !! k) [a; b].
Proof.
  intros Hab Hk. assert (map_to_list m ≡ₚ omap (fun k => (fun v => (k, v)) <$> m !! k) [a; b]) as ->.
  2: { cbn [omap list_omap]. by destruct (m !! a), (m !! b). }
  apply NoDup_Permutation; [apply NoDup_map_to_list| |].
  - cbn [omap list_omap]. destruct (m !! a), (m !! b); cbn; repeat constructor; set_solver.
  - intros [k v]. rewrite elem_of_map_to_list, list_elem_of_omap. split.
    + intros Hm. exists k. rewrite Hm. split; [|done]. destruct (Hk k) as [->| ->]; [eauto|set_solver..].
    + intros (k' & _ & (v' & Hm & [= <- <-])%fmap_Some). exact Hm.
Qed.

Lemma offers_fit l cl :
  length (wc_send cl) + length l <= sendBuffer ->
  fold_left (fun cl m => offer m cl) l cl = {| wc_send := wc_send cl ++ l; wc_admin := wc_admin cl |}.
Proof.
  revert cl. induction l as [|m l IH]; intros cl Hl; cbn [fold_left]; [rewrite app_nil_r; by destruct cl|].
  unfold offer at 2. cbn [length] in Hl. rewrite (proj2 (Nat.ltb_lt _ _)) by lia. rewrite IH; cbn [wc_send wc_admin].
  - by rewrite <- app_assoc.
  - rewrite length_app. simpl. lia.
Qed.

(** A client that connects late is brought up to date at once: after any series
    of broadcasts, it finds in its channel the latest list of stacks and the
    latest metrics that could be encoded, whichever of the two there have been,
    and nothing of what was pushed before, no job and no event. *)
Theorem late_client_catches_up msgs c admin :
  let sent := List.filter marshals msgs in
  exists l, chans (add c (connect c admin (broadcasts msgs newHub))) !! c = Some {| wc_send := l; wc_admin := admin |} /\
    l ≡ₚ omap (fun k => latest k sent) [WSTypeStacks; WSTypeMetrics].
Proof.
  intros sent. set (h := broadcasts msgs newHub). exists (map snd (map_to_list (last h))).
  assert (map snd (map_to_list (last h)) ≡ₚ omap (fun k => latest k sent) [WSTypeStacks; WSTypeMetrics]) as Hp.
  { rewrite (map_two (last h) WSTypeStacks WSTypeMetrics); [|done|].
    - cbn [omap list_omap]. unfold h. rewrite !broadcasts_last. cbn [last newHub]. rewrite !lookup_empty. fold sent. cbn.
      by destruct (latest WSTypeStacks sent), (latest WSTypeMetrics sent).
    - intros k [m Hm]. unfold h in Hm. rewrite broadcasts_last in Hm. cbn [last newHub] in Hm. rewrite lookup_empty in Hm.
      destruct (String.eqb_spec k WSTypeStacks); [by left|]. destruct (String.eqb_spec k WSTypeMetrics); [by right|done]. }
  split; [|exact Hp]. unfold add. rewrite run_flight_chans. cbn [chans connect set_chans last]. rewrite lookup_insert_eq.
  cbn [fmap option_fmap option_map]. f_equal.
  assert (for_client c (map (fun m => (c, m)) (map snd (map_to_list (last h)))) = map snd (map_to_list (last h))) as ->.
  { generalize (map snd (map_to_list (last h))) as l. induction l as [|m l IH]; [done|].
    unfold for_client in *. cbn [map List.filter fst]. rewrite Nat.eqb_refl. cbn [map snd]. by rewrite IH. }
  rewrite offers_fit; [done|]. cbn [wc_send length]. rewrite Hp. cbn [omap list_omap].
  unfold sendBuffer. destruct (latest WSTypeStacks sent), (latest WSTypeMetrics sent); simpl; lia.
Qed.

(** ** The calls as interleavings *)
Inductive steps : Hub * Sent -> Hub * Sent -> Prop :=
| ss_refl x : steps x x
| ss_step x y z : step x y -> steps y z -> steps x z.

(** A call left alone sends what it has left, and its flight is empty then. *)
Lemma fly_out l h s :
  steps (set_flights h (flights h ++ [l]), s) (set_flights (run_flight l h) (flights h ++ [[]]), s).
Proof.
  revert h. induction l as [|[c m] l IH]; intros h; cbn [run_flight]; [apply ss_refl|].
  eapply ss_step; [apply (s_fly (length (flights h)))|]. unfold fly. cbn [flights set_flights].
  rewrite list_lookup_middle, insert_app_r_alt, Nat.sub_diag by done. exact (IH (try_send c m h)).
Qed.

(** The whole calls are what their steps come to when no other call is in
    between, so what every interleaving guarantees holds of them, too. *)
Theorem calls_are_interleavings m c h s (Hm : marshals m = true) (Hc : is_Some (chans h !! c)) :
  steps (h, s) (set_flights (Broadcast m h) (flights h ++ [[]]), s) /\
  steps (h, s) (set_flights (add c h) (flights h ++ [[]]), s).
Proof.
  split.
  - eapply ss_step; [apply (s_broadcast m (elements (clients h))); done|]. unfold Broadcast. rewrite Hm.
    exact (fly_out _ {| chans := chans h; clients := clients h;
      last := if is_state m then <[ws_type m := m]> (last h) else last h; flights := flights h |} s).
  - eapply ss_step; [apply (s_add c (map snd (map_to_list (last h)))); done|]. unfold add.
    exact (fly_out _ {| chans := chans h; clients := {[c]} ∪ clients h; last := last h; flights := flights h |} s).
Qed.

(** ** Instances at concrete inputs *)
Definition demo_event : Event :=
  {| ev_ID := 1; ev_Event := EventAuth; ev_Title := "Signed in: ann"; ev_Body := ""; ev_ContainerName := "";
     ev_StackID := ""; ev_CreatedAt := 0 |}.

(** Client 0 is an administrator, client 1 is not; both have been added, and an
    event has been broadcast and sent. *)
Definition demo_added : Hub := add_locked 1 [] (add_locked 0 [] (connect 1 false (connect 0 true newHub))).
Definition demo_hub : Hub := fly 2 (broadcast_locked (WSEvent demo_event) [1; 0] demo_added).

Lemma demo_hub_reachable : reachable (demo_hub, []).
Proof.
  eapply r_step; [|apply (s_fly 2)].
  eapply r_step; [|apply (s_broadcast (WSEvent demo_event) [1; 0]); [done|vm_compute; apply Permutation_swap || reflexivity]].
  eapply r_step; [|apply (s_add 1 []); [vm_compute; eauto|vm_compute; reflexivity]].
  eapply r_step; [|apply (s_add 0 []); [vm_compute; eauto|vm_compute; reflexivity]].
  eapply r_step; [|apply (s_connect 1 false); reflexivity].
  eapply r_step; [|apply (s_connect 0 true); reflexivity]. apply r_new.
Qed.

Lemma hub_invariant_witness :
  (wc_send <$> chans demo_hub !! 0) = Some [WSEvent demo_event] /\ (wc_send <$> chans demo_hub !! 1) = Some [] /\
  (forall c cl ev, chans demo_hub !! c = Some cl -> WSEvent ev ∈ wc_send cl -> wc_admin cl = true).
Proof.
  split; [vm_compute; reflexivity|]. split; [vm_compute; reflexivity|].
  exact (proj1 (proj2 (hub_invariant (demo_hub, []) demo_hub_reachable))).
Defined.

Definition demo_metrics (at_ : Z) : WSMessage :=
  WSMetrics {| mss_Host := {| hm_CPUPercent := f64_zero; hm_MemUsed := 0; hm_MemTotal := 0; hm_Disks := [];
                              hm_DiskActivity := []; hm_Mdadm := [] |};
               mss_Containers := []; mss_At := at_ |}.

Lemma calls_are_interleavings_witness :
  steps (demo_hub, []) (set_flights (Broadcast (demo_metrics 1) demo_hub) (flights demo_hub ++ [[]]), []).
Proof. apply (calls_are_interleavings (demo_metrics 1) 0 demo_hub []); [reflexivity|vm_compute; eauto]. Defined.

(** A client that connects while a broadcast is under way can be left with an
    older state than the hub has: its replay is read under the mutex and sent
    after the newer message. *)
Example replay_after_newer :
  let h0 := broadcast_locked (demo_metrics 1) [] (connect 0 false newHub) in
  let h1 := add_locked 0 [demo_metrics 1] h0 in
  let h2 := broadcast_locked (demo_metrics 2) [0] h1 in
  let h3 := fly 1 (fly 2 h2) in
  last h3 !! WSTypeMetrics = Some (demo_metrics 2) /\
  (wc_send <$> chans h3 !! 0) = Some [demo_metrics 2; demo_metrics 1].
Proof. split; vm_compute; reflexivity. Qed.
