(* ===== verification/Sockets.v ===== *)
(** * The connections (src/internal/server/ws.go: handleWS)

    What a connection's handler does between the upgrade and its return: it makes
    a client, enters it into the hub, sends what is in flight, pumps messages and
    pings until one of them fails or the request ends, and takes the client out
    again. Handlers, broadcasts and their sends interleave. The reader only
    drains: a connection that it finds closed fails the next write or ping. *)
From S2P Require Import Prelude GoStrings Float64 Api Hub.
Open Scope nat_scope.

(** ** The pump *)
(** What the [select] of a turn picks, and whether the write or the ping
    succeeds. A message that could not be written is lost with the connection. *)
Inductive Turn := TurnDone | TurnSend (ok : bool) | TurnPing (ok : bool).

(** One turn: the hub after it, what was handed to the connection, and whether
    the loop goes on. [None]: the case is not ready, and [select] waits. *)
Definition turn (t : Turn) (c : nat) (h : Hub) : option (Hub * list (nat * WSMessage) * bool) :=
  match t with
  | TurnDone => Some (h, [], false)
  | TurnSend ok => match receive c h with Some (m, h') => Some (h', [(c, m)], ok) | None => None end
  | TurnPing ok => Some (h, [], ok)
  end.

(** Where a handler is: the client is made; in [add], whose sends are the [i]th
    flight; in its loop; on the way out; returned. *)
Inductive Phase := Upgraded | Adding (i : nat) | Serving | Leaving | Gone.

Record Sockets := { so_hub : Hub; so_sent : Sent; so_conns : gmap nat Phase }.
Definition no_sockets : Sockets := {| so_hub := newHub; so_sent := []; so_conns := ∅ |}.

Definition goes_on (go : bool) : Phase := if go then Serving else Leaving.

(** The handlers' steps, each a statement of [handleWS], and the broadcasts of
    everyone else. [dkr] is whether the server has a docker manager; it is asked
    for the jobs when they are sent. *)
Inductive sock_step (dkr : bool) : Sockets -> Sockets -> Prop :=
| k_accept c admin h s k : k !! c = None -> chans h !! c = None ->
    sock_step dkr {| so_hub := h; so_sent := s; so_conns := k |}
      {| so_hub := connect c admin h; so_sent := s; so_conns := <[c := Upgraded]> k |}
| k_add c replay h s k : k !! c = Some Upgraded -> replay ≡ₚ map snd (map_to_list (last h)) ->
    sock_step dkr {| so_hub := h; so_sent := s; so_conns := k |}
      {| so_hub := add_locked c replay h; so_sent := s; so_conns := <[c := Adding (length (flights h))]> k |}
| k_jobs c i jobs h s k : k !! c = Some (Adding i) -> flights h !! i = Some [] ->
    sock_step dkr {| so_hub := h; so_sent := s; so_conns := k |}
      {| so_hub := if dkr then replayJobs c jobs h else h; so_sent := s; so_conns := <[c := Serving]> k |}
| k_turn c t h' new go h s k : k !! c = Some Serving -> turn t c h = Some (h', new, go) ->
    sock_step dkr {| so_hub := h; so_sent := s; so_conns := k |}
      {| so_hub := h'; so_sent := s ++ new; so_conns := <[c := goes_on go]> k |}
| k_leave c h s k : k !! c = Some Leaving ->
    sock_step dkr {| so_hub := h; so_sent := s; so_conns := k |}
      {| so_hub := remove c h; so_sent := s; so_conns := <[c := Gone]> k |}
| k_broadcast m order h s k : marshals m = true -> order ≡ₚ elements (clients h) ->
    sock_step dkr {| so_hub := h; so_sent := s; so_conns := k |}
      {| so_hub := broadcast_locked m order h; so_sent := s; so_conns := k |}
| k_fly i h s k :
    sock_step dkr {| so_hub := h; so_sent := s; so_conns := k |} {| so_hub := fly i h; so_sent := s; so_conns := k |}.

Inductive sock_steps (dkr : bool) (x : Sockets) : Sockets -> Prop :=
| sk_refl : sock_steps dkr x x
| sk_step y z : sock_steps dkr x y -> sock_step dkr y z -> sock_steps dkr x z.

(** ** What holds of every run *)
(** The hub knows the clients whose handlers are between [add] and [remove]. *)
Definition entered (p : Phase) : bool := match p with Adding _ | Serving | Leaving => true | _ => false end.

Record sockets_ok (x : Sockets) : Prop := {
  sk_clients : forall c, c ∈ clients (so_hub x) <-> exists p, so_conns x !! c = Some p /\ entered p = true;
  sk_chans : forall c p, so_conns x !! c = Some p -> is_Some (chans (so_hub x) !! c)
}.

Lemma try_send_chans c m h d : is_Some (chans (try_send c m h) !! d) <-> is_Some (chans h !! d).
Proof.
  unfold try_send. cbn [chans set_chans]. destruct (decide (c = d)) as [<-|]; [rewrite lookup_alter_eq|by rewrite lookup_alter_ne].
  by rewrite fmap_is_Some.
Qed.

Lemma fly_frame i h : clients (fly i h) = clients h /\ forall d, is_Some (chans (fly i h) !! d) <-> is_Some (chans h !! d).
Proof.
  unfold fly. destruct (flights h !! i) as [[|[c m] rest]|]; [done| |done]. split; [done|]. intros d. apply (try_send_chans c m).
Qed.

Lemma turn_frame t c h h' new go : turn t c h = Some (h', new, go) ->
  clients h' = clients h /\ (forall d, is_Some (chans h !! d) -> is_Some (chans h' !! d)) /\
  (new = [] /\ h' = h \/ exists m, new = [(c, m)] /\ receive c h = Some (m, h')).
Proof.
  destruct t as [|ok|ok]; cbn [turn]; [|destruct (receive c h) as [[m h1]|] eqn:Hr; [|done]|]; intros [= <- <- <-]; [by auto| |by auto].
  pose proof Hr as Hr'. unfold receive in Hr'. destruct (chans h !! c) as [[[|m0 rest] a]|]; [done| |done].
  injection Hr' as -> <-. split; [done|]. split; [|right; eauto]. intros d Hd. cbn [chans set_chans].
  destruct (decide (c = d)) as [<-|]; [rewrite lookup_insert_eq; eauto|by rewrite lookup_insert_ne].
Qed.

(** A step of the connections is at most one step of the hub. *)
Lemma sock_step_hub dkr x y : sockets_ok x -> sock_step dkr x y ->
  step (so_hub x, so_sent x) (so_hub y, so_sent y) \/ (so_hub y, so_sent y) = (so_hub x, so_sent x).
Proof.
  intros [_ Hch] Hs. destruct Hs; cbn [so_hub so_sent so_conns] in *.
  - left. by apply s_connect.
  - left. apply s_add; [by eapply Hch|done].
  - destruct dkr; [left; apply s_jobs|by right].
  - destruct (turn_frame _ _ _ _ _ _ H0) as (_ & _ & [[-> ->]|(m & -> & Hr)]); [right; by rewrite app_nil_r|left; by apply s_receive].
  - left. apply s_remove.
  - left. by apply s_broadcast.
  - left. apply s_fly.
Qed.

Lemma entered_update (k : gmap nat Phase) c q d :
  (exists p, <[c := q]> k !! d = Some p /\ entered p = true) <->
  (d = c /\ entered q = true) \/ (d <> c /\ exists p, k !! d = Some p /\ entered p = true).
Proof.
  destruct (decide (c = d)) as [<-|Hne]; [rewrite lookup_insert_eq|rewrite lookup_insert_ne by done]; naive_solver.
Qed.

Lemma chans_update (k : gmap nat Phase) (h h' : Hub) c q :
  (forall d p, k !! d = Some p -> is_Some (chans h !! d)) ->
  (forall d, is_Some (chans h !! d) -> is_Some (chans h' !! d)) -> is_Some (chans h' !! c) ->
  forall d p, <[c := q]> k !! d = Some p -> is_Some (chans h' !! d).
Proof. intros Hk Hm Hc d p [[<- _]|[_ Hd]]%lookup_insert_Some; eauto. Qed.

Lemma sock_step_ok dkr x y : sockets_ok x -> sock_step dkr x y -> sockets_ok y.
Proof.
  intros [Hcl Hch] Hs. destruct Hs; cbn [so_hub so_sent so_conns] in *; split; cbn [so_hub so_conns].
  - intros d. rewrite entered_update. cbn [connect clients set_chans entered]. rewrite Hcl. naive_solver.
  - apply (chans_update k h); [done| |]; cbn [connect chans set_chans]; [|rewrite lookup_insert_eq; eauto].
    intros d Hd. destruct (decide (c = d)) as [<-|]; [rewrite lookup_insert_eq; eauto|by rewrite lookup_insert_ne].
  - intros d. rewrite entered_update. cbn [add_locked clients entered]. rewrite elem_of_union, elem_of_singleton, Hcl.
    destruct (decide (d = c)); naive_solver.
  - apply (chans_update k h); [done|done|]. by eapply Hch.
  - intros d. rewrite entered_update. assert (clients (if dkr then replayJobs c jobs h else h) = clients h) as -> by (by destruct dkr).
    rewrite Hcl. destruct (decide (d = c)) as [->|]; naive_solver.
  - assert (Hm : forall d, is_Some (chans h !! d) -> is_Some (chans (if dkr then replayJobs c jobs h else h) !! d)).
    { intros d Hd. destruct dkr; [|done]. by apply try_send_chans. }
    apply (chans_update k h); [done|done|]. eapply Hm, Hch. eauto.
  - destruct (turn_frame _ _ _ _ _ _ H0) as (Hc & _ & _). intros d. rewrite entered_update, Hc, Hcl.
    assert (entered (goes_on go) = true) as -> by (by destruct go). destruct (decide (d = c)) as [->|]; naive_solver.
  - destruct (turn_frame _ _ _ _ _ _ H0) as (_ & Hm & _). apply (chans_update k h); [done|done|]. eapply Hm, Hch. eauto.
  - intros d. rewrite entered_update. cbn [remove clients entered]. rewrite elem_of_difference, elem_of_singleton, Hcl. naive_solver.
  - apply (chans_update k h); [done|done|]. by eapply Hch.
  - exact Hcl.
  - exact Hch.
  - intros d. destruct (fly_frame i h) as [-> _]. apply Hcl.
  - intros d p Hd. apply fly_frame. by eapply Hch.
Qed.

Lemma sock_steps_ok dkr x y : sockets_ok x -> sock_steps dkr x y -> sockets_ok y.
Proof. intros Hx Hs. induction Hs; [done|]. by eapply sock_step_ok. Qed.

Lemma no_sockets_ok : sockets_ok no_sockets.
Proof.
  split; cbn; intros c.
  - split; [by intros ?%elem_of_empty|]. by intros (p & Hp & _).
  - by intros p Hp.
Qed.

(** A handler that has returned stays so, and nothing more is written to its
    connection. *)
Lemma gone_step dkr c x y : sock_step dkr x y -> so_conns x !! c = Some Gone ->
  so_conns y !! c = Some Gone /\ for_client c (so_sent y) = for_client c (so_sent x).
Proof.
  intros Hs Hg. destruct Hs; cbn [so_hub so_sent so_conns] in *;
    try (split; [rewrite lookup_insert_ne; [done|by intros ->; congruence]|done]); [|done|done].
  assert (Hne : c0 <> c) by (intros ->; congruence). split; [by rewrite lookup_insert_ne|].
  destruct (turn_frame _ _ _ _ _ _ H0) as (_ & _ & [[-> _]|(m & -> & _)]); [by rewrite app_nil_r|].
  unfold for_client. rewrite List.filter_app, map_app. cbn. rewrite (proj2 (Nat.eqb_neq _ _) Hne). by rewrite app_nil_r.
Qed.

Lemma gone_steps dkr c x y : sock_steps dkr x y -> so_conns x !! c = Some Gone ->
  so_conns y !! c = Some Gone /\ for_client c (so_sent y) = for_client c (so_sent x).
Proof.
  intros Hs Hg. induction Hs as [|y z Hs [H1 H2] Hz]; [done|].
  destruct (gone_step dkr c y z Hz H1) as [H3 H4]. split; [done|congruence].
Qed.

Lemma sock_step_ranks dkr x y : sockets_ok x -> sock_step dkr x y -> same_ranks (so_hub x) (so_hub y).
Proof.
  intros Hx Hs. destruct (sock_step_hub dkr x y Hx Hs) as [Hh|[= -> _]]; [exact (step_ranks _ _ Hh)|by apply same_ranks_chans].
Qed.

(** C32. The handlers of the connections and the hub agree, however handlers,
    broadcasts and sends interleave. Every run of them is a run of the hub, so
    its invariant holds; the hub knows exactly the clients whose handler is
    between [add] and [remove]; once a handler has returned its client is out of
    the hub for good and nothing more is written to its connection; and a client
    keeps the rank it connected with as long as it is connected. *)
Theorem socket_lifecycle dkr x c (Hx : sock_steps dkr no_sockets x) :
  reachable (so_hub x, so_sent x) /\
  (c ∈ clients (so_hub x) <-> exists p, so_conns x !! c = Some p /\ entered p = true) /\
  forall y, sock_steps dkr x y ->
    (so_conns x !! c = Some Gone ->
       so_conns y !! c = Some Gone /\ (c ∉ clients (so_hub y)) /\ for_client c (so_sent y) = for_client c (so_sent x)) /\
    (forall cl, chans (so_hub x) !! c = Some cl -> is_admin (so_hub y) c = wc_admin cl).
Proof.
  assert (Hok : sockets_ok x) by (eapply sock_steps_ok; [apply no_sockets_ok|done]). split; [|split; [apply (sk_clients x Hok)|]].
  - clear Hok. induction Hx as [|y z Hs IH Hz]; [apply r_new|].
    assert (sockets_ok y) as Hy by (eapply sock_steps_ok; [apply no_sockets_ok|done]).
    destruct (sock_step_hub dkr y z Hy Hz) as [Hh| ->]; [by eapply r_step|done].
  - intros y Hs. assert (Hy : sockets_ok y) by (by eapply sock_steps_ok). split.
    + intros Hg. destruct (gone_steps dkr c x y Hs Hg) as [Hg' Hf].
      split; [done|]. split; [|done]. intros (p & Hp & He)%(sk_clients y Hy). by simplify_eq.
    + intros cl Hcl. assert (same_ranks (so_hub x) (so_hub y)) as Hr; [|destruct (Hr c cl Hcl) as (cl' & Hc & <-); unfold is_admin; by rewrite Hc].
      clear Hy. induction Hs as [|y z Hs IH Hz]; [done|]. etrans; [exact IH|].
      apply (sock_step_ranks dkr y z); [by eapply sock_steps_ok|done].
Qed.

(** ** Instances at concrete inputs *)
(** A client connects; its connection breaks at the first message, and its
    handler returns. *)
Lemma demo_gone : exists x, sock_steps true no_sockets x /\ so_conns x !! 0 = Some Gone /\ so_sent x = [(0, WSJobs [])].
Proof.
  eexists. split.
  - eapply sk_step; [eapply sk_step; [eapply sk_step; [eapply sk_step; [eapply sk_step; [apply sk_refl|]|]|]|]|].
    + apply (k_accept true 0 true); reflexivity.
    + apply (k_add true 0 []); reflexivity.
    + apply (k_jobs true 0 0 []); reflexivity.
    + apply (k_turn true 0 (TurnSend false)); vm_compute; reflexivity.
    + apply (k_leave true 0). vm_compute. reflexivity.
  - split; vm_compute; reflexivity.
Qed.

Lemma socket_lifecycle_witness :
  exists x, sock_steps true no_sockets x /\ so_conns x !! 0 = Some Gone /\
    forall y, sock_steps true x y -> (0 ∉ clients (so_hub y)) /\ for_client 0 (so_sent y) = [WSJobs []].
Proof.
  destruct demo_gone as (x & Hx & Hg & Hs). exists x. split; [done|]. split; [done|]. intros y Hy.
  destruct (socket_lifecycle true x 0 Hx) as (_ & _ & H). destruct (H y Hy) as [H1 _].
  destruct (H1 Hg) as (_ & Hc & Hf). split; [done|]. by rewrite Hf, Hs.
Defined.
