(* ===== verification/Recover.v ===== *)
(** * Recovery (src/internal/docker/recover.go)

    What Veery does at startup with the swaps and jobs an earlier process left
    behind. *)
From S2P Require Import Prelude GoStrings Api Db StoreDocker StoreJobs Docker World Sim StoreSettings Status Snapshot Notices Listing Jobs Identity UpdateCheck Reconcile Swap SelfUpdate.
Open Scope Z_scope.

Definition interrupted_msg : string :=
  "Veery restarted before the update finished; the container was left on its previous image".

(** [range byName]: Go iterates over a map in any order. *)
Class MapOrder := { range_order : gmap string Summary -> list (string * Summary) }.
Class MapOrderOk `{!MapOrder} : Prop := range_perm : forall m, range_order m ≡ₚ map_to_list m.

#[export] Instance sorted_order : MapOrder | 100 := {| range_order := map_to_list |}.
#[export] Instance sorted_order_ok : @MapOrderOk sorted_order.
Proof. by intros m. Qed.

Section Recover.
Context {E : Type} `{!Env E} `{!DockerCodecs} `{!MapOrder}.

Definition healthy (id : string) : M E bool :=
  r ← ContainerInspect id;
  mret (match r with
        | Fail _ => false
        | Ok insp =>
            match in_State insp with
            | None => false
            | Some st =>
                st_Running st && match st_Health st with
                                 | None => true
                                 | Some h => negb (String.eqb h Unhealthy)
                                 end
            end
        end).

Definition no_progress (_ _ : string) : M E unit := mret tt.

(** [fresh]: the container that holds the original name, if there is one. *)
Definition reconcileOne (orig : string) (parked : Summary) (fresh : option Summary) : M E (option error) :=
  self ← SelfContainerID;
  if match fresh with Some f => String.eqb (sum_ID f) self | None => false end then
    ContainerRemove (sum_ID parked)
  else if String.eqb (sum_ID parked) self then
    keep ← (match fresh with
            | Some f => if String.eqb (sum_State f) "running" then healthy (sum_ID f) else mret false
            | None => mret false
            end);
    if (keep : bool) then
      if (String.length (sum_ID parked) <? 12)%nat then panic "slice bounds out of range" else mret None
    else
      removed ← (match fresh with Some f => ContainerRemove (sum_ID f) | None => mret None end);
      match removed with
      | Some err => mret (Some (wrapf "remove failed replacement: " err))
      | None => ContainerRename (sum_ID parked) orig
      end
  else
    match fresh with
    | None =>
        unless_err (ContainerRename (sum_ID parked) orig) or wrapf "restore name: " in
        ContainerStart (sum_ID parked)
    | Some f =>
        v ← verifyHealthy (sum_ID f);
        match v with
        | Some _ => _ ← rollback no_progress (sum_ID f) (sum_ID parked) orig; mret None
        | None => ContainerRemove (sum_ID parked)
        end
    end.

Definition reconcile_named (byName : gmap string Summary) (p : string * Summary) : M E unit :=
  match CutSuffix p.1 oldSuffix with
  | None => mret tt
  | Some orig => _ ← reconcileOne orig p.2 (byName !! orig); mret tt
  end.

Definition reconcileParked : M E (option error) :=
  r ← ContainerList true;
  match r with
  | Fail e => mret (Some (wrapf "list containers: " e))
  | Ok l =>
      let byName := index_by (fun c => containerName (sum_Names c)) l in
      for_each (range_order byName) (reconcile_named byName) ≫= fun _ => mret None
  end.

(** Whether a container runs the image its snapshot asks for. *)
Definition onSnapshotImage (name : string) : M E (result bool) :=
  r ← sql (ManagedByName name);
  match r with
  | Fail _ => mret (Fail (errorf ("no longer managed: " +:+ name)))
  | Ok mc =>
      match parseSnapshot (mc_SnapshotJSON mc) with
      | Fail e => mret (Fail e)
      | Ok snap =>
          i ← ContainerInspect name;
          match i with
          | Fail _ => mret (Fail (errorf ("container is gone: " +:+ name)))
          | Ok insp =>
              img ← ImageInspect_ (sn_Image snap);
              mret (Ok (match img with
                        | Fail _ => false
                        | Ok img => String.eqb (img_ID img) (in_Image insp)
                        end))
          end
      end
  end.

Definition settleJob (id name : string) : M E unit :=
  forget id ≫= fun _ =>
  (r ← onSnapshotImage name;
   match r with
   | Fail err =>
       finishJob id "failed" "" (Error err) ≫= fun _ => publish (job_failed id "update" name err)
   | Ok true =>
       finishJob id "done" "Updated" "" ≫= fun _ => publish (job_done id "update" name "Updated")
   | Ok false =>
       finishJob id "failed" "" interrupted_msg ≫= fun _ =>
       publish (job_failed id "update" name (errorf interrupted_msg))
   end).

(** Tracks the jobs whose helper runs and settles the others; the result is the
    jobs that [go m.watchJob] is started for. *)
Definition resume_one (updaters : gmap string Summary) (watched : list UpdateJob) (j : UpdateJob) :
    M E (list UpdateJob) :=
  match updaters !! uj_ID j with
  | Some _ =>
      track {| jp_ID := uj_ID j; jp_Kind := "update"; jp_Target := uj_ContainerName j;
               jp_Phase := uj_Phase j; jp_Message := uj_Message j; jp_Done := false; jp_Error := "" |} ≫= fun _ =>
      mret (watched ++ [j])
  | None => settleJob (uj_ID j) (uj_ContainerName j) ≫= fun _ => mret watched
  end.

Definition resumeJobs (updaters : gmap string Summary) : M E (list UpdateJob) :=
  r ← sql ActiveUpdateJobs;
  match r with
  | Fail _ => mret []
  | Ok jobs => for_fold jobs (resume_one updaters) []
  end.

Definition Recover : M E (list UpdateJob) :=
  r ← runningUpdaters;
  match r with
  | Fail _ => mret []
  | Ok updaters =>
      (if (size updaters =? 0)%nat then
         _ ← reconcileParked; pruneUpdaters
       else mret tt) ≫= fun _ => resumeJobs updaters
  end.

Definition updaterFor (jobID : string) : M E (result (option Summary)) :=
  let? updaters := runningUpdaters in mret (Ok (updaters !! jobID)).

(** One tick of the loop of [watchJob]; [true]: the loop returns. *)
Definition watch_tick (id name : string) : M E bool :=
  r ← sql (UpdateJobByID id);
  match r with
  | Fail _ => mret true
  | Ok j =>
      if negb (uj_Done j) then
        u ← updaterFor id;
        match u with
        | Ok (Some _) =>
            track {| jp_ID := id; jp_Kind := "update"; jp_Target := name; jp_Phase := uj_Phase j;
                     jp_Message := uj_Message j; jp_Done := false; jp_Error := "" |} ≫= fun _ => mret false
        | _ => settleJob id name ≫= fun _ => mret true
        end
      else
        forget id ≫= fun _ =>
        publish {| jp_ID := id; jp_Kind := "update"; jp_Target := name; jp_Phase := uj_Phase j;
                   jp_Message := if String.eqb (uj_Error j) "" then uj_Message j else "";
                   jp_Done := true;
                   jp_Error := uj_Error j |} ≫= fun _ =>
        BroadcastStacks ≫= fun _ => mret true
  end.

(** [watchJob]: one tick per second until it returns or the context ends; the
    result says whether it returned within [fuel] ticks. *)
Fixpoint watchJob (fuel : nat) (id name : string) : M E bool :=
  match fuel with
  | O => mret false
  | S fuel' =>
      c ← selectSecond;
      match c with
      | Some _ => mret true
      | None => stop ← watch_tick id name; if (stop : bool) then mret true else watchJob fuel' id name
      end
  end.
End Recover.

(** ** Theorems *)
Section RecoverFacts.
Context {E : Type} `{!Env E} `{!DockerCodecs} `{!MapOrder}.

(** *** A running helper is left alone *)
Lemma settleJob_readonly id name : emits_only (E:=E) (settleJob id name) (fun e => mutates e = false).
Proof.
  unfold settleJob, forget, onSnapshotImage, finishJob, publish. open_calls.
  repeat emits_step; repeat (apply Forall_cons; split); done || constructor.
Qed.

Lemma resumeJobs_readonly updaters : emits_only (E:=E) (resumeJobs updaters) (fun e => mutates e = false).
Proof.
  unfold resumeJobs, resume_one, track, publish. open_calls.
  repeat (apply settleJob_readonly || emits_step); repeat (apply Forall_cons; split); done || constructor.
Qed.

(** While a self-update helper is running, recovery changes no container. *)
Theorem Recover_leaves_running_helpers_alone l (w : World E) :
  (cli_ContainerList true (w_env w)).2 = Ok l ->
  (exists c, c ∈ l /\ is_updater c = true /\ is_running c = true) ->
  exists t, w_trace (Recover w).1 = w_trace w ++ t /\ Forall (fun e => mutates e = false) t.
Proof.
  intros Hl (c & Hc & Hu & Hr). set (w1 := log (set_env w (cli_ContainerList true (w_env w)).1) []).
  assert (Hrun : runningUpdaters w = (w1, Ret (Ok (updaters_of l)))).
  { unfold runningUpdaters, ContainerList, call, mbind, M_bind, mret, M_ret. by rewrite Hl. }
  assert (Hsz : (size (updaters_of l) =? 0)%nat = false).
  { apply Nat.eqb_neq. intros Hz. apply map_size_empty_inv in Hz.
    assert (Hsome : is_Some (updaters_of l !! label (sum_Labels c) jobLabel)).
    { apply (index_by_is_Some (fun c => label (sum_Labels c) jobLabel)).
      apply list_elem_of_In. apply (in_map (fun c => label (sum_Labels c) jobLabel)). apply filter_In.
      rewrite <- list_elem_of_In. split; [done|]. by rewrite Hu, Hr. }
    rewrite Hz, lookup_empty in Hsome. by destruct Hsome. }
  unfold Recover. rewrite (bind_run _ _ _ _ _ Hrun), Hsz. rewrite (bind_run _ _ w1 w1 tt) by done.
  destruct (resumeJobs_readonly (updaters_of l) w1) as (t & Ht & Hf). exists t. split; [|done].
  rewrite Ht. unfold w1. simpl. by rewrite app_nil_r.
Qed.

(** *** One parked container *)
Definition inspections (t : list Ev) : Prop := Forall (fun e => exists r i, e = EvInspect r i) t.

(** What recovery does with the parked container, after finding out who it is. *)
Inductive recovered (orig : string) (parked : Summary) (fresh : option Summary) (self : string) :
    outcome (option error) -> list Ev -> Prop :=
| rec_started f e :
    fresh = Some f -> sum_ID f = self ->
    recovered orig parked fresh self (Ret e) [EvRemove (sum_ID parked) e]
| rec_keep_fresh f r o :
    fresh = Some f -> sum_ID parked = self -> o = Ret None \/ (exists s, o = Panic s) ->
    recovered orig parked fresh self o [EvInspect (sum_ID f) r]
| rec_remove_failed f t e err :
    fresh = Some f -> sum_ID parked = self -> inspections t ->
    recovered orig parked fresh self (Ret (Some err)) (t ++ [EvRemove (sum_ID f) (Some e)])
| rec_rename_self t e :
    sum_ID parked = self ->
    (fresh = None /\ t = []) \/ (exists f t0, fresh = Some f /\ inspections t0 /\ t = t0 ++ [EvRemove (sum_ID f) None]) ->
    recovered orig parked fresh self (Ret e) (t ++ [EvRename (sum_ID parked) orig e])
| rec_restore e :
    fresh = None -> recovered orig parked fresh self (Ret (Some (wrapf "restore name: " e)))
                      [EvRename (sum_ID parked) orig (Some e)]
| rec_restart e :
    fresh = None -> recovered orig parked fresh self (Ret e)
                      [EvRename (sum_ID parked) orig None; EvStart (sum_ID parked) e]
| rec_unverified f o t :
    fresh = Some f -> verified (sum_ID f) (Panic o) t -> recovered orig parked fresh self (Panic o) t
| rec_rolled_back f err rb t1 t2 :
    fresh = Some f -> verified (sum_ID f) (Ret (Some err)) t1 ->
    rollback_calls (sum_ID f) (sum_ID parked) orig (Ret rb) t2 ->
    recovered orig parked fresh self (Ret None) (t1 ++ t2)
| rec_verified f e t :
    fresh = Some f -> verified (sum_ID f) (Ret None) t ->
    recovered orig parked fresh self (Ret e) (t ++ [EvRemove (sum_ID parked) e]).

Lemma no_progress_silent phase msg : does (E:=E) (no_progress phase msg) silent.
Proof. apply does_ret. split; [eauto|done]. Qed.

Lemma SelfContainerID_does :
  does (E:=E) SelfContainerID (fun o t => (exists id, o = Ret id) /\ inspections t).
Proof.
  unfold SelfContainerID. eapply does_bind_silent; [apply does_gets|]. intros [id|].
  { apply does_ret. split; [eauto|constructor]. }
  eapply (does_bind _ _ (fun o t => (exists id, o = Ret id) /\ inspections t)).
  - eapply emits_mono; [apply resolveSelf_emits|]. intros o t (Hf & id & -> & _).
    rewrite calls_all; [split; [eauto|exact Hf]|].
    eapply Forall_impl; [exact Hf|]. by intros e (r & i & ->).
  - by intros s t ((id & ?) & _).
  - intros id t (_ & Hf). eapply does_bind_silent; [apply does_modify|]. intros _. apply does_ret.
    rewrite app_nil_r. split; [eauto|done].
Qed.

(** Once it knows who it is, and then whatever the daemon answers. *)
Lemma reconcileOne_does orig parked fresh self (w : World E) :
  (SelfContainerID w).2 = Ret self ->
  exists t t1 t2, w_trace (reconcileOne orig parked fresh w).1 = w_trace w ++ t /\ calls t = t1 ++ t2
    /\ inspections t1 /\ recovered orig parked fresh self (reconcileOne orig parked fresh w).2 t2.
Proof.
  intros Hself. destruct (SelfContainerID_does w) as (u1 & Hu1 & _ & Hi).
  destruct (SelfContainerID w) as [w1 o1] eqn:Hs. cbn [fst snd] in Hself, Hu1. subst o1.
  unfold reconcileOne. rewrite (bind_run _ _ _ _ _ Hs).
  match goal with |- context [w_trace (?m w1).1] =>
    enough (Hm : does m (recovered orig parked fresh self)) by
      (destruct (Hm w1) as (u2 & Hu2 & Hr); exists (u1 ++ u2), (calls u1), (calls u2);
       rewrite Hu2, Hu1, app_assoc, calls_app; done) end.
  clear w w1 Hs u1 Hu1 Hi.
  destruct (match fresh with Some f => _ | None => false end) eqn:Efr.
  { destruct fresh as [f|]; [|done]. apply String.eqb_eq in Efr.
    eapply does_mono; [by apply does_one|]. intros o t (e & -> & ->). by eapply rec_started. }
  destruct (String.eqb_spec (sum_ID parked) self) as [Hp|Hp].
  - eapply (does_bind _ _ (fun o t => exists b, o = Ret b /\ inspections t /\
      match fresh with
      | None => b = false /\ t = []
      | Some f => b = true -> exists r, t = [EvInspect (sum_ID f) r]
      end)).
    { destruct fresh as [f|]; [|apply does_ret; exists false; split; [done|]; split; [constructor|done]].
      destruct (String.eqb (sum_State f) "running"); [|apply does_ret; exists false; split; [done|]; by split; [constructor|]].
      unfold healthy. eapply does_bind_one; [by apply does_one|]. intros r. apply does_ret.
      eexists. split; [done|]. split; [repeat constructor; eauto|]. eauto. }
    { by intros s t (b & ? & _). }
    intros b t (b' & [= <-] & Hf & Hb). destruct b.
    + destruct fresh as [f|]; [|by destruct Hb]. destruct (Hb eq_refl) as (r & ->).
      destruct (_ <? 12)%nat; [apply does_panic|apply does_ret]; eapply rec_keep_fresh; eauto.
    + eapply (does_bind _ _ (fun o t => exists e, o = Ret e /\
        match fresh with None => e = None /\ t = [] | Some f => t = [EvRemove (sum_ID f) e] end)).
      { destruct fresh as [f|]; [|apply does_ret; eauto].
        eapply does_mono; [by apply does_one|]. intros o u (e & -> & ->). eauto. }
      { by intros s u (e & ? & _). }
      intros e u (e' & [= <-] & He). destruct e as [err|].
      * apply does_ret. rewrite app_nil_r. destruct fresh as [f|]; [|by destruct He]. subst u.
        by eapply rec_remove_failed.
      * eapply does_mono; [by apply does_one|]. intros o v (e & -> & ->).
        rewrite app_assoc. apply rec_rename_self; [done|].
        destruct fresh as [f|]; [right; subst u; eauto|]. left. destruct Hb as [_ ->], He as [_ ->]. done.
  - destruct fresh as [f|].
    + eapply does_bind; [apply verifyHealthy_does| |].
      * intros s t Hv. by eapply rec_unverified.
      * intros [err|] t Hv.
        -- eapply does_bind; [apply rollback_does; apply no_progress_silent| |].
           ++ intros s u (rm & t' & _ & _ & Hr). naive_solver.
           ++ intros rb u Hr. apply does_ret. rewrite app_nil_r. by eapply rec_rolled_back.
        -- eapply does_mono; [by apply does_one|]. intros o u (e & -> & ->). by eapply rec_verified.
    + eapply does_bind_one; [by apply does_one|]. intros [e|].
      * apply does_ret. by apply rec_restore.
      * eapply does_mono; [by apply does_one|]. intros o u (e & -> & ->). by apply rec_restart.
Qed.

Lemma inspections_no_remove id t : inspections t -> no_remove id t.
Proof. intros Hf e Hin. unfold inspections in Hf. rewrite Forall_forall in Hf. by destruct (Hf _ Hin) as (r & i & ?). Qed.

(** A rollback that removes the replacement renames the old container after. *)
Lemma rolled_back_after newID oldID name o t e :
  rollback_calls newID oldID name o t -> EvRemove newID e ∈ t ->
  exists rm t' e', t = rm ++ t' /\ EvRemove newID e ∈ rm /\ EvRename oldID name e' ∈ t'.
Proof.
  intros (rm & t' & -> & _ & Hc) Hin. exists rm, t'.
  assert (Hn : EvRemove newID e ∉ t') by (destruct Hc as [(e1 & -> & _)|[(e1 & -> & _)|[-> _]]]; set_solver).
  apply elem_of_app in Hin as [Hin|Hin]; [|done].
  destruct Hc as [(e1 & -> & _)|[(e1 & -> & _)|[-> _]]]; eexists; (split; [done|]); (split; [done|]); apply list_elem_of_here.
Qed.

Lemma inspections_elem e t : inspections t -> e ∈ t -> exists r i, e = EvInspect r i.
Proof. unfold inspections. rewrite Forall_forall. auto. Qed.

(** C14. Recovery, given which container is Veery's own and a replacement that
    is another container, removes a parked container only when its replacement
    is Veery itself or proved itself up, and removes a replacement only when it
    then renames the parked container back, or the removal failed and the parked
    container is Veery itself. Without a replacement it renames the parked
    container back, and reports success only when that worked and, unless it is
    Veery itself, it was started again. *)
Theorem reconcileOne_keeps_a_container orig parked fresh self (w : World E) :
  (forall f, fresh = Some f -> sum_ID f <> sum_ID parked /\ sum_ID f <> "") ->
  (SelfContainerID w).2 = Ret self ->
  exists t, w_trace (reconcileOne orig parked fresh w).1 = w_trace w ++ t /\
    (* the parked container goes only when the replacement is us, or is up *)
    (forall e, EvRemove (sum_ID parked) e ∈ calls t -> exists f, fresh = Some f /\
       (sum_ID f = self \/ exists ev, ev ∈ calls t /\ proved_up (sum_ID f) ev)) /\
    (* the replacement goes only when the parked one is then renamed back *)
    (forall f e, fresh = Some f -> EvRemove (sum_ID f) e ∈ calls t ->
       (sum_ID parked = self /\ e <> None) \/
       exists e' t1 t2, calls t = t1 ++ t2 /\ EvRemove (sum_ID f) e ∈ t1 /\ EvRename (sum_ID parked) orig e' ∈ t2) /\
    (* without a replacement the parked one is brought back *)
    (fresh = None -> exists e, EvRename (sum_ID parked) orig e ∈ calls t /\
       ((reconcileOne orig parked fresh w).2 = Ret None ->
          e = None /\ (sum_ID parked <> self -> EvStart (sum_ID parked) None ∈ calls t))).
Proof.
  intros Hne Hself. destruct (reconcileOne_does orig parked fresh self w Hself) as (t & t1 & t2 & Ht & Hc & Hi & Hr).
  exists t. split; [done|]. rewrite Hc. clear Ht Hc.
  assert (Hskip : forall id e, EvRemove id e ∈ t1 ++ t2 -> EvRemove id e ∈ t2).
  { intros id e [Hin|Hin]%elem_of_app; [|done]. by destruct (inspections_no_remove id t1 Hi e). }
  revert Hr. generalize ((reconcileOne orig parked fresh w).2). intros o Hr.
  split; [|split].
  - intros e Hin%Hskip. destruct Hr as [f e' Hf Hs|f r o Hf _ _|f u e' err Hf Hs Hu|u e' Hs Hu|e' Hf|e' Hf
      |f s u Hf Hv|f err rb u1 u2 Hf Hv Hrb|f e' u Hf Hv].
    + exists f. auto.
    + set_solver.
    + apply elem_of_app in Hin as [Hin|Hin]; [by destruct (inspections_no_remove (sum_ID parked) _ Hu e)|].
      apply list_elem_of_singleton in Hin as [= Heq _]. destruct (Hne f Hf). congruence.
    + apply elem_of_app in Hin as [Hin|Hin]; [|set_solver].
      destruct Hu as [[_ ->]|(f & u0 & Hf & Hu0 & ->)]; [set_solver|].
      apply elem_of_app in Hin as [Hin|Hin]; [by destruct (inspections_no_remove (sum_ID parked) _ Hu0 e)|].
      apply list_elem_of_singleton in Hin as [= Heq _]. destruct (Hne f Hf). congruence.
    + set_solver.
    + set_solver.
    + by destruct (verified_no_remove (sum_ID parked) _ _ _ Hv e).
    + apply elem_of_app in Hin as [Hin|Hin]; [by destruct (verified_no_remove (sum_ID parked) _ _ _ Hv e)|].
      destruct (Hne f Hf) as [Hd _]. by destruct (rollback_no_remove (sum_ID parked) _ _ _ _ _ Hd Hrb e).
    + exists f. split; [done|]. right. destruct Hv as [_ (u0 & ev & -> & Hev)]. exists ev. split; [set_solver|done].
  - intros f0 e Hf0 Hin%Hskip. destruct (Hne f0 Hf0) as [Hd _].
    destruct Hr as [f e' Hf Hs|f r o Hf Hs _|f u e' err Hf Hs Hu|u e' Hs Hu|e' Hf|e' Hf
      |f s u Hf Hv|f err rb u1 u2 Hf Hv Hrb|f e' u Hf Hv]; try congruence; try (assert (f0 = f) as -> by congruence).
    + exfalso. apply list_elem_of_singleton in Hin. congruence.
    + exfalso. by apply list_elem_of_singleton in Hin.
    + left. split; [done|]. apply elem_of_app in Hin as [Hin|Hin];
        [by destruct (inspections_no_remove (sum_ID f) _ Hu e)|apply list_elem_of_singleton in Hin; congruence].
    + right. destruct Hu as [[? _]|(f & u0 & Hf & Hu0 & ->)]; [congruence|]. assert (f0 = f) as -> by congruence.
      exists e', (t1 ++ u0 ++ [EvRemove (sum_ID f) None]), [EvRename (sum_ID parked) orig e'].
      split; [by rewrite <- !app_assoc|]. split; [|apply list_elem_of_here].
      apply elem_of_app in Hin as [Hin|Hin]; [set_solver|by apply list_elem_of_singleton in Hin].
    + by destruct (verified_no_remove (sum_ID f) _ _ _ Hv e).
    + right. apply elem_of_app in Hin as [Hin|Hin]; [by destruct (verified_no_remove (sum_ID f) _ _ _ Hv e)|].
      destruct (rolled_back_after _ _ _ _ _ _ Hrb Hin) as (rm & u & e' & -> & H1 & H2).
      exists e', (t1 ++ u1 ++ rm), u. rewrite <- !app_assoc. split; [done|]. split; [set_solver|done].
    + exfalso. apply elem_of_app in Hin as [Hin|Hin]; [by destruct (verified_no_remove (sum_ID f) _ _ _ Hv e)|].
      apply list_elem_of_singleton in Hin. congruence.
  - intros Hf0. destruct Hr as [| | |u e' Hs Hu|e' _|e' _| | |]; try congruence; eexists.
    + split; [apply elem_of_app; right; apply elem_of_app; right; apply list_elem_of_here|]. by intros [= ->].
    + split; [apply elem_of_app; right; apply list_elem_of_here|]. done.
    + split; [apply elem_of_app; right; apply list_elem_of_here|]. intros [= ->]. split; [done|]. set_solver.
Qed.

(** *** No job is left behind *)
Lemma onSnapshotImage_db name (w : World E) :
  no_faults (E:=E) -> exists w' r, onSnapshotImage name w = (w', Ret r) /\ w_db w' = w_db w.
Proof.
  intros Hnf.
  assert (Hn : no_panic (E:=E) (onSnapshotImage name)).
  { unfold onSnapshotImage. open_calls. repeat no_panic_step. }
  assert (Hp : preserves (fun d => d = w_db w) (onSnapshotImage (E:=E) name)).
  { unfold onSnapshotImage. open_calls. by repeat preserves_step. }
  destruct (Hn w) as [r Hr]. specialize (Hp w eq_refl).
  destruct (onSnapshotImage name w) as [w' o]. simpl in *. subst. eauto.
Qed.

Lemma finishJob_db id phase msg err (w : World E) :
  no_faults (E:=E) -> exists w' now, finishJob id phase msg err w = (w', Ret tt)
    /\ w_db w' = (FinishUpdateJob now id phase msg err (w_db w)).1.
Proof.
  intros Hnf. unfold finishJob, unixNow, Now.
  set (w1 := log (set_env w (time_Now (w_env w)).1) []). set (now := (time_Now (w_env w)).2 / second).
  rewrite (bind_run _ _ w w1 now) by done.
  destruct (sql_run_ok (FinishUpdateJob now id phase msg err) w1 Hnf) as (e' & Hs).
  rewrite (bind_run _ _ _ _ _ Hs). eexists _, now. split; [reflexivity|done].
Qed.

(** [settleJob] finishes the rows of its job, and only those. *)
Lemma settleJob_db id name (w : World E) :
  no_faults (E:=E) -> exists w' now phase msg err, settleJob id name w = (w', Ret tt)
    /\ w_db w' = (FinishUpdateJob now id phase msg err (w_db w)).1.
Proof.
  intros Hnf. unfold settleJob. rewrite (bind_run _ _ _ _ _ (forget_run id w)).
  set (w0 := set_mgr w _). destruct (onSnapshotImage_db name w0 Hnf) as (w1 & r & Hr & Hd1).
  rewrite (bind_run _ _ _ _ _ Hr).
  assert (Hk : forall phase msg err j, exists w' now,
    (finishJob id phase msg err ≫= (fun _ => publish j)) w1 = (w', Ret tt)
    /\ w_db w' = (FinishUpdateJob now id phase msg err (w_db w)).1).
  { intros phase msg err j. destruct (finishJob_db id phase msg err w1 Hnf) as (w2 & now & Hf & Hd2).
    rewrite (bind_run _ _ _ _ _ Hf), publish_run. eexists _, now. split; [reflexivity|].
    simpl. by rewrite Hd2, Hd1. }
  destruct r as [[]|err];
    [destruct (Hk "done" "Updated" "" (job_done id "update" name "Updated")) as (w' & now & -> & Hd)
    |destruct (Hk "failed" "" interrupted_msg (job_failed id "update" name (errorf interrupted_msg))) as (w' & now & -> & Hd)
    |destruct (Hk "failed" "" (Error err) (job_failed id "update" name err)) as (w' & now & -> & Hd)];
    by eexists _, _, _, _, _.
Qed.

(** The jobs that are not finished are among [ids]; the rows of [id] are finished. *)
Definition open_within (ids : list string) (d : DB) : Prop :=
  forall j, j ∈ db_jobs d -> uj_Done j = false -> uj_ID j ∈ ids.

Lemma finish_open now id phase msg err ids d :
  open_within ids d -> open_within ids (FinishUpdateJob now id phase msg err d).1.
Proof.
  intros Ho j (r & Hr & ->)%elem_of_update Hd. destruct (job_id id r); simpl in *; [done|]. by apply Ho.
Qed.

Lemma finish_closes now id phase msg err d : job_done_ok id (FinishUpdateJob now id phase msg err d).1.
Proof.
  intros j (r & Hr & ->)%elem_of_update Hid. destruct (job_id id r) eqn:Er; simpl in *; [done|].
  apply String.eqb_neq in Er. done.
Qed.

Lemma finish_keeps_closed now id phase msg err id' d :
  job_done_ok id' d -> job_done_ok id' (FinishUpdateJob now id phase msg err d).1.
Proof.
  intros Hd j (r & Hr & ->)%elem_of_update Hid. destruct (job_id id r); simpl in *; [done|]. by apply Hd.
Qed.

Lemma resumeJobs_run updaters (w : World E) :
  no_faults (E:=E) ->
  exists w' watched, resumeJobs updaters w = (w', Ret watched)
    /\ (forall j, j ∈ watched -> is_Some (updaters !! uj_ID j))
    /\ (forall j, j ∈ db_jobs (w_db w') -> uj_Done j = false -> uj_ID j ∈ map uj_ID watched).
Proof.
  intros Hnf. unfold resumeJobs.
  destruct (sql_run_ok ActiveUpdateJobs w Hnf) as (e' & Hs). rewrite (bind_run _ _ _ _ _ Hs). simpl.
  set (jobs := sort_slice _ _). set (w0 := set_db _ _).
  assert (Hact : open_within (map uj_ID jobs) (w_db w0)).
  { intros j Hj Hd. apply list_elem_of_In, in_map, list_elem_of_In. unfold jobs.
    apply sort_slice_elem_of, elem_of_select. rewrite Hd. done. }
  clearbody w0. clear Hs.
  pose (I := fun (done_ : list UpdateJob) (watched : list UpdateJob) (w' : World E) =>
    open_within (map uj_ID jobs) (w_db w')
    /\ (forall j, j ∈ watched -> is_Some (updaters !! uj_ID j))
    /\ (forall j, j ∈ done_ -> uj_ID j ∈ map uj_ID watched \/ job_done_ok (uj_ID j) (w_db w'))).
  assert (Hw : wp (for_fold jobs (resume_one updaters) []) (fun o w' => exists watched, o = Ret watched /\ I jobs watched w') w0).
  { apply (wp_for_fold I).
    - split; [done|]. set_solver.
    - intros done_ x s w1 (Hi1 & Hi2 & Hi3) Hx. unfold resume_one.
      destruct (updaters !! uj_ID x) as [c|] eqn:Ec.
      + unfold wp. rewrite (bind_run _ _ _ _ _ (track_run _ _)). simpl. split; [done|]. split.
        * intros j [Hj|Hj]%elem_of_app; [by apply Hi2|]. apply list_elem_of_singleton in Hj as ->. by rewrite Ec.
        * intros j [Hj|Hj]%elem_of_app.
          -- destruct (Hi3 j Hj); [left|by right]. rewrite map_app. set_solver.
          -- apply list_elem_of_singleton in Hj as ->. left. rewrite map_app. set_solver.
      + destruct (settleJob_db (uj_ID x) (uj_ContainerName x) w1 Hnf) as (w2 & now & p & m & er & Hr & Hd).
        unfold wp. rewrite (bind_run _ _ _ _ _ Hr). simpl. unfold I. rewrite Hd.
        split; [by apply finish_open|]. split; [done|].
        intros j [Hj|Hj]%elem_of_app.
        * destruct (Hi3 j Hj); [by left|right]. by apply finish_keeps_closed.
        * apply list_elem_of_singleton in Hj as ->. right. apply finish_closes.
    - intros s w1 Hi. eauto. }
  unfold wp in Hw. destruct (for_fold jobs (resume_one updaters) [] w0) as [w' o]. simpl in Hw.
  destruct Hw as (watched & -> & Hi1 & Hi2 & Hi3). exists w', watched. split; [done|]. split; [done|].
  intros j Hj Hd. pose proof (Hi1 j Hj Hd) as Hin.
  apply list_elem_of_In, in_map_iff in Hin as (j0 & Hid & Hj0). apply list_elem_of_In in Hj0.
  destruct (Hi3 j0 Hj0) as [Hw|Hdone]; [by rewrite Hid in Hw|].
  rewrite (Hdone j Hj) in Hd; done.
Qed.

(** C26. Given the list of running helpers, the step of recovery that takes up
    the update jobs leaves every one that is still open watched and with a
    running helper; every other job was finished. *)
Theorem resumeJobs_leaves_no_orphan updaters (w : World E) :
  no_faults (E:=E) ->
  exists watched, (resumeJobs updaters w).2 = Ret watched
    /\ (forall j, j ∈ watched -> is_Some (updaters !! uj_ID j))
    /\ (forall j, j ∈ db_jobs (w_db (resumeJobs updaters w).1) -> uj_Done j = false ->
          uj_ID j ∈ map uj_ID watched).
Proof.
  intros Hnf. destruct (resumeJobs_run updaters w Hnf) as (w' & watched & -> & H1 & H2). eauto.
Qed.

(** Watching a job stops only when its row is finished. *)
Theorem watch_tick_stops_when_closed id name (w : World E) :
  no_faults (E:=E) -> (watch_tick id name w).2 = Ret true ->
  job_done_ok id (w_db (watch_tick id name w).1) \/
  exists j, (UpdateJobByID id (w_db w)).2 = Ok j /\ uj_Done j = true.
Proof.
  intros Hnf. unfold watch_tick.
  destruct (sql_run_ok (UpdateJobByID id) w Hnf) as (e' & Hs). rewrite (bind_run _ _ _ _ _ Hs).
  set (w1 := set_db _ _). destruct ((UpdateJobByID id (w_db w)).2) as [j|e] eqn:Ej.
  2:{ intros _. left. intros j Hj Hid. simpl in *. apply query_row_Fail in Ej as [_ Hno].
      specialize (Hno j Hj). apply String.eqb_neq in Hno. done. }
  destruct (uj_Done j) eqn:Ed; cbn [negb]; [intros _; right; eauto|].
  unfold updaterFor, runningUpdaters, ContainerList.
  set (w2 := log (set_env w1 (cli_ContainerList true (w_env w1)).1) []).
  assert (Hu : exists u, (let? updaters := (let? l := call (cli_ContainerList true) (fun _ => []) in
       mret (Ok (updaters_of l))) in mret (Ok (updaters !! id))) w1 = (w2, Ret u)).
  { unfold call, mbind, M_bind, mret, M_ret. destruct (cli_ContainerList true (w_env w1)).2; eauto. }
  destruct Hu as (u & Hu). rewrite (bind_run _ _ _ _ _ Hu).
  destruct (settleJob_db id name w2 Hnf) as (w3 & now & p & m & er & Hr & Hd).
  destruct u as [[c|]|err].
  - rewrite (bind_run _ _ _ _ _ (track_run _ _)). done.
  - rewrite (bind_run _ _ _ _ _ Hr). intros _. left. simpl. rewrite Hd. apply finish_closes.
  - rewrite (bind_run _ _ _ _ _ Hr). intros _. left. simpl. rewrite Hd. apply finish_closes.
Qed.
End RecoverFacts.

(** ** Instances at concrete inputs *)
Definition demo_helper : InspectResponse :=
  {| in_ID := "h1"; in_Name := "/veery-updater-j1"; in_Image := "img"; in_State := Some up;
     in_Config := Some {| cfg_Image := "img"; cfg_Entrypoint := []; cfg_Cmd := []; cfg_Env := []; cfg_User := "";
       cfg_WorkingDir := ""; cfg_Labels := <[updaterLabel := updaterRole]> {[jobLabel := "j1"]};
       cfg_Healthcheck := None; cfg_other := "" |};
     in_HostConfig := None; in_Networks := Some ∅; in_RestartCount := 0 |}.

Definition demo_open_job : UpdateJob :=
  {| uj_ID := "j1"; uj_ContainerName := "veery"; uj_Image := ""; uj_Phase := "handoff"; uj_Message := "";
     uj_Error := ""; uj_Self := true; uj_Done := false; uj_StartedAt := 1; uj_FinishedAt := 0 |}.

Definition demo_orphan_job : UpdateJob :=
  {| uj_ID := "j2"; uj_ContainerName := "nginx"; uj_Image := ""; uj_Phase := "pulling"; uj_Message := "";
     uj_Error := ""; uj_Self := false; uj_Done := false; uj_StartedAt := 2; uj_FinishedAt := 0 |}.

Definition demo_restart : World Sim :=
  sim_world (set_jobs empty_db [demo_open_job; demo_orphan_job])
    (sim_with sim_empty [demo_helper; demo_live "c1" "nginx__veery_old" (down 0)] 10).

Lemma demo_restart_list : (cli_ContainerList true (w_env demo_restart)).2 =
  Ok [sim_summary demo_helper; sim_summary (demo_live "c1" "nginx__veery_old" (down 0))].
Proof. vm_compute. reflexivity. Qed.

Lemma Recover_leaves_running_helpers_alone_witness :
  exists t, w_trace (Recover demo_restart).1 = t /\ Forall (fun e => mutates e = false) t.
Proof.
  destruct (Recover_leaves_running_helpers_alone
    [sim_summary demo_helper; sim_summary (demo_live "c1" "nginx__veery_old" (down 0))] demo_restart
    demo_restart_list (ex_intro _ (sim_summary demo_helper)
      (conj (list_elem_of_here _ _) (conj eq_refl eq_refl)))) as (t & Ht & Hf).
  exists t. split; [exact Ht|exact Hf].
Defined.

Definition demo_parked : Summary := sim_summary (demo_live "c1" "nginx__veery_old" (down 0)).
Definition demo_fresh : Summary := sim_summary (demo_live "c2" "nginx" up).

Definition demo_parked_world : World Sim :=
  sim_world empty_db
    (sim_with sim_empty [demo_live "c1" "nginx__veery_old" (down 0); demo_live "c2" "nginx" up] 10).

(** Veery is another container, or cannot tell. *)
Lemma demo_parked_self : (SelfContainerID (E:=Sim) demo_parked_world).2 = Ret "".
Proof. vm_compute. reflexivity. Qed.

Lemma reconcileOne_keeps_a_container_witness :
  exists t, w_trace (reconcileOne "nginx" demo_parked (Some demo_fresh) demo_parked_world).1 = t /\
    forall e, EvRemove "c1" e ∈ calls t -> exists f, Some demo_fresh = Some f /\
       (sum_ID f = "" \/ exists ev, ev ∈ calls t /\ proved_up (sum_ID f) ev).
Proof.
  destruct (reconcileOne_keeps_a_container "nginx" demo_parked (Some demo_fresh) "" demo_parked_world)
    as (t & Ht & H & _).
  - intros f Hf. injection Hf as <-. split; discriminate.
  - exact demo_parked_self.
  - exists t. split; [exact Ht|exact H].
Defined.

Lemma resumeJobs_leaves_no_orphan_witness :
  let us : gmap string Summary := {["j1" := sim_summary demo_helper]} in
  exists watched, (resumeJobs us demo_restart).2 = Ret watched
    /\ map uj_Done (db_jobs (w_db (resumeJobs us demo_restart).1)) = [false; true]
    /\ forall j, j ∈ watched -> is_Some (us !! uj_ID j).
Proof.
  destruct (resumeJobs_leaves_no_orphan {["j1" := sim_summary demo_helper]} demo_restart sim_no_faults)
    as (watched & Hr & H1 & H2).
  exists watched. split; [exact Hr|]. split; [vm_compute; reflexivity|exact H1].
Defined.

Lemma watch_tick_stops_when_closed_witness :
  let w' := (watch_tick "j2" "nginx" demo_restart).1 in
  map uj_Done (db_jobs (w_db w')) = [false; true] /\
  (job_done_ok "j2" (w_db w') \/ exists j, (UpdateJobByID "j2" (w_db demo_restart)).2 = Ok j /\ uj_Done j = true).
Proof.
  split; [vm_compute; reflexivity|].
  apply (watch_tick_stops_when_closed "j2" "nginx" demo_restart sim_no_faults). vm_compute. reflexivity.
Defined.
