(* ===== verification/Crash.v ===== *)
(** * Updates interrupted at an arbitrary call (update.go and recover.go)

    A daemon is [Lawful] when its answers agree with what it does to the names
    of its containers: a call that reports an error changed nothing, one that
    reports success did what it says. [Crashing] is the environment of a process
    that is killed after some number of calls: the calls it would have made
    afterwards have no effect. It is lawful when the daemon is, so what holds of
    the containers after a swap in any lawful environment holds of the
    containers a killed process leaves. *)
From S2P Require Import Prelude GoStrings Api Db StoreDocker Docker World Sim StoreSettings Status Snapshot Listing Identity UpdateCheck Reconcile Swap Recover.
Open Scope Z_scope.

(** The containers of a daemon: the name of each id. *)
Abbreviation Names := (gmap string string).

(** What a reference in a call stands for: an id, or else a name. *)
Definition resolves (v : Names) (ref id : string) : Prop :=
  if decide (is_Some (v !! ref)) then id = ref else v !! id = Some ref.

Definition free (v : Names) (name : string) : Prop := forall id, v !! id <> Some name.

(** Names are unique. *)
Definition unique (v : Names) : Prop := forall i j n, v !! i = Some n -> v !! j = Some n -> i = j.

(** A call that reports [r] took the containers from [v] to [v']. *)
Definition renamed (ref name : string) (r : option error) (v v' : Names) : Prop :=
  match r with
  | None => exists id, resolves v ref id /\ is_Some (v !! id) /\ free v name /\ v' = <[id := name]> v
  | Some _ => v' = v
  end.

Definition removed (ref : string) (r : option error) (v v' : Names) : Prop :=
  match r with
  | None => exists id, resolves v ref id /\ is_Some (v !! id) /\ v' = delete id v
  | Some _ => v' = v
  end.

Definition created (name : string) (r : result string) (v v' : Names) : Prop :=
  match r with
  | Ok id => v !! id = None /\ free v name /\ v' = <[id := name]> v
  | Fail _ => v' = v
  end.

(** [daemon_ok] are the states the laws speak of. *)
Class Daemon (E : Type) := { view : E -> Names; daemon_ok : E -> Prop }.

Definition law {E A} `{!Daemon E} (op : E -> E * A) (R : A -> Names -> Names -> Prop) : Prop :=
  forall e, daemon_ok e -> daemon_ok (op e).1 /\ R (op e).2 (view e) (view (op e).1).

Definition same {A} (_ : A) (v v' : Names) : Prop := v' = v.

(** Names are unique, and most calls change none. *)
Class Quiet (E : Type) `{!Env E} `{!Daemon E} : Prop := {
  law_unique : forall e, daemon_ok e -> unique (view e);
  law_list all : law (cli_ContainerList all) same;
  law_inspect ref : law (cli_ContainerInspect ref) same;
  law_start ref : law (cli_ContainerStart ref) same;
  law_stop ref : law (cli_ContainerStop ref) same;
  law_restart ref : law (cli_ContainerRestart ref) same;
  law_wait ref : law (cli_ContainerWait ref) same;
  law_connect net id ep : law (cli_NetworkConnect net id ep) same;
  law_pull ref : law (cli_ImagePull ref) same;
  law_image ref : law (cli_ImageInspect ref) same;
  law_rmi ref : law (cli_ImageRemove ref) same;
  law_dist ref : law (cli_DistributionInspect ref) same;
  law_now : law time_Now same;
  law_wait1 : law select_1s same;
  law_ctx : law ctx_Err same;
  law_rand : law rand_ID same;
  law_getenv k : law (os_Getenv k) same;
  law_lines p : law (proc_lines p) same;
  law_host : law os_Hostname same;
  law_sql : law sql_fault same
}.

Class Lawful (E : Type) `{!Env E} `{!Daemon E} : Prop := {
  law_ids : forall e, daemon_ok e -> view e !! "" = None;
  law_rename ref name : law (cli_ContainerRename ref name) (renamed ref name);
  law_remove ref : law (cli_ContainerRemove ref) (removed ref);
  law_create cfg hc net name : law (cli_ContainerCreate cfg hc net name) (created name);
  law_quiet :: Quiet E
}.

(** What a program relies on that only acts on containers it knows by their id,
    and on those with some names [mine]: the view may leave the others out. *)
Definition renamed_known (ref name : string) (r : option error) (v v' : Names) : Prop :=
  match r with
  | None => is_Some (v !! ref) -> free v name /\ v' = <[ref := name]> v
  | Some _ => v' = v
  end.

Definition removed_known (ref : string) (r : option error) (v v' : Names) : Prop :=
  match r with
  | None => is_Some (v !! ref) -> v' = delete ref v
  | Some _ => v' = v
  end.

Definition removed_named (name : string) (r : option error) (v v' : Names) : Prop :=
  match r with
  | None => v !! name = None -> exists id, v !! id = Some name /\ v' = delete id v
  | Some _ => v' = v
  end.

Class LawfulOn (mine : string -> Prop) (E : Type) `{!Env E} `{!Daemon E} : Prop := {
  on_rename ref name : mine name -> law (cli_ContainerRename ref name) (renamed_known ref name);
  on_remove ref : law (cli_ContainerRemove ref) (removed_known ref);
  on_remove_named name : mine name -> law (cli_ContainerRemove name) (removed_named name);
  on_create cfg hc net name : mine name -> law (cli_ContainerCreate cfg hc net name) (created name);
  on_quiet :: Quiet E
}.

Lemma law_mono {E A} `{!Daemon E} (op : E -> E * A) (R R' : A -> Names -> Names -> Prop) :
  law op R -> (forall r v v', R r v v' -> R' r v v') -> law op R'.
Proof. intros Hl HR e Hok. destruct (Hl e Hok). auto. Qed.

Lemma resolves_known v id ref : is_Some (v !! ref) -> resolves v ref id -> id = ref.
Proof. intros Hs. unfold resolves. by rewrite decide_True. Qed.

Lemma resolves_named v id ref : v !! ref = None -> resolves v ref id -> v !! id = Some ref.
Proof. intros Hn. unfold resolves. rewrite decide_False by (rewrite Hn; by intros [? ?]). done. Qed.

(** A lawful daemon is one for every part of its containers. *)
#[export] Instance lawful_on {E} `{!Env E} `{!Daemon E} `{!Lawful E} : LawfulOn (fun _ => True) E.
Proof.
  constructor; [intros ref name _|intros ref|intros name _|intros; apply law_create|apply _].
  - eapply law_mono; [apply law_rename|]. intros [err|] v v'; [done|]. intros (id & Hr & _ & Hf & ->) Hs.
    by apply resolves_known in Hr as ->.
  - eapply law_mono; [apply law_remove|]. intros [err|] v v'; [done|]. intros (id & Hr & _ & ->) Hs.
    by apply resolves_known in Hr as ->.
  - eapply law_mono; [apply law_remove|]. intros [err|] v v'; [done|]. intros (id & Hr & _ & ->) Hs.
    exists id. split; [by apply resolves_named|done].
Qed.

(** A list of summaries describes the containers. *)
Definition describes (l : list Summary) (v : Names) : Prop :=
  forall id n, v !! id = Some n <-> exists s, s ∈ l /\ sum_ID s = id /\ containerName (sum_Names s) = n.

(** A daemon that is up: it lists its containers, and renames and removes what
    it can. *)
Class Obliging (E : Type) `{!Env E} `{!Daemon E} : Prop := {
  ob_list : law (cli_ContainerList true) (fun r v _ => exists l, r = Ok l /\ describes l v);
  ob_rename ref name : law (cli_ContainerRename ref name) (fun r v _ => is_Some (v !! ref) -> free v name -> r = None);
  ob_remove ref : law (cli_ContainerRemove ref) (fun r v _ => is_Some (v !! ref) -> r = None)
}.

(** ** A process that is killed *)
Record Crashing (E : Type) := { c_env : E; c_left : nat }.
Arguments c_env {E}.
Arguments c_left {E}.

(** The call goes through while calls are left; afterwards nothing happens, and
    what the dead process would have seen is [dead]. *)
Definition until_killed {E A} (op : E -> E * A) (dead : A) (c : Crashing E) : Crashing E * A :=
  match c_left c with
  | O => (c, dead)
  | S n => ({| c_env := (op (c_env c)).1; c_left := n |}, (op (c_env c)).2)
  end.

Definition errKilled : error := errorf "killed".

#[export] Instance crash_env {E} `{!Env E} : Env (Crashing E) := {|
  cli_ContainerList all := until_killed (cli_ContainerList all) (Fail errKilled);
  cli_ContainerInspect ref := until_killed (cli_ContainerInspect ref) (Fail errKilled);
  cli_ContainerCreate cfg hc net name := until_killed (cli_ContainerCreate cfg hc net name) (Fail errKilled);
  cli_ContainerStart ref := until_killed (cli_ContainerStart ref) (Some errKilled);
  cli_ContainerStop ref := until_killed (cli_ContainerStop ref) (Some errKilled);
  cli_ContainerRestart ref := until_killed (cli_ContainerRestart ref) (Some errKilled);
  cli_ContainerWait ref := until_killed (cli_ContainerWait ref) (WaitErr errKilled);
  cli_ContainerRename ref name := until_killed (cli_ContainerRename ref name) (Some errKilled);
  cli_ContainerRemove ref := until_killed (cli_ContainerRemove ref) (Some errKilled);
  cli_NetworkConnect net id ep := until_killed (cli_NetworkConnect net id ep) (Some errKilled);
  cli_ImagePull ref := until_killed (cli_ImagePull ref) (Fail errKilled);
  cli_ImageInspect ref := until_killed (cli_ImageInspect ref) (Fail errKilled);
  cli_ImageRemove ref := until_killed (cli_ImageRemove ref) (Some errKilled);
  cli_DistributionInspect ref := until_killed (cli_DistributionInspect ref) (Fail errKilled);
  time_Now := until_killed time_Now 0;
  select_1s := until_killed select_1s (Some errKilled);
  ctx_Err := until_killed ctx_Err (Some errKilled);
  rand_ID := until_killed rand_ID "";
  os_Getenv k := until_killed (os_Getenv k) "";
  proc_lines p := until_killed (proc_lines p) None;
  os_Hostname := until_killed os_Hostname (Fail errKilled);
  sql_fault := until_killed sql_fault (Some errKilled)
|}.

#[export] Instance crash_daemon {E} `{!Daemon E} : Daemon (Crashing E) :=
  {| view c := view (c_env c); daemon_ok c := daemon_ok (c_env c) |}.

Lemma until_killed_law {E A} `{!Daemon E} (op : E -> E * A) (dead : A) R :
  law op R -> (forall v, R dead v v) -> law (until_killed op dead) R.
Proof.
  intros Hl Hd [e n] Hok. unfold until_killed. simpl in *. destruct n as [|n]; simpl; [done|]. by apply Hl.
Qed.

#[export] Instance crash_quiet {E} `{!Env E} `{!Daemon E} `{!Quiet E} : Quiet (Crashing E).
Proof.
  constructor; [intros e; apply (law_unique (c_env e))|..]; intros; apply until_killed_law; try done;
    auto using law_list, law_inspect, law_start, law_stop, law_restart, law_wait,
      law_connect, law_pull, law_image, law_rmi, law_dist, law_now, law_wait1, law_ctx, law_rand, law_getenv,
      law_lines, law_host, law_sql.
Qed.

#[export] Instance crash_lawful {mine E} `{!Env E} `{!Daemon E} `{!LawfulOn mine E} : LawfulOn mine (Crashing E).
Proof.
  constructor; [..|apply _]; intros; apply until_killed_law; try done;
    eauto using on_rename, on_remove, on_remove_named, on_create.
Qed.

(** ** What a program does to the names *)
Section Triples.
Context {E : Type} `{!Env E} `{!Daemon E} `{!Quiet E}.

(** The states considered: the daemon's laws apply, and Veery knows its own
    container as [self]. *)
Definition sane (self : string) (w : World E) : Prop :=
  daemon_ok (w_env w) /\ m_selfID (w_mgr w) = Some self.

Context (self : string).

(** From a state whose names satisfy [P], [m] ends with names that satisfy [Q]. *)
Definition triple {A} (P : Names -> Prop) (m : M E A) (Q : outcome A -> Names -> Prop) : Prop :=
  forall w, sane self w -> P (view (w_env w)) -> sane self (m w).1 /\ Q (m w).2 (view (w_env (m w).1)).

(** [m] changes no name. *)
Definition still {A} (m : M E A) : Prop := forall v, triple (fun v' => v' = v) m (fun _ v' => v' = v).

Lemma triple_conseq {A} (P P' : Names -> Prop) (m : M E A) (Q Q' : outcome A -> Names -> Prop) :
  triple P m Q -> (forall v, P' v -> P v) -> (forall o v, Q o v -> Q' o v) -> triple P' m Q'.
Proof. intros Ht Hp Hq w Hok Hw. destruct (Ht w Hok (Hp _ Hw)) as [Hok' HQ]. auto. Qed.

Lemma triple_bind {A B} P (m : M E A) (k : A -> M E B) R (Q : outcome B -> Names -> Prop) :
  triple P m R ->
  (forall s v, R (Panic s) v -> Q (Panic s) v) ->
  (forall a, triple (R (Ret a)) (k a) Q) ->
  triple P (m ≫= k) Q.
Proof.
  intros Hm Hp Hk w Hok Hw. destruct (Hm w Hok Hw) as [Hok' HR]. unfold mbind, M_bind.
  destruct (m w) as [w' [a|s]]; simpl in *; [by apply Hk|auto].
Qed.

Lemma triple_ret {A} (a : A) (P : Names -> Prop) (Q : outcome A -> Names -> Prop) :
  (forall v, P v -> Q (Ret a) v) -> triple P (mret a) Q.
Proof. intros HQ w Hok Hw. split; [done|]. by apply HQ. Qed.

Lemma triple_ret_bind {A B} (a : A) (k : A -> M E B) P (Q : outcome B -> Names -> Prop) :
  triple P (k a) Q -> triple P (mret a ≫= k) Q.
Proof. intros Hk w. exact (Hk w). Qed.

Lemma triple_panic {A} s (P : Names -> Prop) (Q : outcome A -> Names -> Prop) :
  (forall v, P v -> Q (Panic s) v) -> triple P (panic s) Q.
Proof. intros HQ w Hok Hw. split; [done|]. by apply HQ. Qed.

Lemma triple_call {A} (op : E -> E * A) ev (R : A -> Names -> Names -> Prop) (P : Names -> Prop)
    (Q : outcome A -> Names -> Prop) :
  law op R -> (forall v r v', unique v -> P v -> R r v v' -> Q (Ret r) v') -> triple P (call op ev) Q.
Proof.
  intros Hl HQ w [Hok Hs] Hw. destruct (Hl (w_env w) Hok) as [Hok' HR]. unfold call. simpl. split; [done|].
  apply (HQ (view (w_env w)) _ _); [by apply law_unique|exact Hw|exact HR].
Qed.

(** A still program before the rest. *)
Lemma triple_still {A B} P (m : M E A) (k : A -> M E B) (Q : outcome B -> Names -> Prop) :
  still m -> (forall s v, P v -> Q (Panic s) v) -> (forall a, triple P (k a) Q) -> triple P (m ≫= k) Q.
Proof.
  intros Hm Hp Hk w Hok Hw.
  assert (Ht : triple (fun v => v = view (w_env w)) (m ≫= k) Q); [|by apply Ht].
  eapply triple_bind; [apply Hm|intros s v ->; by apply Hp|].
  intros a w1 Hok1 Hw1. simpl in Hw1. apply Hk; [done|]. by rewrite Hw1.
Qed.

Lemma still_triple {A} (m : M E A) (P : Names -> Prop) : still m -> triple P m (fun _ => P).
Proof. intros Hm w Hok Hw. destruct (Hm (view (w_env w)) w Hok eq_refl) as [? ->]. done. Qed.

Lemma still_bind {A B} (m : M E A) (k : A -> M E B) : still m -> (forall a, still (k a)) -> still (m ≫= k).
Proof. intros Hm Hk v. apply triple_still; [done|done|]. intros a. apply Hk. Qed.

Lemma still_ret {A} (a : A) : still (mret a).
Proof. intros v. by apply triple_ret. Qed.

Lemma still_panic {A} s : still (panic (A:=A) s).
Proof. intros v. by apply triple_panic. Qed.

Lemma still_call {A} (op : E -> E * A) ev : law op same -> still (call op ev).
Proof. intros Hl v. eapply triple_call; [exact Hl|]. intros v1 r v2 _ -> ->. done. Qed.

Lemma still_gets {A} (f : Mgr -> A) : still (gets f).
Proof. intros v w Hok Hw. done. Qed.

Lemma still_modify f : (forall m, m_selfID (f m) = m_selfID m) -> still (modify f).
Proof. intros Hf v w [Hok Hs] Hw. split; [split; [done|]|done]. simpl. by rewrite Hf. Qed.

Lemma still_tell l : still (tell l).
Proof. intros v w Hok Hw. done. Qed.

Lemma still_sql {A} (s : Sql A) : still (sql s).
Proof.
  intros v w [Hok Hs] Hw. pose proof (law_sql (w_env w) Hok) as [Hok' Hv]. unfold sql, same in *.
  destruct (sql_fault (w_env w)) as [e [err|]]; simpl in *; (split; [done|congruence]).
Qed.

Lemma triple_self_bind {B} P (k : string -> M E B) (Q : outcome B -> Names -> Prop) :
  triple P (k self) Q -> triple P (SelfContainerID ≫= k) Q.
Proof.
  intros Hk w [Hok Hs] Hw.
  assert (Hrun : (SelfContainerID ≫= k) w = k self w).
  { unfold SelfContainerID, mbind, M_bind, gets. by rewrite Hs. }
  rewrite Hrun. by apply Hk.
Qed.

Lemma still_for_each {A} (l : list A) (body : A -> M E unit) :
  (forall x, still (body x)) -> still (for_each l body).
Proof.
  intros Hb. induction l as [|x l IH]; cbn [for_each]; [apply still_ret|]. apply still_bind; [done|by intros].
Qed.
End Triples.

(** Decompose a program that changes no name. *)
Ltac still_step :=
  match goal with
  | |- still _ (_ ≫= _) => apply still_bind; [|intros ?]
  | |- still _ (mret _) => apply still_ret
  | |- still _ (panic _) => apply still_panic
  | |- still _ (gets _) => apply still_gets
  | |- still _ (modify _) => apply still_modify; intros ?; try done
  | |- still _ (tell _) => apply still_tell
  | |- still _ (sql _) => apply still_sql
  | |- still _ (for_each _ _) => apply still_for_each; intros ?
  | |- still _ (call _ _) => apply still_call; auto using law_list, law_inspect, law_start, law_stop, law_restart,
      law_wait, law_connect, law_pull, law_image, law_rmi, law_dist, law_now, law_wait1, law_ctx, law_rand,
      law_getenv, law_lines, law_host with typeclass_instances
  | |- still _ (match ?x with _ => _ end) => destruct x eqn:?
  | |- still _ (let _ := _ in _) => intros ?
  end.

Section StillPrograms.
Context {E : Type} `{!Env E} `{!DockerCodecs} `{!Daemon E} `{!Quiet E} (self : string).

Lemma verify_loop_still fuel deadline id : still (E:=E) self (verify_loop fuel deadline id).
Proof.
  induction fuel as [|fuel IH]; cbn [verify_loop]; [apply still_panic|].
  unfold poll. open_calls. repeat (apply IH || still_step).
Qed.

Lemma verifyHealthy_still id : still (E:=E) self (verifyHealthy id).
Proof. unfold verifyHealthy. open_calls. repeat (apply verify_loop_still || still_step). Qed.

Lemma recordSpec_still mc insp : still (E:=E) self (recordSpec mc insp).
Proof. unfold recordSpec. repeat still_step. Qed.

Lemma healthy_still id : still (E:=E) self (healthy id).
Proof. unfold healthy. open_calls. repeat still_step. Qed.

End StillPrograms.

(** ** Where a swap can be interrupted *)
Section SwapStates.
Context (v0 : Names) (old name : string).

Definition parked_name : string := name +:+ oldSuffix.

(** The names before the swap, with the old container parked, with a
    replacement beside it, and with the old one gone. *)
Definition st_parked : Names := <[old := parked_name]> v0.
Definition st_both (new : string) : Names := <[new := name]> st_parked.
Definition st_after (new : string) : Names := <[new := name]> (delete old v0).

Inductive swap_state : Names -> Prop :=
| ss_before : swap_state v0
| ss_parked : swap_state st_parked
| ss_both new : v0 !! new = None -> swap_state (st_both new)
| ss_after new : v0 !! new = None -> swap_state (st_after new).

Context (Hold : v0 !! old = Some name) (Hfree : free v0 parked_name) (Hid : v0 !! parked_name = None).

Lemma back_to_before : <[old := name]> st_parked = v0.
Proof. unfold st_parked. rewrite insert_insert_eq. by apply insert_id. Qed.

Lemma drop_new new : v0 !! new = None -> delete new (st_both new) = st_parked.
Proof using Hold.
  clear Hid Hfree.
  intros Hn. unfold st_both. rewrite delete_insert_eq. apply delete_id. unfold st_parked.
  rewrite lookup_insert_ne; [done|]. intros ->. congruence.
Qed.

Lemma drop_old new : v0 !! new = None -> delete old (st_both new) = st_after new.
Proof using Hold.
  clear Hid Hfree.
  intros Hn. unfold st_both, st_after, st_parked. rewrite delete_insert_ne by congruence. by rewrite delete_insert_eq.
Qed.

Lemma old_in_both new : v0 !! new = None -> st_both new !! old = Some parked_name.
Proof using Hold. clear Hid Hfree. intros Hn. unfold st_both, st_parked. rewrite lookup_insert_ne by congruence. apply lookup_insert_eq. Qed.

Section Run.
Context {mine : string -> Prop} (Hmine : mine name) (Hmine_parked : mine parked_name).
Context {E : Type} `{!Env E} `{!DockerCodecs} `{!Daemon E} `{!LawfulOn mine E} (self : string).
Context (emit : string -> string -> M E unit) (Hemit : forall p s, still self (emit p s)).

#[local] Instance run_quiet : Quiet E := on_quiet (mine:=mine).

Lemma park_none_triple :
  triple self (fun v => v = v0) (ContainerRemove parked_name) (fun _ v => v = v0).
Proof.
  eapply triple_call; [by apply (on_remove_named (mine:=mine))|]. intros v [err|] v' _ -> Hr; [done|].
  destruct (Hr Hid) as (id & Hn & _). by apply Hfree in Hn.
Qed.

Lemma park_triple :
  triple self (fun v => v = v0) (ContainerRename old parked_name) (fun o v =>
    match o with Ret None => v = st_parked | Ret (Some _) => v = v0 | Panic _ => False end).
Proof.
  eapply triple_call; [by apply (on_rename (mine:=mine))|]. intros v [err|] v' _ -> Hr; [done|].
  destruct Hr as (_ & ->); [by rewrite Hold|done].
Qed.

(** How a recreation leaves the names. *)
Definition recreated (o : outcome (string * option error)) (v : Names) : Prop :=
  match o with
  | Panic _ => v = st_parked \/ exists id, v0 !! id = None /\ v = st_both id
  | Ret (id, err) => (v = st_parked /\ id = "" /\ err <> None) \/ (v0 !! id = None /\ v = st_both id)
  end.

Lemma recreate_triple snap image :
  sn_Name snap = name -> triple self (fun v => v = st_parked) (recreate snap image) recreated.
Proof.
  intros Hn. unfold recreate, recreated. destruct (sn_Config snap) as [c|]; [|apply triple_panic; auto].
  destruct (sn_NetworkingConfig snap) as [eps|]; [|apply triple_panic; auto]. rewrite Hn.
  eapply (triple_bind _ _ _ _ (fun o v => match o with
    | Ret (Ok id) => v0 !! id = None /\ v = st_both id
    | Ret (Fail _) => v = st_parked
    | Panic _ => False end)); [|done|].
  { eapply triple_call; [by apply (on_create (mine:=mine))|]. intros v [id|e] v' _ -> Hc; [|done].
    destruct Hc as (Hnew & _ & ->). split; [|done]. unfold st_parked in Hnew.
    by apply lookup_insert_None in Hnew as [Hnew _]. }
  intros [id|e]; [|apply triple_ret; intros v ->; left; done].
  apply triple_still; [open_calls; repeat still_step|intros s v [? ->]; eauto|intros _].
  apply triple_still; [open_calls; repeat still_step|intros s v [? ->]; eauto|intros err].
  apply triple_ret. intros v [? ->]. by right.
Qed.

(** A parked container, perhaps with its replacement. *)
Definition either (v : Names) : Prop := v = st_parked \/ exists new, v0 !! new = None /\ v = st_both new.

Lemma either_state v : either v -> swap_state v.
Proof. intros [->|(new & Hn & ->)]; by constructor. Qed.

Lemma remove_new_triple newID :
  triple self (fun v => v0 !! newID = None /\ v = st_both newID) (ContainerRemove newID) (fun o v =>
    match o with
    | Ret None => v = st_parked
    | Ret (Some _) => v0 !! newID = None /\ v = st_both newID
    | Panic _ => False
    end).
Proof.
  eapply triple_call; [apply (on_remove (mine:=mine))|]. intros v [err|] v' _ [Hn ->] Hr; [by rewrite Hr|].
  rewrite Hr; [by apply drop_new|]. unfold st_both. rewrite lookup_insert_eq. eauto.
Qed.

Lemma unpark_triple P :
  (forall v, P v -> either v) ->
  triple self P (ContainerRename old name) (fun o v =>
    match o with Ret None => v = v0 | Ret (Some _) => P v | Panic _ => False end).
Proof.
  intros Hp. eapply triple_call; [by apply (on_rename (mine:=mine))|]. intros v [err|] v' _ Hv Hr; [by rewrite Hr|].
  destruct (Hp v Hv) as [->|(new & Hn & ->)].
  - destruct Hr as (_ & ->); [unfold st_parked; rewrite lookup_insert_eq; eauto|apply back_to_before].
  - destruct Hr as (Hf & _); [rewrite old_in_both by done; eauto|]. exfalso. apply (Hf new). unfold st_both.
    apply lookup_insert_eq.
Qed.

Lemma rollback_triple newID :
  triple self (fun v => (v = st_parked /\ newID = "") \/ (v0 !! newID = None /\ v = st_both newID))
    (rollback emit newID old name) (fun _ => swap_state).
Proof.
  assert (Hany : forall v, (v = st_parked /\ newID = "") \/ (v0 !! newID = None /\ v = st_both newID) -> either v)
    by (intros v [[-> _]|[? ->]]; [by left|right; eauto]).
  unfold rollback. apply triple_still; [apply Hemit|intros s v Hv; by apply either_state, Hany|intros _].
  eapply triple_bind with (R := fun _ => either); [|intros s v; apply either_state|intros _].
  - destruct (String.eqb_spec newID "") as [->|Hne]; [apply triple_ret; apply Hany|].
    eapply triple_bind with (R := fun _ => either); [|done|intros _; by apply triple_ret].
    eapply triple_conseq; [apply remove_new_triple|intros v [[_ ?]|?]; done|].
    intros [[err|]|s] v Hv; [right; eauto|by left|done].
  - eapply triple_bind; [by apply (unpark_triple either)|done|]. intros [err|].
    + apply triple_still; [apply Hemit|intros s v; apply either_state|]. intros _. apply triple_ret, either_state.
    + apply triple_still; [open_calls; repeat still_step|intros s v ->; constructor|]. intros [err|].
      * apply triple_still; [apply Hemit|intros s v ->; constructor|]. intros _. apply triple_ret. intros v ->. constructor.
      * apply triple_ret. intros v ->. constructor.
Qed.

Lemma remove_old_triple new :
  triple self (fun v => v0 !! new = None /\ v = st_both new) (ContainerRemove old) (fun o v =>
    match o with
    | Ret None => v = st_after new
    | Ret (Some _) => v = st_both new
    | Panic _ => False
    end /\ v0 !! new = None).
Proof.
  eapply triple_call; [apply (on_remove (mine:=mine))|]. intros v [err|] v' _ [Hn ->] Hr; [by rewrite Hr|].
  rewrite Hr; [by rewrite drop_old|]. rewrite old_in_both by done. eauto.
Qed.

Lemma swap_finish_triple mc oldInsp newID newImageID :
  in_ID oldInsp = old ->
  triple self (fun v => v0 !! newID = None /\ v = st_both newID) (swap_finish emit mc oldInsp newID newImageID)
    (fun _ => swap_state).
Proof.
  intros Hid_old. unfold swap_finish. rewrite Hid_old.
  eapply triple_bind; [apply remove_old_triple|by intros s v [? _]|]. intros r.
  eapply (triple_conseq _ swap_state); [apply still_triple| |done].
  - open_calls. repeat (apply recordSpec_still || apply Hemit || still_step).
  - destruct r as [err|]; intros v [-> Hn]; by constructor.
Qed.

(** However a swap ends, and whatever the daemon answers, the names are in one
    of the four states. *)
Lemma swap_triple mc snap ref oldInsp newImageID :
  in_ID oldInsp = old -> mc_ContainerName mc = name -> sn_Name snap = name ->
  triple self (fun v => v = v0) (swap emit mc snap ref oldInsp newImageID) (fun _ => swap_state).
Proof.
  intros Hid_old Hname Hsnap. unfold swap. rewrite Hid_old, Hname. fold parked_name. cbv zeta.
  apply triple_bind with (R := fun _ v => v = v0); [apply park_none_triple|intros s v ->; constructor|intros _].
  eapply triple_bind; [apply park_triple|done|]. intros [err|]; [apply triple_ret; intros v ->; constructor|].
  apply triple_still; [open_calls; repeat still_step|intros s v ->; constructor|intros _].
  apply triple_still; [apply Hemit|intros s v ->; constructor|intros _].
  eapply triple_bind; [by apply recreate_triple|intros s v Hv; by apply either_state|].
  intros [newID [err|]].
  - eapply triple_bind with (R := fun _ => swap_state); [|done|intros rb; by apply triple_ret].
    eapply triple_conseq; [apply rollback_triple| |done]. intros v [(-> & -> & _)|[? ->]]; auto.
  - eapply triple_conseq with (P := fun v => v0 !! newID = None /\ v = st_both newID);
      [|by intros v [(_ & _ & ?)|?]|intros o v Hv; exact Hv].
    apply triple_still; [apply Hemit|intros s v [? ->]; by constructor|intros _].
    apply triple_still; [apply verifyHealthy_still|intros s v [? ->]; by constructor|intros [e|]].
    + eapply triple_bind with (R := fun _ => swap_state); [|done|intros rb; by apply triple_ret].
      eapply triple_conseq; [apply rollback_triple|intros v Hv; by right|done].
    + by apply swap_finish_triple.
Qed.
End Run.
End SwapStates.

(** ** Recovery *)
Lemma law_both {E A} `{!Daemon E} (op : E -> E * A) R1 R2 :
  law op R1 -> law op R2 -> law op (fun r v v' => R1 r v v' /\ R2 r v v').
Proof. intros H1 H2 e Hok. destruct (H1 e Hok), (H2 e Hok). done. Qed.

Section Recovery.
Context (v0 : Names) (old name : string).
Context (Hold : v0 !! old = Some name) (Huniq : unique v0) (Hname : CutSuffix name oldSuffix = None).
Context {E : Type} `{!Env E} `{!DockerCodecs} `{!MapOrder} `{!MapOrderOk} `{!Daemon E} `{!Lawful E} `{!Obliging E} `{!ClockOk E}.
Context (self : string) (Hself : self = old -> (12 <= String.length old)%nat).

(** What recovery is to end with: the service as it was, or the replacement in
    its place, or still beside the parked container, which is Veery's own. *)
Definition settled_names (v : Names) : Prop :=
  v = v0 \/ (exists new, v0 !! new = None /\ v = st_after v0 old name new)
  \/ (self = old /\ exists new, v0 !! new = None /\ v = st_both v0 old name new).

(** [m] returns, and ends with names that satisfy [Q]. *)
Definition returns {A} (Q : A -> Names -> Prop) (o : outcome A) (v : Names) : Prop := exists r, o = Ret r /\ Q r v.

Lemma name_not_parked : name <> parked_name name.
Proof. intros Hn. rewrite Hn in Hname. unfold parked_name in Hname. by rewrite CutSuffix_app in Hname. Qed.

Lemma verify_triple P id : triple self P (verifyHealthy id) (returns (fun _ => P)).
Proof.
  intros w Hw Hp. destruct (still_triple self (verifyHealthy id) P (verifyHealthy_still self id) w Hw Hp) as [Hs Hv].
  destruct (verifyHealthy_returns id w) as [r Hr]. split; [done|]. by exists r.
Qed.

Lemma start_triple P id : triple self P (ContainerStart id) (returns (fun _ => P)).
Proof. eapply triple_call; [apply law_start|]. intros v r v' _ Hp ->. by exists r. Qed.

Lemma remove_new_ok new :
  triple self (fun v => v0 !! new = None /\ v = st_both v0 old name new) (ContainerRemove new)
    (returns (fun r v => r = None /\ v = st_parked v0 old name)).
Proof.
  eapply triple_call; [apply (law_both _ _ _ (law_remove new) (ob_remove new))|].
  intros v r v' _ [Hn ->] [Hr Hob]. exists r. split; [done|].
  assert (His : is_Some (st_both v0 old name new !! new)) by (unfold st_both; rewrite lookup_insert_eq; eauto).
  split; [by apply Hob|]. rewrite (Hob His) in Hr. destruct Hr as (id & Hres & _ & ->).
  apply resolves_known in Hres as ->; [|done]. by apply (drop_new v0 old name Hold).
Qed.

Lemma remove_old_ok new :
  triple self (fun v => v0 !! new = None /\ v = st_both v0 old name new) (ContainerRemove old)
    (returns (fun _ => settled_names)).
Proof.
  eapply triple_call; [apply (law_both _ _ _ (law_remove old) (ob_remove old))|].
  intros v r v' _ [Hn ->] [Hr Hob]. exists r. split; [done|].
  assert (His : is_Some (st_both v0 old name new !! old)) by (rewrite (old_in_both v0 old name Hold) by done; eauto).
  rewrite (Hob His) in Hr. destruct Hr as (id & Hres & _ & ->).
  apply resolves_known in Hres as ->; [|done]. right. left. exists new. split; [done|]. by apply (drop_old v0 old name Hold).
Qed.

Lemma parked_name_free : free (st_parked v0 old name) name.
Proof.
  intros id Hid. unfold st_parked in Hid. apply lookup_insert_Some in Hid as [[_ Hn]|[Hne Hid]].
  - by apply name_not_parked.
  - apply Hne. by apply (Huniq old id name).
Qed.

Lemma unpark_ok :
  triple self (fun v => v = st_parked v0 old name) (ContainerRename old name) (returns (fun r v => r = None /\ v = v0)).
Proof.
  eapply triple_call; [apply (law_both _ _ _ (law_rename old name) (ob_rename old name))|].
  intros v r v' _ -> [Hr Hob].
  assert (His : is_Some (st_parked v0 old name !! old)) by (unfold st_parked; rewrite lookup_insert_eq; eauto).
  specialize (Hob His parked_name_free). subst r. exists None. split; [done|].
  destruct Hr as (id & Hres & _ & _ & ->). apply resolves_known in Hres as ->; [|done].
  split; [done|]. by apply back_to_before.
Qed.

(** Renaming back and going on, in [rollback] and [reconcileOne]. *)
Lemma restore_triple {A} (k1 : error -> M E A) (k2 : M E A) :
  triple self (fun v => v = v0) k2 (returns (fun _ => settled_names)) ->
  triple self (fun v => v = st_parked v0 old name)
    (ContainerRename old name ≫= fun r => match r with Some e => k1 e | None => k2 end)
    (returns (fun _ => settled_names)).
Proof.
  intros Hk. eapply triple_bind; [apply unpark_ok|by intros s v (r & ? & _)|]. intros [e|].
  - intros w _ (r & Hr & Hn & _). congruence.
  - eapply triple_conseq; [exact Hk| |intros o v Hv; exact Hv]. intros v (r & _ & _ & Hv). exact Hv.
Qed.

Lemma before_settled {A} (a : A) v : v = v0 -> returns (fun _ => settled_names) (Ret a) v.
Proof. intros ->. exists a. split; [done|]. by left. Qed.

Lemma restart_triple {A} (k : option error -> M E A) :
  (forall s, triple self (fun v => v = v0) (k s) (returns (fun _ => settled_names))) ->
  triple self (fun v => v = v0) (ContainerStart old ≫= k) (returns (fun _ => settled_names)).
Proof.
  intros Hk. eapply triple_bind; [apply start_triple|by intros s v (r & ? & _)|]. intros s.
  eapply triple_conseq; [apply (Hk s)| |intros o v Hv; exact Hv]. intros v (r & _ & Hv). exact Hv.
Qed.

Lemma rollback_ok new :
  new <> "" ->
  triple self (fun v => v0 !! new = None /\ v = st_both v0 old name new) (rollback no_progress new old name)
    (returns (fun _ => settled_names)).
Proof.
  intros Hne%String.eqb_neq. unfold rollback, no_progress. rewrite Hne. apply triple_ret_bind.
  eapply triple_bind with (R := returns (fun _ v => v = st_parked v0 old name)); [|by intros s v (r & ? & _)|].
  - eapply triple_bind; [apply remove_new_ok|by intros s v (r & ? & _)|]. intros r.
    apply triple_ret. intros v (_ & _ & _ & ->). by exists tt.
  - intros []. eapply triple_conseq; [apply restore_triple| |intros o v Hv; exact Hv].
    + apply restart_triple. intros [err|]; [apply triple_ret_bind|]; apply triple_ret; intros v; apply before_settled.
    + by intros v (_ & _ & ->).
Qed.

Definition both_names (new : string) (v : Names) : Prop := v0 !! new = None /\ v = st_both v0 old name new.

Lemma reconcileOne_parked parked :
  sum_ID parked = old ->
  triple self (fun v => v = st_parked v0 old name) (reconcileOne name parked None) (returns (fun _ => settled_names)).
Proof.
  intros Hp. unfold reconcileOne.
  apply triple_self_bind.
  rewrite Hp. destruct (String.eqb old self).
  { do 2 apply triple_ret_bind. eapply triple_conseq; [apply unpark_ok|intros v Hv; exact Hv|].
    intros o v (r & -> & -> & ->). by apply before_settled. }
  apply restore_triple. eapply triple_conseq; [apply start_triple|intros v Hv; exact Hv|].
  intros o v (r & -> & ->). by apply before_settled.
Qed.

Lemma healthy_triple P id : triple self P (healthy id) (returns (fun _ => P)).
Proof.
  unfold healthy. eapply triple_bind with (R := returns (fun _ => P)); [|by intros s v (r & ? & _)|].
  - eapply triple_call; [apply law_inspect|]. intros v r v' _ Hp ->. by exists r.
  - intros r. apply triple_ret. intros v (_ & _ & Hv). eexists. by split.
Qed.

(** The parked container is Veery's own: its healthy replacement stays beside
    it, any other is removed and the name restored. *)
Lemma keep_or_restore new (keep : bool) :
  self = old ->
  triple self (both_names new)
    (if keep then (if (String.length old <? 12)%nat then panic "slice bounds out of range" else mret None)
     else removed ← ContainerRemove new;
          match removed with
          | Some err => mret (Some (wrapf "remove failed replacement: " err))
          | None => ContainerRename old name
          end)
    (returns (fun _ => settled_names)).
Proof.
  intros He. destruct keep.
  - rewrite (proj2 (Nat.ltb_ge _ _)) by (by apply Hself). apply triple_ret. intros v [Hn ->]. exists None. split; [done|].
    right. right. eauto.
  - eapply triple_bind; [apply remove_new_ok|by intros s v (r & ? & _)|]. intros [err|].
    + intros w _ (r & [= <-] & ? & _). done.
    + eapply triple_conseq; [apply unpark_ok|by intros v (_ & _ & _ & ->)|].
      intros o v (r & -> & _ & ->). by apply before_settled.
Qed.

Lemma reconcileOne_both parked fresh new :
  sum_ID parked = old -> sum_ID fresh = new -> new <> "" ->
  triple self (both_names new) (reconcileOne name parked (Some fresh)) (returns (fun _ => settled_names)).
Proof.
  intros Hp Hf Hne. unfold reconcileOne, both_names.
  apply triple_self_bind.
  rewrite Hp, Hf. destruct (String.eqb new self); [apply remove_old_ok|].
  destruct (String.eqb_spec old self) as [He|_].
  { destruct (String.eqb (sum_State fresh) "running"); [|apply triple_ret_bind; by apply (keep_or_restore new false)].
    eapply triple_bind; [apply healthy_triple|by intros s v (r & ? & _)|]. intros keep.
    eapply triple_conseq; [by apply (keep_or_restore new keep)|intros v (_ & _ & Hv); exact Hv|done]. }
  eapply triple_bind; [apply verify_triple|by intros s v (r & ? & _)|]. intros [e|].
  - eapply triple_bind with (R := returns (fun _ => settled_names)); [|by intros s v (r & ? & _)|].
    + eapply triple_conseq; [by apply rollback_ok|intros v (_ & _ & Hv); exact Hv|done].
    + intros r. apply triple_ret. intros v (_ & _ & Hv). by exists None.
  - eapply triple_conseq; [apply remove_old_ok|intros v (_ & _ & Hv); exact Hv|done].
Qed.

(** The loop over the names: only the parked one is acted on. *)
Lemma quiet_loop byName l P :
  (forall p, p ∈ l -> CutSuffix p.1 oldSuffix = None) ->
  triple self P (for_each l (reconcile_named byName)) (returns (fun _ => P)).
Proof.
  induction l as [|p l IH]; intros Hq; cbn [for_each]; [apply triple_ret; intros v Hv; by exists tt|].
  assert (Hp : reconcile_named (E:=E) byName p = mret tt) by (unfold reconcile_named; by rewrite (Hq p) by left).
  rewrite Hp. apply triple_ret_bind, IH. intros q Hin. apply Hq. by right.
Qed.

Lemma recover_loop byName l v :
  NoDup (map fst l) ->
  (forall p, p ∈ l -> p.1 <> parked_name name -> CutSuffix p.1 oldSuffix = None) ->
  (forall p, p ∈ l -> p.1 = parked_name name ->
     triple self (fun v' => v' = v) (reconcileOne name p.2 (byName !! name)) (returns (fun _ => settled_names))) ->
  triple self (fun v' => v' = v) (for_each l (reconcile_named byName))
    (returns (fun _ v' => (parked_name name ∈ map fst l /\ settled_names v') \/ (~ (parked_name name ∈ map fst l) /\ v' = v))).
Proof.
  intros Hnd Hq Hhit. induction l as [|p l IH]; cbn [for_each map].
  { apply triple_ret. intros v' ->. exists tt. split; [done|]. right. split; [|done]. apply not_elem_of_nil. }
  cbn [map] in Hnd. apply NoDup_cons in Hnd as [Hnew Hnd]. destruct (decide (p.1 = parked_name name)) as [Hp|Hp].
  - assert (Hstep : reconcile_named (E:=E) byName p = (reconcileOne name p.2 (byName !! name) ≫= fun _ => mret tt)).
    { unfold reconcile_named. rewrite Hp. unfold parked_name. by rewrite CutSuffix_app. }
    rewrite Hstep.
    eapply triple_bind with (R := returns (fun _ => settled_names)); [|by intros s v' (r & ? & _)|].
    + eapply triple_bind; [apply Hhit; [by left|done]|by intros s v' (r & ? & _)|]. intros r.
      apply triple_ret. intros v' (_ & _ & Hv). by exists tt.
    + intros []. eapply triple_conseq; [apply (quiet_loop byName l settled_names)| |].
      * intros q Hin. apply Hq; [by right|]. intros He. apply Hnew. rewrite Hp, <- He.
        apply list_elem_of_In, in_map. by apply list_elem_of_In.
      * by intros v' (_ & _ & Hv).
      * intros o v' (r & -> & Hv). exists r. split; [done|]. left. split; [rewrite Hp; by left|done].
  - assert (Hstep : reconcile_named (E:=E) byName p = mret tt) by (unfold reconcile_named; by rewrite (Hq p) by (by left || done)).
    rewrite Hstep. apply triple_ret_bind.
    eapply triple_conseq; [apply IH; [done|..]; intros q Hin; [apply Hq|apply Hhit]; by right|intros v' Hv; exact Hv|].
    intros o v' (r & -> & Hv). exists r. split; [done|].
    destruct Hv as [[Hin Hv]|[Hout Hv]]; [left; split; [by right|done]|right; split; [|done]].
    intros [Heq|Hin]%elem_of_cons; [by apply Hp|done].
Qed.

(** The listing of a state, by name. *)
Definition by_names (l : list Summary) : gmap string Summary := index_by (fun c => containerName (sum_Names c)) l.

Lemma by_names_Some l v n s : describes l v -> by_names l !! n = Some s -> v !! sum_ID s = Some n.
Proof. intros Hd [Hs Hn]%index_by_elem. apply Hd. eauto. Qed.

Lemma by_names_hit l v n id : describes l v -> v !! id = Some n -> is_Some (by_names l !! n).
Proof.
  intros Hd (s & Hs & _ & Hn)%Hd. apply index_by_is_Some. rewrite <- Hn.
  apply list_elem_of_In, in_map_iff. exists s. by rewrite <- list_elem_of_In.
Qed.

Lemma ordered_elem (m : gmap string Summary) n s : (n, s) ∈ range_order m <-> m !! n = Some s.
Proof. rewrite range_perm. apply elem_of_map_to_list. Qed.

Lemma ordered_NoDup (m : gmap string Summary) : NoDup (map fst (range_order m)).
Proof.
  assert (Hp : map fst (range_order m) ≡ₚ map fst (map_to_list m)) by (apply Permutation_map, range_perm).
  rewrite Hp. apply NoDup_fst_map_to_list.
Qed.

Lemma ordered_hit (m : gmap string Summary) n : is_Some (m !! n) -> n ∈ map fst (range_order m).
Proof.
  intros [s Hs]. apply list_elem_of_In, in_map_iff. exists (n, s). split; [done|].
  apply list_elem_of_In. by apply ordered_elem.
Qed.

(** No other container is parked. *)
Context (Hsuf : forall id n, v0 !! id = Some n -> CutSuffix n oldSuffix = None).

Lemma swap_state_names v id n :
  swap_state v0 old name v -> v !! id = Some n -> n <> parked_name name -> CutSuffix n oldSuffix = None.
Proof.
  intros [| |new _|new _] Hid Hn; [by eapply Hsuf| | |]; unfold st_both, st_after, st_parked in Hid.
  - apply lookup_insert_Some in Hid as [[_ <-]|[_ Hid]]; [done|by eapply Hsuf].
  - apply lookup_insert_Some in Hid as [[_ <-]|[_ Hid]]; [done|].
    apply lookup_insert_Some in Hid as [[_ <-]|[_ Hid]]; [done|by eapply Hsuf].
  - apply lookup_insert_Some in Hid as [[_ <-]|[_ Hid]]; [done|].
    apply lookup_delete_Some in Hid as [_ Hid]. by eapply Hsuf.
Qed.

(** Which container holds the parked name, and the service's name beside it. *)
Lemma not_parked_before id : v0 !! id <> Some (parked_name name).
Proof. intros Hid%Hsuf. unfold parked_name in Hid. by rewrite CutSuffix_app in Hid. Qed.

Lemma parked_holder v id :
  swap_state v0 old name v -> v !! id = Some (parked_name name) ->
  id = old /\ (v = st_parked v0 old name \/ exists new, v0 !! new = None /\ v = st_both v0 old name new).
Proof.
  pose proof name_not_parked as Hnp.
  intros [| |new Hn|new Hn] Hid; [by apply not_parked_before in Hid| | |]; unfold st_both, st_after, st_parked in Hid.
  - apply lookup_insert_Some in Hid as [[<- _]|[_ Hid]]; [auto|by apply not_parked_before in Hid].
  - apply lookup_insert_Some in Hid as [[_ ?]|[_ Hid]]; [done|].
    apply lookup_insert_Some in Hid as [[<- _]|[_ Hid]]; [eauto|by apply not_parked_before in Hid].
  - apply lookup_insert_Some in Hid as [[_ ?]|[_ Hid]]; [done|].
    apply lookup_delete_Some in Hid as [_ Hid]. by apply not_parked_before in Hid.
Qed.

Lemma state_settled v :
  swap_state v0 old name v -> (forall id, v !! id <> Some (parked_name name)) -> settled_names v.
Proof.
  intros [| |new Hn|new Hn] Hno; [by left| | |right; left; eauto]; exfalso.
  - apply (Hno old). unfold st_parked. apply lookup_insert_eq.
  - apply (Hno old). by apply old_in_both.
Qed.

(** The parked name found in a listing of the state. *)
Lemma hit_triple l v s :
  swap_state v0 old name v -> describes l v -> v !! "" = None -> by_names l !! parked_name name = Some s ->
  triple self (fun v' => v' = v) (reconcileOne name s (by_names l !! name)) (returns (fun _ => settled_names)).
Proof.
  intros Hst Hd Hempty Hs. pose proof (by_names_Some l v _ s Hd Hs) as Hid.
  destruct (parked_holder v _ Hst Hid) as [Hold' [->|(new & Hn & ->)]].
  - destruct (by_names l !! name) as [f|] eqn:Ef; [|by apply reconcileOne_parked].
    exfalso. apply (parked_name_free (sum_ID f)). by apply (by_names_Some l).
  - assert (Hnew : st_both v0 old name new !! new = Some name) by (unfold st_both; apply lookup_insert_eq).
    destruct (by_names_hit l _ _ _ Hd Hnew) as [f Hf]. rewrite Hf.
    pose proof (by_names_Some l _ _ f Hd Hf) as Hfid.
    assert (Hsame : sum_ID f = new).
    { unfold st_both, st_parked in Hfid. apply lookup_insert_Some in Hfid as [[<- _]|[_ Hfid]]; [done|].
      exfalso. by apply (parked_name_free (sum_ID f)). }
    eapply triple_conseq; [apply (reconcileOne_both s f new Hold' Hsame)| |intros o v' Hv; exact Hv].
    + intros ->. congruence.
    + intros v' ->. by split.
Qed.

Lemma reconcileParked_triple v :
  swap_state v0 old name v -> v !! "" = None ->
  triple self (fun v' => v' = v) reconcileParked (returns (fun r v' => r = None /\ settled_names v')).
Proof.
  intros Hst Hempty. unfold reconcileParked.
  eapply triple_bind with (R := returns (fun r v' => v' = v /\ exists l, r = Ok l /\ describes l v));
    [|by intros s v' (r & ? & _)|].
  { eapply triple_call; [apply (law_both _ _ _ (law_list true) ob_list)|].
    intros v1 r v2 _ -> [-> (l & -> & Hd)]. eexists. split; [done|]. eauto. }
  intros [l|e]; [|intros w _ (r & [= <-] & _ & l & ? & _); done].
  assert (Hgo : describes l v -> triple self (fun v' => v' = v)
    (for_each (range_order (by_names l)) (reconcile_named (by_names l)) ≫= fun _ => mret (None : option error))
    (returns (fun r v' => r = None /\ settled_names v')));
    [intros Hd|intros w Hw (r & [= <-] & Hv & l' & [= <-] & Hd); by apply (Hgo Hd w Hw)].
  eapply triple_bind; [apply (recover_loop (by_names l) (range_order (by_names l)) v)|by intros s v' (r & ? & _)|].
  - apply ordered_NoDup.
  - intros [n s] Hin%ordered_elem Hn. simpl in *. eapply (swap_state_names v); [done| |done]. by apply (by_names_Some l).
  - intros [n s] Hin%ordered_elem Hn. simpl in *. subst n. by apply (hit_triple l v).
  - intros r. apply triple_ret. intros v' (r' & _ & Hv). exists None. split; [done|]. split; [done|].
    destruct Hv as [[_ Hv]|[Hout ->]]; [done|]. apply state_settled; [done|]. intros id Hid. apply Hout, ordered_hit.
    by apply (by_names_hit l v _ id).
Qed.
End Recovery.

(** ** An update interrupted anywhere *)
Section Interrupted.
Context {E : Type} `{!Env E} `{!DockerCodecs} `{!MapOrder} `{!MapOrderOk} `{!Daemon E} `{!Lawful E} `{!Obliging E} `{!ClockOk E}.

(** The process that makes [k] more calls in [w] and is then killed. *)
Definition killed_after (k : nat) (w : World E) : World (Crashing E) :=
  mkWorld {| c_env := w_env w; c_left := k |} (w_db w) (w_mgr w) (w_trace w).

(** C1. An update killed after any number of calls to the daemon, followed by
    the recovery of the next start, leaves the same containers under the same
    names as before the update, or the replacement under the service name and
    the old one gone. Only when the old container is the one Veery itself runs
    in, which recovery must not remove, may it be left parked beside its
    replacement. The daemon may fail any call of the update; in recovery it is
    up. Veery's own id has the twelve characters that are logged of it. Which
    containers run is not part of this. *)
Theorem interrupted_swap_recovers (k : nat) (emit : string -> string -> M (Crashing E) unit)
    mc snap ref oldInsp newImageID me self (w w' : World E) :
  let v0 := view (w_env w) in
  let old := in_ID oldInsp in
  let name := mc_ContainerName mc in
  (forall p s, still me (emit p s)) ->
  daemon_ok (w_env w) -> m_selfID (w_mgr w) = Some me ->
  sn_Name snap = name -> v0 !! old = Some name -> v0 !! parked_name name = None ->
  (forall id n, v0 !! id = Some n -> CutSuffix n oldSuffix = None) ->
  w_env w' = c_env (w_env (swap emit mc snap ref oldInsp newImageID (killed_after k w)).1) ->
  m_selfID (w_mgr w') = Some self -> (self = old -> (12 <= String.length old)%nat) ->
  (reconcileParked w').2 = Ret None
  /\ let v := view (w_env (reconcileParked w').1) in
     v = v0 \/ (exists new, v0 !! new = None /\ v = <[new := name]> (delete old v0))
     \/ (self = old /\ exists new, v0 !! new = None /\ v = <[new := name]> (<[old := parked_name name]> v0)).
Proof.
  intros v0 old name Hemit Hok Hme Hsn Hold Hid Hsuf Henv Hself Hne.
  assert (Hfree : free v0 (parked_name name)).
  { intros id Hn%Hsuf. unfold parked_name in Hn. by rewrite CutSuffix_app in Hn. }
  destruct (swap_triple v0 old name Hold Hfree Hid (mine:=fun _ => True) Logic.I Logic.I me emit Hemit mc snap ref oldInsp newImageID
              eq_refl eq_refl Hsn (killed_after k w) (conj Hok Hme) eq_refl) as [[Hok1 _] Hst].
  assert (Hok' : daemon_ok (w_env w')) by (rewrite Henv; exact Hok1).
  change (swap_state v0 old name (view (c_env (w_env (swap emit mc snap ref oldInsp newImageID (killed_after k w)).1)))) in Hst.
  rewrite <- Henv in Hst.
  destruct (reconcileParked_triple v0 old name Hold (law_unique (w_env w) Hok) (Hsuf old name Hold) self Hne Hsuf (view (w_env w')) Hst
              (law_ids (w_env w') Hok') w' (conj Hok' Hself) eq_refl) as [_ (r & -> & -> & Hv)].
  by split.
Qed.
End Interrupted.

(** ** A daemon that only has names *)
Record Toy := { t_names : Names; t_clock : Z }.

Definition t_set (v : Names) (e : Toy) : Toy := {| t_names := v; t_clock := t_clock e |}.

Definition t_holders (v : Names) (name : string) : list (string * string) :=
  List.filter (fun p => String.eqb p.2 name) (map_to_list v).

Definition t_resolve (v : Names) (ref : string) : option string :=
  match v !! ref with
  | Some _ => Some ref
  | None => match t_holders v ref with p :: _ => Some p.1 | [] => None end
  end.

Definition t_free (v : Names) (name : string) : bool := match t_holders v name with [] => true | _ => false end.

Lemma t_holders_elem v name id n : (id, n) ∈ t_holders v name <-> v !! id = Some name /\ n = name.
Proof.
  unfold t_holders. rewrite list_elem_of_In, filter_In, <- list_elem_of_In, elem_of_map_to_list. simpl.
  rewrite String.eqb_eq. naive_solver.
Qed.

Lemma t_free_iff v name : t_free v name = true <-> free v name.
Proof.
  unfold t_free. split.
  - destruct (t_holders v name) eqn:Eh; [|done]. intros _ id Hid.
    assert (Hin : (id, name) ∈ t_holders v name) by by apply t_holders_elem. rewrite Eh in Hin. by apply elem_of_nil in Hin.
  - intros Hf. destruct (t_holders v name) as [|[id n] l] eqn:Eh; [done|]. exfalso. apply (Hf id).
    apply (t_holders_elem v name id n). rewrite Eh. left.
Qed.

Lemma t_resolve_Some v ref id : t_resolve v ref = Some id -> resolves v ref id /\ is_Some (v !! id).
Proof.
  unfold t_resolve, resolves. destruct (v !! ref) eqn:Er.
  - intros [= <-]. rewrite Er. destruct (decide _) as [|Hno]; [eauto|]. exfalso. apply Hno. eauto.
  - destruct (t_holders v ref) as [|[i n] l] eqn:Eh; [done|]. intros [= <-]. simpl.
    assert (Hin : (i, n) ∈ t_holders v ref) by (rewrite Eh; left). apply t_holders_elem in Hin as [Hi _].
    split; [done|eauto].
Qed.

Definition t_inspect (ref : string) (e : Toy) : result InspectResponse :=
  match t_resolve (t_names e) ref with
  | None => Fail errSim
  | Some id =>
      Ok {| in_ID := id; in_Name := "/" +:+ default "" (t_names e !! id); in_Image := ""; in_State := Some up;
            in_Config := None; in_HostConfig := None; in_Networks := None; in_RestartCount := 0 |}
  end.

Definition t_summary (p : string * string) : Summary :=
  {| sum_ID := p.1; sum_Names := ["/" +:+ p.2]; sum_Image := ""; sum_State := "running"; sum_Status := "Up";
     sum_Labels := ∅; sum_Created := 0 |}.

(** Strings that are no ids. *)
Definition t_reserved : gset string := {[""; "web"; "web__veery_old"; "db"; "db__veery_old"]}.

Definition no_ids (v : Names) : Prop := forall n, n ∈ t_reserved -> v !! n = None.

Definition t_fresh (v : Names) : string := fresh (t_reserved ∪ dom v).

#[export] Instance toy_env : Env Toy := {|
  cli_ContainerList all e := (e, Ok (map t_summary (map_to_list (t_names e))));
  cli_ContainerInspect ref e := (e, t_inspect ref e);
  cli_ContainerCreate cfg hc net name e :=
    if t_free (t_names e) name then (t_set (<[t_fresh (t_names e) := name]> (t_names e)) e, Ok (t_fresh (t_names e)))
    else (e, Fail errSim);
  cli_ContainerStart ref e := (e, None);
  cli_ContainerStop ref e := (e, None);
  cli_ContainerRestart ref e := (e, None);
  cli_ContainerWait ref e := (e, WaitDone);
  cli_ContainerRename ref name e :=
    match t_resolve (t_names e) ref with
    | Some id => if t_free (t_names e) name then (t_set (<[id := name]> (t_names e)) e, None) else (e, Some errSim)
    | None => (e, Some errSim)
    end;
  cli_ContainerRemove ref e :=
    match t_resolve (t_names e) ref with
    | Some id => (t_set (delete id (t_names e)) e, None)
    | None => (e, Some errSim)
    end;
  cli_NetworkConnect net id ep e := (e, None);
  cli_ImagePull ref e := (e, Ok {| ps_events := []; ps_end := None |});
  cli_ImageInspect ref e := (e, Fail errSim);
  cli_ImageRemove ref e := (e, None);
  cli_DistributionInspect ref e := (e, Fail errSim);
  time_Now e := (e, t_clock e);
  select_1s e := ({| t_names := t_names e; t_clock := t_clock e + second |}, None);
  ctx_Err e := (e, None);
  rand_ID e := (e, "id");
  os_Getenv _ e := (e, "");
  proc_lines _ e := (e, None);
  os_Hostname e := (e, Fail errSim);
  sql_fault e := (e, None)
|}.

#[export] Instance toy_daemon : Daemon Toy :=
  {| view := t_names; daemon_ok e := unique (t_names e) /\ no_ids (t_names e) |}.

Lemma unique_insert v id name : unique v -> free v name -> unique (<[id := name]> v).
Proof.
  intros Hu Hf i j n Hi Hj. apply lookup_insert_Some in Hi as [[<- <-]|[Hi Hvi]], Hj as [[<- Hn]|[Hj Hvj]]; try done.
  - by apply Hf in Hvj.
  - subst. by apply Hf in Hvi.
  - by apply (Hu i j n).
Qed.

Lemma unique_delete v id : unique v -> unique (delete id v).
Proof. intros Hu i j n [_ Hi]%lookup_delete_Some [_ Hj]%lookup_delete_Some. by apply (Hu i j n). Qed.

Lemma t_fresh_spec v : v !! t_fresh v = None /\ t_fresh v ∉ t_reserved.
Proof.
  pose proof (is_fresh (t_reserved ∪ dom v)) as Hf. fold (t_fresh v) in Hf.
  apply not_elem_of_union in Hf as [Hr Hd]. split; [by apply not_elem_of_dom|done].
Qed.

Lemma t_resolve_known v ref : is_Some (v !! ref) -> t_resolve v ref = Some ref.
Proof. intros [n Hn]. unfold t_resolve. by rewrite Hn. Qed.

Lemma no_ids_insert v id name : no_ids v -> id ∉ t_reserved -> no_ids (<[id := name]> v).
Proof. intros Hv Hid n Hn. rewrite lookup_insert_ne; [by apply Hv|]. by intros ->. Qed.

Lemma no_ids_known v id : no_ids v -> is_Some (v !! id) -> id ∉ t_reserved.
Proof. intros Hv [n Hn] Hid. rewrite (Hv id Hid) in Hn. done. Qed.

#[export] Instance toy_quiet : Quiet Toy.
Proof. constructor; [intros e Hok; apply Hok|..]; by (intros; intros e Hok; split; done). Qed.

#[export] Instance toy_lawful : Lawful Toy.
Proof.
  constructor; [intros e Hok; apply Hok; by vm_compute|..|apply _].
  - intros ref name e [Hu He]. simpl. destruct (t_resolve (t_names e) ref) as [id|] eqn:Er; [|done].
    destruct (t_free (t_names e) name) eqn:Ef; [|done]. apply t_free_iff in Ef. apply t_resolve_Some in Er as [Hr Hs].
    simpl. split; [split; [by apply unique_insert|]|eauto].
    apply no_ids_insert; [done|]. by apply (no_ids_known (t_names e)).
  - intros ref e [Hu He]. simpl. destruct (t_resolve (t_names e) ref) as [id|] eqn:Er; [|done].
    apply t_resolve_Some in Er as [Hr Hs]. simpl. split; [split; [by apply unique_delete|]|eauto].
    intros n Hn. apply lookup_delete_None. right. by apply He.
  - intros cfg hc net name e [Hu He]. simpl. destruct (t_free (t_names e) name) eqn:Ef; [|done]. apply t_free_iff in Ef.
    destruct (t_fresh_spec (t_names e)) as [Hf Hne]. simpl. split; [split; [by apply unique_insert|]|done].
    by apply no_ids_insert.
Qed.

#[export] Instance toy_obliging : Obliging Toy.
Proof.
  constructor.
  - intros e Hok. split; [done|]. eexists. split; [done|]. intros id n. simpl. split.
    + intros Hn. exists (t_summary (id, n)). split; [|done].
      apply list_elem_of_In, in_map. apply list_elem_of_In. by apply elem_of_map_to_list.
    + intros (s & Hs & <- & <-). apply list_elem_of_In, in_map_iff in Hs as ([i m] & <- & Hin).
      apply list_elem_of_In, elem_of_map_to_list in Hin. simpl. by rewrite Hin.
  - intros ref name e Hok. split; [exact (proj1 (law_rename ref name e Hok))|].
    simpl. intros His Hf. rewrite (t_resolve_known _ _ His). apply t_free_iff in Hf. by rewrite Hf.
  - intros ref e Hok. split; [exact (proj1 (law_remove ref e Hok))|].
    simpl. intros His. by rewrite (t_resolve_known _ _ His).
Qed.

#[export] Instance toy_clock : ClockOk Toy.
Proof. refine {| clock := t_clock |}; intros; simpl; try lia; done. Defined.

(** ** An interrupted update of one service *)
Definition demo_names : Names := {["c1" := "web"]}.

Definition demo_toy : World Toy :=
  mkWorld {| t_names := demo_names; t_clock := 0 |} empty_db (set_selfID (NewManager false false) (Some "veery")) [].

Definition demo_inspected : InspectResponse :=
  {| in_ID := "c1"; in_Name := "/web"; in_Image := "old"; in_State := Some up; in_Config := None; in_HostConfig := None;
     in_Networks := None; in_RestartCount := 0 |}.

Definition demo_web : ManagedContainer :=
  {| mc_ID := "m1"; mc_StackID := "s"; mc_ContainerName := "web"; mc_SnapshotJSON := ""; mc_ContainerID := "c1";
     mc_AutoUpdate := false; mc_CreatedAt := 0 |}.

Definition demo_web_snap : Snapshot :=
  {| sn_Name := "web"; sn_Image := "web:1"; sn_Project := ""; sn_Service := "";
     sn_Config := Some {| cfg_Image := "web:1"; cfg_Entrypoint := []; cfg_Cmd := []; cfg_Env := []; cfg_User := "";
                          cfg_WorkingDir := ""; cfg_Labels := ∅; cfg_Healthcheck := None; cfg_other := "" |};
     sn_HostConfig := None; sn_NetworkingConfig := Some ∅ |}.

Definition no_emit_crash (_ _ : string) : M (Crashing Toy) unit := mret tt.

(** The process is killed right after it created the replacement. *)
Definition demo_killed : World (Crashing Toy) :=
  (swap no_emit_crash demo_web demo_web_snap "web:1" demo_inspected "new" (killed_after 4 demo_toy)).1.

Definition demo_restarted : World Toy :=
  mkWorld (c_env (w_env demo_killed)) empty_db (set_selfID (NewManager false false) (Some "veery")) [].

(** At that point the old container is parked beside its replacement. *)
Example demo_killed_halfway :
  map snd (map_to_list (view (w_env demo_restarted))) = ["web__veery_old"; "web"]
  \/ map snd (map_to_list (view (w_env demo_restarted))) = ["web"; "web__veery_old"].
Proof. vm_compute. auto. Qed.

Lemma demo_names_only id n : demo_names !! id = Some n -> id = "c1" /\ n = "web".
Proof. unfold demo_names. intros [<- <-]%lookup_singleton_Some. done. Qed.

Lemma demo_no_ids : no_ids demo_names.
Proof. intros n Hn. apply lookup_singleton_None. intros <-. revert Hn. unfold t_reserved. set_solver. Qed.

Lemma interrupted_swap_recovers_witness :
  (reconcileParked demo_restarted).2 = Ret None
  /\ let v := view (w_env (reconcileParked demo_restarted).1) in
     v = demo_names \/ (exists new, demo_names !! new = None /\ v = <[new := "web"]> (delete "c1" demo_names))
     \/ ("veery" = "c1" /\ exists new, demo_names !! new = None /\ v = <[new := "web"]> (<[ "c1" := "web__veery_old"]> demo_names)).
Proof.
  refine (interrupted_swap_recovers 4 no_emit_crash demo_web demo_web_snap "web:1" demo_inspected "new" "veery" "veery"
           demo_toy demo_restarted _ _ _ _ _ _ _ _ _ _).
  - intros p s. apply still_ret.
  - split; [|exact demo_no_ids]. intros i j n [-> _]%demo_names_only [-> _]%demo_names_only. done.
  - reflexivity.
  - reflexivity.
  - reflexivity.
  - reflexivity.
  - intros id n [_ ->]%demo_names_only. reflexivity.
  - reflexivity.
  - reflexivity.
  - discriminate.
Defined.

(** Veery restarted in its own old container, which an update parked: the
    healthy replacement is kept, and the parked one with it. *)
Definition parked_self : World Toy :=
  mkWorld {| t_names := {["0123456789ab" := "web__veery_old"; "c2" := "web"]}; t_clock := 0 |} empty_db
    (set_selfID (NewManager false false) (Some "0123456789ab")) [].

Example parked_self_is_kept : view (w_env (reconcileParked parked_self).1) = view (w_env parked_self).
Proof. vm_compute. reflexivity. Qed.

(** ** What recovery does not restore

    The names come back, but not always the running state: a process killed
    between the rename and the start of [rollback] leaves the old container
    under its own name and stopped, and recovery, which looks for parked names
    only, leaves it so. *)
Definition dying : Sim :=
  {| sim_containers := [demo_live "c1" "nginx" up]; sim_images := ∅; sim_remote := ∅;
     sim_boot := {["nginx:2" := down 1]}; sim_clock := 1000 * 10 ^ 9; sim_next := 10; sim_fail := [] |}.

Definition no_emit_sim (_ _ : string) : M (Crashing Sim) unit := mret tt.

(** Veery restarted after its update of nginx was killed [k] calls in. *)
Definition restarted_after (k : nat) : World Sim :=
  let w := (swap no_emit_sim demo_checked demo_snapshot "nginx:2" (demo_live "c1" "nginx" up) "img2"
              (killed_after k (sim_world empty_db dying))).1 in
  mkWorld (c_env (w_env w)) empty_db (set_selfID (NewManager false false) (Some "veery")) [].

Definition shown (s : Sim) : list (string * bool) :=
  map (fun c => (in_Name c, match in_State c with Some st => st_Running st | None => false end)) (sim_containers s).

Example killed_in_rollback_stays_down :
  map (fun k => shown (w_env (reconcileParked (restarted_after k)).1)) (seq 0 13)
  = repeat [("/nginx", true)] 10 ++ [[("/nginx", false)]] ++ repeat [("/nginx", true)] 2.
Proof. vm_compute. reflexivity. Qed.

(** A retired container that could not be removed stays parked; if its
    replacement is stopped when Veery restarts, on purpose or not, recovery
    takes it for a failed update, removes it and brings the old one back. *)
Definition leftover : World Sim :=
  mkWorld (sim_with sim_empty [demo_live "c1" "nginx__veery_old" (down 0); demo_live "c2" "nginx" (down 0)] 10)
    empty_db (set_selfID (NewManager false false) (Some "veery")) [].

Example stopped_service_is_rolled_back :
  map (fun c => (in_ID c, in_Name c)) (sim_containers (w_env (reconcileParked leftover).1)) = [("c1", "/nginx")].
Proof. vm_compute. reflexivity. Qed.
