(* ===== verification/Concurrent.v ===== *)
(** * Updates that run side by side, and are interrupted together

    Updates of different containers run at the same time. [Shared] is the
    environment of one goroutine among others: before each of its calls the
    others have changed the daemon, in any way that leaves the containers of its
    service alone, which is what the mutex of the name is for (Locking.v). Such a
    swap still leaves its service in one of the states of Crash.v, and when the
    process is killed in the middle of any number of them, recovery settles them
    all. *)
From S2P Require Import Prelude GoStrings Api Db StoreDocker Docker World Sim StoreSettings Status Snapshot Listing Identity UpdateCheck Reconcile Swap Recover Crash.
Open Scope Z_scope.

(** ** The containers of one service *)

(** The names an update of [name] gives to containers. *)
Definition serves (name n : string) : Prop := n = name \/ n = parked_name name.

#[export] Instance serves_dec name n : Decision (serves name n).
Proof. unfold serves. apply _. Defined.

Definition part (name : string) (v : Names) : Names := filter (fun p => serves name p.2) v.

Lemma part_lookup name v id n : part name v !! id = Some n <-> v !! id = Some n /\ serves name n.
Proof. apply map_lookup_filter_Some. Qed.

Lemma part_None name v id : v !! id = None -> part name v !! id = None.
Proof. intros Hn. destruct (part name v !! id) eqn:Hp; [|done]. apply part_lookup in Hp as [? _]. congruence. Qed.

Lemma part_insert name v id n : serves name n -> part name (<[id := n]> v) = <[id := n]> (part name v).
Proof. intros Hn. unfold part. by rewrite map_filter_insert_True. Qed.

Lemma part_delete name v id : part name (delete id v) = delete id (part name v).
Proof. apply map_filter_delete. Qed.

Lemma part_ext name v v' :
  (forall id n, serves name n -> v !! id = Some n <-> v' !! id = Some n) -> part name v = part name v'.
Proof. intros Hv. apply map_eq. intros id. apply option_eq. intros n. rewrite !part_lookup. naive_solver. Qed.

Lemma part_unique name v : unique v -> unique (part name v).
Proof. intros Hu i j n [Hi _]%part_lookup [Hj _]%part_lookup. by apply (Hu i j n). Qed.

Lemma part_known name v id : is_Some (part name v !! id) -> is_Some (v !! id).
Proof. intros [n [Hn _]%part_lookup]. eauto. Qed.

(** ** One goroutine among others *)
Record Shared (E : Type) := { sh_env : E; sh_others : nat -> E -> E }.
Arguments sh_env {E}.
Arguments sh_others {E}.

(** The others act, then the call is made. *)
Definition among {E A} (op : E -> E * A) (s : Shared E) : Shared E * A :=
  let r := op (sh_others s 0%nat (sh_env s)) in
  ({| sh_env := r.1; sh_others := fun i => sh_others s (S i) |}, r.2).

#[export] Instance shared_env {E} `{!Env E} : Env (Shared E) := {|
  cli_ContainerList all := among (cli_ContainerList all);
  cli_ContainerInspect ref := among (cli_ContainerInspect ref);
  cli_ContainerCreate cfg hc net name := among (cli_ContainerCreate cfg hc net name);
  cli_ContainerStart ref := among (cli_ContainerStart ref);
  cli_ContainerStop ref := among (cli_ContainerStop ref);
  cli_ContainerRestart ref := among (cli_ContainerRestart ref);
  cli_ContainerWait ref := among (cli_ContainerWait ref);
  cli_ContainerRename ref name := among (cli_ContainerRename ref name);
  cli_ContainerRemove ref := among (cli_ContainerRemove ref);
  cli_NetworkConnect net id ep := among (cli_NetworkConnect net id ep);
  cli_ImagePull ref := among (cli_ImagePull ref);
  cli_ImageInspect ref := among (cli_ImageInspect ref);
  cli_ImageRemove ref := among (cli_ImageRemove ref);
  cli_DistributionInspect ref := among (cli_DistributionInspect ref);
  time_Now := among time_Now;
  select_1s := among select_1s;
  ctx_Err := among ctx_Err;
  rand_ID := among rand_ID;
  os_Getenv k := among (os_Getenv k);
  proc_lines p := among (proc_lines p);
  os_Hostname := among os_Hostname;
  sql_fault := among sql_fault
|}.

Section Among.
Context {E : Type} `{!Env E} `{!Daemon E} (name : string).

(** What the others do in between leaves the service alone. *)
Definition steady (f : E -> E) : Prop :=
  forall e, daemon_ok e -> daemon_ok (f e) /\ part name (view (f e)) = part name (view e).

(** The goroutine sees the containers of its service. *)
Definition service_daemon : Daemon (Shared E) :=
  {| view s := part name (view (sh_env s)); daemon_ok s := daemon_ok (sh_env s) /\ forall i, steady (sh_others s i) |}.

#[local] Existing Instance service_daemon.

(** No container's id is a name of the service. *)
Definition ids_apart : Prop := forall (e : E) n, daemon_ok e -> serves name n -> view e !! n = None.

Lemma among_law {A} (op : E -> E * A) (R R' : A -> Names -> Names -> Prop) :
  law op R ->
  (forall (e : E) r v', daemon_ok e -> R r (view e) v' -> R' r (part name (view e)) (part name v')) ->
  law (among op) R'.
Proof.
  intros Hl HR s [Hok Hs]. destruct (Hs 0%nat (sh_env s) Hok) as [Hok1 Hv1].
  destruct (Hl _ Hok1) as [Hok2 Hr]. unfold among. simpl. split; [split; [done|intros i; apply Hs]|].
  rewrite <- Hv1. by apply HR.
Qed.

Lemma among_same {A} (op : E -> E * A) : law op same -> law (among op) same.
Proof. intros Hl. eapply among_law; [exact Hl|]. by intros e r v' _ ->. Qed.

Context `{!Lawful E} (Hids : ids_apart).

#[local] Instance shared_quiet : Quiet (Shared E).
Proof.
  constructor; [intros s [Hok _]; by apply part_unique, law_unique|..]; intros;
    apply among_same;
    auto using law_list, law_inspect, law_start, law_stop, law_restart, law_wait, law_connect, law_pull, law_image,
      law_rmi, law_dist, law_now, law_wait1, law_ctx, law_rand, law_getenv, law_lines, law_host, law_sql
      with typeclass_instances.
Qed.

#[local] Instance shared_on : LawfulOn (serves name) (Shared E).
Proof using All.
  constructor; [intros ref n Hn|intros ref|intros n Hn|intros cfg hc net n Hn|apply _].
  - eapply among_law; [apply law_rename|]. intros e [err|] v' _; [by intros ->|].
    intros (id & Hr & _ & Hf & ->) Hk. apply resolves_known in Hr as ->; [|by eapply part_known].
    split; [intros i [Hi _]%part_lookup; by apply Hf in Hi|by apply part_insert].
  - eapply among_law; [apply law_remove|]. intros e [err|] v' _; [by intros ->|].
    intros (id & Hr & _ & ->) Hk. apply resolves_known in Hr as ->; [|by eapply part_known]. apply part_delete.
  - eapply among_law; [apply law_remove|]. intros e [err|] v' Hok; [by intros ->|].
    intros (id & Hr & _ & ->) _. apply resolves_named in Hr; [|by apply Hids]. exists id.
    split; [by apply part_lookup|apply part_delete].
  - eapply among_law; [apply law_create|]. intros e [id|err] v' _; [|by intros ->].
    intros (Hnew & Hf & ->). split; [by apply part_None|].
    split; [intros i [Hi _]%part_lookup; by apply Hf in Hi|by apply part_insert].
Qed.
End Among.

(** ** Where an update among others leaves its service *)
Section Midway.
Context (old name : string).

(** The containers of the service: as before, the old one parked, its
    replacement beside it, the replacement alone. *)
Inductive midway : Names -> Prop :=
| mw_before : midway {[old := name]}
| mw_parked : midway {[old := parked_name name]}
| mw_both new : new <> old -> midway (<[new := name]> {[old := parked_name name]})
| mw_after new : new <> old -> midway {[new := name]}.

Lemma swap_state_midway v : swap_state {[old := name]} old name v -> midway v.
Proof.
  intros [| |new Hn|new Hn]; unfold st_both, st_after, st_parked; try (apply lookup_singleton_None in Hn).
  - constructor.
  - rewrite insert_singleton_eq. constructor.
  - rewrite insert_singleton_eq. by constructor.
  - rewrite delete_singleton_eq, insert_empty. by constructor.
Qed.

Lemma part_single v :
  unique v -> v !! old = Some name -> (forall id, v !! id <> Some (parked_name name)) ->
  part name v = {[old := name]}.
Proof.
  intros Hu Hold Hno. apply map_eq. intros id. apply option_eq. intros n. rewrite part_lookup, lookup_singleton_Some.
  split; [|intros [<- <-]; split; [done|by left]]. intros [Hid [->| ->]]; [|by apply Hno in Hid].
  split; [by apply (Hu old id name)|done].
Qed.
End Midway.

Section SharedSwap.
Context {E : Type} `{!Env E} `{!DockerCodecs} `{!Daemon E} `{!Lawful E}.

(** The process makes [k] more calls of this goroutine and is then killed. *)
Definition among_others (others : nat -> E -> E) (k : nat) (w : World E) : World (Crashing (Shared E)) :=
  mkWorld {| c_env := {| sh_env := w_env w; sh_others := others |}; c_left := k |} (w_db w) (w_mgr w) (w_trace w).

(** The daemon it leaves. *)
Definition left_daemon (w : World (Crashing (Shared E))) : E := sh_env (c_env (w_env w)).

(** Reporting progress changes no container. *)
Definition silent_emit (name me : string) (emit : string -> string -> M (Crashing (Shared E)) unit) : Prop :=
  forall p s, still (Daemon0:=@crash_daemon _ (service_daemon name)) me (emit p s).

Lemma swap_among_others (k : nat) (others : nat -> E -> E) emit mc snap ref oldInsp newImageID me (w : World E) :
  let old := in_ID oldInsp in
  let name := mc_ContainerName mc in
  silent_emit name me emit -> ids_apart (E:=E) name -> (forall i, steady name (others i)) ->
  daemon_ok (w_env w) -> m_selfID (w_mgr w) = Some me -> sn_Name snap = name ->
  part name (view (w_env w)) = {[old := name]} ->
  midway old name
    (part name (view (left_daemon (swap emit mc snap ref oldInsp newImageID (among_others others k w)).1))).
Proof.
  intros old name Hemit Hids Hst Hok Hme Hsn Hpart. apply swap_state_midway.
  pose proof (shared_on name Hids) as Hlaw.
  assert (Hold : ({[old := name]} : Names) !! old = Some name) by apply lookup_singleton_eq.
  assert (Hne : name <> parked_name name).
  { intros Hn. unfold parked_name in Hn. apply (f_equal String.length) in Hn. rewrite str_app_length in Hn.
    cbn in Hn. lia. }
  assert (Hfree : free {[old := name]} (parked_name name)).
  { intros id Hid. apply lookup_singleton_Some in Hid as [_ ?]. done. }
  assert (Hid : ({[old := name]} : Names) !! parked_name name = None).
  { apply lookup_singleton_None. intros Ho.
    assert (Hv : view (w_env w) !! parked_name name = None) by (apply Hids; [done|by right]).
    apply part_None with (name := name) in Hv. rewrite Hpart, <- Ho, lookup_singleton_eq in Hv. done. }
  destruct (swap_triple (E:=Crashing (Shared E)) (Daemon0:=@crash_daemon _ (service_daemon name))
      {[old := name]} old name Hold Hfree Hid (mine:=serves name) (or_introl eq_refl) (or_intror eq_refl) me emit Hemit
      mc snap ref oldInsp newImageID eq_refl eq_refl Hsn (among_others others k w)) as [_ Hs]; [|exact Hpart|exact Hs].
  split; [|exact Hme]. split; [exact Hok|exact Hst].
Qed.
End SharedSwap.

(** ** Recovery from any number of interrupted updates *)

Definition plain (n : string) : Prop := CutSuffix n oldSuffix = None.

Lemma plain_parked n : ~ plain (parked_name n).
Proof. unfold plain, parked_name. by rewrite CutSuffix_app. Qed.

Lemma plain_ne n : plain n -> n <> parked_name n.
Proof. intros Hn He. rewrite He in Hn. by apply plain_parked in Hn. Qed.

Lemma parked_inj n m : parked_name n = parked_name m -> n = m.
Proof. intros He. apply (f_equal (fun s => CutSuffix s oldSuffix)) in He. unfold parked_name in He. rewrite !CutSuffix_app in He. by injection He. Qed.

Lemma serves_disjoint n m x : plain n -> plain m -> n <> m -> serves n x -> ~ serves m x.
Proof.
  intros Hn Hm Hne [->| ->] [He|He].
  - done.
  - rewrite He in Hn. by apply plain_parked in Hn.
  - rewrite <- He in Hm. by apply plain_parked in Hm.
  - by apply parked_inj in He.
Qed.

(** A service in the middle of an update, or out of one. *)
Definition interrupted (v0 v : Names) (n : string) : Prop :=
  part n v = part n v0 \/ exists old, v0 !! old = Some n /\ midway old n (part n v).

(** The service as it was, or its replacement alone. *)
Definition in_place (v0 v : Names) (n : string) : Prop :=
  part n v = part n v0 \/ exists old new, v0 !! old = Some n /\ new <> old /\ part n v = {[new := n]}.

(** [u'] differs from [u] in the containers of [m] only. *)
Definition apart_from (m : string) (u u' : Names) : Prop :=
  forall id x, ~ serves m x -> u' !! id = Some x <-> u !! id = Some x.

Section Many.
Context (v0 : Names) (Hu0 : unique v0) (Hsuf : forall id n, v0 !! id = Some n -> plain n).

Lemma part_before old n : v0 !! old = Some n -> part n v0 = {[old := n]}.
Proof. intros Ho. apply part_single; [done|done|]. intros id Hid%Hsuf. by apply plain_parked in Hid. Qed.

(** What [reconcileOne] makes of one service, given the names [b] it had before
    its update, the rest being as it is now. *)
Lemma settled_step b old m self u u' :
  v0 !! old = Some m -> part m b = {[old := m]} -> apart_from m u b -> b !! old = Some m ->
  self <> old -> settled_names b old m self u' -> apart_from m u u' /\ in_place v0 u' m.
Proof.
  intros Ho Hp Hap Hb Hself [->|[(new & Hn & ->)|(? & _)]]; [| |done].
  - split; [done|]. left. by rewrite Hp, (part_before old).
  - unfold st_after. split.
    + intros id x Hx. rewrite <- (Hap id x Hx). destruct (decide (id = new)) as [->|Hne].
      * rewrite lookup_insert_eq, Hn. split; [intros [= <-]; destruct Hx; by left|done].
      * rewrite lookup_insert_ne by done. destruct (decide (id = old)) as [->|Hno].
        -- rewrite lookup_delete_eq, Hb. split; [done|intros [= <-]; destruct Hx; by left].
        -- by rewrite lookup_delete_ne.
    + right. exists old, new. split; [done|]. split; [intros ->; congruence|].
      rewrite part_insert by (by left). rewrite part_delete, Hp, delete_singleton_eq. apply insert_empty.
Qed.

(** The loop over the names, after those of [D]. *)
Record recovering (v : Names) (D : gset string) (u : Names) : Prop := {
  rc_rest : forall n, plain n -> parked_name n ∉ D -> part n u = part n v;
  rc_done : forall n, plain n -> parked_name n ∈ D -> in_place v0 u n;
  rc_names : forall id x, u !! id = Some x -> plain x \/ exists n, plain n /\ x = parked_name n
}.

Lemma recovering_skip v D u x : plain x -> recovering v D u -> recovering v ({[x]} ∪ D) u.
Proof.
  intros Hx [Hr Hd Hn]. assert (Hne : forall n, parked_name n <> x) by (intros n <-; by apply plain_parked in Hx).
  split; [intros n Hp Hi; apply Hr; [done|set_solver]|intros n Hp Hi; apply Hd; [done|set_solver]|done].
Qed.

Lemma recovering_step v D u u' m :
  plain m -> recovering v D u -> apart_from m u u' -> in_place v0 u' m ->
  recovering v ({[parked_name m]} ∪ D) u'.
Proof.
  intros Hm [Hr Hd Hn] Hap Hin.
  assert (Hsame : forall n, plain n -> n <> m -> part n u' = part n u).
  { intros n Hp Hne. apply part_ext. intros id x Hx. apply Hap. by apply (serves_disjoint n m x). }
  split.
  - intros n Hp Hi. assert (Hne : n <> m) by set_solver. rewrite Hsame by done. apply Hr; [done|set_solver].
  - intros n Hp Hi. destruct (decide (n = m)) as [->|Hne]; [done|]. unfold in_place. rewrite Hsame by done.
    apply Hd; [done|]. assert (parked_name n <> parked_name m) by (by intros ?%parked_inj). set_solver.
  - intros id x Hx. destruct (decide (serves m x)) as [[->| ->]|Hns]; [by left|right; eauto|].
    apply (Hn id). by apply Hap.
Qed.
End Many.

Section RecoverMany.
Context (v0 : Names) (Hu0 : unique v0) (Hsuf : forall id n, v0 !! id = Some n -> plain n).
Context {E : Type} `{!Env E} `{!DockerCodecs} `{!MapOrder} `{!MapOrderOk} `{!Daemon E} `{!Lawful E} `{!Obliging E} `{!ClockOk E}.
Context (self : string).

(** One parked container: what was parked alone, and beside its replacement. *)
Lemma recover_parked m old (s : Summary) u :
  plain m -> v0 !! old = Some m -> unique u -> part m u = {[old := parked_name m]} -> sum_ID s = old -> self <> old ->
  triple self (fun v' => v' = u) (reconcileOne m s None)
    (returns (fun _ u' => apart_from m u u' /\ in_place v0 u' m)).
Proof.
  intros Hm Ho Hu Hp Hs Hne. set (b := <[old := m]> u).
  assert (Hout : forall id, u !! id <> Some m).
  { intros id Hid. assert (Hl : part m u !! id = Some m) by (apply part_lookup; split; [done|by left]).
    rewrite Hp in Hl. apply lookup_singleton_Some in Hl as [_ Hl]. by apply (plain_ne m Hm). }
  assert (Hou : u !! old = Some (parked_name m)).
  { apply (part_lookup m). rewrite Hp. apply lookup_singleton_eq. }
  assert (Hst : u = st_parked b old m).
  { unfold st_parked, b. rewrite insert_insert_eq. by rewrite insert_id. }
  assert (Hb : b !! old = Some m) by apply lookup_insert_eq.
  eapply triple_conseq; [apply (reconcileOne_parked b old m Hb (unique_insert u old m Hu Hout) Hm self s Hs)
                        |by intros v' ->|].
  intros o v' (r & -> & Hset). exists r. split; [done|].
  eapply (settled_step v0 Hu0 Hsuf b old m self); [done| | |exact Hb|exact Hne|exact Hset].
  - unfold b. rewrite part_insert by (by left). by rewrite Hp, insert_singleton_eq.
  - intros id x Hx. unfold b. destruct (decide (id = old)) as [->|Hi].
    + rewrite lookup_insert_eq, Hou. split; intros [= <-]; destruct Hx; [by left|by right].
    + by rewrite lookup_insert_ne.
Qed.

Lemma recover_both m old new (s f : Summary) u :
  plain m -> v0 !! old = Some m -> unique u -> new <> old ->
  part m u = <[new := m]> {[old := parked_name m]} -> sum_ID s = old -> sum_ID f = new -> new <> "" -> self <> old ->
  triple self (fun v' => v' = u) (reconcileOne m s (Some f))
    (returns (fun _ u' => apart_from m u u' /\ in_place v0 u' m)).
Proof.
  intros Hm Ho Hu Hno Hp Hs Hf Hemp Hne. set (b := <[old := m]> (delete new u)).
  assert (Hnew : u !! new = Some m) by (apply (part_lookup m); rewrite Hp; apply lookup_insert_eq).
  assert (Hou : u !! old = Some (parked_name m)).
  { apply (part_lookup m). rewrite Hp, lookup_insert_ne by done. apply lookup_singleton_eq. }
  assert (Hout : free (delete new u) m).
  { intros id [Hi Hid]%lookup_delete_Some. apply Hi. by apply (Hu new id m). }
  assert (Hb : b !! old = Some m) by apply lookup_insert_eq.
  assert (Hbn : b !! new = None) by (unfold b; rewrite lookup_insert_ne by done; apply lookup_delete_eq).
  assert (Hst : u = st_both b old m new).
  { unfold st_both, st_parked, b. rewrite insert_insert_eq. apply map_eq. intros id.
    destruct (decide (id = new)) as [->|Hi]; [by rewrite lookup_insert_eq|]. rewrite lookup_insert_ne by done.
    destruct (decide (id = old)) as [->|Hi']; [by rewrite lookup_insert_eq|].
    rewrite lookup_insert_ne by done. by rewrite lookup_delete_ne. }
  eapply triple_conseq;
    [apply (reconcileOne_both b old m Hb (unique_insert _ old m (unique_delete u new Hu) Hout) Hm self (fun He => False_ind _ (Hne He)) s f new Hs Hf Hemp)
    |by intros v' ->; split|].
  intros o v' (r & -> & Hset). exists r. split; [done|].
  eapply (settled_step v0 Hu0 Hsuf b old m self); [done| | |exact Hb|exact Hne|exact Hset].
  - unfold b. rewrite part_insert by (by left). rewrite part_delete, Hp, delete_insert_eq.
    rewrite delete_id; [apply insert_singleton_eq|]. by apply lookup_singleton_None.
  - intros id x Hx. unfold b. destruct (decide (id = old)) as [->|Hi].
    + rewrite lookup_insert_eq, Hou. split; intros [= <-]; destruct Hx; [by left|by right].
    + rewrite lookup_insert_ne by done. destruct (decide (id = new)) as [->|Hi'].
      * rewrite lookup_delete_eq, Hnew. split; [done|intros [= <-]; destruct Hx; by left].
      * by rewrite lookup_delete_ne.
Qed.

(** The names [v] that recovery finds and lists as [l]. *)
Context (v : Names) (l : list Summary) (Hd : describes l v) (Hempty : v !! "" = None).
Context (Hnames : forall id x, v !! id = Some x -> plain x \/ exists n, plain n /\ x = parked_name n).
Context (Hmid : forall n, plain n -> interrupted v0 v n).
Context (Hself : forall n, v !! self = Some n -> plain n).

Lemma part_has m old u : part m u !! old = Some (parked_name m) -> u !! old = Some (parked_name m).
Proof. by intros [? _]%part_lookup. Qed.

(** The parked container of [m], in a state where [m] is still as it was found. *)
Lemma recover_one m (s : Summary) u :
  plain m -> by_names l !! parked_name m = Some s -> unique u -> part m u = part m v ->
  triple self (fun v' => v' = u) (reconcileOne m s (by_names l !! m))
    (returns (fun _ u' => apart_from m u u' /\ in_place v0 u' m)).
Proof.
  intros Hm Hs Hu Hp.
  assert (Hsv : v !! sum_ID s = Some (parked_name m)) by by apply (by_names_Some l).
  assert (Hsp : part m v !! sum_ID s = Some (parked_name m)) by (apply part_lookup; split; [done|by right]).
  assert (Hnot : self <> sum_ID s).
  { intros He. rewrite <- He in Hsv. by apply Hself, plain_parked in Hsv. }
  assert (Hf : forall f, by_names l !! m = Some f -> part m v !! sum_ID f = Some m).
  { intros f Hf. apply part_lookup. split; [by apply (by_names_Some l)|by left]. }
  assert (Hhit : forall id, part m v !! id = Some m -> is_Some (by_names l !! m)).
  { intros id [Hid _]%part_lookup. by eapply (by_names_hit l v). }
  destruct (Hmid m Hm) as [Hsame|(old & Ho & Hmw)].
  { exfalso. rewrite Hsame in Hsp. apply part_lookup in Hsp as [Hsp _]. by apply Hsuf, plain_parked in Hsp. }
  rewrite <- Hp in Hsp, Hf, Hhit. rewrite <- Hp in Hmw. remember (part m u) as q eqn:Hq. destruct Hmw as [| |new Hno|new Hno].
  - exfalso. apply lookup_singleton_Some in Hsp as [_ He]. by apply (plain_ne m Hm).
  - apply lookup_singleton_Some in Hsp as [He _]. destruct (by_names l !! m) as [f|].
    + exfalso. specialize (Hf f eq_refl). apply lookup_singleton_Some in Hf as [_ Hf]. by apply (plain_ne m Hm).
    + rewrite He in *. by apply (recover_parked m (sum_ID s)).
  - destruct (Hhit new) as [f Hfm]; [apply lookup_insert_eq|]. rewrite Hfm. specialize (Hf f Hfm).
    assert (He : sum_ID s = old).
    { apply lookup_insert_Some in Hsp as [[_ He]|[_ Hsp]]; [by destruct (plain_ne m Hm)|].
      by apply lookup_singleton_Some in Hsp as [-> _]. }
    assert (Hfn : sum_ID f = new).
    { apply lookup_insert_Some in Hf as [[<- _]|[_ Hf]]; [done|].
      apply lookup_singleton_Some in Hf as [_ Hf]. by destruct (plain_ne m Hm). }
    apply (recover_both m old new); try done.
    + intros ->. assert (Hv : part m v !! "" = Some m) by (rewrite <- Hp; apply lookup_insert_eq).
      apply part_lookup in Hv as [Hv _]. congruence.
    + congruence.
  - exfalso. apply lookup_singleton_Some in Hsp as [_ He]. by apply (plain_ne m Hm).
Qed.

Lemma recover_name p D :
  by_names l !! p.1 = Some p.2 -> p.1 ∉ D ->
  triple self (recovering v0 v D) (reconcile_named (by_names l) p) (returns (fun _ => recovering v0 v ({[p.1]} ∪ D))).
Proof.
  intros Hp HD w Hw Hrc. unfold reconcile_named. destruct (CutSuffix p.1 oldSuffix) as [m|] eqn:Ec.
  2:{ split; [exact Hw|]. exists tt. split; [done|]. by apply recovering_skip. }
  apply CutSuffix_Some in Ec. fold (parked_name m) in Ec. rewrite Ec in *.
  assert (Hm : plain m).
  { destruct (Hnames (sum_ID p.2) (parked_name m)) as [Hx|(n & Hn & He)]; [by apply (by_names_Some l)| |].
    - by apply plain_parked in Hx.
    - by apply parked_inj in He as ->. }
  assert (Hu : unique (view (w_env w))) by (apply law_unique, Hw).
  assert (Ht : triple self (fun v' => v' = view (w_env w)) (reconcileOne m p.2 (by_names l !! m) ≫= fun _ => mret tt)
    (returns (fun _ u' => apart_from m (view (w_env w)) u' /\ in_place v0 u' m))).
  { eapply triple_bind; [apply (recover_one m p.2 (view (w_env w))); [done|done|done|]|by intros s u (r & ? & _)|].
    - by apply (rc_rest _ _ _ _ Hrc).
    - intros r. apply triple_ret. intros u (_ & _ & Hu'). by exists tt. }
  destruct (Ht w Hw eq_refl) as [Hw' (r & Hr & Ha & Hin)]. split; [exact Hw'|]. exists r. split; [exact Hr|].
  by eapply recovering_step.
Qed.

Lemma recover_names ps D :
  NoDup (map fst ps) -> (forall p, p ∈ ps -> by_names l !! p.1 = Some p.2 /\ p.1 ∉ D) ->
  triple self (recovering v0 v D) (for_each ps (reconcile_named (by_names l)))
    (returns (fun _ => recovering v0 v (list_to_set (map fst ps) ∪ D))).
Proof.
  revert D. induction ps as [|p ps IH]; intros D Hnd Hps; cbn [for_each map list_to_set].
  { apply triple_ret. intros u Hu. exists tt. split; [done|]. by rewrite union_empty_l_L. }
  cbn [map] in Hnd. apply NoDup_cons in Hnd as [Hnew Hnd]. destruct (Hps p) as [Hp HD]; [by left|].
  eapply triple_bind; [by apply recover_name|by intros s u (r & ? & _)|]. intros [].
  eapply triple_conseq; [apply (IH ({[p.1]} ∪ D)); [done|]|by intros u (r & _ & Hu)|].
  - intros q Hq. split; [apply Hps; by right|]. intros [He%elem_of_singleton|Hin]%elem_of_union.
    + apply Hnew. rewrite <- He. apply list_elem_of_In, in_map. by apply list_elem_of_In.
    + destruct (Hps q) as [_ Hn]; [by right|]. done.
  - intros o u (r & -> & Hu). exists r. split; [done|].
    by rewrite (union_comm_L {[p.1]} (list_to_set _)), <- union_assoc_L.
Qed.
End RecoverMany.

Section Theorems.
Context {E : Type} `{!Env E} `{!DockerCodecs} `{!MapOrder} `{!MapOrderOk} `{!Daemon E} `{!Lawful E} `{!Obliging E} `{!ClockOk E}.

(** Every container carries the name of a service, or that of a parked one. *)
Definition service_names (v : Names) : Prop :=
  forall id x, v !! id = Some x -> plain x \/ exists n, plain n /\ x = parked_name n.

Lemma reconcileParked_settles_all v0 self (w : World E) :
  let v := view (w_env w) in
  sane self w -> unique v0 -> (forall id n, v0 !! id = Some n -> plain n) ->
  service_names v -> (forall n, plain n -> interrupted v0 v n) -> (forall n, v !! self = Some n -> plain n) ->
  (reconcileParked w).2 = Ret None
  /\ forall n, plain n -> in_place v0 (view (w_env (reconcileParked w).1)) n.
Proof.
  intros v Hw Hu0 Hsuf Hnames Hmid Hself. destruct Hw as [Hok Hs].
  destruct (law_both _ _ _ (law_list true) ob_list (w_env w) Hok) as [Hok1 [Hsame (l & Hl & Hd)]].
  assert (Hrun : ContainerList true w = (log (set_env w (cli_ContainerList true (w_env w)).1) [], Ret (Ok l))).
  { unfold ContainerList, call. by rewrite Hl. }
  unfold reconcileParked. rewrite (bind_run _ _ _ _ _ Hrun). cbv zeta. fold (by_names l). rewrite log_nil.
  set (w1 := set_env w _).
  assert (Hv1 : view (w_env w1) = v) by exact Hsame.
  assert (Hsane : sane self w1) by (split; [exact Hok1|exact Hs]).
  destruct (recover_names v0 Hu0 Hsuf self v l Hd (law_ids (w_env w) Hok) Hnames Hmid Hself
              (range_order (by_names l)) ∅ (ordered_NoDup _)) with (w := w1) as [Hw' (r & Hr & Hrc)].
  - intros [n s] Hin%ordered_elem. split; [done|]. apply not_elem_of_empty.
  - exact Hsane.
  - rewrite Hv1. split; [done|intros n _ Hi; by apply not_elem_of_empty in Hi|exact Hnames].
  - destruct (for_each _ _ w1) as [w2 o] eqn:Ef. simpl in Hr, Hrc. subst o.
    rewrite (bind_run _ _ _ _ _ Ef). split; [done|]. intros n Hn.
    change (in_place v0 (view (w_env w2)) n). rewrite union_empty_r_L in Hrc.
    destruct (decide (parked_name n ∈ (list_to_set (map fst (range_order (by_names l))) : gset string))) as [Hi|Hi].
    { by apply (rc_done _ _ _ _ Hrc). }
    assert (Hno : forall id, v !! id <> Some (parked_name n)).
    { intros id Hid. apply Hi, elem_of_list_to_set, ordered_hit. by apply (by_names_hit l v _ id). }
    unfold in_place. rewrite (rc_rest _ _ _ _ Hrc n Hn Hi). destruct (Hmid n Hn) as [Hp|(old & Ho & Hmw)]; [by left|].
    remember (part n v) as q eqn:Hq.
    assert (Hq' : forall id, q !! id <> Some (parked_name n)).
    { intros id Hid. rewrite Hq in Hid. apply part_lookup in Hid as [Hid _]. by apply (Hno id). }
    destruct Hmw as [| |new Hne|new Hne].
    + left. by rewrite (part_before v0 Hu0 Hsuf old).
    + exfalso. apply (Hq' old), lookup_singleton_eq.
    + exfalso. apply (Hq' old). rewrite lookup_insert_ne by done. apply lookup_singleton_eq.
    + right. eauto.
Qed.

(** The service [n] of the daemon [e] as one goroutine left it: it was the
    container [old] when its update began in [w], among others who leave it
    alone, and nothing has happened to it since the goroutine's last call. *)
Inductive left_by (v0 : Names) (n : string) (e : E) : Prop :=
| lb_untouched : part n (view e) = part n v0 -> left_by v0 n e
| lb_update k others emit mc snap ref oldInsp newImageID me (w : World E) :
    mc_ContainerName mc = n -> sn_Name snap = n -> v0 !! in_ID oldInsp = Some n ->
    part n (view (w_env w)) = part n v0 -> daemon_ok (w_env w) -> m_selfID (w_mgr w) = Some me ->
    (forall i, steady n (others i)) -> ids_apart (E:=E) n -> silent_emit n me emit ->
    part n (view e)
      = part n (view (left_daemon (swap emit mc snap ref oldInsp newImageID (among_others others k w)).1)) ->
    left_by v0 n e.

(** C2. Updates of different services that run side by side, each killed after
    any number of its calls, and then the recovery of the next start: every
    service ends with the container it had, or with its replacement alone, and
    no container is left parked, provided the Veery that recovers does not
    itself run in a parked one. Each update may see the others change the daemon
    between any two of its calls, as long as they leave the containers of its
    service alone. *)
Theorem interrupted_updates_recover (v0 : Names) self (w : World E) :
  unique v0 -> (forall id n, v0 !! id = Some n -> plain n) ->
  daemon_ok (w_env w) -> m_selfID (w_mgr w) = Some self ->
  (forall n, view (w_env w) !! self = Some n -> plain n) -> service_names (view (w_env w)) ->
  (forall n, plain n -> left_by v0 n (w_env w)) ->
  (reconcileParked w).2 = Ret None
  /\ forall n, plain n ->
       part n (view (w_env (reconcileParked w).1)) = part n v0
       \/ exists old new, v0 !! old = Some n /\ new <> old
            /\ part n (view (w_env (reconcileParked w).1)) = {[new := n]}.
Proof.
  intros Hu0 Hsuf Hok Hs Hself Hnames Hleft. apply (reconcileParked_settles_all v0 self); try done.
  intros n Hn. destruct (Hleft n Hn) as [Hp|k others emit mc snap ref oldInsp img me w0 Hmc Hsn Ho Hp Hok0 Hme Hst Hids Hem He];
    [by left|right]. exists (in_ID oldInsp). split; [done|]. rewrite He. rewrite <- Hmc in *.
  apply (swap_among_others k others emit mc snap ref oldInsp img me w0 Hem Hids Hst Hok0 Hme Hsn).
  rewrite Hp. by apply part_before.
Qed.
End Theorems.

(** ** Two updates killed together *)
Definition two_names : Names := {["c1" := "web"; "c2" := "db"]}.

Definition two_toy : World Toy :=
  mkWorld {| t_names := two_names; t_clock := 0 |} empty_db (set_selfID (NewManager false false) (Some "veery")) [].

(** Another goroutine renames a container that is not of the service [name]. *)
Definition rename_other (name id new : string) (e : Toy) : Toy :=
  match t_names e !! id with
  | Some n => if decide (serves name n) then e else (cli_ContainerRename id new e).1
  | None => e
  end.

Lemma rename_other_steady name id new : ~ serves name new -> steady name (rename_other name id new).
Proof.
  intros Hnew e Hok. unfold rename_other. destruct (t_names e !! id) as [n|] eqn:Hn; [|done].
  destruct (decide (serves name n)) as [|Hns]; [done|].
  destruct (law_rename id new e Hok) as [Hok' Hr]. split; [exact Hok'|].
  destruct (cli_ContainerRename id new e).2 as [err|]; [by rewrite Hr|].
  destruct Hr as (i & Hi & _ & _ & ->). apply resolves_known in Hi as ->; [|by exists n].
  apply part_ext. intros j x Hx. destruct (decide (j = id)) as [->|Hj]; [|by rewrite lookup_insert_ne].
  rewrite lookup_insert_eq. cbn [view toy_daemon]. rewrite Hn. split; intros [= <-]; done.
Qed.

(** While web is updated, the other goroutine parks db before the third call. *)
Definition db_parks (i : nat) : Toy -> Toy :=
  if Nat.eqb i 2 then rename_other "web" "c2" "db__veery_old" else id.

(** While db is updated, the other goroutine parks web before the first call. *)
Definition web_parks (i : nat) : Toy -> Toy :=
  if Nat.eqb i 0 then rename_other "db" "c1" "web__veery_old" else id.

Definition no_emit_shared (_ _ : string) : M (Crashing (Shared Toy)) unit := mret tt.

Definition demo_db : ManagedContainer :=
  {| mc_ID := "m2"; mc_StackID := "s"; mc_ContainerName := "db"; mc_SnapshotJSON := ""; mc_ContainerID := "c2";
     mc_AutoUpdate := false; mc_CreatedAt := 0 |}.

Definition demo_db_snap : Snapshot :=
  {| sn_Name := "db"; sn_Image := "db:1"; sn_Project := ""; sn_Service := ""; sn_Config := sn_Config demo_web_snap;
     sn_HostConfig := None; sn_NetworkingConfig := Some ∅ |}.

Definition demo_db_inspected : InspectResponse :=
  {| in_ID := "c2"; in_Name := "/db"; in_Image := "old"; in_State := Some up; in_Config := None; in_HostConfig := None;
     in_Networks := None; in_RestartCount := 0 |}.

(** The update of web, killed after it created the replacement. *)
Definition web_run : World (Crashing (Shared Toy)) :=
  (swap no_emit_shared demo_web demo_web_snap "web:1" demo_inspected "new" (among_others db_parks 4 two_toy)).1.

(** The update of db, killed after it parked the container. *)
Definition db_run : World (Crashing (Shared Toy)) :=
  (swap no_emit_shared demo_db demo_db_snap "db:1" demo_db_inspected "new" (among_others web_parks 2 two_toy)).1.

Definition both_killed : World Toy :=
  mkWorld (left_daemon web_run) empty_db (set_selfID (NewManager false false) (Some "veery")) [].

(** web is parked beside its replacement, db is parked. *)
Example both_killed_halfway :
  view (w_env both_killed) !! "c1" = Some "web__veery_old" /\ view (w_env both_killed) !! "c2" = Some "db__veery_old"
  /\ size (view (w_env both_killed)) = 3%nat.
Proof. vm_compute. auto. Qed.

Lemma toy_ids_apart name : name ∈ t_reserved -> parked_name name ∈ t_reserved -> ids_apart (E:=Toy) name.
Proof. intros Hn Hp e n [_ Hids] [->| ->]; by apply Hids. Qed.

Lemma reserved_web : "web" ∈ t_reserved /\ parked_name "web" ∈ t_reserved.
Proof. unfold t_reserved, parked_name. split; cbn; set_solver. Qed.

Lemma reserved_db : "db" ∈ t_reserved /\ parked_name "db" ∈ t_reserved.
Proof. unfold t_reserved, parked_name. split; cbn; set_solver. Qed.

Lemma db_parks_steady i : steady "web" (db_parks i).
Proof.
  unfold db_parks. destruct (Nat.eqb i 2); [|by intros e Hok]. apply rename_other_steady. by intros [?|?].
Qed.

Lemma web_parks_steady i : steady "db" (web_parks i).
Proof.
  unfold web_parks. destruct (Nat.eqb i 0); [|by intros e Hok]. apply rename_other_steady. by intros [?|?].
Qed.

Lemma two_names_only id n : two_names !! id = Some n -> (id = "c1" /\ n = "web") \/ (id = "c2" /\ n = "db").
Proof.
  unfold two_names. intros [[<- <-]|[_ Hs]]%lookup_insert_Some; [by left|].
  apply lookup_singleton_Some in Hs as [<- <-]. by right.
Qed.

Lemma two_names_unique : unique two_names.
Proof. intros i j n [[-> ->]|[-> ->]]%two_names_only [[-> ?]|[-> ?]]%two_names_only; done. Qed.

Lemma two_names_ok : daemon_ok (w_env two_toy).
Proof.
  split; [exact two_names_unique|]. intros n Hn. cbn. unfold two_names.
  rewrite lookup_insert_ne, lookup_singleton_ne; [done|..]; intros <-; revert Hn; unfold t_reserved; set_solver.
Qed.

Lemma both_killed_names :
  view (w_env both_killed) = {["c1" := "web__veery_old"; "c2" := "db__veery_old"; "0" := "web"]}.
Proof. vm_compute. reflexivity. Qed.

Lemma both_killed_only id n :
  view (w_env both_killed) !! id = Some n ->
  (id = "c1" /\ n = "web__veery_old") \/ (id = "c2" /\ n = "db__veery_old") \/ (id = "0" /\ n = "web").
Proof.
  rewrite both_killed_names. intros [[<- <-]|[_ Hs]]%lookup_insert_Some; [by left|].
  apply lookup_insert_Some in Hs as [[<- <-]|[_ Hs]]; [by right; left|].
  apply lookup_singleton_Some in Hs as [<- <-]. by right; right.
Qed.

Lemma both_killed_ok : daemon_ok (w_env both_killed).
Proof.
  split.
  - change (unique (view (w_env both_killed))).
    intros i j n [[-> ->]|[[-> ->]|[-> ->]]]%both_killed_only [[-> ?]|[[-> ?]|[-> ?]]]%both_killed_only; done.
  - intros n Hn. change (view (w_env both_killed) !! n = None).
    destruct (view (w_env both_killed) !! n) as [x|] eqn:Hx; [|done]. exfalso. revert Hn.
    apply both_killed_only in Hx as [[-> _]|[[-> _]|[-> _]]]; unfold t_reserved; set_solver.
Qed.

Lemma both_killed_service_names : service_names (view (w_env both_killed)).
Proof.
  intros id x [[_ ->]|[[_ ->]|[_ ->]]]%both_killed_only.
  - right. exists "web". done.
  - right. exists "db". done.
  - by left.
Qed.

(** The services other than web and db have no container. *)
Lemma no_other_service n v :
  plain n -> n <> "web" -> n <> "db" ->
  (forall id x, v !! id = Some x -> serves "web" x \/ serves "db" x) -> part n v = ∅.
Proof.
  intros Hn Hw Hd Hv. apply map_empty. intros id. destruct (part n v !! id) as [x|] eqn:Hx; [|done]. exfalso.
  apply part_lookup in Hx as [Hx Hs]. destruct (Hv id x Hx) as [Ho|Ho]; revert Ho.
  - by apply (serves_disjoint n "web").
  - by apply (serves_disjoint n "db").
Qed.

Lemma both_killed_left n : plain n -> left_by two_names n (w_env both_killed).
Proof.
  intros Hn. destruct (decide (n = "web")) as [->|Hw]; [|destruct (decide (n = "db")) as [->|Hd]].
  - apply (lb_update two_names "web" (w_env both_killed) 4 db_parks no_emit_shared demo_web demo_web_snap "web:1"
             demo_inspected "new" "veery" two_toy); try reflexivity.
    + exact two_names_ok.
    + exact db_parks_steady.
    + by apply toy_ids_apart; apply reserved_web.
    + intros p s. apply still_ret.
  - apply (lb_update two_names "db" (w_env both_killed) 2 web_parks no_emit_shared demo_db demo_db_snap "db:1"
             demo_db_inspected "new" "veery" two_toy); try reflexivity.
    + exact two_names_ok.
    + exact web_parks_steady.
    + by apply toy_ids_apart; apply reserved_db.
    + intros p s. apply still_ret.
  - apply lb_untouched. trans (∅ : Names); [|symmetry]; apply (no_other_service n _ Hn Hw Hd).
    + intros id x [[_ ->]|[[_ ->]|[_ ->]]]%both_killed_only; [left; by right|right; by right|left; by left].
    + intros id x [[_ ->]|[_ ->]]%two_names_only; [left|right]; by left.
Qed.

Lemma interrupted_updates_recover_witness :
  (reconcileParked both_killed).2 = Ret None
  /\ forall n, plain n ->
       part n (view (w_env (reconcileParked both_killed).1)) = part n two_names
       \/ exists old new, two_names !! old = Some n /\ new <> old
            /\ part n (view (w_env (reconcileParked both_killed).1)) = {[new := n]}.
Proof.
  apply (interrupted_updates_recover two_names "veery" both_killed).
  - exact two_names_unique.
  - intros id n [[_ ->]|[_ ->]]%two_names_only; reflexivity.
  - exact both_killed_ok.
  - reflexivity.
  - intros n [[? _]|[[? _]|[? _]]]%both_killed_only; discriminate.
  - exact both_killed_service_names.
  - exact both_killed_left.
Defined.
