(* ===== verification/Main.v ===== *)
(** * The process (cmd/veery/main.go)

    What [main] does with its arguments and its environment, up to the loops and
    the HTTP server it leaves running. The environment variables are a function,
    since nothing in Veery sets one; the constructors of go-webauthn and of the
    Docker client, and the daemon's ping, are [Startup]. The statements of
    [store.Open] run on the file (Migrate.v), the rest on the database. *)
From S2P Require Import Prelude GoStrings Api Db Docker World Sim StoreDocker StoreAuth StoreJobs StoreEvents StoreSettings StoreMdadm.
From S2P Require Import Notify Stateful Migrate Auth Oidc Http Server Status Snapshot Notices Listing Jobs Identity.
From S2P Require Import UpdateCheck Reconcile Swap SelfUpdate Recover.
Open Scope Z_scope.

(** ** Reading the environment *)
Definition list_separator (c : ascii) : bool :=
  Ascii.eqb c "," || Ascii.eqb c " " || Ascii.eqb c "009" || Ascii.eqb c "010".

Definition splitList (v : string) : list string :=
  fold_left (fun out f => let f := TrimSpace f in if negb (String.eqb f "") then out ++ [f] else out)
    (FieldsFunc list_separator v) [].

Section Environment.
Context (getenv : string -> string).

Definition env (key def : string) : string :=
  let v := getenv key in if negb (String.eqb v "") then v else def.

Definition newOIDC (origin : string) : result (option Oidc.Manager) :=
  let issuer := TrimSpace (getenv "VEERY_OIDC_ISSUER") in
  let clientID := TrimSpace (getenv "VEERY_OIDC_CLIENT_ID") in
  if String.eqb issuer "" && String.eqb clientID "" then Ok None
  else
    let redirect := TrimSpace (getenv "VEERY_OIDC_REDIRECT_URL") in
    let redirect := if String.eqb redirect "" then trim_right (Ascii.eqb "/") origin +:+ "/auth/oidc/callback"
                    else redirect in
    match Oidc.New {| oc_Issuer := issuer; oc_ClientID := clientID;
                      oc_ClientSecret := getenv "VEERY_OIDC_CLIENT_SECRET"; oc_RedirectURL := redirect;
                      oc_Scopes := splitList (getenv "VEERY_OIDC_SCOPES");
                      oc_AdminGroups := splitList (getenv "VEERY_OIDC_ADMIN_GROUPS");
                      oc_ProviderName := TrimSpace (getenv "VEERY_OIDC_NAME") |} with
    | Ok m => Ok (Some m)
    | Fail e => Fail e
    end.
End Environment.

(** ** The flags of [apply-update]: package flag with two string flags *)
Record Flags := { fg_container : string; fg_job : string }.
Inductive FlagError := ErrHelp | ErrFlag (msg : string).

Definition set_flag (name value : string) (f : Flags) : option Flags :=
  if String.eqb name "container" then Some {| fg_container := value; fg_job := fg_job f |}
  else if String.eqb name "job" then Some {| fg_container := fg_container f; fg_job := value |}
  else None.

(** The name after the dashes, and the value after an equals sign, which is not
    the name's first character. *)
Definition split_flag (name : string) : string * option string :=
  match IndexByte (str_drop 1 name) "=" with
  | Some i => (str_take (S i) name, Some (str_drop (S (S i)) name))
  | None => (name, None)
  end.

Definition bad_name (name : string) : bool :=
  String.eqb name "" || HasPrefix name "-" || HasPrefix name "=".

Definition unknown_flag (name : string) : FlagError :=
  if String.eqb name "help" || String.eqb name "h" then ErrHelp
  else ErrFlag ("flag provided but not defined: -" +:+ name).

(** [fs.Parse] *)
Fixpoint parse_flags (args : list string) (f : Flags) : Flags + FlagError :=
  match args with
  | [] => inl f
  | s :: rest =>
      if (String.length s <? 2)%nat || negb (HasPrefix s "-") then inl f
      else if String.eqb s "--" then inl f
      else
        let name := if HasPrefix s "--" then str_drop 2 s else str_drop 1 s in
        if bad_name name then inr (ErrFlag ("bad flag syntax: " +:+ s))
        else
          let '(name, value) := split_flag name in
          match set_flag name "" f with
          | None => inr (unknown_flag name)
          | Some _ =>
              match value, rest with
              | Some v, _ => parse_flags rest (default f (set_flag name v f))
              | None, v :: rest' => parse_flags rest' (default f (set_flag name v f))
              | None, [] => inr (ErrFlag ("flag needs an argument: -" +:+ name))
              end
          end
  end.

Example flags :
  map (fun args => parse_flags args {| fg_container := ""; fg_job := "" |})
    [["--container"; "web"; "--job"; "j1"]; ["-job=j1"; "--container=web"; "x"; "-h"]; ["--container"; "--job"; "j1"];
     ["--container"; "web"; "--"; "--job"; "j1"]; ["-h"]; ["---job"; "j1"]; ["--job"]; ["--force"]]
  = [inl {| fg_container := "web"; fg_job := "j1" |}; inl {| fg_container := "web"; fg_job := "j1" |};
     inl {| fg_container := "--job"; fg_job := "" |}; inl {| fg_container := "web"; fg_job := "" |};
     inr ErrHelp; inr (ErrFlag "bad flag syntax: ---job"); inr (ErrFlag "flag needs an argument: -job");
     inr (ErrFlag "flag provided but not defined: -force")].
Proof. vm_compute. reflexivity. Qed.

(** ** The process *)
Class Startup (E : Type) := {
  wa_New : string -> string -> list string -> option error;     (* RPID, display name, origins *)
  cli_New : E -> E * option error;
  cli_Ping : E -> E * option error
}.

(** The loops that [main] starts. *)
Inductive Loop := LoopStacks | LoopMetrics | LoopAutoUpdates | LoopUpdateChecks | LoopRaid.

(** How the process ends or goes on, with the lines it logged for the user to
    act on. *)
Inductive Ending :=
| Exited (code : Z) (msg : string)
| Returned (lines : list string)
| Serving (srv : Server) (loops : list Loop) (lines : list string).

Definition fatalf (what : string) (e : error) : Ending := Exited 1 (what +:+ ": " +:+ Error e).

(** [auth.NewManager] *)
Definition auth_NewManager {E} `{!Startup E} (rpID origin : string) : option error :=
  option_map (wrapf "webauthn config: ") (wa_New rpID "Veery" [origin]).

Section Process.
Context {E : Type} `{!Env E} `{!RandEnv E} `{!Startup E} `{!DockerCodecs} `{!MapOrder}.
Context (getenv : string -> string) (args : list string).   (* os.Args[1:] *)

(** [docker.NewManager] *)
Definition docker_NewManager (pub : bool) : M E (result unit) :=
  r ← call cli_New (fun _ => []);
  match r with
  | Some err => mret (Fail err)
  | None => _ ← modify (fun _ => NewManager pub false); mret (Ok tt)
  end.

(** [SetNotifier] *)
Definition SetNotifier : M E unit :=
  modify (fun m => {| m_updateAvail := m_updateAvail m; m_availBaseline := m_availBaseline m;
                      m_lastStatus := m_lastStatus m; m_statusBaseline := m_statusBaseline m; m_locked := m_locked m;
                      m_activeJobs := m_activeJobs m; m_selfID := m_selfID m; m_pub := m_pub m; m_notif := true |}).

Definition newline : string := String "010" "".

(** [veery invite] *)
Definition invite_command (origin : string) (opts : list string) : M E Ending :=
  let isAdmin := negb (existsb (fun a => String.eqb a "--normal") opts) in
  r ← NewInvite "" "" isAdmin;
  match r with
  | Fail e => mret (fatalf "mint invite" e)
  | Ok (token, _) =>
      let kind := if isAdmin then "admin" else "normal" in
      mret (Returned [kind +:+ " enrollment link (valid 24h, single use):" +:+ newline +:+ newline +:+ "    "
                      +:+ InviteURL origin token +:+ newline])
  end.

(** [applyUpdate]; an error in the flags ends the process. *)
Definition applyUpdate (opts : list string) : M E (Ending + option error) :=
  match parse_flags opts {| fg_container := ""; fg_job := "" |} with
  | inr ErrHelp => mret (inl (Exited 0 ""))
  | inr (ErrFlag msg) => mret (inl (Exited 2 msg))
  | inl f =>
      if String.eqb (fg_container f) "" then mret (inr (Some (errorf "--container is required")))
      else
        r ← docker_NewManager false;
        match r with
        | Fail e => mret (inr (Some e))
        | Ok _ =>
            _ ← SetNotifier;
            e ← ApplyUpdate (fg_container f) (fg_job f);
            mret (inr e)
        end
  end.

Definition apply_command (opts : list string) : M E Ending :=
  r ← applyUpdate opts;
  mret match r with
       | inl ending => ending
       | inr (Some e) => fatalf "apply-update" e
       | inr None => Returned []
       end.

(** The Docker side of the server: whether it came up. *)
Definition start_docker : M E bool :=
  r ← docker_NewManager true;
  match r with
  | Fail _ => mret false
  | Ok _ =>
      _ ← SetNotifier;
      _ ← call cli_Ping (fun _ => []);
      _ ← Recover;
      _ ← Reconcile;
      mret true
  end.

Definition docker_loops : list Loop := [LoopStacks; LoopMetrics; LoopAutoUpdates; LoopUpdateChecks].

(** [veery] *)
Definition serve (origin rpID : string) : M E Ending :=
  match auth_NewManager rpID origin with
  | Some e => mret (fatalf "auth manager" e)
  | None =>
      r ← Bootstrap origin;
      match r with
      | Fail e => mret (fatalf "bootstrap" e)
      | Ok url =>
          let lines := if negb (String.eqb url "") then
            ["no users yet, enroll the first admin passkey here:" +:+ newline +:+ newline +:+ "    " +:+ url +:+ newline]
            else [] in
          match newOIDC getenv origin with
          | Fail e => mret (fatalf "oidc config" e)
          | Ok oidc =>
              let lines := lines ++ match oidc with
                                    | Some m => ["oidc: login enabled via " +:+ Issuer m]
                                    | None => []
                                    end in
              let notifier := SetBroadcaster (Notify.New getenv true) in
              dkr ← start_docker;
              mret (Serving {| srv_cfg := {| sc_RPID := rpID; sc_Origin := origin;
                                             sc_Secure := HasPrefix origin "https://" |};
                               srv_dkr := dkr;
                               srv_notif := Some notifier; srv_raid := true; srv_oidc := oidc |}
                            ((if dkr then docker_loops else []) ++ [LoopRaid]) lines)
          end
      end
  end.

(** [main] *)
Definition main : SM File E Ending :=
  let origin := env getenv "VEERY_ORIGIN" "http://localhost:8080" in
  let rpID := env getenv "VEERY_RP_ID" "localhost" in
  st ← Open migrations;
  match st with
  | Fail e => mret (fatalf "open store" e)
  | Ok _ =>
      lift match args with
           | cmd :: opts =>
               if String.eqb cmd "invite" then invite_command origin opts
               else if String.eqb cmd "apply-update" then apply_command opts
               else serve origin rpID
           | [] => serve origin rpID
           end
  end.
End Process.

(** ** Lists in the environment *)
(** A word of such a list. *)
Definition item (s : string) : bool :=
  word s && str_forall (fun c => negb (Ascii.eqb c ",")) s.

Lemma item_no_separator s : item s = true -> str_forall (fun c => negb (list_separator c)) s = true.
Proof.
  intros [[_ Hs]%andb_true_iff Hc]%andb_true_iff. induction s as [|c s IH]; [done|]. cbn [str_forall] in *.
  apply andb_true_iff in Hs as [Hs1 Hs], Hc as [Hc1 Hc]. rewrite IH, andb_true_r by done.
  unfold list_separator, is_space in *. destruct (Ascii.eqb c ","); [done|].
  destruct (Ascii.eqb_spec c " ") as [->|]; [done|]. destruct (Ascii.eqb_spec c "009") as [->|]; [done|].
  by destruct (Ascii.eqb_spec c "010") as [->|].
Qed.

Lemma FieldsFunc_skip f sep s : str_forall f sep = true -> FieldsFunc f (sep +:+ s) = FieldsFunc f s.
Proof. induction sep as [|c sep IH]; [done|]. intros [Hc Hs]%andb_true_iff. cbn. rewrite Hc. by apply IH. Qed.

Lemma FieldsFunc_Join f sep l :
  sep <> "" -> str_forall f sep = true -> Forall (fun w => w <> "" /\ str_forall (fun c => negb (f c)) w = true) l ->
  FieldsFunc f (Join l sep) = l.
Proof.
  intros Hne Hsep. induction 1 as [|x l [Hx Hf] Hl IH]; [done|]. destruct l as [|y l].
  - cbn [Join]. rewrite <- (str_app_nil_r x) at 1. by rewrite FieldsFunc_word.
  - change (Join (x :: y :: l) sep) with (x +:+ sep +:+ Join (y :: l) sep). rewrite FieldsFunc_word; [|done|done|].
    + by rewrite FieldsFunc_skip, IH.
    + destruct sep as [|c sep]; [done|]. by apply andb_true_iff in Hsep as [Hc _].
Qed.

(** A list written with any separators between its items, commas, spaces, tabs
    and newlines in any mixture, is read back as that list. *)
Theorem splitList_roundtrip sep l (Hne : sep <> "") (Hsep : str_forall list_separator sep = true)
    (Hl : Forall (fun s => item s = true) l) :
  splitList (Join l sep) = l.
Proof.
  unfold splitList. rewrite FieldsFunc_Join; [|done|done|].
  - assert (forall out, fold_left (fun out f => let f := TrimSpace f in if negb (String.eqb f "") then out ++ [f] else out) l out
      = out ++ l) as H; [|apply H].
    induction Hl as [|x l Hx Hl IH]; intros out; cbn [fold_left]; [by rewrite app_nil_r|].
    apply andb_true_iff in Hx as [[Hx Hs]%andb_true_iff _]. rewrite TrimSpace_id by done. cbv zeta. rewrite Hx, IH.
    by rewrite <- app_assoc.
  - eapply Forall_impl; [exact Hl|]. intros s Hs. split; [|by apply item_no_separator]. intros ->. by vm_compute in Hs.
Qed.

Lemma splitList_roundtrip_witness : splitList "openid, profile, groups" = ["openid"; "profile"; "groups"].
Proof.
  apply (splitList_roundtrip ", " ["openid"; "profile"; "groups"]); [done|reflexivity|]. repeat constructor.
Defined.

(** ** The configuration of the identity provider *)
(** Sign-in with a provider is off exactly if neither the issuer nor the client
    id is set; with only one of them the configuration is refused, and with both
    it is accepted as given: there is always somewhere to redirect to and
    something to ask for, and groups are asked for if admins are told by them. *)
Theorem newOIDC_spec getenv origin :
  let issuer := TrimSpace (getenv "VEERY_OIDC_ISSUER") in
  let clientID := TrimSpace (getenv "VEERY_OIDC_CLIENT_ID") in
  match newOIDC getenv origin with
  | Ok None => issuer = "" /\ clientID = ""
  | Fail _ => (issuer = "" /\ clientID <> "") \/ (issuer <> "" /\ clientID = "")
  | Ok (Some m) => issuer <> "" /\ clientID <> "" /\ Issuer m = issuer /\ oc_ClientID (om_cfg m) = clientID /\
      oc_RedirectURL (om_cfg m) <> "" /\ oc_Scopes (om_cfg m) <> [] /\
      (HasAdminGroups m = true -> "groups" ∈ oc_Scopes (om_cfg m))
  end.
Proof.
  cbv zeta. unfold newOIDC. set (issuer := TrimSpace (getenv "VEERY_OIDC_ISSUER")).
  set (clientID := TrimSpace (getenv "VEERY_OIDC_CLIENT_ID")).
  set (redirect := if String.eqb (TrimSpace (getenv "VEERY_OIDC_REDIRECT_URL")) "" then _ else _).
  assert (Hr : redirect <> "").
  { unfold redirect. destruct (String.eqb_spec (TrimSpace (getenv "VEERY_OIDC_REDIRECT_URL")) ""); [|done].
    by destruct (trim_right _ origin). }
  clearbody redirect. destruct (String.eqb_spec issuer ""), (String.eqb_spec clientID ""); cbn [andb]; [done| | |].
  all: unfold Oidc.New; cbn [oc_Issuer oc_ClientID oc_RedirectURL]; rewrite ?e; rewrite ?String.eqb_refl;
    rewrite ?(proj2 (String.eqb_neq issuer "")), ?(proj2 (String.eqb_neq clientID "")), ?(proj2 (String.eqb_neq redirect "")) by done;
    cbn [andb orb]; try (by auto).
  cbn [om_cfg oc_ClientID oc_RedirectURL oc_Scopes oc_AdminGroups]. unfold Issuer, HasAdminGroups. cbn [om_cfg oc_Issuer om_adminGroups].
  repeat (split; [done|]). set (scopes := match splitList _ with [] => _ | s => s end).
  assert (Hs : scopes <> []) by (unfold scopes; by destruct (splitList _)). clearbody scopes.
  set (groups := fold_left _ _ _). destruct (0 <? Z.of_nat (size groups)); cbn [andb]; [|by split].
  destruct (hasScope scopes "groups") eqn:Hg; cbn [negb].
  - split; [done|]. intros _. by apply existsb_exists in Hg as (x & Hx%list_elem_of_In & <-%String.eqb_eq).
  - split; [by destruct scopes|]. intros _. set_solver.
Qed.

(** ** How the process starts *)
Section Starts.
Context {E : Type} `{!Env E} `{!RandEnv E} `{!Startup E} `{!DockerCodecs} `{!MapOrder}.
Context (getenv : string -> string).

Lemma wp_any {A} (m : M E A) (Q : outcome A -> World E -> Prop) w : (forall o w', Q o w') -> wp m Q w.
Proof. intros HQ. apply HQ. Qed.

(** Nothing happened that the daemon, a client or a user could notice. *)
Definition untouched (w w' : World E) : Prop := w_trace w' = w_trace w /\ w_mgr w' = w_mgr w.

Definition start_ok (w : World E) (o : outcome Ending) (w' : World E) : Prop :=
  match o with
  | Ret (Exited code msg) => code = 1 /\ untouched w w'
  | Ret (Returned lines) => untouched w w'
  | Ret (Serving srv loops lines) =>
      newOIDC getenv (env getenv "VEERY_ORIGIN" "http://localhost:8080") = Ok (srv_oidc srv) /\
      loops = (if srv_dkr srv then docker_loops else []) ++ [LoopRaid]
  | Panic _ => True
  end.

Lemma wp_NewInvite_quiet admin (Q : outcome (result (string * Z)) -> World E -> Prop) w :
  (forall r w', untouched w w' -> Q (Ret r) w') -> wp (NewInvite "" "" admin) Q w.
Proof.
  intros HQ. unfold NewInvite, randToken, Now, unixNow, Now.
  apply wp_bind, wp_call. intros e1 token _. apply wp_bind, wp_call. intros e2 now _.
  apply wp_bind, wp_bind, wp_call. intros e3 now2 _. apply wp_ret. rewrite !log_nil.
  apply wp_bind, wp_sql; intros e *; [by apply wp_ret, HQ|]. destruct (CreateInvite _ _ _ _ _ _ _).2; by apply wp_ret, HQ.
Qed.

Lemma wp_Bootstrap_quiet origin (Q : outcome (result string) -> World E -> Prop) w :
  (forall r w', untouched w w' -> Q (Ret r) w') -> wp (Bootstrap origin) Q w.
Proof.
  intros HQ. unfold Bootstrap. apply wp_bind, wp_sql; intros e *; [by apply wp_ret, HQ|]. cbn [CountUsers fst snd].
  destruct (0 <? _); [by apply wp_ret, HQ|]. apply wp_bind, wp_NewInvite_quiet.
  intros [t|err] w' Hw; apply wp_ret, HQ; exact Hw.
Qed.

Lemma serve_start_ok rpID w :
  wp (serve getenv (env getenv "VEERY_ORIGIN" "http://localhost:8080") rpID) (start_ok w) w.
Proof.
  set (origin := env getenv _ _). unfold serve. destruct (auth_NewManager rpID origin); [by apply wp_ret|].
  apply wp_bind, wp_Bootstrap_quiet. intros [url|err] w' Hw; [|by apply wp_ret].
  destruct (newOIDC getenv origin) as [oidc|err] eqn:Ho; [|by apply wp_ret].
  apply wp_bind, wp_any. intros [dkr|msg] w2; [|done]. by apply wp_ret.
Qed.

(** C20. A start that fails has touched nothing: whether the store, the passkey
    configuration, the first invite or the identity provider's configuration is
    at fault, no container was acted on, no client notified and the process
    exits with an error; so a mistake in the provider's configuration is never
    served without it. A process that serves always watches the arrays, and the
    services exactly if the server it serves has Docker. *)
Theorem failed_start_touches_nothing args f (w : World E) (Hargs : hd "" args <> "apply-update") :
  wp (main getenv args f) (fun o w' => start_ok w (match o with Ret p => Ret p.2 | Panic msg => Panic msg end) w') w.
Proof.
  unfold main. apply wp_sbind, wp_Open_quiet. intros e [[f' [[]|err]]|msg]; cbn [fst snd]; [|by apply wp_sret|done].
  apply wp_lift. match goal with |- wp ?m _ _ => assert (wp m (start_ok w) (set_env w e)) as Hm end.
  2: { eapply wp_mono; [exact Hm|]. by intros [a|msg] w'. }
  destruct args as [|cmd opts]; [apply (serve_start_ok _ (set_env w e))|]. cbn [hd] in Hargs.
  destruct (String.eqb cmd "invite").
  - unfold invite_command. apply wp_bind, wp_NewInvite_quiet. intros [[token exp]|err] w' Hw; by apply wp_ret.
  - rewrite (proj2 (String.eqb_neq cmd "apply-update")) by done. apply (serve_start_ok _ (set_env w e)).
Qed.

Lemma wp_reopen k f (w : World E) :
  no_faults (E:=E) -> left_by k f ->
  wp (Open migrations f) (fun o w' => o = Ret (current, Ok tt) /\ exists e, w' = set_env w e) w.
Proof.
  intros Hn Hf. split; [exact (wp_upgrade k f w Hn Hf)|].
  apply (wp_Open_quiet migrations f (fun _ w' => exists e, w' = set_env w e)). by eexists.
Qed.

Lemma query_fresh token admin exp created d :
  token ∉ map iv_Token (db_invites d) ->
  (GetInvite token (set_invites d (db_invites d ++ [fresh_invite token admin exp created]))).2
    = Ok (fresh_invite token admin exp created).
Proof.
  intros Hn. unfold GetInvite, query_row, set_invites, set_accounts. cbn [snd db_invites].
  induction (db_invites d) as [|x l IH]; cbn [app List.find].
  - assert (invite_token token (fresh_invite token admin exp created) = true) as -> by apply String.eqb_refl. done.
  - cbn [map] in Hn. apply not_elem_of_cons in Hn as [Hx Hl].
    assert (invite_token token x = false) as -> by (apply String.eqb_neq; congruence). by apply IH.
Qed.

(** C22. Whoever can run a command on the host can get back in: on a database of
    this or any earlier release, [veery invite] prints a link to an invite that
    is open for a day from the reading of the clock the command made, for an
    admin unless [--normal] was given, and changes nothing else; it fails only
    if the token it drew was drawn before, and then nothing has changed. *)
Theorem invite_restores_access k f opts (w : World E) (Hn : no_faults (E:=E)) (Hf : left_by k f) :
  let admin := negb (existsb (fun a => String.eqb a "--normal") opts) in
  let origin := env getenv "VEERY_ORIGIN" "http://localhost:8080" in
  let opened := (Open migrations f w).1 in
  let token := drawn opened in
  wp (main getenv ("invite" :: opts) f) (fun o w' => untouched w w' /\
    ((token ∈ map iv_Token (db_invites (w_db w)) /\ (exists msg, o = Ret (current, Exited 1 msg)) /\ w_db w' = w_db w) \/
     token ∉ map iv_Token (db_invites (w_db w)) /\ exists created,
       let i := fresh_invite token admin (minted_at opened + InviteTTL) created in
       o = Ret (current, Returned [(if admin then "admin" else "normal") +:+
              " enrollment link (valid 24h, single use):" +:+ newline +:+ newline +:+ "    " +:+
              InviteURL origin token +:+ newline]) /\
       w_db w' = set_invites (w_db w) (db_invites (w_db w) ++ [i]) /\
       forall now, (GetInvite token (w_db w')).2 = Ok i /\
         (pending now i = true <-> now < minted_at opened / second + 86400))) w.
Proof.
  intros admin origin opened token. unfold main. apply wp_sbind.
  assert (Hopen : wp (Open migrations f) (fun o w' => o = Ret (current, Ok tt) /\ w' = opened /\ exists e, w' = set_env w e) w).
  { destruct (wp_reopen k f w Hn Hf) as [Ho He]. by repeat split. }
  eapply wp_mono; [exact Hopen|]. clear Hopen. intros o w1 (-> & -> & e & He). unfold token. clear token. rewrite He.
  cbn [fst snd]. apply wp_lift. cbn [String.eqb]. change (String.eqb "invite" "invite") with true. cbv iota.
  unfold invite_command. fold admin origin. apply wp_bind, wp_NewInvite; [done| |].
  - intros e1 Hin. apply wp_ret. split; [done|]. left. split; [done|]. split; [by eexists|done].
  - intros e1 created Hin. apply wp_ret. split; [done|]. right. split; [done|]. exists created.
    split; [done|]. split; [done|]. intros now. split; [by apply query_fresh|]. unfold pending. cbn.
    rewrite Z.ltb_lt. change InviteTTL with (86400 * second). by rewrite Z.div_add.
Qed.
End Starts.

(** ** The helper of a self-update *)
(** A flag as it may be written: with one dash or two, its value after an equals
    sign or as the next argument. *)
Definition render (dashes equals : bool) (name value : string) : list string :=
  let flag := (if dashes then "--" else "-") +:+ name in
  if equals then [flag +:+ "=" +:+ value] else [flag; value].

Lemma parse_render dashes equals name value rest f :
  name = "container" \/ name = "job" ->
  parse_flags (render dashes equals name value ++ rest) f = parse_flags rest (default f (set_flag name value f)).
Proof. by intros [-> | ->]; destruct dashes, equals. Qed.

(** What [Update] starts for Veery's own container is a process that performs
    exactly that update: the command of the helper (selfupdate.go) is read back
    as the container's name and the job, whatever they are. *)
Lemma helper_runs_the_update {E} `{!Env E} `{!Startup E} `{!DockerCodecs} insp cfg jobID :
  let cmd := cfg_Cmd (helper_config insp cfg jobID) in
  let name := containerName [in_Name insp] in
  hd "" cmd = "apply-update" /\
  (name <> "" -> forall w : World E, applyUpdate (tl cmd) w =
     (r ← docker_NewManager false;
      match r with
      | Fail e => mret (inr (Some e))
      | Ok _ => _ ← SetNotifier; e ← ApplyUpdate name jobID; mret (inr e)
      end) w).
Proof.
  cbv zeta. unfold helper_config. cbn [cfg_Cmd hd tl]. set (name := containerName _). split; [done|]. intros Hne w. unfold applyUpdate.
  assert (parse_flags ["--container"; name; "--job"; jobID] {| fg_container := ""; fg_job := "" |}
    = inl {| fg_container := name; fg_job := jobID |}) as ->.
  { change ["--container"; name; "--job"; jobID] with
      (render true false "container" name ++ render true false "job" jobID ++ []).
    rewrite !parse_render by auto. reflexivity. }
  cbn [fg_container fg_job]. by rewrite (proj2 (String.eqb_neq name "")).
Qed.

(** ** Instances at concrete inputs *)
#[local] Existing Instance demo_rand.
#[local] Instance demo_startup : Startup Sim := {
  wa_New id name origins := None;
  cli_New e := (e, None);
  cli_Ping e := (e, None)
}.

Definition issuer_only (key : string) : string :=
  if String.eqb key "VEERY_OIDC_ISSUER" then "https://id.example.com" else "".

Lemma failed_start_touches_nothing_witness :
  exists w', main (E:=Sim) issuer_only [] fresh_file (sim_world empty_db sim_empty)
      = (w', Ret (current, Exited 1 "oidc config: oidc: issuer and client id must both be set"))
    /\ untouched (sim_world empty_db sim_empty) w'.
Proof.
  assert ((main (E:=Sim) issuer_only [] fresh_file (sim_world empty_db sim_empty)).2
    = Ret (current, Exited 1 "oidc config: oidc: issuer and client id must both be set")) as Hrun by (vm_compute; reflexivity).
  assert (hd "" (@nil string) <> "apply-update") as Hargs by done.
  pose proof (failed_start_touches_nothing (E:=Sim) issuer_only [] fresh_file (sim_world empty_db sim_empty) Hargs) as Hs.
  unfold wp in Hs. destruct (main _ _ _ _) as [w' o]. cbn [fst snd] in *. subst o. exists w'. split; [reflexivity|apply Hs].
Defined.

Lemma invite_restores_access_witness :
  let opened := (Open (E:=Sim) migrations fresh_file (sim_world empty_db sim_empty)).1 in
  exists created,
    db_invites (w_db (main (E:=Sim) (fun _ => "") ["invite"; "--normal"] fresh_file (sim_world empty_db sim_empty)).1)
    = [fresh_invite (drawn opened) false (minted_at opened + InviteTTL) created].
Proof.
  destruct (invite_restores_access (E:=Sim) (fun _ => "") 0 fresh_file ["--normal"] (sim_world empty_db sim_empty) sim_no_faults)
    as (_ & [(Hin & _)|(_ & created & _ & Hdb & _)]).
  - split; [cbn; lia|]. split; [reflexivity|]. by right.
  - by apply not_elem_of_nil in Hin.
  - exists created. by rewrite Hdb.
Defined.
