(* ===== verification/Shutdown.v ===== *)
(** * Serving and shutting down (src/cmd/veery/main.go)

    What [main] does once every part is started: it serves until the process is
    told to stop or the listener fails, then gives the requests in flight ten
    seconds. The HTTP server is [net/http]'s: [Shutdown] closes the listener,
    waits until no request is in flight or its context ends, and leaves
    connections that were taken over (the WebSockets) alone. *)
From S2P Require Import Prelude GoStrings Api Db Docker World Sim Main.
Open Scope Z_scope.

(** What happens to the process: a request comes in or is answered, the
    listener returns, a signal that [signal.NotifyContext] listens to arrives,
    nanoseconds pass. *)
Inductive Happening :=
| Opened (request : nat)
| Answered (request : nat)
| ListenReturned (err : error)
| Signalled
| Passed (ns : Z).

(** [Up]: [main] waits on [ctx.Done()]; [Draining]: it is in [Shutdown], whose
    context has some nanoseconds left; both with the requests in flight. *)
Inductive Life :=
| Up (inflight : gset nat)
| Draining (budget : Z) (inflight : gset nat)
| Over (ending : Ending).

Definition shutdownTimeout : Z := 10 * second.

(** [httpServer.Shutdown] returns when no request is in flight. *)
Definition drain (budget : Z) (inflight : gset nat) : Life :=
  if decide (inflight = ∅) then Over (Returned ["shutdown complete"]) else Draining budget inflight.

(** The goroutine of the listener: [log.Fatalf] unless the server was closed. *)
Definition listen_returned (err : error) (still : Life) : Life :=
  if errors_Is err ErrServerClosed then still else Over (fatalf "http server" err).

Definition live (l : Life) (h : Happening) : Life :=
  match l, h with
  | Up rs, Opened r => Up ({[r]} ∪ rs)
  | Up rs, Answered r => Up (rs ∖ {[r]})
  | Up rs, Signalled => drain shutdownTimeout rs
  | Draining budget rs, Answered r => drain budget (rs ∖ {[r]})
  | Draining budget rs, Passed ns =>
      if budget <=? ns then Over (Returned ["shutdown complete"]) else Draining (budget - ns) rs
  | (Up _ | Draining _ _), ListenReturned err => listen_returned err l
  | _, _ => l
  end.

Definition lives (l : Life) (hs : list Happening) : Life := fold_left live hs l.

(** The process after [main] has started the parts. *)
Definition started (e : Ending) : Life :=
  match e with Serving _ _ _ => Up ∅ | _ => Over e end.

(** The time that passes, and whether the process is told to end. *)
Definition passed (hs : list Happening) : Z :=
  fold_right (fun h n => match h with Passed ns => ns + n | _ => n end) 0 hs.

Definition ends (h : Happening) : bool :=
  match h with
  | Signalled => true
  | ListenReturned err => negb (errors_Is err ErrServerClosed)
  | _ => false
  end.

Lemma lives_over e hs : lives (Over e) hs = Over e.
Proof. induction hs as [|[]]; done. Qed.

Lemma lives_cons l h hs : lives l (h :: hs) = lives (live l h) hs.
Proof. done. Qed.

Lemma lives_draining budget rs hs :
  0 < budget -> Forall (fun h => match h with Passed ns => 0 <= ns | _ => True end) hs ->
  budget <= passed hs -> exists e, lives (Draining budget rs) hs = Over e.
Proof.
  revert budget rs. induction hs as [|h hs IH]; intros budget rs Hl Hf Hp; [simpl in Hp; lia|].
  apply Forall_cons in Hf as [Hh Hf]. rewrite lives_cons.
  destruct h as [r|r|err| |ns]; cbn [live passed fold_right] in *; try by apply IH.
  - unfold drain. case_decide; [rewrite lives_over; eauto|by apply IH].
  - unfold listen_returned. destruct (errors_Is _ _); [by apply IH|rewrite lives_over; eauto].
  - destruct (Z.leb_spec budget ns); [rewrite lives_over; eauto|]. apply IH; [lia|done|]. fold (passed hs) in Hp. lia.
Qed.

(** Told to stop, the process is over at the latest ten seconds later, whatever
    its clients do in the meantime. *)
Theorem shutdown_within_ten_seconds rs hs
    (Hclock : Forall (fun h => match h with Passed ns => 0 <= ns | _ => True end) hs)
    (Hlong : shutdownTimeout <= passed hs) :
  exists e, lives (Up rs) (Signalled :: hs) = Over e.
Proof.
  rewrite lives_cons. cbn [live]. unfold drain. case_decide; [rewrite lives_over; eauto|].
  by apply lives_draining.
Qed.

Lemma shutdown_within_ten_seconds_witness :
  exists e, lives (Up {[1%nat]}) [Signalled; Opened 2; Passed shutdownTimeout] = Over e.
Proof.
  apply (shutdown_within_ten_seconds {[1%nat]} [Opened 2; Passed shutdownTimeout]).
  - repeat constructor. vm_compute. discriminate.
  - vm_compute. discriminate.
Defined.

(** Until it is told to stop, or the listener fails, it serves. *)
Theorem serves_until_told rs hs (Hq : Forall (fun h => ends h = false) hs) :
  exists rs', lives (Up rs) hs = Up rs'.
Proof.
  revert rs. induction Hq as [|h hs Hh _ IH]; intros rs; [by exists rs|]. rewrite lives_cons.
  destruct h as [r|r|err| |ns]; cbn [live ends] in *; try apply IH; [|done].
  unfold listen_returned. destruct (errors_Is err ErrServerClosed); [apply IH|done].
Qed.

Lemma serves_until_told_witness : exists rs, lives (Up ∅) [Opened 1; Passed 5; Answered 1] = Up rs.
Proof. apply (serves_until_told ∅ [Opened 1; Passed 5; Answered 1]). repeat constructor. Defined.

Lemma lives_draining_answers budget rs hs :
  passed hs < budget -> Forall (fun h => match h with Passed ns => 0 <= ns | _ => True end) hs ->
  lives (Draining budget rs) hs = Over (Returned ["shutdown complete"]) ->
  forall r, r ∈ rs -> Answered r ∈ hs.
Proof.
  revert budget rs. induction hs as [|h hs IH]; intros budget rs Hp Hf Hl r Hr; [done|].
  apply Forall_cons in Hf as [Hh Hf]. rewrite lives_cons in Hl.
  destruct h as [q|q|err| |ns]; cbn [live passed fold_right] in *; try (right; by eapply IH).
  - destruct (decide (r = q)) as [->|Hne]; [by left|right]. unfold drain in Hl.
    case_decide as Hd; [set_solver|]. eapply IH; [done|done|exact Hl|set_solver].
  - right. unfold listen_returned in Hl. destruct (errors_Is _ _); [by eapply IH|].
    rewrite lives_over in Hl. discriminate.
  - right. fold (passed hs) in *. assert (0 <= passed hs).
    { clear -Hf. induction Hf as [|h hs Hh _ IHf]; [done|]. destruct h; simpl in *; try done. unfold passed in *. lia. }
    destruct (Z.leb_spec budget ns); [lia|]. eapply IH; [|done|exact Hl|done]. lia.
Qed.

(** A shutdown that is complete before its time has answered every request that
    was in flight when it began. *)
Theorem shutdown_answers_requests rs hs
    (Hclock : Forall (fun h => match h with Passed ns => 0 <= ns | _ => True end) hs)
    (Hshort : passed hs < shutdownTimeout)
    (Hover : lives (Up rs) (Signalled :: hs) = Over (Returned ["shutdown complete"])) :
  forall r, r ∈ rs -> Answered r ∈ hs.
Proof.
  rewrite lives_cons in Hover. cbn [live] in Hover. unfold drain in Hover. case_decide as Hd; [set_solver|].
  by eapply lives_draining_answers.
Qed.
