(* ===== verification/Process.v ===== *)
(** * The life of the process

    A process starts ([main]), serves requests, runs the jobs they start and the
    rounds of its loops, is killed and started again. What holds of the accounts
    at the start holds whatever happens. *)
From S2P Require Import Prelude GoStrings Regex Float64 Api Db Docker World Sim StoreDocker StoreJobs StoreAuth StoreEvents StoreSettings StoreMdadm.
From S2P Require Import Notify Stateful Migrate Auth Oidc Disks Stats Http Server Mdstat RaidWatch Status Snapshot Notices Listing Jobs.
From S2P Require Import Identity UpdateCheck Reconcile Swap SelfUpdate Pollers AuthHandlers Handlers SimHttp Routes Recover Main.
Open Scope Z_scope.

(** ** The loops leave the accounts alone *)
Section Loops.
Context {E : Type} `{!Env E} `{!RandEnv E} `{!Startup E} `{!WebAuthn E} `{!OidcLib E} `{!Shoutrrr E} `{!UrlLib} `{!Calendar}
  `{!JsonCodec (gmap string bool)} `{!JsonCodec (list NotificationTarget)} `{!JsonCodec (list string)}
  `{!DockerCodecs} `{!RaidCodecs} `{!RaidEnv E} `{!RRuleEnv} `{!Gopsutil E} `{!FilesEnv E} `{!ZoneEnv E}
  `{!DockerStats E} `{!Arch} `{!JsonCodec (gmap string DevicePeak)} `{!MapOrder}.
Context (P : DB -> Prop) `{!Routine P}.

Ltac keep_all := open_calls; repeat first [assumption | apply keep_BroadcastStacks | outside_op | preserves_step].

Lemma keep_refresh mc insp : preserves (E:=E) P (refreshIfRecreated mc insp).
Proof. unfold refreshIfRecreated, recordSpec. keep_all. Qed.

Lemma keep_Reconcile : preserves (E:=E) P Reconcile.
Proof.
  unfold Reconcile, reconcile_live, reconcile_gone, rerecord, recordSpec, adoptNew, adopted_note, forgetComposeTemp,
    remoteHasNewImage.
  keep_all.
Qed.

Lemma keep_CheckUpdates : preserves (E:=E) P CheckUpdates.
Proof. unfold CheckUpdates. by repeat first [assumption | apply keep_checkUpdates | preserves_step]. Qed.

Lemma keep_runAutoUpdates : preserves (E:=E) P runAutoUpdates.
Proof.
  unfold runAutoUpdates. apply preserves_bind; [by apply preserves_sql|]. intros [l|err]; [|apply preserves_ret].
  induction l as [|mc l IH]; cbn [auto_loop]; open_calls; repeat first [assumption | apply IH | apply keep_Update | preserves_step].
Qed.

Lemma keep_sweep_now : preserves (E:=E) P sweep_now.
Proof.
  unfold sweep_now, sweep, checkTransitions, transition_of, notifyScan, notifyHealth, notifyDisks, runSchedules, schedule_one,
    try_start, recordFailure, raid_notify, RaidWatch.start, scan, LoadMdadmBaseline, SaveMdadmBaseline, LoadMdadmLastScan,
    SaveMdadmLastScan, LoadMdadmSchedules, LoadMdadmScanFailures, SaveMdadmScanFailures, LoadMdadmLastRun, SaveMdadmLastRun,
    getJSON, loadJSON, setJSON, Now.
  keep_all.
Qed.

Lemma keep_metrics_tick : spreserves (E:=E) any_state P metrics_tick.
Proof.
  intros s w _ HP. apply (wp_metrics_tick s (fun o w' => P (w_db w') /\ _)). intros c sample e.
  apply raise_peaks_spec. intros peaks e1 d _ _ Hd. eexists. split; [done|]. intros vis arrays containers now e' _.
  split; [|done]. cbn [w_db log set_env set_db]. destruct Hd as [-> | ->]; [exact HP|].
  assert (P (w_db (set_env w e))) by exact HP. outside_op.
Qed.

(** *** Recovery *)
Lemma keep_settleJob id name : preserves (E:=E) P (settleJob id name).
Proof. unfold settleJob, forget, onSnapshotImage, finishJob, publish. keep_all. Qed.

Lemma keep_reconcileParked : preserves (E:=E) P reconcileParked.
Proof.
  unfold reconcileParked, reconcile_named, reconcileOne, SelfContainerID, resolveSelf, resolve_hostname, procContainerIDs,
    readLines, Getenv, Hostname, healthy, verifyHealthy, rollback, no_progress.
  open_calls. repeat first [assumption | apply first_known_preserves | apply verify_loop_preserves | outside_op | preserves_step].
Qed.

Lemma keep_Recover : preserves (E:=E) P Recover.
Proof.
  unfold Recover, runningUpdaters, pruneUpdaters, resumeJobs, resume_one, track, publish. open_calls.
  repeat first [assumption | apply keep_reconcileParked | apply keep_settleJob | outside_op | preserves_step].
Qed.

Lemma keep_watch_tick id name : preserves (E:=E) P (watch_tick id name).
Proof.
  unfold watch_tick, updaterFor, runningUpdaters, track, forget, publish. open_calls.
  repeat first [assumption | apply keep_settleJob | apply keep_BroadcastStacks | outside_op | preserves_step].
Qed.

(** *** Commands *)
Lemma keep_apply_emit jobID phase msg : preserves (E:=E) P (apply_emit jobID phase msg).
Proof. unfold apply_emit. keep_all. Qed.

Lemma keep_ApplyUpdate name jobID : preserves (E:=E) P (ApplyUpdate name jobID).
Proof.
  unfold ApplyUpdate, refreshIfRecreated, recordSpec, finishApply, finishJob, pullImage, drainPull. open_calls.
  repeat first [assumption | apply keep_apply_emit | apply swap_preserves; [intros; by apply routine_services|apply keep_apply_emit]
    | apply drain_loop_preserves; apply keep_apply_emit | outside_op | preserves_step].
Qed.

Lemma keep_docker_NewManager pub : preserves (E:=E) P (docker_NewManager pub).
Proof. unfold docker_NewManager. repeat preserves_step. Qed.

Lemma keep_start_docker : preserves (E:=E) P start_docker.
Proof.
  unfold start_docker, SetNotifier.
  repeat first [assumption | apply keep_docker_NewManager | apply keep_Recover | apply keep_Reconcile | preserves_step].
Qed.

Lemma keep_applyUpdate opts : preserves (E:=E) P (applyUpdate opts).
Proof.
  unfold applyUpdate, SetNotifier. repeat first [assumption | apply keep_docker_NewManager | apply keep_ApplyUpdate | preserves_step].
Qed.

(** Minting an invite is up to the client. *)
Lemma keep_main getenv args :
  (forall origin, preserves (E:=E) P (Bootstrap origin)) ->
  (hd "" args = "invite" -> forall a, preserves (E:=E) P (NewInvite "" "" a)) ->
  spreserves (E:=E) any_state P (main getenv args).
Proof.
  intros Hb Hi f w _ HP. unfold main. apply wp_sbind, wp_Open_quiet.
  intros e [[f' [[]|err]]|msg]; cbn [fst snd]; [|by split|by split].
  match goal with |- wp (lift ?m _) _ _ => assert (preserves P m) as Hm end; [|by apply (spreserves_lift (S:=File) any_state P _ Hm f' (set_env w e))].
  assert (forall o r, preserves (E:=E) P (serve getenv o r)) as Hs.
  { intros o r. unfold serve. repeat first [assumption | apply Hb | apply keep_start_docker | preserves_step]. }
  destruct args as [|cmd opts]; [apply Hs|]. destruct (String.eqb_spec cmd "invite") as [->|]; [|destruct (String.eqb cmd "apply-update"); [|apply Hs]].
  - unfold invite_command. repeat first [assumption | by apply Hi | preserves_step].
  - unfold apply_command. repeat first [assumption | apply keep_applyUpdate | preserves_step].
Qed.

(** One round of a loop. *)
Definition round (l : Loop) : SM MetricsState E unit :=
  match l with
  | LoopStacks => lift (_ ← Reconcile; BroadcastStacks)
  | LoopMetrics => metrics_tick
  | LoopAutoUpdates => lift runAutoUpdates
  | LoopUpdateChecks => lift CheckUpdates
  | LoopRaid => lift sweep_now
  end.

Lemma keep_round l : spreserves any_state P (round l).
Proof.
  destruct l; cbn [round]; try apply keep_metrics_tick; apply spreserves_lift;
    auto using keep_runAutoUpdates, keep_CheckUpdates, keep_sweep_now.
  apply preserves_bind; [apply keep_Reconcile|]. intros _. by apply keep_BroadcastStacks.
Qed.
End Loops.

Section Charge.
Context {E : Type} `{!Env E} `{!RandEnv E} `{!Startup E} `{!DockerCodecs} `{!MapOrder}.

Lemma charge_NewInvite by_ for_ a : preserves (E:=E) in_charge (NewInvite by_ for_ a).
Proof. apply keep_any_invite. intros. by apply charge_invite. Qed.

Lemma charge_main getenv args : spreserves (E:=E) any_state in_charge (main getenv args).
Proof.
  apply keep_main; [apply _| |intros; apply charge_NewInvite].
  intros origin. unfold Bootstrap. by repeat first [apply charge_NewInvite | preserves_step].
Qed.
End Charge.

(** ** The instance is never locked out *)
Section History.
Context {E : Type} `{!Env E} `{!RandEnv E} `{!Startup E} `{!WebAuthn E} `{!OidcLib E} `{!Shoutrrr E} `{!UrlLib} `{!Calendar}
  `{!JsonCodec (gmap string bool)} `{!JsonCodec (list NotificationTarget)} `{!JsonCodec (list string)}
  `{!RequestCodecs} `{!DockerCodecs} `{!RaidCodecs} `{!RaidEnv E} `{!RRuleEnv} `{!Gopsutil E} `{!FilesEnv E} `{!ZoneEnv E}
  `{!DockerStats E} `{!Arch} `{!JsonCodec (gmap string DevicePeak)} `{!MapOrder} `{!WebSocket} `{!Spa}.
Context (srv : Server) (origin_host : string -> option string).

(** Where the world can be after starts of the process, the commands included,
    requests, the jobs they leave running, rounds of the loops
    and ticks of the watched updates, one after the other, with whatever
    ceremonies, sign-ins, metrics and manager are in memory, while the outside
    changes as it likes. *)
Inductive history (w0 : World E) : World E -> Prop :=
| h_begin : history w0 w0
| h_process getenv args f w : history w0 w -> history w0 (main getenv args f w).1
| h_request r s w : history w0 w -> history w0 (Routes.serve srv origin_host r s w).1
| h_job t w : history w0 w -> history w0 (run_task t w).1
| h_round l s w : history w0 w -> history w0 (round l s w).1
| h_watch id name w : history w0 w -> history w0 (watch_tick id name w).1
| h_memory m w : history w0 w -> history w0 (set_mgr w m)
| h_outside e w : history w0 w -> history w0 (set_env w e).

(** C5. Once the instance has an administrator it keeps one for good: no series
    of requests, whoever sends them, of the jobs they start, of the rounds of
    the loops, of restarts with their recovery and of commands on the host takes
    the last administrator away, deletes or demotes them, and the account tables
    stay consistent. A demotion by the provider's groups needs the store to
    count the administrators, so with admin groups configured it must not fail. *)
Theorem instance_keeps_admin w0 w
  (Hf : no_faults (E:=E) \/ (forall m, srv_oidc srv = Some m -> HasAdminGroups m = false))
  (Hi : in_charge (w_db w0)) (Hh : history w0 w) : in_charge (w_db w).
Proof.
  induction Hh; try done.
  - by apply (charge_main getenv args f w).
  - apply (charge_serve srv origin_host r Hf s w); [by intros k c|done].
  - by apply (keep_run_task in_charge t).
  - by apply (keep_round in_charge l s w).
  - by apply (keep_watch_tick in_charge id name).
Qed.
End History.

(** ** Instances at concrete inputs *)
#[local] Existing Instances demo_rand demo_startup demo_no_stats demo_arch DevicePeak_countable.

Lemma instance_keeps_admin_witness :
  in_charge (w_db (round LoopStacks {| mt_col := NewCollector; mt_peaks := ∅ |}
    (Routes.serve sim_server (fun _ => None) (delete_user "ann-token" "u1") sim_conn demo_http).1).1).
Proof.
  apply (instance_keeps_admin sim_server (fun _ => None) demo_http).
  - left. apply sim_no_faults.
  - split; [apply account_ops_wf, demo_accounts_wf|]. eexists. split; [left|reflexivity].
  - apply h_round, h_request, h_begin.
Defined.
