(* ===== verification/Privilege.v ===== *)
(** * Nobody becomes an administrator by themselves

    Administrators are made by invites, by the first enrollment and by the
    provider's groups. Where none of these is open, requests that no
    administrator sends, and everything the process does on its own, leave the
    set of administrators as it is or smaller. *)
From S2P Require Import Prelude GoStrings Regex Float64 Api Db Docker World Sim StoreDocker StoreJobs StoreAuth StoreEvents StoreSettings StoreMdadm.
From S2P Require Import Notify Stateful Migrate Auth Oidc Disks Stats Http Server Mdstat RaidWatch Status Snapshot Notices Listing Jobs.
From S2P Require Import Identity UpdateCheck Reconcile Swap SelfUpdate Pollers AuthHandlers Handlers SimHttp Routes Recover Main Process.
Open Scope Z_scope.

(** The administrators are among [A], nothing is open that would make another
    one, and the instance has users, so that no sign-in is the first. *)
Record closed (A : string -> Prop) (d : DB) : Prop := {
  closed_admins : forall u, u ∈ db_users d -> u_IsAdmin u = true -> A (u_ID u);
  closed_invites : forall i, i ∈ db_invites d -> iv_IsAdmin i = true -> iv_ForUser i = "" -> iv_UsedAt i <> 0;
  closed_users : db_users d <> []
}.

(** A pending ceremony for an administrator is one that exists already. *)
Definition recovery_only (admin existing : bool) : bool := negb admin || existing.

Section Closed.
Context (A : string -> Prop).

Lemma closed_frame d d' :
  closed A d -> (forall u, u ∈ db_users d' -> u_IsAdmin u = true -> u ∈ db_users d) -> db_users d' <> [] ->
  (forall i, i ∈ db_invites d' -> iv_IsAdmin i = true -> iv_ForUser i = "" -> i ∈ db_invites d) -> closed A d'.
Proof. intros [Ha Hi Hu] Hus Hne Hinv. split; [|eauto|done]. intros u Hu' Hadm. apply Ha; [by apply Hus|done]. Qed.

#[export] Instance closed_routine : Routine (closed A).
Proof.
  split.
  - intros op d Hop Hc. pose proof Hc as [Ha Hi Hu].
    destruct op; cbn [routine] in Hop; try discriminate; unfold account_op.
    + unfold CreateUser. destruct (user_exists d id); [done|]. apply negb_true_iff in Hop as ->.
      apply (closed_frame d); [done| | |done]; cbn; [|by destruct (db_users d)].
      intros u [Hin|Heq%list_elem_of_singleton]%elem_of_app Hadm; [done|by subst].
    + unfold AddCredential. by destruct (_ || _).
    + by apply (closed_frame d).
    + unfold CreateInvite. destruct (_ || _); [done|]. apply negb_true_iff in Hop as ->.
      apply (closed_frame d); [done|done|done|]. cbn. intros i [Hin|Heq%list_elem_of_singleton]%elem_of_app Hadm; [done|by subst].
    + unfold ConsumeInvite. destruct (rows_affected _ _); [done|]. split; [done| |done].
      intros x (i & Hin & ->)%elem_of_update. destruct (_ && _) eqn:Hp; [|by apply Hi].
      intros Hadm Hfor. exfalso. apply (Hi i); [done..|]. apply andb_true_iff in Hp as [_ Hp]. unfold pending in Hp.
      apply andb_true_iff in Hp as [Hp _]. lia.
    + unfold DeleteInvite. destruct (rows_affected _ _); [done|]. apply (closed_frame d); [done|done|done|].
      cbn. by intros i [Hin _]%elem_of_delete.
    + unfold CreateSession. by destruct (_ || _).
    + by apply (closed_frame d).
    + unfold LinkOIDCIdentity. by destruct (_ || _).
  - intros d a b c [? ? ?]. by split.
  - intros d a b c [? ? ?]. by split.
Qed.

#[export] Instance closed_enrollment : Enrollment (closed A) recovery_only.
Proof.
  split; [done|by intros []| |].
  - intros d i Hc Hin Hused Hfor. destruct (iv_IsAdmin i) eqn:Hadm; [|done]. by destruct (closed_invites A d Hc i Hin Hadm Hfor).
  - intros d now id name [|] Hok; [done|]. by apply (routine_op (OpCreateUser now id name false)).
Qed.

Section Kept.
Context {E : Type} `{!Env E} `{!RandEnv E} `{!WebAuthn E} `{!OidcLib E} `{!Shoutrrr E} `{!UrlLib} `{!Calendar}
  `{!JsonCodec (gmap string bool)} `{!JsonCodec (list NotificationTarget)} `{!JsonCodec (list string)}.

Lemma IsAdmin_without_groups m gs : HasAdminGroups m = false -> IsAdmin m gs = false.
Proof.
  unfold HasAdminGroups, IsAdmin. intros Hg%Z.ltb_ge. assert (om_adminGroups m = ∅) as ->.
  { apply leibniz_equiv, size_empty_iff. lia. }
  induction gs as [|g gs IH]; [done|]. cbn [existsb]. by rewrite IH, bool_decide_eq_false_2 by set_solver.
Qed.

(** A count that was read, when the property says something of it. *)
Lemma preserves_read {B C} P (q : Sql B) (k : result B -> M E C) :
  (forall d, (q d).1 = d) -> (forall d, P d -> preserves P (k (q d).2)) -> (forall err, preserves P (k (Fail err))) ->
  preserves P (sql q ≫= k).
Proof.
  intros Hq Hk Hf w HP. apply (wp_bind _ _ (fun _ w' => P (w_db w'))), wp_sql; intros e *; [by apply Hf|].
  apply Hk; [done|]. cbn [w_db set_db]. by rewrite Hq.
Qed.

(** Without admin groups a sign-in makes ordinary users only. *)
Lemma closed_resolve srv m ident :
  HasAdminGroups m = false -> preserves (E:=E) (closed A) (resolveOIDCUser srv m ident).
Proof.
  intros Hg. assert (Hc : preserves (E:=E) (closed A) (provision srv m ident)).
  { unfold provision, newUserID, randToken, unixNow, Now. rewrite (IsAdmin_without_groups m _ Hg). cbn [orb].
    apply preserves_read; [done| |].
    - intros d Hd. assert ((match (CountUsers d).2 with Ok n => n =? 0 | Fail _ => false end) = false) as ->.
      { cbn. apply Z.eqb_neq. pose proof (closed_users A d Hd). destruct (db_users d); [done|cbn; lia]. }
      repeat first [apply (keep_server_notify (closed A)) | keep_step].
    - intros err. repeat first [apply (keep_server_notify (closed A)) | keep_step]. }
  unfold resolveOIDCUser, syncOIDCAdmin. rewrite Hg. cbn [negb]. repeat first [apply Hc | keep_step].
Qed.

(** With users there is no first invite to mint. *)
Lemma closed_Bootstrap origin : preserves (E:=E) (closed A) (Bootstrap origin).
Proof.
  unfold Bootstrap. apply preserves_read; [done| |intros err; apply preserves_ret].
  intros d Hd. pose proof (closed_users A d Hd). cbn. destruct (db_users d); [done|]. apply preserves_ret.
Qed.
End Kept.
End Closed.

(** ** Histories in which no administrator acts *)
Section Outsiders.
Context {E : Type} `{!Env E} `{!RandEnv E} `{!Startup E} `{!WebAuthn E} `{!OidcLib E} `{!Shoutrrr E} `{!UrlLib} `{!Calendar}
  `{!JsonCodec (gmap string bool)} `{!JsonCodec (list NotificationTarget)} `{!JsonCodec (list string)}
  `{!RequestCodecs} `{!DockerCodecs} `{!RaidCodecs} `{!RaidEnv E} `{!RRuleEnv} `{!Gopsutil E} `{!FilesEnv E} `{!ZoneEnv E}
  `{!DockerStats E} `{!Arch} `{!JsonCodec (gmap string DevicePeak)} `{!MapOrder} `{!WebSocket} `{!Spa}.
Context (srv : Server) (origin_host : string -> option string).

(** The request carries no administrator's session. *)
Definition no_admin (r : Request) (w : World E) : Prop := forall user, session_of srv r w user -> u_IsAdmin user = false.

Definition served (r : Request) (c : Components E) (w : World E) : World E * outcome (Conn E * unit) :=
  Routes.serve srv origin_host r (c, fresh_response) w.

(** As [history] in Process.v, but with the ceremonies of one request kept for
    the next, with requests that no administrator sends, and without [veery
    invite]. A handler that panics begins no ceremony. *)
Inductive outsiders (c0 : Components E) (w0 : World E) : Components E -> World E -> Prop :=
| o_begin : outsiders c0 w0 c0 w0
| o_request r c w s : outsiders c0 w0 c w -> no_admin r w -> (served r c w).2 = Ret (s, tt) ->
    outsiders c0 w0 s.1 (served r c w).1
| o_panic r c w msg c' : outsiders c0 w0 c w -> no_admin r w -> (served r c w).2 = Panic msg ->
    (forall k x, cp_ceremonies c' !! k = Some x -> cp_ceremonies c !! k = Some x) -> outsiders c0 w0 c' (served r c w).1
| o_restart getenv args f c w c' : outsiders c0 w0 c w -> hd "" args <> "invite" -> cp_ceremonies c' = ∅ ->
    outsiders c0 w0 c' (main getenv args f w).1
| o_job t c w : outsiders c0 w0 c w -> outsiders c0 w0 c (run_task t w).1
| o_round l s c w : outsiders c0 w0 c w -> outsiders c0 w0 c (round l s w).1
| o_watch id name c w : outsiders c0 w0 c w -> outsiders c0 w0 c (watch_tick id name w).1
| o_memory m c w : outsiders c0 w0 c w -> outsiders c0 w0 c (set_mgr w m)
| o_outside e c w : outsiders c0 w0 c w -> outsiders c0 w0 c (set_env w e).

(** A request without an administrator's session gets nowhere an administrator's
    handler. *)
Lemma serve_closed A r (s : Conn E) w :
  (forall m, srv_oidc srv = Some m -> HasAdminGroups m = false) -> no_admin r w ->
  conn_ok recovery_only s -> closed A (w_db w) ->
  wp (Routes.serve srv origin_host r s) (fun o w' => closed A (w_db w') /\
    forall s' a, o = Ret (s', a) -> conn_ok recovery_only s') w.
Proof.
  intros Ho Hno Hs Hc. unfold Routes.serve, dispatch. destruct (csrf_allows _ _ r); [|by apply keep_respond].
  destruct (find_route (routes srv) r) as [[t vs]|] eqn:Ht; [|by apply (keep_serveSPA (closed A) recovery_only)].
  apply find_route_spec in Ht as [Ht _].
  assert (Hent : rt_Access t <> AdminOnly -> forall vs u, spreserves (E:=E) (conn_ok recovery_only) (closed A) (rt_Handler t vs u r)).
  { intros Ha vs' u. apply (keep_entry srv (closed A) recovery_only); [|done|done].
    intros m ident Hm. apply closed_resolve. by apply Ho. }
  assert (Href : forall code o w', refused_with (E:=E) (T:=Task) BError code s w o w' ->
    closed A (w_db w') /\ forall s' a, o = Ret (s', a) -> conn_ok recovery_only s').
  { intros code o w' (msg & (_ & _ & Hdb) & ->). split; [|by intros s' a [= <- _]].
    destruct Hdb as [-> |[token ->]]; [done|by apply (routine_op (OpDeleteSession token))]. }
  unfold guarded. destruct (rt_Access t) eqn:Ha.
  - by apply Hent.
  - eapply wp_mono; [apply (requireAuth_guards (srv_cfg srv) BError _ r s w
      (fun o w' => closed A (w_db w') /\ forall s' a, o = Ret (s', a) -> conn_ok recovery_only s'))|].
    + intros user token e _ _ _. by apply Hent.
    + intros o w' [H'|H']; [by eapply Href|done].
  - eapply wp_mono; [apply (requireAdmin_guards (srv_cfg srv) BError _ r s w (fun _ _ => False))|].
    + intros user token e Hadm Hck Hu Hx. rewrite (Hno user) in Hadm; [done|]. by exists token.
    + intros o w' [H'|[H'|[]]]; by eapply Href.
Qed.

(** The administrators of [w0], by their ID. *)
Definition among (w0 : World E) (id : string) : Prop := exists u, u ∈ db_users (w_db w0) /\ u_ID u = id /\ u_IsAdmin u = true.

(** Nothing is open that would make an administrator: a user exists, so no
    sign-in is the first one, every administrator's invite is used or recovers
    an account, and no registration that would make one is pending. *)
Definition sealed (c : Components E) (w : World E) : Prop :=
  db_users (w_db w) <> [] /\
  (forall i, i ∈ db_invites (w_db w) -> iv_IsAdmin i = true -> iv_ForUser i = "" -> iv_UsedAt i <> 0) /\
  map_Forall (fun _ x => ce_isAdmin x = true -> ce_existingUser x = true) (cp_ceremonies c).

Lemma sealed_recovery (cs : Ceremonies (E:=E)) :
  map_Forall (fun _ x => ce_isAdmin x = true -> ce_existingUser x = true) cs <-> ok_ceremonies recovery_only cs.
Proof.
  unfold ok_ceremonies, ok_ceremony, recovery_only, Ceremonies in *.
  split; intros Hall k x Hx; specialize (Hall k x Hx); cbn beta in *; destruct (ce_isAdmin x); naive_solver.
Qed.

Lemma outsiders_closed c0 w0 c w :
  (forall m, srv_oidc srv = Some m -> HasAdminGroups m = false) ->
  sealed c0 w0 -> outsiders c0 w0 c w -> closed (among w0) (w_db w) /\ ok_ceremonies recovery_only (cp_ceremonies c).
Proof.
  intros Hg (Hu & Hi & Hc) Hh. induction Hh as [|r c w s _ [IH1 IH2] Hno Ho|r c w msg c' _ [IH1 IH2] Hno Ho Hsub
    |getenv args f c w c' _ [IH1 IH2] Hne He|t c w _ [IH1 IH2]|l s c w _ [IH1 IH2]|id name c w _ [IH1 IH2]| |].
  - split; [|by apply sealed_recovery]. split; [|done|done]. intros u Hin Hadm. by exists u.
  - destruct (serve_closed (among w0) r (c, fresh_response) w Hg Hno IH2 IH1) as [? Hs]. split; [done|]. by apply (Hs s tt).
  - destruct (serve_closed (among w0) r (c, fresh_response) w Hg Hno IH2 IH1) as [? _]. split; [done|].
    intros k x Hx. apply (IH2 k x). by apply Hsub.
  - split; [|unfold ok_ceremonies, Ceremonies in *; rewrite He; apply map_Forall_empty].
    apply (keep_main (closed (among w0)) getenv args) with (w := w) (s := f); [intros; apply closed_Bootstrap|done|done|done].
  - split; [|done]. by apply (keep_run_task (closed (among w0)) t).
  - split; [|done]. by apply (keep_round (closed (among w0)) l s w).
  - split; [|done]. by apply (keep_watch_tick (closed (among w0)) id name).
  - done.
  - done.
Qed.

(** C6. Nobody becomes an administrator by themselves. When no administrator's
    invite is open, no registration for a new administrator is pending, the
    instance has users and the provider's groups decide nothing, then no series
    of requests without an administrator's session, of the jobs they start, of
    rounds of the loops, of restarts with their recovery and of ticks of the
    watched updates adds to the administrators, or opens a way to become one. *)
Theorem nobody_becomes_admin c0 w0 c w
  (Hg : forall m, srv_oidc srv = Some m -> HasAdminGroups m = false)
  (Hs : sealed c0 w0) (Hh : outsiders c0 w0 c w) :
  sealed c w /\ forall u, u ∈ db_users (w_db w) -> u_IsAdmin u = true -> among w0 (u_ID u).
Proof.
  destruct (outsiders_closed c0 w0 c w Hg Hs Hh) as [[Ha Hi Hu] Hc]. split; [|done].
  split; [done|]. split; [done|]. by apply sealed_recovery.
Qed.
End Outsiders.

(** ** Instances at concrete inputs *)
#[local] Existing Instances demo_rand demo_startup demo_no_stats demo_arch DevicePeak_countable.

(** Sign-in with passkeys only. *)
Definition passkey_server : Server :=
  {| srv_cfg := srv_cfg sim_server; srv_dkr := true; srv_notif := srv_notif sim_server; srv_raid := true; srv_oidc := None |}.

(** Bob asks for an administrator's invite. *)
Definition bob_invites : Request := sim_request "POST" ["api"; "invites"] [(SessionCookieName, "bob-token")] "admin".

Lemma nobody_becomes_admin_witness :
  exists c w, (served passkey_server (fun _ => None) bob_invites sim_components demo_http).2 = Ret (c, tt) /\
    w = (round LoopStacks {| mt_col := NewCollector; mt_peaks := ∅ |}
      (served passkey_server (fun _ => None) bob_invites sim_components demo_http).1).1 /\
    sealed c.1 w /\ forall u, u ∈ db_users (w_db w) -> u_IsAdmin u = true -> among demo_http (u_ID u).
Proof.
  assert (exists c, (served passkey_server (fun _ => None) bob_invites sim_components demo_http).2 = Ret (c, tt)) as [c Hc].
  { eexists. vm_compute. reflexivity. }
  exists c. eexists. split; [exact Hc|]. split; [reflexivity|].
  apply (nobody_becomes_admin passkey_server (fun _ => None) sim_components demo_http).
  - discriminate.
  - split; [discriminate|]. split; [|by intros k y Hy].
    intros i Hi. vm_compute in Hi. repeat (apply elem_of_cons in Hi as [->|Hi]); [discriminate..|by apply not_elem_of_nil in Hi].
  - apply o_round, (o_request passkey_server _ _ _ bob_invites sim_components demo_http c); [apply o_begin| |exact Hc].
    intros u (tok & Htok & Hu & x & Hx & Htx & Hid & _). vm_compute in Htok. injection Htok as <-. vm_compute in Hu, Hx.
    repeat (apply elem_of_cons in Hu as [->|Hu]); [|done|by apply not_elem_of_nil in Hu].
    repeat (apply elem_of_cons in Hx as [->|Hx]); [discriminate..|by apply not_elem_of_nil in Hx].
Defined.
